(* ===== verification/_CoqProject ===== *)
-Q . S2P
Prelude.v
Text.v
TextFacts.v
Http.v
RegistryHost.v
Flags.v
World.v
Transactions.v
Recording.v
Rbac.v
AuditTrail.v
AuditFacts.v
AuditMigration.v
SharedAuth.v
StorageReport.v
Storage.v
StorageFacts.v
Verify.v
Config.v
Auth.v
Tokens.v
Server.v
AuthFacts.v
Routes.v
Signing.v
PublishMeta.v
BinaryArtifact.v
HostPaths.v
BinaryFacts.v
Keys.v
Publish.v
PublishFacts.v
Canonical.v
Graph.v
GraphText.v
ExportProtobuf.v
ExportMessagePack.v
ExportCsv.v
ExportXml.v
GraphExports.v
GraphFacts.v
Orgs.v
Packages.v
RegistryFacts.v
ClaimPool.v
Registry.v
Catalog.v
AuditRoutes.v
Files.v
Artifacts.v
StorageRoutes.v
Float64.v
Accounts.v
AccountFacts.v
RateLimit.v
RateLimitFacts.v
RateLimitLiveness.v
PackageIntake.v
PublicIntake.v
PublicIntakeFacts.v
Router.v
Semantic.v
EdgeFallback.v
Clippy.v
Demo.v
StartupDemo.v
IntakeDemo.v
BinaryDemo.v
PublishDemo.v
GraphDemo.v
RegistryDemo.v
ServeDemo.v
SemanticDemo.v
