(* ===== verification/Prelude.v ===== *)
(** * zed-api-server: verification development (root file)

    A model in Rocq of the zed package registry's API server, translated from
    [src/], and the theorems that make it correct. Paths below are relative to
    the repository's root; [src/routes/publish.rs] is the crate's file of that
    name. Every file opens with a comment that says what it holds.

    ** The program

    One process serves three surfaces over two sets of tables and an object
    store: the *registry* (claim a namespace, publish, yank, enroll keys, list,
    search, download, read dependency graphs and the audit log), authenticated
    by registry tokens; the *account API* of signed-in users, authenticated by
    Shared Auth; and, on the host name of the package distribution, a closed
    subset of the registry. The legacy tables ([src/entities/]) are this crate's
    own; the canonical plane (packages, memberships, visibility) belongs to a
    persistence crate the handlers call.

    A request passes the registry-host boundary, then a router, then the rate
    limiter, then a handler. A handler authenticates, reads the tables, may
    write bytes to the artifact store, may write rows, and records what it did
    in the audit trail. At startup a command line, an environment and dotenv
    files become flags, a configuration, and the state the handlers share.

    ** How code becomes definitions

    - Strings are UTF-8 bytes ([string]); [Text] has the [str] methods used,
      with byte offsets where Rust has them. Integers are [Z] (identifiers and
      counters [N]) with the overflow behaviour of the source written out where
      it can happen: checked additions fail, saturating ones are capped,
      wrapping ones reduced. Sums that stay within the width by the guards around
      them are plain. An [f64] is a rational rounded as IEEE 754 prescribes
      ([Float64]); an [f32] of an embedding is its 32 bits.
    - [Result] is [result] (below), [Option] is [option], [?] is the bind. An
      error is an [ApiErr] with its status and code ([Http]).
    - Handlers run in [M] of [World]: a state monad with errors over the
      tables, the working copy of an open transaction, the object store, and a
      tick that numbers the calls. At each database or store call other
      processes may have written just before, in a *background step*, and the call
      is performed, not performed, or performed with its answer lost ([Outcome]).
      Theorems hold for every environment and every outcome of every call; those
      about what other writers could undo name what is assumed of them.
    - A transaction is not isolated: its statements run under READ COMMITTED on
      its working copy, and what others commit meanwhile is visible to each of
      them ([in_txn_rc]), except to those on rows it has locked or written, or
      that its advisory lock covers ([in_txn]); [begin] assumes nothing more.
      The transaction of a namespace claim is also a script of statements
      ([Transactions]), of which [ClaimPool] interleaves any number, with
      PostgreSQL's advisory locks between them.
    - Where a handler's writes are another crate's operations, its run records
      the calls it issues, in order ([Recording]).
    - What is not in the repository (SHA-256, Ed25519, base64, the JSON and TOML
      codecs, the HTTP clients, the S3 client, tar, zip and gzip readers,
      pgvector, the canonical plane, the interface crate's validators) is a class
      of externals, declared in the file of the component that calls it. Its
      documented laws, where a theorem needs them, are a second class or a named
      hypothesis. The [*Demo] files give executable instances that satisfy the
      laws, and the theorems' witnesses run the handlers on them.

    ** Files

    Foundations:
    - [Prelude]: [result], loops, list lemmas, automation, the hint database
      [zed]. [Text], [TextFacts]: strings. [Float64]: doubles.
    - [Http]: headers, JSON, responses, [ApiErr] ([src/error.rs]).
    - [World]: rows and unique indexes of the tables ([src/entities/],
      [migration/src/m20260723_000001_init.rs]), the monad, and the calculus of
      its runs. [Transactions]: transactions as scripts. [Recording]: runs that
      record what they issue.
    - [Rbac] ([src/rbac.rs]).

    Starting:
    - [Flags] ([src/flags.rs], [src/main.rs]), [Config] ([src/config.rs]),
      [Server] ([src/server.rs]: subcommands, connection retries, shared state),
      [Tokens] ([src/tokens.rs]: the token commands).

    Requests:
    - [RegistryHost] ([src/registry_host.rs]): the virtual host's boundary.
    - [Router] ([src/routes/mod.rs], [src/account_router.rs],
      [src/api_docs.rs]): the three routers and their composition.
    - [RateLimit], [RateLimitFacts], [RateLimitLiveness] ([src/ratelimit.rs]).
    - [SharedAuth] ([src/shared_auth.rs]); [Auth], [AuthFacts] ([src/auth.rs],
      [src/state.rs]).
    - [Routes] (the helpers of [src/routes/mod.rs]); [Canonical] (what the
      handlers read of the canonical plane).

    The registry's writers:
    - [AuditTrail], [AuditFacts] ([src/audit.rs]); [AuditMigration]
      ([migration/src/m20260726_000008_audit_chain.rs]).
    - [Storage], [StorageFacts] ([src/storage.rs]); [Verify] ([src/verify.rs]).
    - [Signing] ([src/signing.rs]); [Keys] ([src/routes/keys.rs]).
    - [BinaryArtifact], [BinaryFacts] ([src/binary_artifact.rs]); [HostPaths]:
      what operating systems make of an archive entry's name.
    - [PublishMeta], [Publish], [PublishFacts] ([src/routes/publish.rs]).
    - [Orgs] ([src/routes/orgs.rs]); [Packages] ([src/routes/packages.rs],
      [src/routes/yank.rs], [src/routes/mirrors.rs]); [RegistryFacts];
      [ClaimPool]: claims that run at once.
    - [Registry]: all of these as one state machine.

    The registry's readers:
    - [Catalog] ([src/routes/list.rs], [src/routes/search.rs]); [Semantic]
      ([src/embeddings.rs], [src/routes/semantic.rs]); [AuditRoutes]
      ([src/routes/audit.rs]).
    - [Files] ([src/files.rs]); [Artifacts] ([src/routes/artifacts.rs]);
      [StorageReport], [StorageRoutes] ([src/storage_report.rs],
      [src/routes/storage.rs]).
    - [Graph], [GraphText], [GraphFacts] ([src/routes/graph.rs]); [GraphExports],
      [ExportProtobuf], [ExportMessagePack], [ExportCsv], [ExportXml]
      ([src/routes/graph_exports/]).

    Beside the registry:
    - [Accounts], [AccountFacts] ([src/routes/account.rs]).
    - [PackageIntake] ([src/package_intake.rs]); [PublicIntake],
      [PublicIntakeFacts] ([src/public_intake.rs], a complete module that
      [src/main.rs] does not declare); [EdgeFallback] ([src/edge_fallback.rs]).
    - [Clippy] ([src/bin/ci-differential-clippy.rs]): the lint gate of the CI.

    ** What the theorems show

    - *Publishing.* A run of [publish] is one atomic step between background
      steps ([publish_atomic]). Versions are never rewritten and bytes never
      replaced ([publish_immutable], [put_verified_immutable]); every row points
      at bytes with its digest ([publish_rows_backed]); a reported success is
      what was asked for ([publish_success]). An archive that opts into the
      binary profile holds what its descriptor says and unpacks portably
      ([binary_verified], [archive_paths_portable]), and cannot pass for an
      ordinary one: no entry of an ordinary ZIP has a name that a Windows host,
      or another host if the name does not go up, takes for the descriptor's
      ([no_profile_downgrade]).
    - *The tables.* Every history of requests, faults and well-behaved other
      writers keeps the tables well formed ([registry_stays_well_formed]).
      Claims are exclusive ([claim_org_exclusive]); under PostgreSQL's advisory
      lock, and not without it ([quota_needs_lock] in [RegistryDemo]), they stay
      within quota however they interleave ([claim_org_quota]). Yanks change one
      flag ([yank_spec]), and a revoked key stays revoked
      ([put_keys_never_reinstates]).
    - *The audit trail.* Appending keeps chains verifiable under races and
      faults ([record_keeps_chains_intact]); tampering is found
      ([verify_audit_log_spec], and the lemmas of [AuditFacts]); the upgrade that
      introduced the chain keeps history ([upgrade_keeps_history]).
    - *Reading.* Who may read what ([get_artifact_genuine],
      [get_file_genuine], [declared_graph_authorization],
      [management_views_members_only]); what an answer contains
      ([search_spec], [semantic_search_spec]); resources stay bounded
      ([extract_file_bounded]); the exports of a graph read back
      ([protobuf_roundtrip], and the MessagePack and XML round trips), and the
      CSV table has under each column's name the document's value, and nothing a
      spreadsheet evaluates ([csv_export_reads_back]).
    - *Writing as a user.* An account route issues at most the write the request
      asks for, as the authenticated caller ([account_writes_attributed]).
    - *The edge.* A registry host serves exactly its documented surface
      ([decide_registry_host], [registry_host_routed]); the limiter bounds
      throughput, starves no one, and forgets idle callers without their seeing
      it, but that a full table turns away callers that are new or as good as
      new ([throughput_bounded], [waiting_is_rewarded],
      [forgetting_unobservable]); intake writes, once, only what the edge signed
      and the user consented to ([edge_check_exact],
      [intake_closed_and_consented]);
      a fallback capability is issued to readers only, briefly
      ([capability_issue_spec]); admission needs all the evidence
      ([publishable_iff]).
    - *Starting.* A configuration that is accepted is well formed
      ([from_env_sound]); the connection loops, whose every round sleeps two
      seconds, end in time ([connect_retries_end]).
    - *Defects.* The files of a private package's archive are served to anyone
      ([private_files_served_anonymously]); a name that goes up can reach the
      binary descriptor unseen where a backslash or space is an ordinary
      character ([climbing_alias_accepted] in [BinaryDemo]); a key submission that names a key
      twice, or races with a revocation, brings a revoked key back
      ([put_keys_duplicate_reinstates], [put_keys_race_reinstates]).

    ** Fuel

    Recursion that is not structural takes fuel, always enough:
    - the walk over a ZIP's central directory has the archive's length plus one:
      an entry takes 46 bytes or more ([BinaryFacts]); its ZIP64 scan has the
      extra field's length plus one, as a field takes four;
    - the connection loops have an attempt, and one more for every two seconds
      begun of the wait: the loop sleeps two seconds after an attempt that fails
      ([max_attempts], [connect_retries_end]);
    - the varint of [v] has [log2 v + 1] groups, and ten are enough for a [u64]
      ([proto_varint_terminates]);
    - decoding UTF-8, trimming, splitting at white space and the readers of the
      export formats have the text's length (plus one), and consume at least
      one byte a step;
    - the printers of decimals, hexadecimals and octals have a bound on the
      number of digits.

    ** Not modelled

    - The stacks of axum, tower and tokio around the routers (body limits in the
      extractor, compression, tracing, graceful shutdown), the listener, and
      the timer that runs the limiter's sweeps: sweeps may fall anywhere in a
      history.
    - The canonical plane's queries and writes, which are another crate: a
      handler's model takes their answers as they come, and those of the account
      API and of public intake record the writes they issue.
    - Building the AWS client and reading GITHUB_TOKEN; the redacting [Debug]
      and the [Display] instances nobody branches on; printed reports.
    - [src/metrics.rs], which [src/main.rs] does not declare and which imports
      types that do not exist; [src/web_api_plane.rs] and
      [src/four_transports.rs], which only instantiate other crates and are not
      declared either.
    - The migrations that only declare tables and columns; foreign keys and SQL
      types; [src/entities/version_retirement.rs], which nothing reads.
    - [.github/materialize/public_intake.rs], an earlier copy of
      [src/public_intake.rs]; tests. *)

From Stdlib Require Export Sorted ZArith Ascii String Lia.
From stdpp Require Export base tactics sorting strings option numbers list_basics list_relations list_misc list_monad list.

#[export] Set Warnings "-clear-no-such-hyp,-register-all".
#[global] Open Scope Z_scope.

(** Let [cbn] compute concatenations whose left operand is known. *)
#[global] Arguments String.append !_ _ / : simpl nomatch.

Declare Scope zed_scope.
Delimit Scope zed_scope with zed.
#[global] Open Scope zed_scope.

(** ** Fallible computations

    [result E A] is Rust's [Result<A, E>]; [x ← m; k] is [let x = m?; k]. *)

Inductive result (E A : Type) : Type :=
| Ok (a : A)
| Err (e : E).

Arguments Ok {E A} a.
Arguments Err {E A} e.

Definition result_bind {E A B : Type} (k : A → result E B) (m : result E A) : result E B :=
  match m with
  | Ok a => k a
  | Err e => Err e
  end.

#[export] Instance result_mret E : MRet (result E) := λ A a, Ok a.
#[export] Instance result_mbind E : MBind (result E) := λ A B k m, result_bind k m.
#[export] Instance result_fmap E : FMap (result E) :=
  λ A B f m, result_bind (λ a, Ok (f a)) m.

(** [Option::ok_or]. *)
Definition ok_or {E A : Type} (e : E) (o : option A) : result E A :=
  match o with
  | Some a => Ok a
  | None => Err e
  end.

(** [Result::map_err]. *)
Definition map_err {E F A : Type} (f : E → F) (m : result E A) : result F A :=
  match m with
  | Ok a => Ok a
  | Err e => Err (f e)
  end.

(** [if c { return Err(e) }]. *)
Definition reject_if {E : Type} (c : bool) (e : E) : result E unit :=
  if c then Err e else Ok tt.

Definition is_ok {E A : Type} (m : result E A) : bool :=
  match m with
  | Ok _ => true
  | Err _ => false
  end.

#[export] Instance result_eq_dec {E A} `{EqDecision E, EqDecision A} : EqDecision (result E A).
Proof. solve_decision. Defined.

Notation "a =s b" := (String.eqb a b) (at level 70, no associativity) : zed_scope.
Notation "a =c b" := (Ascii.eqb a b) (at level 70, no associativity) : zed_scope.

(** ** Automation *)

Create HintDb zed discriminated.
#[global] Hint Constants Transparent : zed.

(** Turn the boolean tests in the context into the propositions they decide. *)
Ltac bool_to_prop :=
  repeat match goal with
  | H : (_ && _)%bool = true |- _ => apply andb_true_iff in H; destruct H
  | H : (_ || _)%bool = false |- _ => apply orb_false_iff in H; destruct H
  | H : negb _ = true |- _ => apply negb_true_iff in H
  | H : negb _ = false |- _ => apply negb_false_iff in H
  | H : (_ =s _) = true |- _ => apply String.eqb_eq in H
  | H : (_ =s _) = false |- _ => apply String.eqb_neq in H
  | H : (_ =c _) = true |- _ => apply Ascii.eqb_eq in H
  | H : (_ =c _) = false |- _ => apply Ascii.eqb_neq in H
  | H : (_ =? _)%Z = true |- _ => apply Z.eqb_eq in H
  | H : (_ =? _)%Z = false |- _ => apply Z.eqb_neq in H
  | H : (_ <=? _)%Z = true |- _ => apply Z.leb_le in H
  | H : (_ <=? _)%Z = false |- _ => apply Z.leb_gt in H
  | H : (_ <? _)%Z = true |- _ => apply Z.ltb_lt in H
  | H : (_ <? _)%Z = false |- _ => apply Z.ltb_ge in H
  | H : bool_decide _ = true |- _ => apply bool_decide_eq_true in H
  | H : bool_decide _ = false |- _ => apply bool_decide_eq_false in H
  end.

(** Split on the scrutinee of the first conditional or match of the goal or of
    a hypothesis, keeping the equation. *)
Ltac split_case :=
  match goal with
  | |- context [if ?b then _ else _] => destruct b eqn:?
  | H : context [if ?b then _ else _] |- _ => destruct b eqn:?
  | |- context [match ?x with _ => _ end] => destruct x eqn:?
  | H : context [match ?x with _ => _ end] |- _ => destruct x eqn:?
  end.

(** Decompose a successful chain of binds in a hypothesis. *)
Ltac inv_bind :=
  repeat match goal with
  | H : mbind _ ?m = Ok _ |- _ =>
      let E := fresh "E" in destruct m eqn:E; cbn in H; [|discriminate H]
  | H : result_bind _ ?m = Ok _ |- _ =>
      let E := fresh "E" in destruct m eqn:E; cbn in H; [|discriminate H]
  | H : reject_if ?c _ = Ok _ |- _ =>
      let E := fresh "E" in destruct c eqn:E; cbn in H; [discriminate H|clear H]
  | H : ok_or _ ?o = Ok _ |- _ =>
      let E := fresh "E" in destruct o eqn:E; cbn in H; [|discriminate H]
  | H : map_err _ ?m = Ok _ |- _ =>
      let E := fresh "E" in destruct m eqn:E; cbn in H; [|discriminate H]
  | H : Ok _ = Ok _ |- _ => injection H as H; subst
  | H : Err _ = Ok _ |- _ => discriminate H
  | H : mret _ = Ok _ |- _ => injection H as H; subst
  end.

(** ** Generic lemmas *)

Section lists.
Context {A : Type}.
Implicit Types (l : list A) (f : A → bool).

Lemma forallb_Forall f l : forallb f l = true ↔ Forall (λ x, f x = true) l.
Proof.
  induction l as [|a l IH]; cbn; [by split|].
  split.
  - intros [Ha Hl]%andb_true_iff. constructor; [done|by apply IH].
  - intros [Ha Hl]%Forall_cons_1. apply andb_true_iff. by rewrite IH.
Qed.

Lemma forallb_app f l1 l2 : forallb f (l1 ++ l2) = (forallb f l1 && forallb f l2)%bool.
Proof. apply List.forallb_app. Qed.

Lemma forallb_impl f (g : A → bool) l :
  (∀ x, f x = true → g x = true) → forallb f l = true → forallb g l = true.
Proof. rewrite !forallb_Forall. intros H Hf. by eapply Forall_impl. Qed.

Lemma filter_perm f l l' : l ≡ₚ l' → List.filter f l ≡ₚ List.filter f l'.
Proof.
  induction 1 as [|x l l' H IH|x y l|l1 l2 l3 H1 IH1 H2 IH2]; cbn.
  - done.
  - destruct (f x); by rewrite IH.
  - destruct (f x), (f y); done || apply Permutation_swap.
  - by rewrite IH1.
Qed.

Lemma find_first_match f l1 x l2 :
  forallb (λ y, negb (f y)) l1 = true → f x = true → List.find f (l1 ++ x :: l2) = Some x.
Proof.
  induction l1 as [|a l1 IH]; cbn; intros H Hx; [by rewrite Hx|].
  bool_to_prop. by rewrite H, IH.
Qed.
End lists.

(** ** Fixed-width integers *)

Definition u16_max : Z := 65535.
Definition u32_max : Z := 4294967295.
Definition u64_max : Z := 18446744073709551615.
Definition i64_max : Z := 9223372036854775807.
Definition i64_min : Z := -9223372036854775808.
(** [usize] on the 64-bit targets the service ships for. *)
Definition usize_max : Z := u64_max.

(** [checked_add] of an unsigned type with maximum [max]. *)
Definition checked_add (max a b : Z) : option Z :=
  if (a + b <=? max)%Z then Some (a + b) else None.

Definition saturating_add (max a b : Z) : Z := Z.min max (a + b).
Definition saturating_sub (a b : Z) : Z := Z.max 0 (a - b).
Definition saturating_mul (max a b : Z) : Z := Z.min max (a * b).

(** Two's-complement wrap-around: [as i64] of an integer, and [as u64]. *)
Definition wrap_i64 (z : Z) : Z := (z + 9223372036854775808) mod 18446744073709551616 - 9223372036854775808.
Definition wrap_u32 (z : Z) : Z := z mod 4294967296.
Definition wrap_u64 (z : Z) : Z := z mod 18446744073709551616.

(** [clamp(lo, hi)]. *)
Definition clamp (lo hi x : Z) : Z := Z.min hi (Z.max lo x).

Lemma checked_add_Some max a b c :
  checked_add max a b = Some c ↔ c = a + b ∧ a + b ≤ max.
Proof.
  unfold checked_add. destruct (Z.leb_spec (a + b) max).
  - split; [intros [= <-]; lia|]. intros [-> _]. done.
  - split; [done|]. lia.
Qed.

Lemma wrap_i64_id z : i64_min ≤ z ≤ i64_max → wrap_i64 z = z.
Proof.
  unfold wrap_i64, i64_min, i64_max. intros H. rewrite Z.mod_small; lia.
Qed.

Lemma wrap_u64_id z : 0 ≤ z ≤ u64_max → wrap_u64 z = z.
Proof. unfold wrap_u64, u64_max. intros H. rewrite Z.mod_small; lia. Qed.

(** [len() as u64]. *)
Definition zlength {A} (l : list A) : Z := Z.of_nat (length l).

(** ** Ordering query results *)

Section order_by.
Context {A : Type} (key : A → Z).

(** [order_by_asc(key)]: a stable insertion sort. *)
Fixpoint insert_asc (x : A) (l : list A) : list A :=
  match l with
  | [] => [x]
  | y :: r => if key x <=? key y then x :: y :: r else y :: insert_asc x r
  end.
Definition order_by_asc (l : list A) : list A := foldr insert_asc [] l.

(** [order_by_desc(key)]. *)
Fixpoint insert_desc (x : A) (l : list A) : list A :=
  match l with
  | [] => [x]
  | y :: r => if key y <=? key x then x :: y :: r else y :: insert_desc x r
  end.
Definition order_by_desc (l : list A) : list A := foldr insert_desc [] l.

Definition increasing (l : list A) : Prop := StronglySorted (λ a b, key a < key b) l.

Lemma order_by_asc_increasing l : increasing l → order_by_asc l = l.
Proof.
  induction 1 as [|x l Hl IH Hx]; [done|]. cbn. fold (order_by_asc l). rewrite IH.
  destruct l as [|y l]; [done|]. cbn. apply Forall_cons_1 in Hx as [Hx _].
  by rewrite (proj2 (Z.leb_le _ _)) by lia.
Qed.

Lemma insert_asc_perm x l : insert_asc x l ≡ₚ x :: l.
Proof.
  induction l as [|y l IH]; cbn; [done|]. destruct (key x <=? key y); [done|].
  rewrite IH. by constructor.
Qed.

Lemma order_by_asc_perm l : order_by_asc l ≡ₚ l.
Proof.
  induction l as [|x l IH]; [done|]. cbn. rewrite insert_asc_perm. by constructor.
Qed.

Lemma insert_desc_perm x l : insert_desc x l ≡ₚ x :: l.
Proof.
  induction l as [|y l IH]; cbn; [done|]. destruct (key y <=? key x); [done|].
  rewrite IH. by constructor.
Qed.

Lemma order_by_desc_perm l : order_by_desc l ≡ₚ l.
Proof.
  induction l as [|x l IH]; [done|]. cbn. rewrite insert_desc_perm. by constructor.
Qed.

(** The first row by descending key of an increasing list is its last. *)
Lemma order_by_desc_head_last l x : increasing (l ++ [x]) → head (order_by_desc (l ++ [x])) = Some x.
Proof.
  intros H. induction l as [|y l IH]; [done|]. cbn [app] in *.
  apply StronglySorted_inv in H as [Hl Hy].
  assert (key y < key x) as Hlt.
  { rewrite Forall_forall in Hy. apply Hy, elem_of_app. right. by left. }
  specialize (IH Hl). cbn. fold (order_by_desc (l ++ [x])).
  destruct (order_by_desc (l ++ [x])) as [|z r]; [done|]. injection IH as ->.
  cbn. by rewrite (proj2 (Z.leb_gt _ _)).
Qed.
End order_by.
