(* ===== verification/Text.v ===== *)
(** * Rust strings

    A [&str] is its UTF-8 bytes: a [string] whose characters are 8-bit bytes.
    This file gives the [str] and [u8] methods of the Rust standard library
    that the components use, with the lemmas they share. *)

From S2P Require Export Prelude.

Open Scope string_scope.
Open Scope Z_scope.

(** ** Bytes *)

Definition byte_of (c : ascii) : Z := Z.of_N (N_of_ascii c).
Definition chr (n : N) : ascii := ascii_of_N n.

Definition in_range (lo hi : Z) (c : ascii) : bool := (lo <=? byte_of c) && (byte_of c <=? hi).

Definition is_ascii_lowercase : ascii → bool := in_range 97 122.
Definition is_ascii_uppercase : ascii → bool := in_range 65 90.
Definition is_ascii_digit : ascii → bool := in_range 48 57.
Definition is_ascii_alphabetic (c : ascii) : bool := is_ascii_lowercase c || is_ascii_uppercase c.
Definition is_ascii_alphanumeric (c : ascii) : bool := is_ascii_alphabetic c || is_ascii_digit c.
Definition is_ascii_hexdigit (c : ascii) : bool :=
  is_ascii_digit c || in_range 97 102 c || in_range 65 70 c.
Definition is_ascii_control (c : ascii) : bool := (byte_of c <=? 31) || (byte_of c =? 127).
Definition is_ascii_graphic : ascii → bool := in_range 33 126.
Definition is_ascii (c : ascii) : bool := byte_of c <? 128.

(** [u8::is_ascii_whitespace]: space, tab, LF, FF, CR. *)
Definition is_ascii_whitespace (c : ascii) : bool :=
  let b := byte_of c in
  (b =? 32) || (b =? 9) || (b =? 10) || (b =? 12) || (b =? 13).

Definition ascii_lower (c : ascii) : ascii :=
  if is_ascii_uppercase c then chr (N_of_ascii c + 32) else c.
Definition ascii_upper (c : ascii) : ascii :=
  if is_ascii_lowercase c then chr (N_of_ascii c - 32) else c.

(** ** Strings *)

(** [str::len]. *)
Definition slen (s : string) : Z := Z.of_nat (String.length s).
Definition is_empty (s : string) : bool := match s with "" => true | _ => false end.

(** [s.bytes().all(p)]. *)
Fixpoint sall (p : ascii → bool) (s : string) : bool :=
  match s with
  | "" => true
  | String c r => p c && sall p r
  end.

(** [s.contains(c)] for a one-byte [char]. *)
Fixpoint contains_char (c : ascii) (s : string) : bool :=
  match s with
  | "" => false
  | String x r => (x =c c) || contains_char c r
  end.

Fixpoint strip_prefix (p s : string) : option string :=
  match p, s with
  | "", _ => Some s
  | String a p', String b s' => if a =c b then strip_prefix p' s' else None
  | String _ _, "" => None
  end.

Definition starts_with (p s : string) : bool :=
  match strip_prefix p s with Some _ => true | None => false end.

(** [s.contains(p)] for a string pattern. *)
Fixpoint contains_str (p s : string) : bool :=
  starts_with p s || match s with "" => false | String _ r => contains_str p r end.

Definition srev (s : string) : string :=
  string_of_list_ascii (rev (list_ascii_of_string s)).

Definition strip_suffix (p s : string) : option string :=
  srev <$> strip_prefix (srev p) (srev s).

Definition ends_with (p s : string) : bool :=
  match strip_suffix p s with Some _ => true | None => false end.

Fixpoint smap (f : ascii → ascii) (s : string) : string :=
  match s with
  | "" => ""
  | String c r => String (f c) (smap f r)
  end.

Definition to_ascii_lowercase : string → string := smap ascii_lower.
Definition eq_ignore_ascii_case (a b : string) : bool :=
  to_ascii_lowercase a =s to_ascii_lowercase b.

(** [s.split(c)]: never empty. *)
Fixpoint split (c : ascii) (s : string) : list string :=
  match s with
  | "" => [""]
  | String x r =>
      if x =c c then "" :: split c r
      else match split c r with
           | h :: t => String x h :: t
           | [] => [String x ""]
           end
  end.

(** [parts.join(sep)]. *)
Fixpoint join (sep : string) (l : list string) : string :=
  match l with
  | [] => ""
  | [x] => x
  | x :: r => x +:+ sep +:+ join sep r
  end.

(** [s.split_once(c)]: at the first occurrence. *)
Fixpoint split_once (c : ascii) (s : string) : option (string * string) :=
  match s with
  | "" => None
  | String x r =>
      if x =c c then Some ("", r)
      else '(a, b) ← split_once c r; Some (String x a, b)
  end.

(** [s.rsplit_once(c)]: at the last occurrence. *)
Fixpoint rsplit_once (c : ascii) (s : string) : option (string * string) :=
  match s with
  | "" => None
  | String x r =>
      match rsplit_once c r with
      | Some (a, b) => Some (String x a, b)
      | None => if x =c c then Some ("", r) else None
      end
  end.

Fixpoint trim_start_by (p : ascii → bool) (s : string) : string :=
  match s with
  | String c r => if p c then trim_start_by p r else s
  | "" => ""
  end.

Fixpoint trim_end_by (p : ascii → bool) (s : string) : string :=
  match s with
  | "" => ""
  | String c r =>
      match trim_end_by p r with
      | "" => if p c then "" else String c ""
      | r' => String c r'
      end
  end.

(** [trim_start_matches(c)], [trim_end_matches(c)], [trim_matches(c)] for a
    one-byte [char]. *)
Definition trim_start_matches (c : ascii) : string → string := trim_start_by (λ x, x =c c).
Definition trim_end_matches (c : ascii) : string → string := trim_end_by (λ x, x =c c).
Definition trim_matches (c : ascii) (s : string) : string :=
  trim_start_matches c (trim_end_matches c s).

(** ** [str::trim]

    [trim] drops the characters with the Unicode property [White_Space]. Their
    UTF-8 encodings: U+0009..000D, U+0020, U+0085, U+00A0, U+1680,
    U+2000..200A, U+2028, U+2029, U+202F, U+205F, U+3000. *)
Definition ws_ascii (c : ascii) : bool := in_range 9 13 c || (byte_of c =? 32).

(** The rest of [s] after one leading white-space character, if there is one. *)
Definition eat_ws (s : string) : option string :=
  match s with
  | "" => None
  | String a r =>
      if ws_ascii a then Some r
      else match byte_of a, r with
      | 194 (* C2 *), String b r1 =>
          if (byte_of b =? 133) || (byte_of b =? 160) then Some r1 else None
      | 225 (* E1 *), String b (String c r2) =>
          if (byte_of b =? 154) && (byte_of c =? 128) then Some r2 else None
      | 226 (* E2 *), String b (String c r2) =>
          if (byte_of b =? 128)
             && (in_range 128 138 c || (byte_of c =? 168) || (byte_of c =? 169) || (byte_of c =? 175))
             || (byte_of b =? 129) && (byte_of c =? 159)
          then Some r2 else None
      | 227 (* E3 *), String b (String c r2) =>
          if (byte_of b =? 128) && (byte_of c =? 128) then Some r2 else None
      | _, _ => None
      end
  end.

Definition is_some {A} (o : option A) : bool := match o with Some _ => true | None => false end.

(** [s] is one white-space character. *)
Definition is_ws_char (s : string) : bool :=
  match eat_ws s with Some "" => true | _ => false end.

(** The same from the end, on the reversed bytes. *)
Definition eat_ws_rev (s : string) : option string :=
  match s with
  | "" => None
  | String a r =>
      if ws_ascii a then Some r
      else match r with
      | String b r1 =>
          if is_ws_char (String b (String a "")) then Some r1
          else match r1 with
          | String c r2 =>
              if is_ws_char (String c (String b (String a ""))) then Some r2 else None
          | "" => None
          end
      | "" => None
      end
  end.

Fixpoint trim_start_fuel (eat : string → option string) (n : nat) (s : string) : string :=
  match n with
  | O => s
  | S n => match eat s with Some r => trim_start_fuel eat n r | None => s end
  end.

Definition trim_start (s : string) : string := trim_start_fuel eat_ws (String.length s) s.
Definition trim_end (s : string) : string :=
  srev (trim_start_fuel eat_ws_rev (String.length s) (srev s)).
Definition trim (s : string) : string := trim_end (trim_start s).

(** [split_ascii_whitespace]. *)
Fixpoint split_ws_aux (acc : string) (s : string) : list string :=
  match s with
  | "" => if is_empty acc then [] else [srev acc]
  | String c r =>
      if is_ascii_whitespace c
      then if is_empty acc then split_ws_aux "" r else srev acc :: split_ws_aux "" r
      else split_ws_aux (String c acc) r
  end.
Definition split_ascii_whitespace (s : string) : list string := split_ws_aux "" s.

(** ** Decimal numbers *)

Definition digit_char (n : N) : ascii := chr (48 + n).

(** [n.to_string()] of an unsigned integer, least significant digit last. *)
Fixpoint dec_aux (fuel : nat) (n : N) (acc : string) : string :=
  match fuel with
  | O => acc
  | S fuel =>
      let acc := String (digit_char (N.modulo n 10)) acc in
      if (n <? 10)%N then acc else dec_aux fuel (N.div n 10) acc
  end.
Definition dec_of_N (n : N) : string := dec_aux (S (N.to_nat (N.log2 n))) n "".
Definition dec_of_Z (z : Z) : string :=
  if z <? 0 then "-" +:+ dec_of_N (Z.to_N (- z)) else dec_of_N (Z.to_N z).

(** [s.parse::<uN>()] with maximum [max]: an optional [+], then at least one
    digit. *)
Fixpoint parse_digits (acc : Z) (s : string) : option Z :=
  match s with
  | "" => Some acc
  | String c r =>
      if is_ascii_digit c then parse_digits (10 * acc + (byte_of c - 48)) r else None
  end.
Definition parse_unsigned (max : Z) (s : string) : option Z :=
  let digits := match s with String "+" r => r | _ => s end in
  if is_empty digits then None
  else n ← parse_digits 0 digits; if n <=? max then Some n else None.

(** [s.parse::<i64>()]. *)
Definition parse_i64 (s : string) : option Z :=
  match s with
  | String "-" r =>
      if is_empty r then None
      else n ← parse_digits 0 r; if i64_min <=? - n then Some (- n) else None
  | _ => parse_unsigned i64_max s
  end.

(** ** Lower-case hexadecimal ([hex::encode] and [{:x}]) *)

Definition hex_digit (n : Z) : ascii :=
  if n <? 10 then chr (Z.to_N (48 + n)) else chr (Z.to_N (87 + n)).
Fixpoint hex_encode (s : string) : string :=
  match s with
  | "" => ""
  | String c r =>
      String (hex_digit (byte_of c / 16)) (String (hex_digit (byte_of c mod 16)) (hex_encode r))
  end.

(** [s.repeat(n)]. *)
Fixpoint srepeat (n : nat) (s : string) : string :=
  match n with O => "" | S n => s +:+ srepeat n s end.

(** ** More [str] methods *)

(** [s.split_once(p)] for a string pattern: at the first occurrence. *)
Fixpoint split_once_str (p s : string) : option (string * string) :=
  match strip_prefix p s with
  | Some r => Some ("", r)
  | None =>
      match s with
      | "" => None
      | String c r => '(a, b) ← split_once_str p r; Some (String c a, b)
      end
  end.

(** [s.split(set).next()]: what precedes the first byte of the set. *)
Fixpoint take_until (p : ascii → bool) (s : string) : string :=
  match s with
  | "" => ""
  | String c r => if p c then "" else String c (take_until p r)
  end.

(** [s.lines().next()], [""] when there is no line. *)
Definition newline : ascii := "010"%char.
Definition first_line (s : string) : string :=
  match split_once newline s with
  | None => s
  | Some (l, _) => match strip_suffix (String "013"%char "") l with Some l' => l' | None => l end
  end.

(** A UTF-8 continuation byte. *)
Definition is_continuation : ascii → bool := in_range 128 191.

(** [s.chars().take(n).collect()]. *)
Fixpoint take_chars (n : Z) (s : string) : string :=
  match s with
  | "" => ""
  | String c r =>
      if is_continuation c then String c (take_chars n r)
      else if n <=? 0 then "" else String c (take_chars (n - 1) r)
  end.

(** [s.chars().count()]. *)
Fixpoint char_count (s : string) : Z :=
  match s with
  | "" => 0
  | String c r => (if is_continuation c then 0 else 1) + char_count r
  end.

(** [s.trim_end_matches(p)] for a non-empty string pattern. *)
Fixpoint trim_end_str_fuel (n : nat) (p s : string) : string :=
  match n with
  | O => s
  | S n => match strip_suffix p s with Some r => trim_end_str_fuel n p r | None => s end
  end.
Definition trim_end_str (p s : string) : string := trim_end_str_fuel (String.length s) p s.
