(* ===== verification/TextFacts.v ===== *)
(** * Lemmas on the string operations of [Text]

    Decomposition lemmas for the splitting functions (what each part is and
    that the parts rebuild the input), the algebra of [+:+], ASCII case
    folding, trimming, and the round trips of the decimal and hexadecimal
    printers. *)

From S2P Require Export Text.

(** ** Concatenation *)

Lemma app_str_nil_r s : s +:+ "" = s.
Proof. induction s as [|c s IH]; cbn; [done|by rewrite IH]. Qed.

Lemma app_str_assoc a b c : (a +:+ b) +:+ c = a +:+ (b +:+ c).
Proof. induction a as [|x a IH]; cbn; [done|by rewrite IH]. Qed.

Lemma slen_app a b : slen (a +:+ b) = slen a + slen b.
Proof.
  unfold slen. induction a as [|x a IH]; cbn [String.append String.length]; lia.
Qed.

Lemma slen_nonneg s : 0 ≤ slen s.
Proof. unfold slen. lia. Qed.

Lemma slen_cons c s : slen (String c s) = 1 + slen s.
Proof. unfold slen. cbn [String.length]. lia. Qed.

Lemma sall_app p a b : sall p (a +:+ b) = (sall p a && sall p b)%bool.
Proof. induction a as [|x a IH]; cbn; [done|]. by rewrite IH, andb_assoc. Qed.

Lemma sall_impl (p q : ascii → bool) s :
  (∀ c, p c = true → q c = true) → sall p s = true → sall q s = true.
Proof.
  intros H. induction s as [|c s IH]; cbn; [done|].
  intros [Hc Hs]%andb_true_iff. by rewrite (H _ Hc), IH.
Qed.

Lemma contains_char_app c a b :
  contains_char c (a +:+ b) = (contains_char c a || contains_char c b)%bool.
Proof. induction a as [|x a IH]; cbn; [done|]. by rewrite IH, orb_assoc. Qed.

Lemma sall_not_contains p c s :
  sall p s = true → p c = false → contains_char c s = false.
Proof.
  induction s as [|x s IH]; cbn; [done|].
  intros [Hx Hs]%andb_true_iff Hc. rewrite IH by done.
  destruct (Ascii.eqb_spec x c) as [->|]; [congruence|done].
Qed.

(** ** Prefixes and suffixes *)

Lemma strip_prefix_Some p s r : strip_prefix p s = Some r ↔ s = p +:+ r.
Proof.
  revert s. induction p as [|a p IH]; intros s; cbn.
  - split; congruence.
  - destruct s as [|b s]; [split; discriminate|].
    destruct (Ascii.eqb_spec a b) as [->|Hne].
    + rewrite IH. split; [by intros ->|by intros [= ->]].
    + split; [discriminate|intros [= -> _]; done].
Qed.

Lemma starts_with_spec p s : starts_with p s = true ↔ ∃ r, s = p +:+ r.
Proof.
  unfold starts_with. destruct (strip_prefix p s) eqn:E.
  - split; [|done]. intros _. eexists. by apply strip_prefix_Some.
  - split; [done|]. intros [r Hr]. apply strip_prefix_Some in Hr. congruence.
Qed.

Lemma starts_with_app p s : starts_with p (p +:+ s) = true.
Proof. apply starts_with_spec. eauto. Qed.

Lemma srev_involutive s : srev (srev s) = s.
Proof.
  unfold srev. rewrite list_ascii_of_string_of_list_ascii, rev_involutive.
  apply string_of_list_ascii_of_string.
Qed.

Lemma list_ascii_app a b :
  list_ascii_of_string (a +:+ b) = (list_ascii_of_string a ++ list_ascii_of_string b)%list.
Proof. induction a as [|x a IH]; cbn; [done|by rewrite IH]. Qed.

Lemma string_of_list_app a b :
  string_of_list_ascii (a ++ b)%list = string_of_list_ascii a +:+ string_of_list_ascii b.
Proof. induction a as [|x a IH]; cbn; [done|by rewrite IH]. Qed.

Lemma srev_app a b : srev (a +:+ b) = srev b +:+ srev a.
Proof.
  unfold srev. by rewrite list_ascii_app, rev_app_distr, string_of_list_app.
Qed.

Lemma srev_cons c s : srev (String c s) = srev s +:+ String c "".
Proof. apply (srev_app (String c "") s). Qed.

Lemma strip_suffix_Some p s r : strip_suffix p s = Some r ↔ s = r +:+ p.
Proof.
  unfold strip_suffix. split.
  - destruct (strip_prefix (srev p) (srev s)) as [t|] eqn:E; [|done].
    intros [= <-]. apply strip_prefix_Some in E.
    rewrite <- (srev_involutive s), E, srev_app. by rewrite srev_involutive.
  - intros ->. rewrite srev_app.
    assert (strip_prefix (srev p) (srev p +:+ srev r) = Some (srev r)) as ->
      by (by apply strip_prefix_Some).
    cbn. by rewrite srev_involutive.
Qed.

Lemma ends_with_spec p s : ends_with p s = true ↔ ∃ r, s = r +:+ p.
Proof.
  unfold ends_with. destruct (strip_suffix p s) eqn:E.
  - split; [|done]. intros _. eexists. by apply strip_suffix_Some.
  - split; [done|]. intros [r Hr]. apply strip_suffix_Some in Hr. congruence.
Qed.

Lemma contains_str_spec p s : contains_str p s = true ↔ ∃ a b, s = a +:+ p +:+ b.
Proof.
  induction s as [|c s IH]; cbn.
  - rewrite orb_false_r, starts_with_spec. split.
    + intros [r Hr]. by exists "", r.
    + intros ([|x a] & b & Hab); [by exists b|done].
  - split.
    + intros [H|H]%orb_true_iff.
      * apply starts_with_spec in H as [r Hr]. by exists "", r.
      * apply IH in H as (a & b & ->). by exists (String c a), b.
    + intros ([|x a] & b & Hab); cbn in Hab; apply orb_true_iff.
      * left. apply starts_with_spec. by exists b.
      * right. apply IH. injection Hab as -> ->. by exists a, b.
Qed.

(** ** Splitting *)

Lemma split_ne c s : split c s ≠ [].
Proof. destruct s as [|x s]; cbn; [done|]. by destruct (x =c c), (split c s). Qed.

Lemma join_cons sep x l : l ≠ [] → join sep (x :: l) = x +:+ sep +:+ join sep l.
Proof. by destruct l. Qed.

Lemma join_split c s : join (String c "") (split c s) = s.
Proof.
  induction s as [|x s IH]; [done|]. cbn [split].
  pose proof (split_ne c s) as Hne.
  destruct (Ascii.eqb_spec x c) as [->|].
  - rewrite join_cons by done. cbn. by rewrite IH.
  - destruct (split c s) as [|h t]; [done|].
    destruct t; cbn in *; by rewrite <- IH.
Qed.

Lemma split_parts_free c s : Forall (λ x, contains_char c x = false) (split c s).
Proof.
  induction s as [|x s IH]; cbn; [by repeat constructor|].
  destruct (x =c c) eqn:E; [by constructor|].
  destruct (split c s) as [|h t]; [constructor; cbn; [by rewrite E|done]|].
  inversion_clear IH. constructor; cbn; [by rewrite E|done].
Qed.

Lemma split_free c s : contains_char c s = false → split c s = [s].
Proof.
  induction s as [|x s IH]; cbn; [done|].
  intros [Hx Hs]%orb_false_iff. by rewrite Hx, IH.
Qed.

Lemma split_app_sep c a s :
  contains_char c a = false → split c (a +:+ String c s) = a :: split c s.
Proof.
  induction a as [|x a IH]; cbn; [by rewrite Ascii.eqb_refl|].
  intros [Hx Ha]%orb_false_iff. by rewrite Hx, IH.
Qed.

Lemma split_join c l :
  l ≠ [] → Forall (λ x, contains_char c x = false) l → split c (join (String c "") l) = l.
Proof.
  intros Hne H. induction H as [|x l Hx Hl IH]; [done|].
  destruct l as [|y l]; [by apply split_free|].
  rewrite join_cons by done.
  change (String c "" +:+ ?t) with (String c t).
  rewrite split_app_sep by done. by rewrite IH.
Qed.

Lemma split_once_Some c s a b :
  split_once c s = Some (a, b) ↔ s = a +:+ String c b ∧ contains_char c a = false.
Proof.
  revert a. induction s as [|x s IH]; intros a; cbn.
  - split; [done|]. intros [H _]. by destruct a.
  - destruct (x =c c) eqn:E.
    + bool_to_prop. subst x. split.
      * intros [= <- <-]. done.
      * intros [H Hf]. destruct a as [|y a]; cbn in *; [by injection H as ->|].
        injection H as -> _. by rewrite Ascii.eqb_refl in Hf.
    + split.
      * destruct (split_once c s) as [[a' b']|] eqn:Es; cbn; [|done].
        intros [= <- <-]. destruct (proj1 (IH a') eq_refl) as [-> Hf].
        cbn. by rewrite E, Hf.
      * intros [H Hf]. destruct a as [|y a]; cbn in *.
        { injection H as -> _. by rewrite Ascii.eqb_refl in E. }
        injection H as <- ->. rewrite E in Hf. cbn in Hf.
        rewrite (proj2 (IH a)); [done|]. done.
Qed.

Lemma split_once_None c s : split_once c s = None ↔ contains_char c s = false.
Proof.
  induction s as [|x s IH]; cbn; [done|].
  destruct (x =c c) eqn:E; cbn; [done|].
  rewrite <- IH. by destruct (split_once c s) as [[? ?]|].
Qed.

Lemma rsplit_once_None c s : rsplit_once c s = None ↔ contains_char c s = false.
Proof.
  induction s as [|x s IH]; cbn; [done|].
  destruct (rsplit_once c s) as [[a b]|].
  - split; [done|]. intros [_ H]%orb_false_iff. by apply IH in H.
  - rewrite (proj1 IH eq_refl), orb_false_r. by destruct (x =c c).
Qed.

Lemma rsplit_once_Some c s a b :
  rsplit_once c s = Some (a, b) ↔ s = a +:+ String c b ∧ contains_char c b = false.
Proof.
  revert a. induction s as [|x s IH]; intros a; cbn.
  - split; [done|]. intros [H _]. by destruct a.
  - destruct (rsplit_once c s) as [[a' b']|] eqn:Es.
    + split.
      * intros [= <- <-]. destruct (proj1 (IH a') eq_refl) as [-> Hf]. done.
      * intros [H Hf]. destruct a as [|y a]; cbn in *.
        { injection H as -> <-. apply (proj2 (rsplit_once_None c s)) in Hf. congruence. }
        injection H as <- ->.
        assert (Some (a', b') = Some (a, b)) as [= -> ->]; [|done].
        apply IH. done.
    + apply rsplit_once_None in Es. destruct (x =c c) eqn:E.
      * bool_to_prop. subst. split.
        { by intros [= <- <-]. }
        intros [H Hf]. destruct a as [|y a]; cbn in *; [by injection H as <-|].
        injection H as -> ->. rewrite contains_char_app in Es. cbn in Es.
        rewrite Ascii.eqb_refl, orb_true_r in Es. done.
      * split; [done|]. intros [H Hf]. destruct a as [|y a]; cbn in *.
        { injection H as -> _. by rewrite Ascii.eqb_refl in E. }
        injection H as <- ->. rewrite contains_char_app in Es. cbn in Es.
        rewrite Ascii.eqb_refl, orb_true_r in Es. done.
Qed.

(** ** ASCII case folding *)

(** Facts on single bytes are decided by trying all 256 of them. *)
Definition all_bytes : list ascii := map (λ n, ascii_of_nat n) (List.seq 0 256).

Lemma all_bytes_complete c : In c all_bytes.
Proof.
  unfold all_bytes. apply in_map_iff. exists (nat_of_ascii c).
  split; [apply ascii_nat_embedding|]. apply in_seq. pose proof (nat_ascii_bounded c). lia.
Qed.

Lemma byte_forall (p : ascii → bool) : forallb p all_bytes = true → ∀ c, p c = true.
Proof. rewrite forallb_forall. intros H c. apply H, all_bytes_complete. Qed.

Lemma byte_of_bounds c : 0 ≤ byte_of c < 256.
Proof.
  unfold byte_of. pose proof (N_ascii_bounded c). lia.
Qed.

Lemma byte_of_inj a b : byte_of a = byte_of b → a = b.
Proof.
  unfold byte_of. intros H%N2Z.inj.
  by rewrite <- (ascii_N_embedding a), <- (ascii_N_embedding b), H.
Qed.

Lemma ascii_lower_idem c : ascii_lower (ascii_lower c) = ascii_lower c.
Proof.
  apply Ascii.eqb_eq. revert c. apply byte_forall. by vm_compute.
Qed.

Lemma smap_app f a b : smap f (a +:+ b) = smap f a +:+ smap f b.
Proof. induction a as [|x a IH]; cbn; [done|by rewrite IH]. Qed.

Lemma slen_smap f s : slen (smap f s) = slen s.
Proof. induction s as [|c s IH]; [done|]. cbn [smap]. by rewrite !slen_cons, IH. Qed.

Lemma smap_id f s : sall (λ c, f c =c c) s = true → smap f s = s.
Proof.
  induction s as [|c s IH]; cbn; [done|].
  intros [Hc Hs]%andb_true_iff. bool_to_prop. by rewrite Hc, IH.
Qed.

Lemma to_ascii_lowercase_idem s : to_ascii_lowercase (to_ascii_lowercase s) = to_ascii_lowercase s.
Proof.
  unfold to_ascii_lowercase. induction s as [|c s IH]; cbn; [done|].
  by rewrite ascii_lower_idem, IH.
Qed.

Lemma to_ascii_lowercase_app a b :
  to_ascii_lowercase (a +:+ b) = to_ascii_lowercase a +:+ to_ascii_lowercase b.
Proof. apply smap_app. Qed.

Lemma is_empty_spec s : is_empty s = true ↔ s = "".
Proof. by destruct s. Qed.

Lemma is_empty_smap f s : is_empty (smap f s) = is_empty s.
Proof. by destruct s. Qed.

(** ** Trimming by a byte predicate *)

Lemma trim_end_by_app_keep p a c :
  p c = false → trim_end_by p (a +:+ String c "") = a +:+ String c "".
Proof.
  intros Hc. induction a as [|x a IH]; cbn; [by rewrite Hc|].
  rewrite IH. by destruct a.
Qed.

Lemma trim_end_by_app_drop p a b : sall p b = true → trim_end_by p (a +:+ b) = trim_end_by p a.
Proof.
  intros Hb. induction a as [|x a IH]; cbn; [|by rewrite IH].
  induction b as [|y b IHb]; cbn in *; [done|].
  apply andb_true_iff in Hb as [Hy Hb]. by rewrite IHb, Hy.
Qed.

(** What trimming leaves, and what it drops. *)
Lemma trim_end_by_decompose p s :
  ∃ t, s = trim_end_by p s +:+ t ∧ sall p t = true.
Proof.
  induction s as [|c s (t & Hs & Ht)]; cbn; [by exists ""|].
  destruct (trim_end_by p s) as [|d r] eqn:E.
  - cbn in Hs. destruct (p c) eqn:Hc.
    + exists (String c s). cbn. by rewrite Hc, Hs.
    + exists s. rewrite Hs. done.
  - exists t. cbn in *. by rewrite <- Hs.
Qed.

Lemma trim_end_by_last p s : trim_end_by p s = "" ∨ ∃ a c, trim_end_by p s = a +:+ String c "" ∧ p c = false.
Proof.
  induction s as [|x s IH]; cbn; [by left|].
  destruct (trim_end_by p s) as [|d r] eqn:E.
  - destruct (p x) eqn:Hx; [by left|]. right. by exists "", x.
  - right. destruct IH as [|(a & c & H & Hc)]; [done|].
    exists (String x a), c. rewrite H. done.
Qed.

Lemma trim_end_by_idem p s : trim_end_by p (trim_end_by p s) = trim_end_by p s.
Proof.
  destruct (trim_end_by_last p s) as [->|(a & c & -> & Hc)]; [done|].
  by apply trim_end_by_app_keep.
Qed.

Lemma trim_end_by_smap p f s :
  (∀ c, p (f c) = p c) → trim_end_by p (smap f s) = smap f (trim_end_by p s).
Proof.
  intros H. induction s as [|c s IH]; cbn; [done|].
  rewrite IH, H. destruct (trim_end_by p s); cbn; [by destruct (p c)|done].
Qed.

Lemma sall_trim_end_by q p s : sall q s = true → sall q (trim_end_by p s) = true.
Proof.
  destruct (trim_end_by_decompose p s) as (t & Hs & _). rewrite Hs at 1.
  rewrite sall_app. by intros [? _]%andb_true_iff.
Qed.

(** ** Decimal round trip *)

Lemma byte_of_chr n : (n < 256)%N → byte_of (chr n) = Z.of_N n.
Proof. intros H. unfold byte_of, chr. by rewrite N_ascii_embedding. Qed.

Lemma digit_char_spec n :
  (n < 10)%N → is_ascii_digit (digit_char n) = true ∧ byte_of (digit_char n) - 48 = Z.of_N n.
Proof.
  intros H. unfold is_ascii_digit, in_range, digit_char.
  rewrite byte_of_chr by lia. split; [|lia].
  apply andb_true_iff. split; apply Z.leb_le; lia.
Qed.

Lemma parse_digits_app a s t :
  parse_digits a (s +:+ t) = (b ← parse_digits a s; parse_digits b t).
Proof.
  revert a. induction s as [|c s IH]; intros a; cbn; [done|].
  by destruct (is_ascii_digit c).
Qed.

(** Folding the printed digits back from any prefix value. *)
Lemma parse_dec_aux fuel n acc k :
  (n < 10 ^ N.of_nat fuel)%N → (0 < fuel)%nat →
  ∃ m : N, (n < 10 ^ m)%N ∧
    parse_digits k (dec_aux fuel n acc) = parse_digits (k * 10 ^ Z.of_N m + Z.of_N n) acc.
Proof.
  revert n acc k. induction fuel as [|fuel IH]; intros n acc k Hn Hf; [lia|].
  cbn [dec_aux].
  assert (n `mod` 10 < 10)%N as Hd by (apply N.mod_lt; lia).
  destruct (digit_char_spec _ Hd) as [Hdig Hval].
  destruct (N.ltb_spec n 10).
  - exists 1%N. split; [lia|]. cbn [parse_digits]. rewrite Hdig, Hval.
    f_equal. rewrite N.mod_small by lia. lia.
  - destruct fuel as [|fuel'].
    { cbn in Hn. lia. }
    destruct (IH (n `div` 10)%N (String (digit_char (n `mod` 10)) acc) k) as (m & Hm & ->);
      [|lia|].
    { apply N.Div0.div_lt_upper_bound. rewrite Nat2N.inj_succ, N.pow_succ_r' in Hn. lia. }
    exists (N.succ m). split.
    { rewrite N.pow_succ_r'. pose proof (N.div_mod n 10). lia. }
    cbn [parse_digits]. rewrite Hdig, Hval. f_equal.
    rewrite N2Z.inj_succ, Z.pow_succ_r by lia.
    pose proof (N.div_mod n 10). nia.
Qed.

Lemma dec_fuel_enough n : (n < 10 ^ N.of_nat (S (N.to_nat (N.log2 n))))%N.
Proof.
  rewrite Nat2N.inj_succ, N2Nat.id.
  destruct (N.eq_dec n 0%N) as [->|Hn]; [by vm_compute|].
  destruct (N.log2_spec n) as [_ H]; [lia|].
  eapply N.lt_le_trans; [exact H|]. apply N.pow_le_mono_l. lia.
Qed.

Lemma parse_dec_of_N n : parse_digits 0 (dec_of_N n) = Some (Z.of_N n).
Proof.
  unfold dec_of_N.
  destruct (parse_dec_aux _ n "" 0 (dec_fuel_enough n)) as (m & _ & ->); [lia|].
  cbn. done.
Qed.

Lemma dec_aux_digits fuel n acc :
  sall is_ascii_digit acc = true → sall is_ascii_digit (dec_aux fuel n acc) = true.
Proof.
  revert n acc. induction fuel as [|fuel IH]; intros n acc H; cbn; [done|].
  assert (sall is_ascii_digit (String (digit_char (n `mod` 10)) acc) = true) as H'.
  { cbn. rewrite H, andb_true_r. apply digit_char_spec, N.mod_lt. lia. }
  destruct (n <? 10)%N; [done|]. by apply IH.
Qed.

Lemma dec_of_N_digits n : sall is_ascii_digit (dec_of_N n) = true.
Proof. by apply dec_aux_digits. Qed.

Lemma dec_aux_nonempty fuel n acc : acc ≠ "" → dec_aux fuel n acc ≠ "".
Proof.
  revert n acc. induction fuel as [|fuel IH]; intros n acc H; cbn; [done|].
  destruct (n <? 10)%N; [done|]. by apply IH.
Qed.

Lemma dec_of_N_nonempty n : dec_of_N n ≠ "".
Proof.
  unfold dec_of_N. cbn. destruct (n <? 10)%N; [done|]. by apply dec_aux_nonempty.
Qed.

Lemma parse_unsigned_dec max n :
  Z.of_N n ≤ max → parse_unsigned max (dec_of_N n) = Some (Z.of_N n).
Proof.
  intros Hmax. unfold parse_unsigned.
  assert (match dec_of_N n with String "+" r => r | _ => dec_of_N n end = dec_of_N n) as ->.
  { pose proof (dec_of_N_digits n) as Hd. destruct (dec_of_N n) as [|c r]; [done|].
    destruct (Ascii.eqb_spec c "+"%char) as [->|Hne]; [by vm_compute in Hd|].
    destruct c as [[] [] [] [] [] [] [] []]; try reflexivity; by destruct Hne. }
  rewrite parse_dec_of_N. destruct (is_empty (dec_of_N n)) eqn:E.
  { apply is_empty_spec in E. by apply dec_of_N_nonempty in E. }
  cbn. by rewrite (proj2 (Z.leb_le _ _) Hmax).
Qed.

Lemma dec_of_N_inj n m : dec_of_N n = dec_of_N m → n = m.
Proof.
  intros H. pose proof (parse_dec_of_N n) as Hn. rewrite H, parse_dec_of_N in Hn.
  injection Hn as Hn. lia.
Qed.

(** ** Hexadecimal *)

Definition is_lower_hex (c : ascii) : bool := is_ascii_digit c || in_range 97 102 c.

Lemma slen_hex_encode s : slen (hex_encode s) = 2 * slen s.
Proof.
  induction s as [|c s IH]; [done|]. cbn [hex_encode]. rewrite !slen_cons, IH. lia.
Qed.

Lemma hex_digit_lower (c : ascii) :
  is_lower_hex (hex_digit (byte_of c / 16)) = true ∧ is_lower_hex (hex_digit (byte_of c mod 16)) = true.
Proof.
  apply andb_true_iff. revert c. apply byte_forall. by vm_compute.
Qed.

Lemma hex_encode_lower s : sall is_lower_hex (hex_encode s) = true.
Proof.
  induction s as [|c s IH]; [done|]. cbn [hex_encode sall].
  destruct (hex_digit_lower c) as [-> ->]. done.
Qed.

(** ** [trim] on visible ASCII *)

Lemma sall_smap p f s : sall p (smap f s) = sall (λ c, p (f c)) s.
Proof. induction s as [|c s IH]; cbn; [done|by rewrite IH]. Qed.

Lemma sall_ext p q s : (∀ c, p c = q c) → sall p s = sall q s.
Proof. intros H. induction s as [|c s IH]; cbn; [done|by rewrite H, IH]. Qed.

Lemma sall_srev p s : sall p (srev s) = sall p s.
Proof.
  induction s as [|c s IH]; [done|]. rewrite srev_cons, sall_app. cbn.
  by rewrite IH, andb_true_r, andb_comm.
Qed.

Lemma graphic_lower c : is_ascii_graphic (ascii_lower c) = is_ascii_graphic c.
Proof. apply eqb_true_iff. revert c. apply byte_forall. by vm_compute. Qed.

Lemma graphic_bounds c : is_ascii_graphic c = true → 33 ≤ byte_of c ≤ 126.
Proof. unfold is_ascii_graphic, in_range. intros H. bool_to_prop. lia. Qed.

Lemma graphic_not_ws c : is_ascii_graphic c = true → ws_ascii c = false.
Proof.
  intros H%graphic_bounds. unfold ws_ascii, in_range.
  apply orb_false_iff. split; [apply andb_false_iff; right; apply Z.leb_gt; lia|].
  apply Z.eqb_neq. lia.
Qed.

(** A white-space character never ends in a visible ASCII byte. *)
Lemma eat_ws_graphic c r : is_ascii_graphic c = true → eat_ws (String c r) = None.
Proof.
  intros H. pose proof (graphic_bounds c H) as B. cbn.
  rewrite graphic_not_ws by done.
  remember (byte_of c) as b. clear - B.
  assert (b = 33 ∨ 34 ≤ b ≤ 63 ∨ 64 ≤ b ≤ 95 ∨ 96 ≤ b ≤ 126) as Hb by lia.
  destruct b as [|b|b]; try lia.
  do 8 (destruct b as [b|b|]; try reflexivity; try lia).
Qed.

(** A white-space character never ends in a visible ASCII byte. *)
Lemma is_ws_char_graphic c s : is_ascii_graphic c = true → is_ws_char (s +:+ String c "") = false.
Proof.
  intros H. pose proof (graphic_bounds c H) as B. unfold is_ws_char.
  assert (in_range 128 138 c = false) as Hr.
  { unfold in_range. apply andb_false_iff. left. apply Z.leb_gt. lia. }
  destruct s as [|x s]; [cbn [String.append]; by rewrite eat_ws_graphic|].
  cbn [String.append eat_ws]. destruct (ws_ascii x); [by destruct s|].
  destruct (byte_of x) as [|q|q]; try done.
  do 8 (destruct q as [q|q|]; try reflexivity);
    destruct s as [|y [|z s]]; cbn [String.append]; try reflexivity;
    rewrite ?Hr;
    repeat match goal with
    | |- context [byte_of c =? ?n] => rewrite (proj2 (Z.eqb_neq (byte_of c) n)) by lia
    end; rewrite ?andb_false_r; try reflexivity;
    repeat match goal with
    | |- context [if ?b then _ else _] =>
        match type of b with bool => destruct b end
    end; try reflexivity; by destruct s.
Qed.

Lemma eat_ws_rev_graphic c r : is_ascii_graphic c = true → eat_ws_rev (String c r) = None.
Proof.
  intros H. cbn. rewrite graphic_not_ws by done.
  destruct r as [|b r]; [done|].
  pose proof (is_ws_char_graphic c (String b "") H) as E1.
  cbn [String.append] in E1. rewrite E1.
  destruct r as [|d r]; [done|].
  pose proof (is_ws_char_graphic c (String d (String b "")) H) as E2.
  cbn [String.append] in E2. by rewrite E2.
Qed.

Lemma trim_start_fuel_stuck eat n s : eat s = None → trim_start_fuel eat n s = s.
Proof. intros H. destruct n; cbn; [done|by rewrite H]. Qed.

Lemma trim_graphic s : sall is_ascii_graphic s = true → trim s = s.
Proof.
  intros H. unfold trim, trim_start.
  rewrite (trim_start_fuel_stuck eat_ws).
  2: { destruct s as [|c s]; [done|]. cbn [sall] in H. bool_to_prop. by apply eat_ws_graphic. }
  unfold trim_end. rewrite trim_start_fuel_stuck; [by apply srev_involutive|].
  rewrite <- sall_srev in H. destruct (srev s) as [|c t]; [done|].
  cbn [sall] in H. bool_to_prop. by apply eat_ws_rev_graphic.
Qed.

(** ** Splitting at a pattern, lines and characters *)

Lemma split_once_str_Some p s a b : split_once_str p s = Some (a, b) → s = a +:+ p +:+ b.
Proof.
  revert a b. induction s as [|c s IH]; intros a b; cbn [split_once_str].
  - destruct (strip_prefix p "") eqn:E; [|done]. intros [= <- <-]. by apply strip_prefix_Some in E.
  - destruct (strip_prefix p (String c s)) eqn:E.
    + intros [= <- <-]. by apply strip_prefix_Some in E.
    + destruct (split_once_str p s) as [[x y]|]; cbn; [|done].
      intros [= <- <-]. cbn. by rewrite (IH x y).
Qed.

Lemma strip_prefix_app_Some p s t r :
  strip_prefix p s = Some r → strip_prefix p (s +:+ t) = Some (r +:+ t).
Proof. rewrite !strip_prefix_Some. intros ->. by rewrite app_str_assoc. Qed.

Lemma split_once_str_no_occurrence p s :
  p ≠ "" → split_once_str p s = None → contains_str p s = false.
Proof.
  intros Hp. induction s as [|c s IH]; cbn [split_once_str contains_str]; unfold starts_with.
  - destruct p; [done|]. done.
  - destruct (strip_prefix p (String c s)) eqn:E; [done|].
    destruct (split_once_str p s) as [[]|]; [done|]. intros _. by rewrite IH.
Qed.

Lemma contains_str_app_l p a b : contains_str p a = true → contains_str p (a +:+ b) = true.
Proof.
  rewrite !contains_str_spec. intros (x & y & ->). exists x, (y +:+ b). by rewrite !app_str_assoc.
Qed.

Lemma contains_str_prefix_false p a b : contains_str p (a +:+ b) = false → contains_str p a = false.
Proof.
  destruct (contains_str p a) eqn:E; [|done]. by rewrite (contains_str_app_l _ _ b E).
Qed.

(** Unless [p] overlaps itself, what precedes its first occurrence is free of it. *)
Lemma split_once_str_head p s a b :
  p ≠ "" → split_once_str p s = Some (a, b) → contains_str p a = false.
Proof.
  intros Hp. revert a b. induction s as [|c s IH]; intros a b; cbn [split_once_str].
  - destruct (strip_prefix p ""); [|done]. intros [= <- _]. by destruct p.
  - destruct (strip_prefix p (String c s)) eqn:E; [intros [= <- _]; by destruct p|].
    destruct (split_once_str p s) as [[x y]|] eqn:Es; cbn; [|done].
    intros [= <- <-]. cbn [contains_str]. rewrite (IH x y eq_refl), orb_false_r.
    unfold starts_with. destruct (strip_prefix p (String c x)) eqn:Ex; [|done].
    apply split_once_str_Some in Es. rewrite Es in E.
    change (String c (x +:+ p +:+ y)) with (String c x +:+ (p +:+ y)) in E.
    by rewrite (strip_prefix_app_Some _ _ _ _ Ex) in E.
Qed.

Lemma take_until_free p s : sall (λ c, negb (p c)) (take_until p s) = true.
Proof. induction s as [|c s IH]; cbn; [done|]. destruct (p c) eqn:E; cbn; [done|]. by rewrite E. Qed.

Lemma take_until_app p a c s :
  sall (λ x, negb (p x)) a = true → p c = true → take_until p (a +:+ String c s) = a.
Proof.
  intros Ha Hc. induction a as [|x a IH]; cbn in *; [by rewrite Hc|].
  apply andb_true_iff in Ha as [Hx Ha]. apply negb_true_iff in Hx. by rewrite Hx, IH.
Qed.

Lemma take_chars_prefix n s : ∃ t, s = take_chars n s +:+ t.
Proof.
  revert n. induction s as [|c s IH]; intros n; cbn [take_chars]; [by exists ""|].
  destruct (is_continuation c); [|destruct (n <=? 0)].
  - destruct (IH n) as [t Ht]. exists t. cbn. by rewrite <- Ht.
  - by exists (String c s).
  - destruct (IH (n - 1)) as [t Ht]. exists t. cbn. by rewrite <- Ht.
Qed.

Lemma char_count_nonneg s : 0 ≤ char_count s.
Proof. induction s as [|c s IH]; cbn [char_count]; [done|]. destruct (is_continuation c); lia. Qed.

Lemma take_chars_count n s : 0 ≤ n → char_count (take_chars n s) ≤ n.
Proof.
  revert n. induction s as [|c s IH]; intros n Hn; cbn [take_chars]; [done|].
  destruct (is_continuation c) eqn:E; [|destruct (Z.leb_spec n 0)].
  - cbn [char_count]. rewrite E. specialize (IH n Hn). lia.
  - done.
  - cbn [char_count]. rewrite E. specialize (IH (n - 1) ltac:(lia)). lia.
Qed.

Lemma eat_ws_suffix s r : eat_ws s = Some r → ∃ a, s = a +:+ r.
Proof.
  destruct s as [|a s]; [done|]. cbn [eat_ws].
  intros H. repeat (split_case; try discriminate); simplify_eq;
    first [by exists (String a "") | eexists (String a (String _ "")); reflexivity
          | eexists (String a (String _ (String _ ""))); reflexivity].
Qed.

Lemma eat_ws_rev_suffix s r : eat_ws_rev s = Some r → ∃ a, s = a +:+ r.
Proof.
  destruct s as [|a s]; [done|]. cbn [eat_ws_rev].
  intros H. repeat (split_case; try discriminate); simplify_eq;
    first [by exists (String a "") | eexists (String a (String _ "")); reflexivity
          | eexists (String a (String _ (String _ ""))); reflexivity].
Qed.

Lemma trim_start_fuel_suffix eat n s :
  (∀ s r, eat s = Some r → ∃ a, s = a +:+ r) → ∃ a, s = a +:+ trim_start_fuel eat n s.
Proof.
  intros Heat. revert s. induction n as [|n IH]; intros s; cbn; [by exists ""|].
  destruct (eat s) as [r|] eqn:E; [|by exists ""].
  apply Heat in E as [a ->]. destruct (IH r) as [b Hb]. exists (a +:+ b).
  by rewrite app_str_assoc, <- Hb.
Qed.

(** [trim] only drops a prefix and a suffix. *)
Lemma trim_infix s : ∃ a b, s = a +:+ trim s +:+ b.
Proof.
  unfold trim, trim_end, trim_start.
  destruct (trim_start_fuel_suffix eat_ws (String.length s) s eat_ws_suffix) as [a Ha].
  set (t := trim_start_fuel eat_ws (String.length s) s) in *.
  destruct (trim_start_fuel_suffix eat_ws_rev (String.length t) (srev t) eat_ws_rev_suffix) as [b Hb].
  exists a, (srev b). rewrite Ha at 1. f_equal.
  rewrite <- (srev_involutive t) at 1. by rewrite Hb at 1; rewrite srev_app.
Qed.

Lemma sall_trim p s : sall p s = true → sall p (trim s) = true.
Proof.
  destruct (trim_infix s) as (a & b & H). rewrite H at 1. rewrite !sall_app.
  intros. by bool_to_prop.
Qed.

Lemma contains_char_sall c s : contains_char c s = negb (sall (λ x, negb (x =c c)) s).
Proof. induction s as [|x s IH]; cbn; [done|]. rewrite IH. by destruct (x =c c). Qed.

Lemma split_once_str_app c p a r :
  contains_char c a = false → split_once_str (String c p) (a +:+ String c p +:+ r) = Some (a, r).
Proof.
  change (String c p +:+ r) with (String c (p +:+ r)).
  assert (strip_prefix (String c p) (String c (p +:+ r)) = Some r) as Hp by by apply strip_prefix_Some.
  induction a as [|x a IH]; cbn [String.append contains_char split_once_str]; intros H.
  - by rewrite Hp.
  - apply orb_false_iff in H as [Hx Ha]. cbn [strip_prefix]. rewrite Ascii.eqb_sym, Hx.
    by rewrite IH.
Qed.

Lemma contains_char_srev c s : contains_char c (srev s) = contains_char c s.
Proof. by rewrite !contains_char_sall, sall_srev. Qed.

Lemma starts_with_sep p c x y :
  contains_char c p = false → starts_with p (x +:+ String c y) = starts_with p x.
Proof.
  unfold starts_with. revert x. induction p as [|a p IH]; intros x; [by destruct x|].
  cbn [contains_char]. intros [Ha Hp]%orb_false_iff. destruct x as [|b x]; cbn.
  - by rewrite Ha.
  - destruct (a =c b); [|done]. by apply IH.
Qed.

(** A suffix without the separator lies in the last part. *)
Lemma ends_with_sep p c a b :
  contains_char c p = false → ends_with p (a +:+ String c b) = ends_with p b.
Proof.
  intros Hp. pose proof (starts_with_sep (srev p) c (srev b) (srev a)) as H.
  rewrite contains_char_srev in H. specialize (H Hp).
  unfold ends_with, strip_suffix, starts_with in *.
  rewrite srev_app, srev_cons, app_str_assoc. cbn [String.append].
  destruct (strip_prefix (srev p) (srev b +:+ String c (srev a))), (strip_prefix (srev p) (srev b));
    done.
Qed.

Lemma trim_end_by_none p s : (∀ a c, s = a +:+ String c "" → p c = false) → trim_end_by p s = s.
Proof.
  intros H. destruct (trim_end_by_decompose p s) as (t & Hs & Ht).
  destruct (String.string_dec t "") as [->|Hne]; [by rewrite app_str_nil_r in Hs|].
  exfalso. assert (∃ t' c, t = t' +:+ String c "") as (t' & c & ->).
  { clear -Hne. induction t as [|x t IH]; [done|]. destruct t as [|y t].
    - by exists "", x.
    - destruct IH as (t' & c & E); [done|]. exists (String x t'), c. cbn. by rewrite E. }
  rewrite sall_app in Ht. cbn in Ht. bool_to_prop.
  rewrite (H (trim_end_by p s +:+ t') c) in *; [done|]. by rewrite app_str_assoc.
Qed.
