(* ===== verification/Http.v ===== *)
(** * HTTP values and the error type of the handlers

    Headers as the handlers see them, JSON values, responses, and [ApiErr] of
    [src/error.rs] with its constructors and its mapping to a response. *)

From S2P Require Export TextFacts.

(** ** Headers

    A request's header map, as the code looks at it: for a lower-case name the
    values of its field lines in order, each after [HeaderValue::to_str] ([None]
    where [to_str] fails). *)
Definition HeaderMap : Type := string → list (option string).

(** [headers.get(name)]: the first value. *)
Definition header_get (h : HeaderMap) (name : string) : option (option string) := head (h name).

(** A response's header map under [insert], which replaces. *)
Definition RespHeaders : Type := list (string * string).

Fixpoint rh_get (h : RespHeaders) (name : string) : option string :=
  match h with
  | [] => None
  | (n, v) :: r => if n =s name then Some v else rh_get r name
  end.

Definition rh_insert (name value : string) (h : RespHeaders) : RespHeaders :=
  (name, value) :: List.filter (λ e, negb (e.1 =s name)) h.

Lemma rh_get_insert_eq n v h : rh_get (rh_insert n v h) n = Some v.
Proof. cbn. by rewrite String.eqb_refl. Qed.

Lemma rh_get_insert_ne n m v h : n ≠ m → rh_get (rh_insert n v h) m = rh_get h m.
Proof.
  intros Hne. cbn. rewrite (proj2 (String.eqb_neq n m)) by done.
  induction h as [|[k w] h IH]; cbn; [done|].
  destruct (String.eqb_spec k n) as [->|]; cbn.
  - by rewrite (proj2 (String.eqb_neq n m)).
  - by rewrite IH.
Qed.

(** ** JSON ([serde_json::Value])

    A number is kept as the text its [Display] prints. *)
#[warnings="-register-all"]
Inductive json : Type :=
| JNull
| JBool (b : bool)
| JNum (text : string)
| JStr (s : string)
| JArr (items : list json)
| JObj (members : list (string * json)).

Section json_ind.
Variable P : json → Prop.
Hypotheses (Hnull : P JNull) (Hbool : ∀ b, P (JBool b)) (Hnum : ∀ t, P (JNum t))
  (Hstr : ∀ s, P (JStr s)) (Harr : ∀ l, Forall P l → P (JArr l))
  (Hobj : ∀ m, Forall (λ e, P e.2) m → P (JObj m)).

(** Induction with the hypothesis on every item and member. *)
Fixpoint json_ind' (v : json) : P v :=
  match v with
  | JNull => Hnull
  | JBool b => Hbool b
  | JNum t => Hnum t
  | JStr s => Hstr s
  | JArr l => Harr l ((fix go l := match l return Forall P l with
                      | [] => @List.Forall_nil _ _
                      | x :: r => @List.Forall_cons _ P x r (json_ind' x) (go r)
                      end) l)
  | JObj m => Hobj m ((fix go m := match m return Forall (λ e, P e.2) m with
                      | [] => @List.Forall_nil _ _
                      | (k, x) :: r => @List.Forall_cons _ (λ e : string * json, P e.2) (k, x) r (json_ind' x) (go r)
                      end) m)
  end.
End json_ind.

(** [map.get(key)]. *)
Fixpoint jget (m : list (string * json)) (key : string) : option json :=
  match m with
  | [] => None
  | (k, v) :: r => if k =s key then Some v else jget r key
  end.

(** ** Responses *)

Record Response := mk_response {
  r_status : Z;
  r_headers : RespHeaders;
  r_body : json;
}.

(** ** [ApiErr] *)

Record ApiErr := mk_api_err {
  status : Z;
  code : string;
  message : string;
}.

Abbreviation ApiResult := (result ApiErr).

#[export] Instance api_err_eq_dec : EqDecision ApiErr.
Proof. solve_decision. Defined.

Module StatusCode.
Definition OK : Z := 200.
Definition NOT_MODIFIED : Z := 304.
Definition BAD_REQUEST : Z := 400.
Definition UNAUTHORIZED : Z := 401.
Definition FORBIDDEN : Z := 403.
Definition NOT_FOUND : Z := 404.
Definition METHOD_NOT_ALLOWED : Z := 405.
Definition NOT_ACCEPTABLE : Z := 406.
Definition CONFLICT : Z := 409.
Definition PAYLOAD_TOO_LARGE : Z := 413.
Definition UNPROCESSABLE_ENTITY : Z := 422.
Definition TOO_MANY_REQUESTS : Z := 429.
Definition INTERNAL_SERVER_ERROR : Z := 500.
Definition BAD_GATEWAY : Z := 502.
Definition SERVICE_UNAVAILABLE : Z := 503.
End StatusCode.

Definition not_found (what : string) : ApiErr :=
  mk_api_err StatusCode.NOT_FOUND "not_found" (what +:+ " not found").

Definition bad_request (c m : string) : ApiErr := mk_api_err StatusCode.BAD_REQUEST c m.

Definition unauthorized : ApiErr :=
  mk_api_err StatusCode.UNAUTHORIZED "unauthorized" "missing or invalid bearer token".

Definition forbidden (c m : string) : ApiErr := mk_api_err StatusCode.FORBIDDEN c m.

Definition conflict (c m : string) : ApiErr := mk_api_err StatusCode.CONFLICT c m.

Definition service_unavailable (c m : string) : ApiErr :=
  mk_api_err StatusCode.SERVICE_UNAVAILABLE c m.

(** [From<DbErr>]: the cause is logged, never returned. *)
Definition from_db_err : ApiErr :=
  mk_api_err StatusCode.INTERNAL_SERVER_ERROR "internal" "internal database error".

(** [From<anyhow::Error>]. *)
Definition from_anyhow : ApiErr :=
  mk_api_err StatusCode.INTERNAL_SERVER_ERROR "internal" "internal error".

(** [IntoResponse for ApiErr]. *)
Definition api_err_into_response (e : ApiErr) : Response :=
  mk_response e.(status)
    (rh_insert "cache-control" "private, no-store" [])
    (JObj [("code", JStr e.(code)); ("message", JStr e.(message))]).

(** ** Which statuses a fallible computation answers with *)

Definition refuses {A} (l : list Z) (m : ApiResult A) : Prop := ∀ e, m = Err e → status e ∈ l.

Lemma refuses_bind {A B} l (m : ApiResult A) (k : A → ApiResult B) :
  refuses l m → (∀ a, refuses l (k a)) → refuses l (mbind k m).
Proof. intros Hm Hk e. destruct m as [a|e']; cbn; [apply Hk|]. intros [= <-]. by apply Hm. Qed.

Lemma refuses_ok {A} l (a : A) : refuses l (Ok a).
Proof. by intros e. Qed.

Lemma refuses_err {A} l e : status e ∈ l → refuses l (Err e : ApiResult A).
Proof. by intros H e' [= <-]. Qed.

Lemma refuses_ok_or {A} l e (o : option A) : status e ∈ l → refuses l (ok_or e o).
Proof. destruct o; [intros _; apply refuses_ok|apply refuses_err]. Qed.

Lemma refuses_reject_if l b e : status e ∈ l → refuses l (reject_if b e).
Proof. destruct b; [apply refuses_err|intros _; apply refuses_ok]. Qed.

Ltac status_in := cbn; rewrite ?elem_of_cons; tauto.

(** Take a fallible computation down to its error values. *)
Ltac refuses_tac :=
  repeat match goal with
  | |- refuses _ (mbind _ _) => apply refuses_bind; [|intros ?]
  | |- refuses _ (mret _) => apply refuses_ok
  | |- refuses _ (Ok _) => apply refuses_ok
  | |- refuses _ (Err _) => apply refuses_err; status_in
  | |- refuses _ (ok_or _ _) => apply refuses_ok_or; status_in
  | |- refuses _ (reject_if _ _) => apply refuses_reject_if; status_in
  | |- refuses _ (if ?b then _ else _) => destruct b
  | |- refuses _ (match ?x with _ => _ end) => destruct x
  end.
