(* ===== verification/RegistryHost.v ===== *)
(** * The registry virtual host ([src/registry_host.rs])

    [decide] maps every (host, method, path) to a [BoundaryDecision] before a
    handler runs; [enforce_registry_host] is the middleware around it. *)

From S2P Require Import Http.

Inductive BoundaryDecision : Type :=
| Bypass
| Allow (route : string) (mutating : bool)
| RejectRoute
| RejectMethod (allow : string).

Record RouteSpec := mk_route { name : string; methods : list string }.

Definition READ : list string := ["GET"; "HEAD"; "OPTIONS"].
Definition POST : list string := ["POST"; "OPTIONS"].
Definition PUT : list string := ["PUT"; "OPTIONS"].
Definition VERSION : list string := ["GET"; "HEAD"; "PUT"; "OPTIONS"].

(** [methods.contains(&m)]. *)
Definition mem_str (m : string) (l : list string) : bool := existsb (λ x, x =s m) l.

Definition list_eqb (a b : list string) : bool := bool_decide (a = b).

(** ** Segment predicates *)

Definition slug (value : string) : bool :=
  negb (is_empty value)
  && (slen value <=? 128)
  && forallb (λ part,
       negb (is_empty part) && sall (λ b, is_ascii_lowercase b || is_ascii_digit b) part)
     (split "-" value).

Definition version_segment (value : string) : bool :=
  negb (is_empty value)
  && (slen value <=? 128)
  && sall (λ b, is_ascii_alphanumeric b || (b =c ".") || (b =c "+") || (b =c "-")) value.

Definition file_segment (value : string) : bool :=
  negb (is_empty value)
  && negb (value =s ".")
  && negb (value =s "..")
  && (slen value <=? 255)
  && sall (λ b, negb (is_ascii_control b)) value.

Definition sha256 (value : string) : bool :=
  (slen value =? 64) && sall (λ b, is_ascii_digit b || in_range 97 102 b) value.

Definition resolution_digest (value : string) : bool :=
  match strip_prefix "sha256:" value with Some d => sha256 d | None => false end.

(** ** The route table

    One arm of the source's [match segments.as_slice()] per row: a literal
    segment, a bound segment with its guard, or a final non-empty [rest @ ..]. *)
Inductive seg : Type :=
| Lit (s : string)
| Arg (guard : string → bool)
| Rest (guard : string → bool).

Fixpoint arm_matches (pat : list seg) (segments : list string) : bool :=
  match pat, segments with
  | [], [] => true
  | [Rest g], _ :: _ => forallb g segments
  | Lit s :: pat, x :: segments => (x =s s) && arm_matches pat segments
  | Arg g :: pat, x :: segments => g x && arm_matches pat segments
  | _, _ => false
  end.

Definition pkg_arm (rest : list seg) : list seg :=
  Lit "v1" :: Lit "packages" :: Arg slug :: Arg slug :: rest.
Definition version_arm (rest : list seg) : list seg :=
  pkg_arm (Lit "versions" :: Arg version_segment :: rest).

Definition route_arms : list (list seg * RouteSpec) := [
  ([Lit "healthz"], mk_route "healthz" READ);
  ([Lit "v1"; Lit "packages"], mk_route "list_packages" READ);
  (pkg_arm [], mk_route "get_package" READ);
  (version_arm [], mk_route "version" VERSION);
  (version_arm [Lit "yank"], mk_route "yank" POST);
  (pkg_arm [Lit "embedding"], mk_route "embedding" PUT);
  (version_arm [Lit "dependency-graph"], mk_route "declared_graph" READ);
  (version_arm [Lit "dependency-graph"; Lit "export"; Arg slug],
   mk_route "declared_graph_export" READ);
  ([Lit "v1"; Lit "artifacts"; Arg sha256], mk_route "artifact" READ);
  ([Lit "v1"; Lit "files"; Arg slug; Arg slug; Arg version_segment; Rest file_segment],
   mk_route "files" READ);
  ([Lit "v1"; Lit "search"], mk_route "search" READ);
  ([Lit "v1"; Lit "search"; Lit "semantic"], mk_route "semantic_search" POST);
  ([Lit "v1"; Lit "orgs"], mk_route "claim_org" POST);
  ([Lit "v1"; Lit "orgs"; Arg slug; Lit "audit"], mk_route "audit" READ);
  ([Lit "v1"; Lit "orgs"; Arg slug; Lit "audit"; Lit "verify"], mk_route "audit_verify" READ);
  ([Lit "v1"; Lit "resolutions"; Arg resolution_digest; Lit "dependency-graph"],
   mk_route "resolution_graph" READ)
].

Definition ambiguous_path (path : string) : bool :=
  is_empty path
  || (2048 <? slen path)
  || contains_char "%" path
  || contains_str ".." path
  || contains_char "\" path
  || contains_str "//" path.

Definition registry_route (path : string) : option RouteSpec :=
  if ambiguous_path path then None
  else
    p ← strip_prefix "/" path;
    let segments := split "/" (trim_end_matches "/" p) in
    snd <$> List.find (λ arm, arm_matches arm.1 segments) route_arms.

(** ** Hosts *)

Definition strip_port (host : string) : string :=
  if starts_with "[" host then host
  else match rsplit_once ":" host with
       | Some (name, port) => if sall is_ascii_digit port then name else host
       | None => host
       end.

Definition is_registry_host (raw_host : string) : bool :=
  let host := trim_end_matches "." (strip_port raw_host) in
  (host =s "registry.zpkg.net")
  || (starts_with "registry." host && ends_with ".zpkg.net" host).

Definition allow_header (methods : list string) : string :=
  if list_eqb methods READ then "GET, HEAD, OPTIONS"
  else if list_eqb methods POST then "POST, OPTIONS"
  else if list_eqb methods PUT then "PUT, OPTIONS"
  else if list_eqb methods VERSION then "GET, HEAD, PUT, OPTIONS"
  else "OPTIONS".

Definition decide (host : option string) (method path : string) : BoundaryDecision :=
  if negb (match host with Some h => is_registry_host h | None => false end) then Bypass
  else match registry_route path with
  | None => RejectRoute
  | Some route =>
      if negb (mem_str method route.(methods)) then RejectMethod (allow_header route.(methods))
      else Allow route.(name) (negb (mem_str method ["GET"; "HEAD"; "OPTIONS"]))
  end.

(** ** The middleware *)

Definition request_host (headers : HeaderMap) : option string :=
  v ← header_get headers "host";
  value ← v;
  Some (to_ascii_lowercase (trim_end_matches "." (trim value))).

Definition problem (status : Z) (code message : string) (allow : option string) : Response :=
  let base :=
    rh_insert "x-content-type-options" "nosniff"
      (rh_insert "cache-control" "no-store" []) in
  mk_response status
    (match allow with Some a => rh_insert "allow" a base | None => base end)
    (JObj [("ok", JBool false); ("error", JStr code); ("message", JStr message)]).

Record Request := mk_request {
  rq_headers : HeaderMap;
  rq_method : string;
  rq_path : string;
  (** [uri().authority()], present for absolute-form and HTTP/2 requests. *)
  rq_authority : option string;
}.

Definition enforce_registry_host (request : Request) (next : Request → Response) : Response :=
  let host :=
    match request_host request.(rq_headers) with
    | Some h => Some h
    | None => to_ascii_lowercase <$> request.(rq_authority)
    end in
  match decide host request.(rq_method) request.(rq_path) with
  | Bypass | Allow _ _ => next request
  | RejectRoute =>
      problem StatusCode.NOT_FOUND "not_registry_route"
        "use api.zpkg.net for non-registry APIs" None
  | RejectMethod allow =>
      problem StatusCode.METHOD_NOT_ALLOWED "method_not_allowed"
        "method is not valid for this registry route" (Some allow)
  end.

Example decide_version :
  decide (Some "registry.zpkg.net:8443") "PUT" "/v1/packages/acme/http-kit/versions/1.0.0"
  = Allow "version" true.
Proof. vm_compute. reflexivity. Qed.

Example decide_account : decide (Some "registry.zpkg.net") "GET" "/v1/account" = RejectRoute.
Proof. vm_compute. reflexivity. Qed.

(** ** The surface, as a specification

    [surface segments route methods]: the machine-registry contract by itself,
    with no order between its clauses. *)
Inductive surface : list string → string → list string → Prop :=
| s_healthz : surface ["healthz"] "healthz" READ
| s_list : surface ["v1"; "packages"] "list_packages" READ
| s_package o p : slug o → slug p → surface ["v1"; "packages"; o; p] "get_package" READ
| s_version o p v : slug o → slug p → version_segment v →
    surface ["v1"; "packages"; o; p; "versions"; v] "version" VERSION
| s_yank o p v : slug o → slug p → version_segment v →
    surface ["v1"; "packages"; o; p; "versions"; v; "yank"] "yank" POST
| s_embedding o p : slug o → slug p →
    surface ["v1"; "packages"; o; p; "embedding"] "embedding" PUT
| s_declared o p v : slug o → slug p → version_segment v →
    surface ["v1"; "packages"; o; p; "versions"; v; "dependency-graph"] "declared_graph" READ
| s_export o p v f : slug o → slug p → version_segment v → slug f →
    surface ["v1"; "packages"; o; p; "versions"; v; "dependency-graph"; "export"; f]
      "declared_graph_export" READ
| s_artifact d : sha256 d → surface ["v1"; "artifacts"; d] "artifact" READ
| s_files o p v f rest : slug o → slug p → version_segment v →
    forallb file_segment (f :: rest) →
    surface ("v1" :: "files" :: o :: p :: v :: f :: rest) "files" READ
| s_search : surface ["v1"; "search"] "search" READ
| s_semantic : surface ["v1"; "search"; "semantic"] "semantic_search" POST
| s_orgs : surface ["v1"; "orgs"] "claim_org" POST
| s_audit o : slug o → surface ["v1"; "orgs"; o; "audit"] "audit" READ
| s_verify o : slug o → surface ["v1"; "orgs"; o; "audit"; "verify"] "audit_verify" READ
| s_resolution d : resolution_digest d →
    surface ["v1"; "resolutions"; d; "dependency-graph"] "resolution_graph" READ.

(** The segments a path is matched by: none when it is ambiguous or relative. *)
Definition path_segments (path : string) : option (list string) :=
  if ambiguous_path path then None
  else p ← strip_prefix "/" path; Some (split "/" (trim_end_matches "/" p)).

Lemma registry_route_segments path :
  registry_route path =
    (segments ← path_segments path;
     snd <$> List.find (λ arm, arm_matches arm.1 segments) route_arms).
Proof.
  unfold registry_route, path_segments. destruct (ambiguous_path path); [done|].
  by destruct (strip_prefix "/" path).
Qed.

(** Expose the segments that an arm's pattern forces. *)
Ltac invert_arm H :=
  cbn [arm_matches] in H;
  repeat match type of H with
  | match ?l with [] => _ | _ :: _ => _ end = true => destruct l as [|? l]; cbn [arm_matches] in H
  | (_ && _)%bool = true => let G := fresh "G" in apply andb_true_iff in H as [G H]
  end; try discriminate H; bool_to_prop; subst.

Lemma find_arm_surface segments r :
  snd <$> List.find (λ arm, arm_matches arm.1 segments) route_arms = Some r →
  surface segments r.(name) r.(methods).
Proof.
  destruct (List.find _ _) as [[pat spec]|] eqn:E; [|done]. intros [= <-].
  apply find_some in E as [Hin Hm]. cbn [fst] in Hm.
  unfold route_arms in Hin. cbn [In] in Hin.
  repeat destruct Hin as [[= <- <-]|Hin]; [..|done];
    unfold version_arm, pkg_arm in Hm; invert_arm Hm;
    cbn [name methods]; constructor; by apply Is_true_true.
Qed.

Lemma surface_find_arm segments n ms :
  surface segments n ms →
  snd <$> List.find (λ arm, arm_matches arm.1 segments) route_arms = Some (mk_route n ms).
Proof.
  intros H. destruct H; unfold route_arms, version_arm, pkg_arm; 
  repeat match goal with
  | H : Is_true _ |- _ => apply Is_true_true in H
  end; cbn [List.find arm_matches fst String.eqb Ascii.eqb Bool.eqb andb];
  repeat match goal with
  | H : ?g ?x = true |- context [?g ?x] => rewrite H
  end; try done.
Qed.

Lemma registry_route_surface path r :
  registry_route path = Some r ↔
  ∃ segments, path_segments path = Some segments ∧ surface segments r.(name) r.(methods).
Proof.
  rewrite registry_route_segments.
  destruct (path_segments path) as [segments|]; cbn; cycle 1.
  { split; [done|]. by intros (? & [=] & _). }
  split.
  - intros H. exists segments. split; [done|]. by apply find_arm_surface.
  - intros (s & [= <-] & H). destruct r. by apply surface_find_arm.
Qed.

(** ** Which requests are admitted *)

Definition safe_method (m : string) : bool := mem_str m ["GET"; "HEAD"; "OPTIONS"].

Lemma mem_str_In m l : mem_str m l = true ↔ In m l.
Proof.
  unfold mem_str. rewrite existsb_exists. split.
  - intros (x & Hin & Hx). bool_to_prop. by subst.
  - intros Hin. exists m. split; [done|]. apply String.eqb_refl.
Qed.

Lemma allow_header_spec segments n ms :
  surface segments n ms → allow_header ms = join ", " ms.
Proof. intros H. destruct H; by vm_compute. Qed.

Lemma decide_cases h m path :
  is_registry_host h = true →
  match decide (Some h) m path with
  | Bypass => False
  | Allow n mutating =>
      ∃ segments ms, path_segments path = Some segments ∧ surface segments n ms ∧
        In m ms ∧ mutating = negb (safe_method m)
  | RejectRoute =>
      ∀ segments n ms, path_segments path = Some segments → ¬ surface segments n ms
  | RejectMethod allow =>
      ∃ segments n ms, path_segments path = Some segments ∧ surface segments n ms ∧
        ¬ In m ms ∧ allow = join ", " ms
  end.
Proof.
  intros Hh. unfold decide. rewrite Hh. cbn [negb].
  destruct (registry_route path) as [r|] eqn:E.
  - apply registry_route_surface in E as (segments & Hs & Hr).
    destruct (mem_str m r.(methods)) eqn:Em; cbn [negb].
    + apply mem_str_In in Em. eauto 10.
    + exists segments, r.(name), r.(methods). repeat split; try done.
      * intros Hin%mem_str_In. congruence.
      * by eapply allow_header_spec.
  - intros segments n ms Hs Hsur.
    assert (registry_route path = Some (mk_route n ms)); [|congruence].
    apply registry_route_surface. eauto.
Qed.

(** C33: on a registry host the decision is exactly the contract [surface]: a
    request is admitted iff its unambiguous path has a route of the surface
    that lists the method; a path outside is rejected as a route; any other
    method of a known route is rejected with the header naming that route's
    methods. *)
Theorem decide_registry_host h m path :
  is_registry_host h = true →
  match decide (Some h) m path with
  | Bypass => False
  | Allow n mutating =>
      ∃ segments ms, path_segments path = Some segments ∧ surface segments n ms ∧
        In m ms ∧ mutating = negb (safe_method m)
  | RejectRoute =>
      ∀ segments n ms, path_segments path = Some segments → ¬ surface segments n ms
  | RejectMethod allow =>
      ∃ segments n ms, path_segments path = Some segments ∧ surface segments n ms ∧
        ¬ In m ms ∧ allow = join ", " ms
  end.
Proof. apply decide_cases. Qed.

Lemma decide_registry_host_witness :
  ∃ segments n ms, path_segments "/v1/search" = Some segments ∧ surface segments n ms ∧
    ¬ In "PUT" ms ∧ "GET, HEAD, OPTIONS" = join ", " ms.
Proof. exact (decide_registry_host "registry.zpkg.net" "PUT" "/v1/search" eq_refl). Defined.

(** The state-changing requests a registry host admits. *)
Definition mutating_surface (n m : string) : bool :=
  existsb (λ e, (e.1 =s n) && (e.2 =s m))
    [("version", "PUT"); ("yank", "POST"); ("embedding", "PUT");
     ("semantic_search", "POST"); ("claim_org", "POST")].

Lemma surface_mutating segments n ms m :
  surface segments n ms → In m ms →
  negb (safe_method m) = true ↔ mutating_surface n m = true.
Proof.
  intros H Hin. destruct H; cbn [In] in Hin; 
    repeat destruct Hin as [<-|Hin]; (done || (vm_compute; done)).
Qed.

(** A mutating request that a registry host admits is one of publish,
    yank, embedding upsert, semantic search or organization claim. *)
Theorem registry_mutations h m path n :
  is_registry_host h = true →
  decide (Some h) m path = Allow n true → mutating_surface n m = true.
Proof.
  intros Hh Hd. pose proof (decide_cases h m path Hh) as H.
  rewrite Hd in H. destruct H as (segments & ms & _ & Hs & Hin & Hmut).
  by eapply surface_mutating.
Qed.

Lemma registry_mutations_witness :
  mutating_surface "yank" "POST" = true.
Proof.
  apply (registry_mutations "registry.aws.zpkg.net" "POST"
    "/v1/packages/acme/kit/versions/1.0.0/yank"); vm_compute; reflexivity.
Defined.

Lemma path_segments_join segments :
  Forall (λ x, contains_char "/" x = false) segments →
  (∃ init last, segments = (init ++ [last])%list ∧ last ≠ "") →
  path_segments ("/" +:+ join "/" segments) = None ∨
  path_segments ("/" +:+ join "/" segments) = Some segments.
Proof.
  intros Hf (init & lst & Hl & Hne). unfold path_segments.
  destruct (ambiguous_path _); [by left|]. right.
  assert (strip_prefix "/" ("/" +:+ join "/" segments) = Some (join "/" segments)) as ->
    by (by apply strip_prefix_Some).
  cbn. f_equal.
  assert (trim_end_matches "/" (join "/" segments) = join "/" segments) as ->.
  2: { apply split_join; [|done]. subst. by destruct init. }
  assert (∃ a c, join "/" segments = a +:+ String c "" ∧ (c =c "/") = false) as (a & c & -> & Hc).
  { subst. assert (∃ a c, lst = a +:+ String c "" ∧ (c =c "/") = false) as (a & c & -> & Hc).
    { apply Forall_app in Hf as [_ Hf]. apply Forall_cons_1 in Hf as [Hf _]. clear init.
      induction lst as [|x l IH]; [done|]. cbn [contains_char] in Hf.
      apply orb_false_iff in Hf as [Hx Hf].
      destruct l as [|y l]; [by exists "", x|].
      destruct IH as (a & c & Hac & Hc); [done|done|].
      exists (String x a), c. by rewrite Hac. }
    clear Hf Hne. induction init as [|x init IH]; [by exists a, c|].
    destruct IH as (b & d & Hb & Hd).
    exists (x +:+ "/" +:+ b), d. split; [|done].
    cbn [app]. rewrite join_cons by (by destruct init). rewrite Hb.
    by rewrite !app_str_assoc. }
  by apply trim_end_by_app_keep.
Qed.

Definition registry_roots : list string :=
  ["packages"; "artifacts"; "files"; "search"; "orgs"; "resolutions"].

(** Fail closed. Whatever the method, a registry host rejects every path
    whose segments are not [healthz] and do not start with [v1] and one of the
    six registry collections: no account, auth, admin, storage or docs route,
    and no unknown one, is reachable. *)
Theorem registry_host_fails_closed h m segments :
  is_registry_host h = true →
  Forall (λ x, contains_char "/" x = false) segments →
  (∃ init last, segments = (init ++ [last])%list ∧ last ≠ "") →
  segments ≠ ["healthz"] →
  (∀ collection rest, segments = "v1" :: collection :: rest → ¬ In collection registry_roots) →
  decide (Some h) m ("/" +:+ join "/" segments) = RejectRoute.
Proof.
  intros Hh Hf Hlast Hhealth Hroots.
  pose proof (decide_cases h m ("/" +:+ join "/" segments) Hh) as H.
  assert (∀ n ms segs, path_segments ("/" +:+ join "/" segments) = Some segs →
           ¬ surface segs n ms) as Hno.
  { intros n ms segs Hs Hsur. destruct (path_segments_join segments Hf Hlast); [congruence|].
    assert (segs = segments) as -> by congruence.
    inversion Hsur; subst; try done;
      (eapply Hroots; [reflexivity|]; vm_compute; tauto). }
  destruct (decide _ _ _); [done| |done|].
  - destruct H as (segs & ms & Hs & Hsur & _). by destruct (Hno _ _ _ Hs Hsur).
  - destruct H as (segs & n & ms & Hs & Hsur & _). by destruct (Hno _ _ _ Hs Hsur).
Qed.

Lemma registry_host_fails_closed_witness :
  decide (Some "registry.zpkg.net") "GET" "/v1/session/bootstrap" = RejectRoute.
Proof.
  apply (registry_host_fails_closed "registry.zpkg.net" "GET" ["v1"; "session"; "bootstrap"]).
  - by vm_compute.
  - by repeat constructor.
  - by exists ["v1"; "session"], "bootstrap".
  - done.
  - intros c rest [= <- <-]. vm_compute. intuition discriminate.
Defined.

(** ** Host spellings *)

Lemma dot_lower c : (ascii_lower c =c ".") = (c =c ".").
Proof. apply eqb_true_iff. revert c. apply byte_forall. by vm_compute. Qed.

Lemma dots_end_trim a dots :
  sall (λ c, c =c ".") dots = true →
  trim_end_matches "." (a +:+ dots) = trim_end_matches "." a.
Proof. apply trim_end_by_app_drop. Qed.

(** The spellings of one registry host name [n] that clients use: any case, any
    number of trailing dots, any port. *)
Definition spells (n v : string) : Prop :=
  ∃ dots port, to_ascii_lowercase v = n +:+ dots +:+ port ∧
    sall (λ c, c =c ".") dots = true ∧
    (port = "" ∨ ∃ ds, port = String ":" ds ∧ sall is_ascii_digit ds = true).

Lemma digits_no_colon ds : sall is_ascii_digit ds = true → contains_char ":" ds = false.
Proof. intros H. by eapply sall_not_contains. Qed.

Lemma last_keep_port ds :
  sall is_ascii_digit ds = true → ∃ a c, String ":" ds = a +:+ String c "" ∧ (c =c ".") = false.
Proof.
  intros H. destruct (trim_end_by_last (λ _, false) (String ":" ds)) as [He|(a & c & Ha & _)].
  { cbn in He. by destruct (trim_end_by _ ds). }
  assert (trim_end_by (λ _, false) (String ":" ds) = String ":" ds) as Hid.
  { destruct (trim_end_by_decompose (λ _, false) (String ":" ds)) as (t & Ht & Hf).
    destruct t; [by rewrite app_str_nil_r in Ht|done]. }
  rewrite Hid in Ha. exists a, c. split; [done|].
  assert (sall (λ x, negb (x =c ".")) (String ":" ds) = true) as Hall.
  { cbn. eapply sall_impl; [|exact H]. intros x. apply implb_true_iff.
    revert x. apply byte_forall. by vm_compute. }
  rewrite Ha, sall_app in Hall. cbn in Hall. bool_to_prop.
  apply Ascii.eqb_neq. intros ->. done.
Qed.

(** A host name of the registry family, as DNS writes it. *)
Record registry_name (n : string) : Prop := {
  rn_family : n = "registry.zpkg.net" ∨
    (starts_with "registry." n = true ∧ ends_with ".zpkg.net" n = true);
  rn_graphic : sall is_ascii_graphic n = true;
  rn_no_port : contains_char ":" n = false;
}.

Section spellings.
Variables (n : string).
Hypothesis (Hn : registry_name n).

Lemma registry_name_prefix : ∃ r, n = String "r" r.
Proof.
  destruct (rn_family n Hn) as [->|[H _]]; [by eexists|].
  apply starts_with_spec in H as [t ->]. by eexists.
Qed.

Lemma registry_name_trim : trim_end_matches "." n = n.
Proof.
  assert (∃ a, n = a +:+ ".zpkg.net") as [a ->].
  { destruct (rn_family n Hn) as [->|[_ H]]; [by exists "registry"|by apply ends_with_spec]. }
  pose proof (trim_end_by_app_keep (λ c, c =c ".") (a +:+ ".zpkg.ne") "t" eq_refl) as H.
  by rewrite app_str_assoc in H.
Qed.

Lemma registry_name_matches :
  (n =s "registry.zpkg.net") || (starts_with "registry." n && ends_with ".zpkg.net" n) = true.
Proof.
  destruct (rn_family n Hn) as [->|[-> ->]]; [done|]. by rewrite orb_true_r.
Qed.

Lemma is_registry_host_spelling dots port :
  sall (λ c, c =c ".") dots = true →
  (port = "" ∨ ∃ ds, port = String ":" ds ∧ sall is_ascii_digit ds = true) →
  is_registry_host (n +:+ dots +:+ port) = true.
Proof.
  intros Hd Hp. unfold is_registry_host.
  assert (strip_port (n +:+ dots +:+ port) = n +:+ dots) as ->.
  { unfold strip_port. destruct registry_name_prefix as [r Hr].
    assert (starts_with "[" (n +:+ dots +:+ port) = false) as -> by (by rewrite Hr).
    assert (contains_char ":" (n +:+ dots) = false) as Hc.
    { rewrite contains_char_app, (rn_no_port n Hn). cbn.
      by apply (sall_not_contains (λ c, c =c ".")). }
    destruct Hp as [->|(ds & -> & Hds)].
    - rewrite app_str_nil_r. by rewrite (proj2 (rsplit_once_None _ _) Hc).
    - assert (rsplit_once ":" (n +:+ dots +:+ String ":" ds) = Some (n +:+ dots, ds)) as ->.
      { apply rsplit_once_Some. rewrite app_str_assoc. split; [done|by apply digits_no_colon]. }
      by rewrite Hds. }
  rewrite dots_end_trim, registry_name_trim by done. apply registry_name_matches.
Qed.

Lemma spells_graphic v : spells n v → sall is_ascii_graphic v = true.
Proof.
  intros (dots & port & Hv & Hd & Hp).
  rewrite <- (sall_ext _ _ v graphic_lower), <- (sall_smap is_ascii_graphic ascii_lower).
  fold (to_ascii_lowercase v). rewrite Hv, !sall_app, (rn_graphic n Hn).
  rewrite (sall_impl (λ c, c =c ".") is_ascii_graphic dots);
    [cbn| by intros c ->%Ascii.eqb_eq |done].
  destruct Hp as [->|(ds & -> & Hds)]; [done|]. cbn.
  eapply sall_impl; [|exact Hds]. intros c. apply implb_true_iff. revert c.
  apply byte_forall. by vm_compute.
Qed.

Lemma request_host_spelling headers v rest :
  headers "host" = Some v :: rest → spells n v →
  ∃ h, request_host headers = Some h ∧ is_registry_host h = true.
Proof.
  intros Hh Hv. unfold request_host, header_get. rewrite Hh. cbn.
  rewrite trim_graphic by (by apply spells_graphic).
  eexists. split; [done|].
  assert (to_ascii_lowercase (trim_end_matches "." v) = trim_end_matches "." (to_ascii_lowercase v))
    as -> by (symmetry; apply trim_end_by_smap, dot_lower).
  destruct Hv as (dots & port & -> & Hd & Hp).
  destruct Hp as [->|(ds & -> & Hds)].
  - rewrite app_str_nil_r, dots_end_trim, registry_name_trim by done.
    pose proof (is_registry_host_spelling "" "" eq_refl (or_introl eq_refl)) as H.
    by rewrite !app_str_nil_r in H.
  - destruct (last_keep_port ds Hds) as (a & c & Ha & Hc). rewrite Ha.
    rewrite <- !app_str_assoc. unfold trim_end_matches.
    rewrite trim_end_by_app_keep by done.
    rewrite !app_str_assoc, <- Ha. apply is_registry_host_spelling; eauto.
Qed.
End spellings.

(** No spelling of a registry host name escapes the boundary. Whatever the
    case, trailing dots and port of the Host header, the inner service runs
    only for a route of the surface with a listed method; every other request
    is answered 404 or 405 without running it. *)
Theorem registry_spelling_guarded n v rest request next :
  registry_name n → spells n v → request.(rq_headers) "host" = Some v :: rest →
  enforce_registry_host request next =
    match registry_route request.(rq_path) with
    | None => problem 404 "not_registry_route" "use api.zpkg.net for non-registry APIs" None
    | Some r =>
        if mem_str request.(rq_method) r.(methods) then next request
        else problem 405 "method_not_allowed" "method is not valid for this registry route"
               (Some (join ", " r.(methods)))
    end.
Proof.
  intros Hn Hv Hh.
  destruct (request_host_spelling n Hn _ _ _ Hh Hv) as (h & Hreq & Hreg).
  unfold enforce_registry_host, decide. rewrite Hreq, Hreg. cbn [negb].
  destruct (registry_route (rq_path request)) as [r|] eqn:E; [|done].
  destruct (mem_str _ _); cbn [negb]; [done|].
  apply registry_route_surface in E as (segments & _ & Hs).
  by rewrite (allow_header_spec _ _ _ Hs).
Qed.

Lemma registry_spelling_guarded_witness :
  r_status (enforce_registry_host
    (mk_request (λ n, if n =s "host" then [Some "Registry.ZPKG.net.:443"] else [])
       "GET" "/v1/account/me" None) (λ _, mk_response 200 [] JNull)) = 404.
Proof.
  rewrite (registry_spelling_guarded "registry.zpkg.net" "Registry.ZPKG.net.:443" []).
  - vm_compute. reflexivity.
  - split; [by left|by vm_compute|by vm_compute].
  - exists ".", ":443". split; [by vm_compute|]. split; [by vm_compute|].
    right. exists "443". split; by vm_compute.
  - reflexivity.
Defined.
