(* ===== verification/Flags.v ===== *)
(** * Process configuration ([src/flags.rs], with the dispatch of [src/main.rs])

    Which arguments the flag contract sees, how its values, the environment and
    the dotenv layers are merged, and what is refused. The parser itself is the
    flags-2-env package. *)

From stdpp Require Export gmap.
From S2P Require Export Http.

(** A parsed command line. *)
Record ParsedFlags := mk_parsed {
  unknown_options : list string;
  parse_errors : list string;
  extras : list string;
  dotenv : gmap string string;
  dotenv_overrides : gmap string string;
  provided_flags : gmap string string;
}.

(** [toml::Value], as far as the help text looks at it. *)
#[warnings="-register-all"]
Inductive toml : Type :=
| TomlString (s : string)
| TomlArray (items : list toml)
| TomlTable (members : list (string * toml))
| TomlScalar (text : string).

Class FlagsExternals := {
  CARGO_PKG_NAME : string;
  CARGO_PKG_VERSION : string;
  (** the temporary file of the embedded contract: creating it, writing it,
      and its path where that is UTF-8 *)
  create_contract : result string unit;
  write_contract : result string unit;
  contract_path : option string;
  audit_config : string → result string unit;
  parse_structured : list string → string → result string ParsedFlags;
  (** [coerce] to a JSON object, which iterates in the order of its keys *)
  coerce : gmap string string → string → result string (list (string * json));
  (** [toml::from_str] of the contract, and the [Display] of a value *)
  toml_contract : result string toml;
  toml_display : toml → string;
}.

(** ** Dispatch *)

Definition contract_command (args : list string) : option string :=
  match args !! 1%nat with
  | Some ("serve" | "migrate" | "healthcheck" | "help" | "version") as command => command
  | _ => None
  end.

Definition delegates_argv (args : list string) : bool :=
  match args !! 1%nat with
  | Some ("create-token" | "revoke-token") => true
  | _ => false
  end.

Definition argv_for_contract (argv : list string) (known_command : option string) : list string :=
  if negb (bool_decide (argv !! 1%nat = known_command)) then argv
  else match known_command with
  | Some "help" => <[1%nat := "--help"]> argv
  | Some "version" => <[1%nat := "--version"]> argv
  | Some _ => delete 1%nat argv
  | None => argv
  end.

(** ** Resolution *)

Definition option_name (option : string) : string :=
  match strip_prefix "--" option with
  | Some long => "--" +:+ take_until (λ c, c =c "=") long
  | None => take_chars 2 option
  end.

(** The distinct names in order, as a [BTreeSet] iterates. *)
Definition distinct_names (options : list string) : list string :=
  merge_sort String.le (elements (list_to_set (map option_name options) : gset string)).

(** What a parsed command line is refused for. *)
Definition check_parsed (parsed : ParsedFlags) : result string unit :=
  reject_if (negb (bool_decide (parsed.(unknown_options) = [])))
    ("unknown command-line option(s): " +:+ join ", " (distinct_names parsed.(unknown_options)));;
  reject_if (negb (bool_decide (parsed.(parse_errors) = [])))
    ("invalid command-line value(s): " +:+ dec_of_Z (zlength parsed.(parse_errors)) +:+ " error(s)");;
  reject_if (negb (bool_decide (parsed.(extras) = [])))
    ("unexpected positional argument(s): " +:+ dec_of_Z (zlength parsed.(extras))).

Definition legacy_spelling (value : string) : string :=
  if value =s "1" then "true" else if value =s "0" then "false" else value.

Definition normalize_legacy_boolean (values : gmap string string) (name : string) : gmap string string :=
  match values !! name with
  | Some value => <[name := legacy_spelling value]> values
  | None => values
  end.

Definition scalar_string (name : string) (value : json) : result string string :=
  match value with
  | JStr value => Ok value
  | JBool value => Ok (if value then "true" else "false")
  | JNum value => Ok value
  | _ => Err ("flags-2-env returned a non-scalar value for " +:+ name)
  end.

(** The merged values, later layers over earlier ones. *)
Definition merge_layers (parsed : ParsedFlags) (environment : gmap string string) : gmap string string :=
  let raw := environment ∪ parsed.(dotenv) in
  let raw := parsed.(dotenv_overrides) ∪ raw in
  let raw := delete "FLAGS2ENV_COMMAND" raw in
  let raw := parsed.(provided_flags) ∪ raw in
  normalize_legacy_boolean raw "ZED_RATE_LIMIT_DISABLED".

(** The typed values over the environment. *)
Fixpoint insert_typed (typed : list (string * json)) (resolved : gmap string string) : result string (gmap string string) :=
  match typed with
  | [] => Ok resolved
  | (name, JNull) :: typed => insert_typed typed resolved
  | (name, value) :: typed =>
      text ← scalar_string name value;
      insert_typed typed (<[name := text]> resolved)
  end.

(** ** Help *)

Fixpoint toml_member (key : string) (m : list (string * toml)) : option toml :=
  match m with
  | [] => None
  | (k, v) :: m => if k =s key then Some v else toml_member key m
  end.

Definition toml_str (v : toml) : option string := match v with TomlString s => Some s | _ => None end.
Definition toml_table (v : toml) : option (list (string * toml)) := match v with TomlTable m => Some m | _ => None end.
Definition toml_first (v : toml) : option toml := match v with TomlArray l => head l | _ => None end.

(** [{:<28}]. *)
Definition pad_right (width : Z) (s : string) : string :=
  s +:+ srepeat (Z.to_nat (width - char_count s)) " ".

Section flags.
Context `{flg : FlagsExternals}.

Definition help_row (name : string) (flag : list (string * toml)) : string :=
  let long := default name (aliases ← toml_member "aliases" flag; alias ← toml_first aliases; toml_str alias) in
  let short := s ← toml_member "short" flag; toml_str s in
  let value_type := default "string" (t ← toml_member "type" flag; toml_str t) in
  let option :=
    match short with
    | Some short => "-" +:+ short +:+ ", --" +:+ long
    | None => "--" +:+ long
    end +:+ (if value_type =s "bool" then "" else " <VALUE>") in
  let description := default "" (h ← toml_member "help" flag; toml_str h) in
  let default_text :=
    match toml_member "default" flag with
    | Some value => " [default: " +:+ toml_display value +:+ "]"
    | None => ""
    end in
  "  " +:+ pad_right 28 option +:+ " " +:+ description +:+ default_text +:+ String newline "".

Definition help_table : result string string :=
  contract ← map_err (λ error, "cannot read flags-2-env help metadata: " +:+ error) toml_contract;
  flags ← ok_or "flags-2-env contract has no flags table"
    (members ← toml_table contract; flags ← toml_member "flags" members; toml_table flags);
  Ok ("Usage: " +:+ CARGO_PKG_NAME +:+ " [OPTIONS]" +:+ String newline (String newline ("Options:" +:+ String newline ""))
      +:+ join "" (omap (λ '(name, flag), help_row name <$> toml_table flag) flags)).

Definition resolve_from (argv : list string) (environment : gmap string string) : result string (gmap string string) :=
  map_err (λ error, "cannot create embedded flags-2-env contract: " +:+ error) create_contract;;
  map_err (λ error, "cannot materialize embedded flags-2-env contract: " +:+ error) write_contract;;
  path ← ok_or "flags-2-env contract path is not valid UTF-8" contract_path;
  map_err (λ error, "flags-2-env contract audit failed: " +:+ error) (audit_config path);;
  parsed ← map_err (λ error, "flags-2-env parsing failed: " +:+ error) (parse_structured argv path);
  check_parsed parsed;;
  typed ← map_err (λ error, "flags-2-env typed configuration failed: " +:+ error)
    (coerce (merge_layers parsed environment) path);
  insert_typed typed environment.

(** [flags::var], once the configuration is resolved: a total lookup. *)
Definition var (resolved : gmap string string) (name : string) : option string := resolved !! name.

(** The output that ends the process instead of serving. *)
Definition process_control (args : list string) (environment : gmap string string) (known_command : option string)
    : result string (option string) :=
  values ← resolve_from (argv_for_contract args known_command) environment;
  if bool_decide (var values "CLI_HELP_REQUESTED" = Some "true") then h ← help_table; Ok (Some h)
  else if bool_decide (var values "CLI_VERSION_REQUESTED" = Some "true")
  then Ok (Some (CARGO_PKG_NAME +:+ " " +:+ CARGO_PKG_VERSION +:+ String newline ""))
  else Ok None.

(** The configuration of a subcommand that parses its own arguments. *)
Definition process_environment_only (environment : gmap string string) : result string (gmap string string) :=
  resolve_from [CARGO_PKG_NAME] environment.

(** What [main] does before it runs the server: print and stop, or go on with
    the resolved configuration. *)
Definition main_control (args : list string) (environment : gmap string string) : result string (option string) :=
  if delegates_argv args then process_environment_only environment;; Ok None
  else process_control args environment (contract_command args).
End flags.

(** ** Precedence *)

Lemma normalize_legacy_lookup values name k :
  normalize_legacy_boolean values name !! k = if k =s name then legacy_spelling <$> values !! name else values !! k.
Proof.
  unfold normalize_legacy_boolean. destruct (String.eqb_spec k name) as [->|Hk].
  - by destruct (values !! name) as [v|] eqn:E; simplify_map_eq.
  - by destruct (values !! name) as [v|] eqn:E; simplify_map_eq.
Qed.

(** The value a name has before coercion: a flag given on the command line,
    over the dotenv overrides, over the environment, over the dotenv files. *)
Definition layered (parsed : ParsedFlags) (environment : gmap string string) (name : string) : option string :=
  match parsed.(provided_flags) !! name with
  | Some v => Some v
  | None =>
      if name =s "FLAGS2ENV_COMMAND" then None
      else match parsed.(dotenv_overrides) !! name with
      | Some v => Some v
      | None => match environment !! name with Some v => Some v | None => parsed.(dotenv) !! name end
      end
  end.

(** The legacy spellings of the one switch that had numeric ones. *)
Definition legacy_boolean (name : string) (value : option string) : option string :=
  if name =s "ZED_RATE_LIMIT_DISABLED" then legacy_spelling <$> value else value.

Lemma merge_layers_lookup parsed environment name :
  merge_layers parsed environment !! name = legacy_boolean name (layered parsed environment name).
Proof.
  unfold merge_layers, legacy_boolean. rewrite normalize_legacy_lookup.
  assert (∀ k, (provided_flags parsed ∪ delete "FLAGS2ENV_COMMAND" (dotenv_overrides parsed ∪ (environment ∪ dotenv parsed))) !! k
    = layered parsed environment k) as H.
  { intros k. unfold layered. rewrite lookup_union.
    destruct (provided_flags parsed !! k) as [v|]; [by destruct (_ !! _)|].
    assert (∀ x : option string, None ∪ x = x) as Hnone by (by intros []). rewrite Hnone.
    destruct (String.eqb_spec k "FLAGS2ENV_COMMAND") as [->|Hk]; [by rewrite lookup_delete|].
    rewrite lookup_delete_ne, !lookup_union by done.
    destruct (dotenv_overrides parsed !! k), (environment !! k), (dotenv parsed !! k); done. }
  rewrite !H. by destruct (String.eqb_spec name "ZED_RATE_LIMIT_DISABLED") as [->|Hn].
Qed.

Lemma insert_typed_lookup typed resolved m :
  NoDup (map fst typed) → insert_typed typed resolved = Ok m →
  ∀ name, match jget typed name with
          | None | Some JNull => m !! name = resolved !! name
          | Some v => ∃ text, scalar_string name v = Ok text ∧ m !! name = Some text
          end.
Proof.
  revert resolved. induction typed as [|[k v] typed IH]; intros resolved Hnd H name; cbn in *; [congruence|].
  apply NoDup_cons in Hnd as [Hk Hnd].
  assert (k = name → jget typed name = None) as Hnone.
  { intros ->. clear -Hk. induction typed as [|[a b] typed IH]; [done|]. cbn in *.
    destruct (String.eqb_spec a name) as [->|]; [by destruct Hk; left|]. apply IH. intros H. apply Hk. by right. }
  destruct v; cbn in H.
  1: { specialize (IH _ Hnd H name). destruct (String.eqb_spec k name) as [Hkn|]; [|exact IH].
       rewrite (Hnone Hkn) in IH. exact IH. }
  4,5: discriminate H.
  all: specialize (IH _ Hnd H name); destruct (String.eqb_spec k name) as [Hkn|Hkn];
    [rewrite (Hnone Hkn) in IH; subst k; rewrite lookup_insert in IH; case_decide; [|done]; cbn; by eexists
    |rewrite lookup_insert_ne in IH by done; exact IH].
Qed.

Lemma check_parsed_Ok parsed :
  check_parsed parsed = Ok tt → unknown_options parsed = [] ∧ parse_errors parsed = [] ∧ extras parsed = [].
Proof. unfold check_parsed. intros H. inv_bind. bool_to_prop. done. Qed.

Class FlagsLaws `{flg : FlagsExternals} : Prop := {
  (** A JSON object has each key once. *)
  coerce_keys raw path typed : coerce raw path = Ok typed → NoDup (map fst typed);
}.

(** Resolution is by layers. A process starts only when its command line
    parses with no unknown option, no bad value and no stray argument; then a
    name has the typed value of the first layer that sets it, in the order
    command line, dotenv overrides, environment, dotenv files, and what the
    contract does not type keeps its environment value. *)
Theorem resolve_precedence `{flg : FlagsExternals} `{laws : !FlagsLaws} argv environment resolved :
  resolve_from argv environment = Ok resolved →
  ∃ path parsed typed, parse_structured argv path = Ok parsed ∧
    unknown_options parsed = [] ∧ parse_errors parsed = [] ∧ extras parsed = [] ∧
    (∃ raw, coerce raw path = Ok typed ∧ ∀ name, raw !! name = legacy_boolean name (layered parsed environment name)) ∧
    ∀ name, match jget typed name with
            | None | Some JNull => var resolved name = environment !! name
            | Some v => ∃ text, scalar_string name v = Ok text ∧ var resolved name = Some text
            end.
Proof.
  unfold resolve_from. intros H. destruct create_contract; [|done]. cbn in H. destruct write_contract; [|done]. cbn in H.
  destruct contract_path as [path|]; [|done]. cbn in H.
  destruct (audit_config path); [|done]. cbn in H.
  destruct (parse_structured argv path) as [parsed|] eqn:Ep; [|done]. cbn in H.
  destruct (check_parsed parsed) as [[]|] eqn:Ek; [|done]. cbn in H.
  apply check_parsed_Ok in Ek as (Hu & He & Hx).
  destruct (coerce _ path) as [typed|] eqn:Ec; [|done]. cbn in H.
  exists path, parsed, typed. split_and!; [done..| |].
  - exists (merge_layers parsed environment). split; [done|apply merge_layers_lookup].
  - by eapply insert_typed_lookup, H; eapply coerce_keys.
Qed.

(** ** Refusals name options, never their values *)

Lemma option_name_value name value :
  contains_char "=" name = false → option_name ("--" +:+ name +:+ "=" +:+ value) = "--" +:+ name.
Proof.
  intros Hn. unfold option_name. rewrite (proj2 (strip_prefix_Some "--" _ (name +:+ "=" +:+ value)) eq_refl). f_equal.
  change ("=" +:+ value) with (String "=" value). rewrite take_until_app; [done| |done].
  rewrite contains_char_sall in Hn. apply negb_false_iff in Hn. erewrite sall_ext; [exact Hn|done].
Qed.

Lemma refusal_by_names parsed parsed' :
  map option_name parsed.(unknown_options) = map option_name parsed'.(unknown_options) →
  length parsed.(parse_errors) = length parsed'.(parse_errors) → length parsed.(extras) = length parsed'.(extras) →
  check_parsed parsed = check_parsed parsed'.
Proof.
  intros Hu He Hx. unfold check_parsed, distinct_names, zlength. rewrite Hu, He, Hx.
  apply (f_equal length) in Hu. rewrite !length_map in Hu.
  destruct (unknown_options parsed), (unknown_options parsed'); try discriminate Hu;
    destruct (parse_errors parsed), (parse_errors parsed'); try discriminate He;
    destruct (extras parsed), (extras parsed'); try discriminate Hx; reflexivity.
Qed.
