(* ===== verification/World.v ===== *)
(** * Shared state of the registry process

    The legacy tables ([src/entities/*.rs]), the external functions the code
    calls, and the state-and-error monad the handlers are written in. *)

From stdpp Require Export gmap.
From S2P Require Export Http.

(** ** Rows ([src/entities])

    Identifiers are 128-bit UUIDs as numbers, instants are nanoseconds since
    the Unix epoch. *)
Abbreviation uuid := N.
Abbreviation instant := Z.

Record OrgRow := mk_org {
  org_id : uuid;
  org_slug : string;
  org_created_at : instant;
  org_created_by_token : option uuid;
}.

Record PackageRow := mk_package {
  pkg_id : uuid;
  pkg_org_id : uuid;
  pkg_name : string;
  pkg_description : option string;
  pkg_vcs : string;
  pkg_repo_url : string;
  pkg_version_scheme : string;
  pkg_tags : json;
  pkg_created_at : instant;
  pkg_index_sequence : Z;
  pkg_signed_index : option json;
}.

Record VersionRow := mk_version {
  ver_id : uuid;
  ver_package_id : uuid;
  ver_version : string;
  ver_sha256 : string;
  ver_size : Z;
  ver_format : string;
  ver_vcs_tag : string;
  ver_vcs_commit : option string;
  ver_artifact_key : string;
  ver_yanked : bool;
  ver_published_at : instant;
  ver_mirrors : json;
  ver_signatures : json;
}.

Record TokenRow := mk_token {
  tok_id : uuid;
  tok_name : string;
  tok_hash : string;
  tok_org_id : option uuid;
  tok_role : string;
  tok_created_at : instant;
  tok_expires_at : option instant;
  tok_revoked_at : option instant;
}.

Record AuditRow := mk_audit {
  aud_id : uuid;
  aud_org_id : uuid;
  aud_at : instant;
  aud_action : string;
  aud_subject : string;
  aud_actor_token_id : option uuid;
  aud_actor_token_name : string;
  aud_actor_role : string;
  aud_detail : option string;
  aud_seq : Z;
  aud_entry_hash : string;
  aud_prev_hash : option string;
}.

Record KeyRow := mk_key {
  key_row_id : uuid;
  key_org_id : uuid;
  key_key_id : string;
  key_algorithm : string;
  key_public_multibase : string;
  key_state : string;
  key_revoked_reason : option string;
  key_enrolled_at : instant;
}.

(** The tables, rows in insertion order. *)
Record Db := mk_db {
  orgs : list OrgRow;
  packages : list PackageRow;
  versions : list VersionRow;
  tokens : list TokenRow;
  audits : list AuditRow;
  keys : list KeyRow;
}.

Definition set_orgs (f : list OrgRow → list OrgRow) (d : Db) : Db :=
  mk_db (f d.(orgs)) d.(packages) d.(versions) d.(tokens) d.(audits) d.(keys).
Definition set_packages (f : list PackageRow → list PackageRow) (d : Db) : Db :=
  mk_db d.(orgs) (f d.(packages)) d.(versions) d.(tokens) d.(audits) d.(keys).
Definition set_versions (f : list VersionRow → list VersionRow) (d : Db) : Db :=
  mk_db d.(orgs) d.(packages) (f d.(versions)) d.(tokens) d.(audits) d.(keys).
Definition set_tokens (f : list TokenRow → list TokenRow) (d : Db) : Db :=
  mk_db d.(orgs) d.(packages) d.(versions) (f d.(tokens)) d.(audits) d.(keys).
Definition set_audits (f : list AuditRow → list AuditRow) (d : Db) : Db :=
  mk_db d.(orgs) d.(packages) d.(versions) d.(tokens) (f d.(audits)) d.(keys).
Definition set_keys (f : list KeyRow → list KeyRow) (d : Db) : Db :=
  mk_db d.(orgs) d.(packages) d.(versions) d.(tokens) d.(audits) (f d.(keys)).

Definition empty_db : Db := mk_db [] [] [] [] [] [].

(** What the code distinguishes of a [sea_orm::DbErr]. *)
Inductive DbErr : Type :=
| UniqueConstraintViolation
| DbOther.

(** ** Objects of the artifact store *)

(** An object of a bucket, an entry of the process-memory map, or a file. A
    directory of a file system has [o_file = false]. *)
Record Object := mk_object {
  o_bytes : string;
  o_file : bool;
  o_content_type : option string;
  o_cache_control : option string;
  o_metadata : option (list (string * string));
}.

(** What the code distinguishes of a [std::io::Error]. *)
Inductive IoErr : Type := NotFound | AlreadyExists | IoOther.

Abbreviation Objects := (gmap string Object).

(** ** External code

    Everything here lives outside the repository. A round trip to the database
    or to an object store is numbered by the [tick] of the process; the fault
    oracles say what happened to it, and [others_*] what other processes
    committed just before it. *)
Inductive Outcome : Type :=
| Done        (* performed, and the answer arrived *)
| NotDone     (* not performed; the caller sees an error *)
| AnswerLost. (* performed, but the caller sees an error *)

Class Externals := {
  (** [hex::encode(Sha256::digest(bytes))] *)
  digest_hex : string → string;
  (** [Uuid]'s [Display] and the [n]-th [Uuid::new_v4()] *)
  uuid_display : uuid → string;
  new_v4 : nat → uuid;
  (** [DateTime::to_rfc3339] and [Utc::now()] *)
  rfc3339 : instant → string;
  utc_now : nat → instant;
  db_outcome : nat → Outcome;
  others_db : nat → Db → Db;
  io_outcome : nat → Outcome;
  others_objects : nat → Objects → Objects;
}.

(** ** The monad *)

Record World := mk_world {
  tick : nat;
  db : Db;
  (** the working copy of an open transaction *)
  txn : option Db;
  objects : Objects;
}.

Definition M (E A : Type) : Type := World → result E A * World.

#[export] Instance M_ret E : MRet (M E) := λ A a w, (Ok a, w).
#[export] Instance M_bind E : MBind (M E) := λ A B k m w,
  match m w with
  | (Ok a, w') => k a w'
  | (Err e, w') => (Err e, w')
  end.

Definition fail {E A} (e : E) : M E A := λ w, (Err e, w).
Definition lift {E A} (r : result E A) : M E A := λ w, (r, w).

(** Look at the [Result] of a call instead of propagating its error. *)
Definition attempt {E F A} (m : M E A) : M F (result E A) := λ w, let '(r, w') := m w in (Ok r, w').

(** [m.map_err(f)?]. *)
Definition with_err {E F A} (f : E → F) (m : M E A) : M F A := λ w,
  let '(r, w') := m w in (map_err f r, w').

Definition set_db (d : Db) (w : World) : World := mk_world w.(tick) d w.(txn) w.(objects).
Definition set_txn (t : option Db) (w : World) : World := mk_world w.(tick) w.(db) t w.(objects).
Definition set_objects (o : Objects) (w : World) : World := mk_world w.(tick) w.(db) w.(txn) o.
Definition bump (w : World) : World := mk_world (S w.(tick)) w.(db) w.(txn) w.(objects).

Section ops.
Context `{ext : Externals}.

Definition uuid_v4 {E} : M E uuid := λ w, (Ok (new_v4 w.(tick)), bump w).
Definition now {E} : M E instant := λ w, (Ok (utc_now w.(tick)), bump w).

(** A statement outside a transaction: other processes' commits become
    visible, then the statement runs and commits by itself. *)
Definition on_db {A} (f : Db → result DbErr (A * Db)) : M DbErr A := λ w,
  let d := others_db w.(tick) w.(db) in
  match db_outcome w.(tick) with
  | NotDone => (Err DbOther, bump (set_db d w))
  | oc =>
      match f d with
      | Err e => (Err e, bump (set_db d w))
      | Ok (a, d') =>
          (match oc with Done => Ok a | _ => Err DbOther end, bump (set_db d' w))
      end
  end.

(** A file-system operation or an access to the in-process map. *)
Definition on_objects {A} (f : Objects → result IoErr (A * Objects)) : M IoErr A := λ w,
  let o := others_objects w.(tick) w.(objects) in
  match io_outcome w.(tick) with
  | NotDone => (Err IoOther, bump (set_objects o w))
  | oc =>
      match f o with
      | Err e => (Err e, bump (set_objects o w))
      | Ok (a, o') =>
          (match oc with Done => Ok a | _ => Err IoOther end, bump (set_objects o' w))
      end
  end.

(** [db.begin()]: the transaction starts from what is committed, and is not
    isolated: what others commit while it is open becomes visible to its
    statements as [in_txn] and [in_txn_rc] say. *)
Definition begin : M DbErr unit := λ w,
  let d := others_db w.(tick) w.(db) in
  match db_outcome w.(tick) with
  | Done => (Ok tt, bump (set_txn (Some d) (set_db d w)))
  | _ => (Err DbOther, bump (set_db d w))
  end.

(** A statement on rows the open transaction protects: rows it inserted or
    wrote, whose locks it holds, what its advisory lock covers, or an insertion
    that a conflicting one waits for. Others cannot change these until it ends;
    what else they commit in between commutes with the statement, and becomes
    visible at an [in_txn_rc] before it or after [commit]. Every transaction of
    the program takes its locks by an [in_txn_rc] statement first. *)
Definition in_txn {A} (f : Db → result DbErr (A * Db)) : M DbErr A := λ w,
  match w.(txn), db_outcome w.(tick) with
  | Some d, Done =>
      match f d with
      | Err e => (Err e, bump w)
      | Ok (a, d') => (Ok a, bump (set_txn (Some d') w))
      end
  | _, _ => (Err DbOther, bump w)
  end.

(** A statement under READ COMMITTED whose rows nothing protects: what others
    committed meanwhile is visible to it. *)
Definition in_txn_rc {A} (f : Db → result DbErr (A * Db)) : M DbErr A := λ w,
  match w.(txn), db_outcome w.(tick) with
  | Some d, Done =>
      let d := others_db w.(tick) d in
      match f d with
      | Err e => (Err e, bump (set_txn (Some d) w))
      | Ok (a, d') => (Ok a, bump (set_txn (Some d') w))
      end
  | _, _ => (Err DbOther, bump w)
  end.

Definition commit : M DbErr unit := λ w,
  match w.(txn), db_outcome w.(tick) with
  | Some d, Done => (Ok tt, bump (set_txn None (set_db d w)))
  | Some d, AnswerLost => (Err DbOther, bump (set_txn None (set_db d w)))
  | _, _ => (Err DbOther, bump (set_txn None w))
  end.

(** [txn.rollback()], and dropping an uncommitted transaction. *)
Definition rollback {E} : M E unit := λ w, (Ok tt, bump (set_txn None w)).
End ops.

(** The statements between [begin] and [commit]; an early return drops the
    transaction, which rolls it back. [fe] converts the errors of [begin] and
    [commit]. *)
Definition with_txn `{ext : Externals} {E A} (fe : DbErr → E) (body : M E A) : M E A :=
  with_err fe begin;;
  r ← attempt body;
  match r with
  | Ok a => with_err fe commit;; mret a
  | Err e => rollback;; fail e
  end.

(** Propagate a database error with [?]. *)
Definition db_q {A} (m : M DbErr A) : M ApiErr A := with_err (λ _, from_db_err) m.

(** ** Statements *)

Definition read {A} (f : Db → A) : Db → result DbErr (A * Db) := λ d, Ok (f d, d).

Definition find_org_by_slug (slug : string) (d : Db) : option OrgRow :=
  List.find (λ r, r.(org_slug) =s slug) d.(orgs).

Definition find_package_by_name (org : uuid) (name : string) (d : Db) : option PackageRow :=
  List.find (λ r, (r.(pkg_org_id) =? org)%N && (r.(pkg_name) =s name)) d.(packages).

Definition find_version_row (package : uuid) (version : string) (d : Db) : option VersionRow :=
  List.find (λ r, (r.(ver_package_id) =? package)%N && (r.(ver_version) =s version)) d.(versions).

(** Inserts check the primary key and the unique indexes of the migrations. *)
Definition insert_org (row : OrgRow) (d : Db) : result DbErr (unit * Db) :=
  if existsb (λ r, (r.(org_id) =? row.(org_id))%N || (r.(org_slug) =s row.(org_slug))) d.(orgs)
  then Err UniqueConstraintViolation
  else Ok (tt, set_orgs (λ l, l ++ [row])%list d).

Definition insert_version (row : VersionRow) (d : Db) : result DbErr (unit * Db) :=
  if existsb (λ r, (r.(ver_id) =? row.(ver_id))%N
       || ((r.(ver_package_id) =? row.(ver_package_id))%N && (r.(ver_version) =s row.(ver_version))))
       d.(versions)
  then Err UniqueConstraintViolation
  else Ok (tt, set_versions (λ l, l ++ [row])%list d).

Definition insert_audit (row : AuditRow) (d : Db) : result DbErr (unit * Db) :=
  if existsb (λ r, (r.(aud_id) =? row.(aud_id))%N
       || ((r.(aud_org_id) =? row.(aud_org_id))%N && (r.(aud_seq) =? row.(aud_seq))))
       d.(audits)
  then Err UniqueConstraintViolation
  else Ok (tt, set_audits (λ l, l ++ [row])%list d).

Definition insert_token (row : TokenRow) (d : Db) : result DbErr (unit * Db) :=
  if existsb (λ r, (r.(tok_id) =? row.(tok_id))%N || (r.(tok_hash) =s row.(tok_hash))) d.(tokens)
  then Err UniqueConstraintViolation
  else Ok (tt, set_tokens (λ l, l ++ [row])%list d).

Definition insert_key (row : KeyRow) (d : Db) : result DbErr (unit * Db) :=
  if existsb (λ r, (r.(key_row_id) =? row.(key_row_id))%N
       || ((r.(key_org_id) =? row.(key_org_id))%N && (r.(key_key_id) =s row.(key_key_id))))
       d.(keys)
  then Err UniqueConstraintViolation
  else Ok (tt, set_keys (λ l, l ++ [row])%list d).

(** ** Reasoning about runs

    Inversion lemmas: what a primitive did to the world, whatever the fault
    oracles chose. [M_inv] takes a run of a composed handler apart. *)

Section runs.
Context {E F A B : Type}.

Lemma bind_inv (m : M E A) (k : A → M E B) w r w' :
  mbind k m w = (r, w') →
  (∃ e, m w = (Err e, w') ∧ r = Err e) ∨ (∃ a w1, m w = (Ok a, w1) ∧ k a w1 = (r, w')).
Proof.
  unfold mbind, M_bind. destruct (m w) as [[a|e] w1] eqn:Em; [eauto|].
  intros [= <- <-]. eauto.
Qed.

Lemma attempt_inv (m : M E A) w (r : result F (result E A)) w' :
  attempt m w = (r, w') → ∃ x, r = Ok x ∧ m w = (x, w').
Proof. unfold attempt. destruct (m w) as [x w1]. intros [= <- <-]. eauto. Qed.

Lemma with_err_inv (f : E → F) (m : M E A) w r w' :
  with_err f m w = (r, w') → ∃ x, m w = (x, w') ∧ r = map_err f x.
Proof. unfold with_err. destruct (m w) as [x w1]. intros [= <- <-]. eauto. Qed.

Lemma mret_inv (a : A) w (r : result E A) w' : (mret a : M E A) w = (r, w') → r = Ok a ∧ w' = w.
Proof. by intros [= <- <-]. Qed.

Lemma lift_inv (x : result E A) w r w' : lift x w = (r, w') → r = x ∧ w' = w.
Proof. by intros [= <- <-]. Qed.

Lemma fail_inv (e : E) w (r : result E A) w' : fail e w = (r, w') → r = Err e ∧ w' = w.
Proof. by intros [= <- <-]. Qed.
End runs.

Section run_ops.
Context `{ext : Externals}.

Lemma begin_inv w r w' :
  begin w = (r, w') →
  tick w' = S (tick w) ∧ objects w' = objects w ∧ db w' = others_db (tick w) (db w) ∧
  ((r = Ok tt ∧ txn w' = Some (others_db (tick w) (db w))) ∨
   (r = Err DbOther ∧ txn w' = txn w)).
Proof.
  unfold begin. destruct (db_outcome (tick w)); intros [= <- <-]; cbn; auto 10.
Qed.

Lemma in_txn_inv {A} (f : Db → result DbErr (A * Db)) w r w' :
  in_txn f w = (r, w') →
  tick w' = S (tick w) ∧ objects w' = objects w ∧ db w' = db w ∧
  ((∃ d a d', txn w = Some d ∧ f d = Ok (a, d') ∧ r = Ok a ∧ txn w' = Some d') ∨
   (∃ e, r = Err e ∧ txn w' = txn w ∧
     (e = DbOther ∨ ∃ d, txn w = Some d ∧ f d = Err e))).
Proof.
  unfold in_txn. destruct (txn w) as [d|] eqn:Et; [destruct (db_outcome (tick w))|].
  - destruct (f d) as [[a d']|e] eqn:Ef; intros [= <- <-]; cbn; do 3 (split; [done|]).
    + left. by exists d, a, d'.
    + right. exists e. rewrite Et. split; [done|]. split; [done|]. eauto.
  - intros [= <- <-]; cbn; rewrite ?Et; eauto 15.
  - intros [= <- <-]; cbn; rewrite ?Et; eauto 15.
  - intros [= <- <-]; cbn; rewrite ?Et; eauto 15.
Qed.

Lemma in_txn_rc_inv {A} (f : Db → result DbErr (A * Db)) w r w' :
  in_txn_rc f w = (r, w') →
  tick w' = S (tick w) ∧ objects w' = objects w ∧ db w' = db w ∧
  ((∃ d a d', txn w = Some d ∧ f (others_db (tick w) d) = Ok (a, d') ∧ r = Ok a ∧ txn w' = Some d') ∨
   (∃ e, r = Err e ∧ (txn w' = txn w ∨ ∃ d, txn w = Some d ∧ txn w' = Some (others_db (tick w) d)) ∧
     (e = DbOther ∨ ∃ d, txn w = Some d ∧ f (others_db (tick w) d) = Err e))).
Proof.
  unfold in_txn_rc. destruct (txn w) as [d|] eqn:Et; [destruct (db_outcome (tick w))|].
  - destruct (f _) as [[a d']|e] eqn:Ef; intros [= <- <-]; cbn; do 3 (split; [done|]).
    + left. by exists d, a, d'.
    + right. exists e. split; [done|]. split; [right; by exists d|]. eauto.
  - intros [= <- <-]; cbn; rewrite ?Et; eauto 15.
  - intros [= <- <-]; cbn; rewrite ?Et; eauto 15.
  - intros [= <- <-]; cbn; rewrite ?Et; eauto 15.
Qed.

Lemma commit_inv w r w' :
  commit w = (r, w') →
  tick w' = S (tick w) ∧ objects w' = objects w ∧ txn w' = None ∧
  ((r = Ok tt ∧ txn w = Some (db w')) ∨
   (r = Err DbOther ∧ (db w' = db w ∨ txn w = Some (db w')))).
Proof.
  unfold commit. destruct (txn w) as [d|]; destruct (db_outcome (tick w));
    intros [= <- <-]; cbn; auto 10.
Qed.

Lemma rollback_inv {E} w (r : result E unit) w' :
  rollback w = (r, w') →
  r = Ok tt ∧ tick w' = S (tick w) ∧ objects w' = objects w ∧ db w' = db w ∧ txn w' = None.
Proof. by intros [= <- <-]. Qed.

Lemma uuid_v4_inv {E} w (r : result E uuid) w' :
  uuid_v4 w = (r, w') →
  r = Ok (new_v4 (tick w)) ∧ tick w' = S (tick w) ∧ objects w' = objects w ∧
  db w' = db w ∧ txn w' = txn w.
Proof. by intros [= <- <-]. Qed.

Lemma now_inv {E} w (r : result E instant) w' :
  now w = (r, w') →
  r = Ok (utc_now (tick w)) ∧ tick w' = S (tick w) ∧ objects w' = objects w ∧
  db w' = db w ∧ txn w' = txn w.
Proof. by intros [= <- <-]. Qed.

Lemma on_db_inv {A} (f : Db → result DbErr (A * Db)) w r w' :
  on_db f w = (r, w') →
  let d := others_db (tick w) (db w) in
  tick w' = S (tick w) ∧ objects w' = objects w ∧ txn w' = txn w ∧
  ((∃ a d', f d = Ok (a, d') ∧ r = Ok a ∧ db w' = d') ∨
   (∃ e, r = Err e ∧ (db w' = d ∨ e = DbOther ∧ ∃ a, f d = Ok (a, db w')) ∧
     (e = DbOther ∨ f d = Err e))).
Proof.
  unfold on_db. destruct (db_outcome (tick w)).
  - destruct (f _) as [[a d']|e] eqn:Ef; intros [= <- <-]; cbn; do 3 (split; [done|]).
    + left. by exists a, d'.
    + right. exists e. auto.
  - intros [= <- <-]; cbn. do 3 (split; [done|]). right. exists DbOther. auto.
  - destruct (f _) as [[a d']|e] eqn:Ef; intros [= <- <-]; cbn; do 3 (split; [done|]);
      right.
    + exists DbOther. split; [done|]. split; [right; eauto|auto].
    + exists e. auto.
Qed.

Lemma on_objects_inv {A} (f : Objects → result IoErr (A * Objects)) w r w' :
  on_objects f w = (r, w') →
  let o := others_objects (tick w) (objects w) in
  tick w' = S (tick w) ∧ db w' = db w ∧ txn w' = txn w ∧
  ((∃ a o', f o = Ok (a, o') ∧ r = Ok a ∧ objects w' = o') ∨
   (∃ e, r = Err e ∧ (objects w' = o ∨ e = IoOther ∧ ∃ a, f o = Ok (a, objects w')) ∧
     (e = IoOther ∨ f o = Err e))).
Proof.
  unfold on_objects. destruct (io_outcome (tick w)).
  - destruct (f _) as [[a o']|e] eqn:Ef; intros [= <- <-]; cbn; do 3 (split; [done|]).
    + left. by exists a, o'.
    + right. exists e. auto.
  - intros [= <- <-]; cbn. do 3 (split; [done|]). right. exists IoOther. auto.
  - destruct (f _) as [[a o']|e] eqn:Ef; intros [= <- <-]; cbn; do 3 (split; [done|]);
      right.
    + exists IoOther. split; [done|]. split; [right; eauto|auto].
    + exists e. auto.
Qed.

(** A read leaves exactly what the others committed. *)
Lemma on_db_read_inv {A} (f : Db → A) w r w' :
  on_db (read f) w = (r, w') →
  tick w' = S (tick w) ∧ objects w' = objects w ∧ txn w' = txn w ∧
  db w' = others_db (tick w) (db w) ∧
  (r = Ok (f (db w')) ∨ r = Err DbOther).
Proof.
  intros H%on_db_inv. cbn in H. destruct H as (? & ? & ? & H).
  destruct H as [(a & d' & [= <- <-] & -> & Hd)|(e & -> & Hd & [->|[=]])].
  - rewrite Hd. split_and!; auto.
  - destruct Hd as [Hd|(_ & a & [= _ Hd])]; split_and!; auto.
Qed.
End run_ops.

(** Split the run in [H] at its first bind: the case where the first part
    fails (dropped when the run is known to succeed), and the rest. *)
Ltac M_step H :=
  let e := fresh "e" in let a := fresh "a" in let w1 := fresh "w" in
  let H1 := fresh "R" in let Hr := fresh "Hr" in
  apply bind_inv in H as [(e & H1 & Hr)|(a & w1 & H1 & H)]; cbn beta zeta in *;
  [first [discriminate Hr | injection Hr as Hr; subst e | subst]|..].

(** ** Relations every step of a program respects

    [respects R m]: whatever [m] returns, it leaves a world related to the one
    it started in. With [R] a preorder this is closed under composition, so a
    handler is analysed step by step by [respects_tac]. *)

Section respects.
Context (R : World → World → Prop) `{!PreOrder R}.

Definition respects {E A} (m : M E A) : Prop := ∀ w r w', m w = (r, w') → R w w'.

Lemma respects_bind {E A B} (m : M E A) (k : A → M E B) :
  respects m → (∀ a, respects (k a)) → respects (mbind k m).
Proof.
  intros Hm Hk w r w' H. apply bind_inv in H as [(e & H & _)|(a & w1 & H1 & H2)].
  - by eapply Hm.
  - etrans; [by eapply Hm|by eapply Hk].
Qed.

Lemma respects_ret {E A} (a : A) : respects (mret a : M E A).
Proof. intros w r w' [_ ->]%mret_inv. reflexivity. Qed.

Lemma respects_lift {E A} (x : result E A) : respects (lift x).
Proof. intros w r w' [_ ->]%lift_inv. reflexivity. Qed.

Lemma respects_fail {E A} (e : E) : respects (fail e : M E A).
Proof. intros w r w' [_ ->]%fail_inv. reflexivity. Qed.

Lemma respects_attempt {E F A} (m : M E A) : respects m → respects (attempt m : M F (result E A)).
Proof. intros Hm w r w' H. apply attempt_inv in H as (x & _ & H). by eapply Hm. Qed.

Lemma respects_with_err {E F A} (f : E → F) (m : M E A) : respects m → respects (with_err f m).
Proof. intros Hm w r w' H. apply with_err_inv in H as (x & H & _). by eapply Hm. Qed.
End respects.

(** Take a program apart down to its primitives, which hints discharge. *)
Create HintDb respects discriminated.
#[global] Hint Constants Opaque : respects.

Ltac respects_step :=
  match goal with
  | |- respects _ (mbind _ _) => apply respects_bind; [typeclasses eauto| |intros ?]
  | |- respects _ (mret _) => apply respects_ret; typeclasses eauto
  | |- respects _ (lift _) => apply respects_lift; typeclasses eauto
  | |- respects _ (fail _) => apply respects_fail; typeclasses eauto
  | |- respects _ (attempt _) => apply respects_attempt
  | |- respects _ (with_err _ _) => apply respects_with_err
  | |- respects _ (if ?b then _ else _) => destruct b
  | |- respects _ (match ?x with _ => _ end) => destruct x
  | |- respects _ (let '(_, _) := ?x in _) => destruct x
  | |- respects _ _ => solve [eauto with respects]
  end.
Ltac respects_tac := repeat respects_step.

(** Case analysis on the value the rest of the run in [H] looks at. *)
Ltac run_case H :=
  match type of H with
  | (match ?x with _ => _ end) _ = _ => destruct x
  end;
  try (by apply fail_inv in H as [[=] _]);
  try (by apply mret_inv in H as [[=] _]);
  try (by apply lift_inv in H as [[=] _]).

(** What a bracketed transaction did: nothing but see the others' commits, or
    run the body on a working copy which it then published or dropped. *)
Lemma with_txn_inv `{ext : Externals} {E A} (fe : DbErr → E) (body : M E A) w r w' :
  with_txn fe body w = (r, w') →
  let d := others_db (tick w) (db w) in
  (db w' = d ∧ ∀ a, r ≠ Ok a) ∨
  ∃ w1 x w2, txn w1 = Some d ∧ db w1 = d ∧ body w1 = (x, w2) ∧
    ((∃ a, x = Ok a ∧ (db w' = db w2 ∨ txn w2 = Some (db w')) ∧
        ∀ b, r = Ok b → b = a ∧ txn w2 = Some (db w')) ∨
     (∃ e, x = Err e ∧ r = Err e ∧ db w' = db w2)).
Proof.
  intros H. cbn zeta. unfold with_txn in H.
  M_step H; apply with_err_inv in R as (x & R & Hx);
    apply begin_inv in R as (_ & _ & Hdb & Ht).
  { left. split; [done|]. done. }
  destruct Ht as [[-> Ht]|[-> Ht]]; [|done].
  M_step H; [by apply attempt_inv in R as (? & [=] & _)|].
  apply attempt_inv in R as (y & [= ->] & R). right.
  exists w0, y, w1. split_and!; [done..|]. destruct y as [b|e].
  - left. exists b. split; [done|].
    M_step H; apply with_err_inv in R0 as (z & R0 & Hz);
      apply commit_inv in R0 as (_ & _ & Htc & Hc).
    + split; [|done]. destruct Hc as [[_ Hc]|[_ [Hc|Hc]]]; auto.
    + apply mret_inv in H as [-> ->]. destruct Hc as [[_ Hc]|[-> _]]; [|done].
      split; [auto|]. by intros c [= ->].
  - right. exists e. M_step H; apply rollback_inv in R0 as ([=] & _ & _ & Hdb2 & Ht2).
    by apply fail_inv in H as [-> ->].
Qed.

(** *** Programs that leave the object store alone *)

Definition objects_quiet (w w' : World) : Prop := objects w' = objects w.

#[export] Instance objects_quiet_preorder : PreOrder objects_quiet.
Proof. split; [done|]. intros a b c H1 H2. unfold objects_quiet in *. congruence. Qed.

Section objects_quiet.
Context `{ext : Externals}.

Lemma objects_on_db {A} (f : Db → result DbErr (A * Db)) : respects objects_quiet (on_db f).
Proof. intros w r w' H. by apply on_db_inv in H as (_ & Ho & _). Qed.
Lemma objects_in_txn {A} (f : Db → result DbErr (A * Db)) : respects objects_quiet (in_txn f).
Proof. intros w r w' H. by apply in_txn_inv in H as (_ & Ho & _). Qed.
Lemma objects_in_txn_rc {A} (f : Db → result DbErr (A * Db)) : respects objects_quiet (in_txn_rc f).
Proof. intros w r w' H. by apply in_txn_rc_inv in H as (_ & Ho & _). Qed.
Lemma objects_begin : respects objects_quiet begin.
Proof. intros w r w' H. by apply begin_inv in H as (_ & Ho & _). Qed.
Lemma objects_commit : respects objects_quiet commit.
Proof. intros w r w' H. by apply commit_inv in H as (_ & Ho & _). Qed.
Lemma objects_rollback {E} : respects objects_quiet (rollback : M E unit).
Proof. by intros w r w' [= _ <-]. Qed.
Lemma objects_uuid {E} : respects objects_quiet (uuid_v4 : M E uuid).
Proof. by intros w r w' [= _ <-]. Qed.
Lemma objects_now {E} : respects objects_quiet (now : M E instant).
Proof. by intros w r w' [= _ <-]. Qed.
End objects_quiet.

#[export] Hint Resolve objects_on_db objects_in_txn objects_in_txn_rc objects_begin objects_commit objects_rollback
  objects_uuid objects_now : respects.

(** ** Relations between table states

    [K] relates a database to what it may become. A statement outside a
    transaction moves the committed tables by [K]; a transaction moves its
    working copy, which its commit publishes. *)

Section db_relations.
Context `{ext : Externals} (K : Db → Db → Prop) `{!PreOrder K}.
Hypothesis rely : ∀ t d, K d (others_db t d).

Definition db_rel (w w' : World) : Prop :=
  txn w = None → txn w' = None ∧ K (db w) (db w').
Definition txn_rel (w w' : World) : Prop :=
  db w' = db w ∧ ∀ d, txn w = Some d → ∃ d', txn w' = Some d' ∧ K d d'.

#[export] Instance db_rel_preorder : PreOrder db_rel.
Proof.
  split; [by intros w H|]. intros a b c H1 H2 Ha. destruct (H1 Ha) as [Hb K1].
  destruct (H2 Hb) as [Hc K2]. split; [done|by etrans].
Qed.

#[export] Instance txn_rel_preorder : PreOrder txn_rel.
Proof.
  split; [intros w; split; [done|intros d Hd; by exists d]|]. intros a b c [H1 T1] [H2 T2]. split; [congruence|].
  intros d Hd. destruct (T1 d Hd) as (d1 & Hd1 & K1). destruct (T2 d1 Hd1) as (d2 & Hd2 & K2).
  exists d2. split; [done|by etrans].
Qed.

(** A program that leaves tables and transaction alone. *)
Definition db_quiet (w w' : World) : Prop := db w' = db w ∧ txn w' = txn w.

#[export] Instance db_quiet_preorder : PreOrder db_quiet.
Proof. split; [done|]. intros a b c [H1 H2] [H3 H4]. split; congruence. Qed.

Lemma quiet_db_rel {E A} (m : M E A) : respects db_quiet m → respects db_rel m.
Proof. intros H w r w' Hr Ht. destruct (H _ _ _ Hr) as [-> ->]. done. Qed.

Lemma quiet_txn_rel {E A} (m : M E A) : respects db_quiet m → respects txn_rel m.
Proof. intros H w r w' Hr. destruct (H _ _ _ Hr) as [H1 H2]. split; [done|]. rewrite H2. intros d Hd. by exists d. Qed.

Lemma quiet_uuid {E} : respects db_quiet (uuid_v4 : M E uuid).
Proof. by intros w r w' [= _ <-]. Qed.

Lemma quiet_now {E} : respects db_quiet (now : M E instant).
Proof. by intros w r w' [= _ <-]. Qed.

Lemma on_db_rel {A} (f : Db → result DbErr (A * Db)) :
  (∀ d a d', f d = Ok (a, d') → K d d') → respects db_rel (on_db f).
Proof.
  intros Hf w r w' H Ht. apply on_db_inv in H as (_ & _ & Htx & H). split; [congruence|].
  etrans; [apply (rely (tick w))|].
  destruct H as [(a & d' & Ho & _ & ->)|(e & _ & Ho & _)]; [by eapply Hf|].
  destruct Ho as [->|(_ & a & Ho)]; [done|by eapply Hf].
Qed.

Lemma on_db_read_rel {A} (f : Db → A) : respects db_rel (on_db (read f)).
Proof. apply on_db_rel. by intros d a d' [= _ <-]. Qed.

Lemma in_txn_rel {A} (f : Db → result DbErr (A * Db)) :
  (∀ d a d', f d = Ok (a, d') → K d d') → respects txn_rel (in_txn f).
Proof.
  intros Hf w r w' H. apply in_txn_inv in H as (_ & _ & Hdb & H). split; [done|].
  intros d Hd. destruct H as [(d1 & a & d' & Ht & Ho & _ & Ht')|(e & _ & Ht & _)].
  - exists d'. split; [done|]. simplify_eq. by eapply Hf.
  - exists d. rewrite Ht. done.
Qed.

Lemma in_txn_read_rel {A} (f : Db → A) : respects txn_rel (in_txn (read f)).
Proof. apply in_txn_rel. by intros d a d' [= _ <-]. Qed.

Lemma in_txn_rc_rel {A} (f : Db → result DbErr (A * Db)) :
  (∀ d a d', f d = Ok (a, d') → K d d') → respects txn_rel (in_txn_rc f).
Proof.
  intros Hf w r w' H. apply in_txn_rc_inv in H as (_ & _ & Hdb & H). split; [done|].
  intros d Hd. destruct H as [(d1 & a & d' & Ht & Ho & _ & Ht')|(e & _ & [Ht|(d1 & Ht & Ht')] & _)].
  - exists d'. split; [done|]. simplify_eq. etrans; [apply (rely (tick w))|by eapply Hf].
  - exists d. by rewrite Ht.
  - simplify_eq. eexists. split; [done|apply rely].
Qed.

Lemma in_txn_rc_read_rel {A} (f : Db → A) : respects txn_rel (in_txn_rc (read f)).
Proof. apply in_txn_rc_rel. by intros d a d' [= _ <-]. Qed.

Lemma with_txn_rel {E A} (fe : DbErr → E) (body : M E A) :
  respects txn_rel body → respects db_rel (with_txn fe body).
Proof.
  intros Hbody w r w' H Hw. unfold with_txn in H.
  M_step H; apply with_err_inv in R as (x & R & Hx);
    apply begin_inv in R as (_ & _ & Hdb & Ht).
  { destruct Ht as [[-> _]|[-> Ht]]; [done|]. split; [congruence|]. rewrite Hdb. apply rely. }
  destruct Ht as [[-> Ht]|[-> Ht]]; [|done].
  M_step H; [by apply attempt_inv in R as (? & [=] & _)|].
  apply attempt_inv in R as (y & [= ->] & R).
  destruct (Hbody _ _ _ R) as [Hdb1 Ht1]. destruct (Ht1 _ Ht) as (d' & Htx & HK).
  assert (K (db w) d') as HK' by (etrans; [apply (rely (tick w))|done]).
  destruct y as [b|e].
  - M_step H; apply with_err_inv in R0 as (z & R0 & Hz);
      apply commit_inv in R0 as (_ & _ & Htc & Hc).
    + split; [done|]. destruct Hc as [[-> Hc]|[-> [Hc|Hc]]].
      * rewrite Htx in Hc. by injection Hc as <-.
      * rewrite Hc, Hdb1, Hdb. apply rely.
      * rewrite Htx in Hc. by injection Hc as <-.
    + apply mret_inv in H as [_ ->]. split; [done|].
      destruct Hc as [[_ Hc]|[-> _]]; [|done]. rewrite Htx in Hc. by injection Hc as <-.
  - M_step H; apply rollback_inv in R0 as ([=] & _ & _ & Hdb2 & Ht2).
    apply fail_inv in H as [_ ->]. split; [done|]. rewrite Hdb2, Hdb1, Hdb. apply rely.
Qed.
End db_relations.

#[export] Hint Resolve quiet_uuid quiet_now : respects.
#[export] Hint Extern 5 (respects (db_rel _) _) =>
  apply quiet_db_rel; [typeclasses eauto|] : respects.
#[export] Hint Extern 5 (respects (txn_rel _) _) =>
  apply quiet_txn_rel; [typeclasses eauto|] : respects.
#[export] Hint Extern 1 (respects (db_rel _) (on_db (read _))) =>
  apply on_db_read_rel; [typeclasses eauto|assumption] : respects.
#[export] Hint Extern 1 (respects (txn_rel _) (in_txn (read _))) =>
  apply in_txn_read_rel; typeclasses eauto : respects.
#[export] Hint Extern 1 (respects (txn_rel _) (in_txn_rc (read _))) =>
  apply in_txn_rc_read_rel; [typeclasses eauto|assumption] : respects.
