(* ===== verification/Transactions.v ===== *)
(** * Transactions as scripts

    What a transaction does between [begin] and its end, statement by statement,
    so that it can be run by itself ([run_script]) and among others
    ([ClaimPool]). *)

From S2P Require Export World.

(** [Lock] takes a transaction-scoped advisory lock, [Run] sends a statement,
    [Draw] draws an identifier and reads the clock; [Finish] ends the script,
    which commits on [Ok] and rolls back on [Err]. *)
Inductive Script (A : Type) : Type :=
| Finish (r : ApiResult A)
| Lock (number : Z) (k : result DbErr unit → Script A)
| Run {B : Type} (f : Db → result DbErr (B * Db)) (k : result DbErr B → Script A)
| Draw (k : uuid → instant → Script A).

Arguments Finish {A} r.
Arguments Lock {A} number k.
Arguments Run {A B} f k.
Arguments Draw {A} k.

Fixpoint script_bind {A B} (k : A → Script B) (s : Script A) : Script B :=
  match s with
  | Finish (Ok a) => k a
  | Finish (Err e) => Finish (Err e)
  | Lock n c => Lock n (λ r, script_bind k (c r))
  | Run f c => Run f (λ r, script_bind k (c r))
  | Draw c => Draw (λ id t, script_bind k (c id t))
  end.

#[export] Instance script_mret : MRet Script := λ A a, Finish (Ok a).
#[export] Instance script_mbind : MBind Script := λ A B k s, script_bind k s.

Definition refuse {A} (e : ApiErr) : Script A := Finish (Err e).

(** A lock and a statement with [?], and a statement whose [Result] is looked
    at. *)
Definition advisory_lock (number : Z) : Script unit :=
  Lock number (λ r, Finish (map_err (λ _, from_db_err) r)).
Definition statement {B} (f : Db → result DbErr (B * Db)) : Script B :=
  Run f (λ r, Finish (map_err (λ _, from_db_err) r)).
Definition try_statement {B} (f : Db → result DbErr (B * Db)) : Script (result DbErr B) :=
  Run f (λ r, Finish (Ok r)).
Definition fresh : Script (uuid * instant) := Draw (λ id t, Finish (Ok (id, t))).

(** One script, run in the open transaction of the process while others commit:
    waiting for a lock, and every statement, sees what they have. *)
Fixpoint run_script `{ext : Externals} {A} (s : Script A) : M ApiErr A :=
  match s with
  | Finish r => lift r
  | Lock _ k => r ← attempt (in_txn_rc (read (λ _, tt))); run_script (k r)
  | Run f k => r ← attempt (in_txn_rc f); run_script (k r)
  | Draw k => id ← uuid_v4; t ← now; run_script (k id t)
  end.

Lemma objects_run_script `{ext : Externals} {A} (s : Script A) : respects objects_quiet (run_script s).
Proof. induction s; cbn [run_script]; respects_tac; auto. Qed.

#[export] Hint Resolve objects_run_script : respects.
