(* ===== verification/Recording.v ===== *)
(** * Runs that record what they issue

    A handler whose writes are operations of another crate leaves no trace of
    them in the registry's own state, so its run returns the calls it issued
    beside its answer, in order; a calculus of such runs. *)

From S2P Require Export World.

(** A run over the state, with errors [E], that issues calls [L]. *)
Definition Recorded (E L A : Type) : Type := World → result E A * World * list L.

#[export] Instance recorded_ret {E L} : MRet (Recorded E L) := λ A a w, (Ok a, w, []).
#[export] Instance recorded_bind {E L} : MBind (Recorded E L) := λ A B k m w,
  match m w with
  | (Ok a, w1, l1) => let '(r, w2, l2) := k a w1 in (r, w2, (l1 ++ l2)%list)
  | (Err e, w1, l1) => (Err e, w1, l1)
  end.

(** A step that issues nothing. *)
Definition silent {E L A} (m : M E A) : Recorded E L A := λ w, let '(r, w') := m w in (r, w', []).
Definition checked {E L A} (r : result E A) : Recorded E L A := silent (lift r).

(** A step that issues one call. *)
Definition issue {E L A} (call : nat → result E A * L) : Recorded E L A := λ w,
  let '(r, c) := call w.(tick) in (r, bump w, [c]).

(** The run's answer as a value, its calls kept. *)
Definition settle {E F L A} (m : Recorded E L A) : Recorded F L (result E A) := λ w,
  let '(r, w', l) := m w in (Ok r, w', l).

(** ** Runs *)

(** The legacy tables and the object store are as before. *)
Definition untouched (w w' : World) : Prop := db w' = db w ∧ objects w' = objects w.

#[export] Instance untouched_preorder : PreOrder untouched.
Proof. split; [done|]. intros x y z [? ?] [? ?]. split; congruence. Qed.

Section calculus.
Context {E L : Type}.

(** Every run of [m] leaves them alone, and its outcome and calls satisfy
    [Q]. *)
Definition runs {A} (m : Recorded E L A) (Q : result E A → list L → Prop) : Prop :=
  ∀ w, let '(r, w', l) := m w in untouched w w' ∧ Q r l.

Lemma runs_weaken {A} (m : Recorded E L A) (Q Q' : result E A → list L → Prop) :
  runs m Q → (∀ r l, Q r l → Q' r l) → runs m Q'.
Proof. intros H HQ w. specialize (H w). destruct (m w) as [[r w'] l]. naive_solver. Qed.

Lemma runs_ret {A} (a : A) (Q : result E A → list L → Prop) : Q (Ok a) [] → runs (mret a) Q.
Proof. intros H w. cbn. by split. Qed.

Lemma runs_bind {A B} (m : Recorded E L A) (k : A → Recorded E L B) (P : result E A → list L → Prop) Q :
  runs m P →
  (∀ e l, P (Err e) l → Q (Err e) l) →
  (∀ a l, P (Ok a) l → runs (k a) (λ r l', Q r (l ++ l')%list)) →
  runs (mbind k m) Q.
Proof.
  intros Hm He Hk w. unfold mbind, recorded_bind. specialize (Hm w). destruct (m w) as [[[a|e] w1] l1].
  - destruct Hm as [U HP]. specialize (Hk a l1 HP w1). destruct (k a w1) as [[r w2] l2].
    destruct Hk as [U2 HQ]. split; [by etrans|done].
  - destruct Hm as [U HP]. split; [done|by apply He].
Qed.

(** A step that issues nothing, with what is known of its answers. *)
Lemma runs_silent {A B} (m : M E A) (k : A → Recorded E L B) (P : result E A → Prop) Q :
  (∀ w, let '(r, w') := m w in untouched w w' ∧ P r) →
  (∀ e, P (Err e) → Q (Err e) []) →
  (∀ a, P (Ok a) → runs (k a) Q) →
  runs (mbind k (silent m)) Q.
Proof.
  intros Hm He Hk. eapply (runs_bind _ _ (λ r l, l = [] ∧ P r)).
  - intros w. unfold silent. specialize (Hm w). destruct (m w). naive_solver.
  - intros e l [-> HP]. by apply He.
  - intros a l [-> HP]. by apply Hk.
Qed.

Lemma runs_check {A B} (x : result E A) (k : A → Recorded E L B) Q :
  (∀ e, x = Err e → Q (Err e) []) → (∀ a, x = Ok a → runs (k a) Q) → runs (mbind k (checked x)) Q.
Proof. intros He Hk. apply (runs_silent _ _ (λ r, r = x)); [by intros w|by intros e <-; apply He|by intros a <-; apply Hk]. Qed.

Lemma runs_bind_ret {A B} (a : A) (k : A → Recorded E L B) Q : runs (k a) Q → runs (mbind k (mret a)) Q.
Proof.
  intros Hk w. specialize (Hk w). unfold mbind, recorded_bind, mret, recorded_ret. by destruct (k a w) as [[r w'] l].
Qed.

Lemma runs_assoc {A B C} (m : Recorded E L A) (g : A → Recorded E L B) (k : B → Recorded E L C) Q :
  runs (mbind (λ a, mbind k (g a)) m) Q → runs (mbind k (mbind g m)) Q.
Proof.
  intros H w. specialize (H w). unfold mbind, recorded_bind in *. destruct (m w) as [[[a|e] w1] l1]; [|done].
  destruct (g a w1) as [[[b|e] w2] l2]; [|done]. destruct (k b w2) as [[r w3] l3]. by rewrite <- app_assoc.
Qed.

Lemma runs_unit {A} (m : Recorded E L A) Q : runs (mbind mret m) Q → runs m Q.
Proof.
  intros H w. specialize (H w). unfold mbind, recorded_bind in H. destruct (m w) as [[[a|e] w1] l1]; [|done].
  cbn in H. by rewrite app_nil_r in H.
Qed.

(** A loop that issues nothing: what holds of each answer holds of all. *)
Lemma runs_mapM {A B C} (f : A → Recorded E L B) (xs : list A) (k : list B → Recorded E L C) (P : A → B → Prop) Q :
  (∀ x, x ∈ xs → runs (f x) (λ r l, l = [] ∧ match r with Ok b => P x b | Err e => Q (Err e) [] end)) →
  (∀ ys, Forall2 P xs ys → runs (k ys) Q) →
  runs (mbind k (mapM f xs)) Q.
Proof.
  intros Hf Hk.
  assert (∀ zs, (∀ x, x ∈ zs → x ∈ xs) →
    runs (mapM f zs) (λ r l, l = [] ∧ match r with Ok ys => Forall2 P zs ys | Err e => Q (Err e) [] end)) as H.
  { induction zs as [|z zs IH]; intros Hin; [apply runs_ret; by split|]. cbn.
    eapply runs_bind; [apply Hf, Hin; by left|naive_solver|]. intros b l [-> Hb].
    eapply runs_bind; [apply IH; intros x Hx; apply Hin; by right|naive_solver|]. intros ys l [-> Hys].
    apply runs_ret. split; [done|by constructor]. }
  eapply runs_bind; [by apply H|naive_solver|]. intros ys l [-> Hys]. by apply Hk.
Qed.

Lemma runs_issue {A} (call : nat → result E A * L) Q :
  (∀ t, let '(r, c) := call t in Q r [c]) → runs (issue call) Q.
Proof. intros H w. unfold issue. specialize (H (tick w)). by destruct (call (tick w)) as [r c]. Qed.
End calculus.

Lemma runs_settle {E F L A B} (m : Recorded E L A) (k : result E A → Recorded F L B) (P : result E A → list L → Prop) Q :
  runs m P → (∀ r l, P r l → runs (k r) (λ r' l', Q r' (l ++ l')%list)) → runs (mbind k (settle m)) Q.
Proof.
  intros Hm Hk. eapply (runs_bind _ _ (λ x l, ∃ r, x = Ok r ∧ P r l)).
  - intros w. unfold settle. specialize (Hm w). destruct (m w) as [[r w'] l]. naive_solver.
  - by intros e l (r & [=] & _).
  - intros r l (r' & [= <-] & H). by apply Hk.
Qed.

Section clock.
Context `{ext : Externals} {E L : Type}.

Lemma runs_uuid {B} (k : uuid → Recorded E L B) Q : (∀ u, runs (k u) Q) → runs (mbind k (silent uuid_v4)) Q.
Proof. intros Hk. apply (runs_silent _ _ (λ r, is_ok r = true)); [by intros w|done|by intros a _; apply Hk]. Qed.

Lemma runs_now {B} (k : instant → Recorded E L B) Q : (∀ t, runs (k (utc_now t)) Q) → runs (mbind k (silent now)) Q.
Proof.
  intros Hk. apply (runs_silent _ _ (λ r, ∃ t, r = Ok (utc_now t))).
  - intros w. split; [done|by eexists].
  - by intros e [t [=]].
  - intros a [t [= ->]]. apply Hk.
Qed.
End clock.
