(* ===== verification/Rbac.v ===== *)
(** * Role-based access control ([src/rbac.rs]) *)

From S2P Require Export World.

Inductive Role : Type := Owner | Publisher | Reader.

#[export] Instance role_eq_dec : EqDecision Role.
Proof. solve_decision. Defined.

Module RoleImpl.
Definition parse (s : string) : Role :=
  if s =s "owner" then Owner
  else if s =s "publisher" then Publisher
  else if s =s "reader" then Reader
  else Reader.

Definition as_str (r : Role) : string :=
  match r with Owner => "owner" | Publisher => "publisher" | Reader => "reader" end.

Definition is_valid (s : string) : bool :=
  (s =s "owner") || (s =s "publisher") || (s =s "reader").

Definition can_publish (r : Role) : bool :=
  match r with Owner | Publisher => true | Reader => false end.

Definition can_manage (r : Role) : bool :=
  match r with Owner => true | _ => false end.
End RoleImpl.

Definition authorize_publish (token_org : option uuid) (role : Role) (target_org : uuid)
    : ApiResult unit :=
  match token_org with
  | None => Ok tt
  | Some scope =>
      if negb (scope =? target_org)%N then Err unauthorized
      else if RoleImpl.can_publish role then Ok tt
      else Err (forbidden "insufficient_role"
        ("this token's role (`" +:+ RoleImpl.as_str role +:+
         "`) cannot publish; a `publisher` or `owner` token is required"))
  end.

Definition authorize_manage (token_org : option uuid) (role : Role) (target_org : uuid)
    : ApiResult unit :=
  match token_org with
  | None => Ok tt
  | Some scope =>
      if negb (scope =? target_org)%N then Err unauthorized
      else if RoleImpl.can_manage role then Ok tt
      else Err (forbidden "insufficient_role"
        ("this token's role (`" +:+ RoleImpl.as_str role +:+
         "`) cannot manage the org; an `owner` token is required"))
  end.

(** The two authorizers on a stored token row. *)
Definition may_publish (t : TokenRow) (target : uuid) : Prop :=
  t.(tok_org_id) = None ∨
  t.(tok_org_id) = Some target ∧ (t.(tok_role) = "owner" ∨ t.(tok_role) = "publisher").

Definition may_manage (t : TokenRow) (target : uuid) : Prop :=
  t.(tok_org_id) = None ∨ t.(tok_org_id) = Some target ∧ t.(tok_role) = "owner".

Lemma parse_can_publish s :
  RoleImpl.can_publish (RoleImpl.parse s) = true ↔ s = "owner" ∨ s = "publisher".
Proof.
  unfold RoleImpl.parse.
  destruct (String.eqb_spec s "owner"); [naive_solver|].
  destruct (String.eqb_spec s "publisher"); [naive_solver|].
  destruct (s =s "reader"); naive_solver.
Qed.

Lemma parse_can_manage s : RoleImpl.can_manage (RoleImpl.parse s) = true ↔ s = "owner".
Proof.
  unfold RoleImpl.parse.
  destruct (String.eqb_spec s "owner"); [naive_solver|].
  destruct (s =s "publisher"), (s =s "reader"); naive_solver.
Qed.

Lemma parse_as_str r : RoleImpl.parse (RoleImpl.as_str r) = r.
Proof. by destruct r. Qed.

Lemma authorize_publish_cases (t : TokenRow) (target : uuid) :
  (authorize_publish t.(tok_org_id) (RoleImpl.parse t.(tok_role)) target = Ok tt
     ↔ may_publish t target) ∧
  (∀ e, authorize_publish t.(tok_org_id) (RoleImpl.parse t.(tok_role)) target = Err e →
     (e = unauthorized ∧ ∃ o, t.(tok_org_id) = Some o ∧ o ≠ target) ∨
     (e.(status) = 403 ∧ e.(code) = "insufficient_role" ∧ t.(tok_org_id) = Some target)) ∧
  (authorize_manage t.(tok_org_id) (RoleImpl.parse t.(tok_role)) target = Ok tt
     ↔ may_manage t target) ∧
  (may_manage t target → may_publish t target).
Proof.
  unfold authorize_publish, authorize_manage, may_publish, may_manage.
  pose proof (parse_can_publish (tok_role t)) as Hp.
  pose proof (parse_can_manage (tok_role t)) as Hm.
  destruct (tok_org_id t) as [o|]; [|naive_solver].
  destruct (N.eqb_spec o target) as [->|Hne]; cbn [negb].
  - destruct (RoleImpl.can_publish _), (RoleImpl.can_manage _); naive_solver.
  - naive_solver.
Qed.

(** A publish (or yank) is authorized exactly for an unscoped token and for
    a token of the target organization whose stored role is [owner] or
    [publisher]; a token of another organization is refused as
    [unauthorized] whatever its role, and only the role of a token in scope is
    ever disclosed. *)
Theorem authorize_publish_spec (t : TokenRow) (target : uuid) :
  (authorize_publish t.(tok_org_id) (RoleImpl.parse t.(tok_role)) target = Ok tt
     ↔ may_publish t target) ∧
  (∀ e, authorize_publish t.(tok_org_id) (RoleImpl.parse t.(tok_role)) target = Err e →
     (e = unauthorized ∧ ∃ o, t.(tok_org_id) = Some o ∧ o ≠ target) ∨
     (e.(status) = 403 ∧ e.(code) = "insufficient_role" ∧ t.(tok_org_id) = Some target)) ∧
  (authorize_manage t.(tok_org_id) (RoleImpl.parse t.(tok_role)) target = Ok tt
     ↔ may_manage t target) ∧
  (may_manage t target → may_publish t target).
Proof. apply authorize_publish_cases. Qed.
