(* ===== verification/AuditTrail.v ===== *)
(** * The audit trail ([src/audit.rs])

    A per-organization append-only hash chain: [append_chained] adds a link
    under a transaction, [record] retries it, [verify_chain] walks a chain. *)

From S2P Require Export Rbac.

(** The digest input of an entry and the action names come from the shared
    interface crate. *)
Inductive AuditAction : Type := Publish | Yank | Unyank | OrgClaim.

Record AuditChainInput := mk_chain_input {
  in_org_id : string;
  in_seq : Z;
  in_at : string;
  in_action : string;
  in_subject : string;
  in_actor_token_id : option string;
  in_actor_token_name : string;
  in_actor_role : string;
  in_detail : option string;
  in_prev_hash : string;
}.

Class AuditExternals := {
  audit_chain_preimage : AuditChainInput → string;
  action_as_str : AuditAction → string;
}.

Definition ADMIN_ROLE : string := "admin".
Definition APPEND_ATTEMPTS : nat := 4.

Definition actor_role (t : TokenRow) : string :=
  match t.(tok_org_id) with None => ADMIN_ROLE | Some _ => t.(tok_role) end.

Section audit.
Context `{ext : Externals} `{aext : AuditExternals}.

Definition entry_digest (input : AuditChainInput) : string :=
  digest_hex (audit_chain_preimage input).

(** The current instant truncated to microseconds. *)
Definition truncate_micros (t : instant) : instant := t - t mod 1000.
Definition chain_timestamp {E} : M E instant := t ← now; mret (truncate_micros t).

Definition org_rows (org : uuid) (d : Db) : list AuditRow :=
  List.filter (λ r, (r.(aud_org_id) =? org)%N) d.(audits).

Definition append_chained (org : uuid) (token : TokenRow) (action : AuditAction)
    (subject : string) (detail : option string) : M DbErr unit :=
  begin ;;
  in_txn_rc (read (λ _, tt)) ;; (* pg_advisory_xact_lock: waits, then covers the chain *)
  tip ← in_txn (read (λ d, head (order_by_desc aud_seq (org_rows org d))));
  let seq := wrap_i64 (match tip with Some t => t.(aud_seq) | None => 0 end + 1) in
  let prev_hash :=
    t ← tip; if is_empty t.(aud_entry_hash) then None else Some t.(aud_entry_hash) in
  at_ ← chain_timestamp;
  let entry_hash := entry_digest {|
    in_org_id := uuid_display org;
    in_seq := wrap_u64 seq;
    in_at := rfc3339 at_;
    in_action := action_as_str action;
    in_subject := subject;
    in_actor_token_id := Some (uuid_display token.(tok_id));
    in_actor_token_name := token.(tok_name);
    in_actor_role := actor_role token;
    in_detail := detail;
    in_prev_hash := default "" prev_hash |} in
  id ← uuid_v4;
  in_txn (insert_audit {|
    aud_id := id;
    aud_org_id := org;
    aud_at := at_;
    aud_action := action_as_str action;
    aud_subject := subject;
    aud_actor_token_id := Some token.(tok_id);
    aud_actor_token_name := token.(tok_name);
    aud_actor_role := actor_role token;
    aud_detail := detail;
    aud_seq := seq;
    aud_entry_hash := entry_hash;
    aud_prev_hash := prev_hash |}) ;;
  commit.

Definition is_position_taken (e : DbErr) : bool :=
  match e with UniqueConstraintViolation => true | DbOther => false end.

(** The retry loop of [record], over the attempts left. A failed attempt
    drops its transaction. *)
Fixpoint record_loop (attempts : nat) (org : uuid) (token : TokenRow) (action : AuditAction)
    (subject : string) (detail : option string) : M ApiErr unit :=
  match attempts with
  | O => mret tt
  | S attempts =>
      r ← attempt (append_chained org token action subject detail);
      match r with
      | Ok _ => mret tt
      | Err e =>
          rollback ;;
          if is_position_taken e then record_loop attempts org token action subject detail
          else mret tt
      end
  end.

Definition record : uuid → TokenRow → AuditAction → string → option string → M ApiErr unit :=
  record_loop APPEND_ATTEMPTS.

(** ** Verification *)

Definition expected_hash (row : AuditRow) (prev_hash : string) : string :=
  entry_digest {|
    in_org_id := uuid_display row.(aud_org_id);
    in_seq := wrap_u64 row.(aud_seq);
    in_at := rfc3339 row.(aud_at);
    in_action := row.(aud_action);
    in_subject := row.(aud_subject);
    in_actor_token_id := uuid_display <$> row.(aud_actor_token_id);
    in_actor_token_name := row.(aud_actor_token_name);
    in_actor_role := row.(aud_actor_role);
    in_detail := row.(aud_detail);
    in_prev_hash := prev_hash |}.

Inductive ChainProblem : Type := HashMismatch | BrokenLink | SequenceGap.

Definition problem_as_str (p : ChainProblem) : string :=
  match p with
  | HashMismatch => "hash_mismatch"
  | BrokenLink => "broken_link"
  | SequenceGap => "sequence_gap"
  end.

Record ChainReport := mk_report {
  intact : bool;
  entries_checked : Z;
  first_bad_seq : option Z;
  chain_problem : option ChainProblem;
  head_hash : option string;
}.

(** [r.seq > 0 && !r.entry_hash.is_empty()]: rows older than the chain are
    skipped. *)
Definition is_chained (r : AuditRow) : bool :=
  (0 <? r.(aud_seq)) && negb (is_empty r.(aud_entry_hash)).

Fixpoint verify_loop (rows : list AuditRow) (prev_hash : string) (expected_seq : option Z)
    (checked : Z) (head : option string) : ChainReport :=
  match rows with
  | [] => mk_report true checked None None head
  | row :: rows =>
      let gap := match expected_seq with
                 | Some want => negb (row.(aud_seq) =? want)
                 | None => false
                 end in
      if gap then mk_report false checked expected_seq (Some SequenceGap) head
      else if negb (expected_hash row prev_hash =s row.(aud_entry_hash)) then
        let problem :=
          if expected_hash row (default "" row.(aud_prev_hash)) =s row.(aud_entry_hash)
          then BrokenLink else HashMismatch in
        mk_report false checked (Some row.(aud_seq)) (Some problem) head
      else
        verify_loop rows row.(aud_entry_hash) (Some (wrap_i64 (row.(aud_seq) + 1)))
          (checked + 1) (Some row.(aud_entry_hash))
  end.

Definition verify_chain (rows : list AuditRow) : ChainReport :=
  verify_loop (List.filter is_chained rows) "" None 0 None.
End audit.
