(* ===== verification/AuditFacts.v ===== *)
(** * The audit chain: what verification means, tamper evidence, and
    preservation by appends *)

From S2P Require Export AuditTrail.

Section chain.
Context `{ext : Externals} `{aext : AuditExternals}.

(** The chain, as a specification: each row hashes with its predecessor's
    hash to its own [entry_hash], and positions are consecutive. *)
Fixpoint chain_ok (prev : string) (want : option Z) (rows : list AuditRow) : Prop :=
  match rows with
  | [] => True
  | r :: rows =>
      (∀ s, want = Some s → r.(aud_seq) = s) ∧
      expected_hash r prev = r.(aud_entry_hash) ∧
      chain_ok r.(aud_entry_hash) (Some (wrap_i64 (r.(aud_seq) + 1))) rows
  end.

Definition tip_hash (prev : string) (rows : list AuditRow) : string :=
  match last rows with Some r => r.(aud_entry_hash) | None => prev end.
Definition next_seq (want : option Z) (rows : list AuditRow) : option Z :=
  match last rows with Some r => Some (wrap_i64 (r.(aud_seq) + 1)) | None => want end.

Lemma tip_hash_cons prev r rows : tip_hash prev (r :: rows) = tip_hash r.(aud_entry_hash) rows.
Proof. unfold tip_hash. destruct rows as [|r' rows]; [done|]. rewrite last_cons. by destruct (last (r' :: rows)) eqn:E; [|apply last_None in E]. Qed.

Lemma next_seq_cons want r rows :
  next_seq want (r :: rows) = next_seq (Some (wrap_i64 (r.(aud_seq) + 1))) rows.
Proof. unfold next_seq. destruct rows as [|r' rows]; [done|]. rewrite last_cons. by destruct (last (r' :: rows)) eqn:E; [|apply last_None in E]. Qed.

Lemma chain_ok_app prev want l1 l2 :
  chain_ok prev want (l1 ++ l2) ↔
  chain_ok prev want l1 ∧ chain_ok (tip_hash prev l1) (next_seq want l1) l2.
Proof.
  revert prev want. induction l1 as [|r l1 IH]; intros prev want; cbn [app chain_ok].
  - unfold tip_hash, next_seq. cbn. tauto.
  - rewrite IH, tip_hash_cons, next_seq_cons. tauto.
Qed.

(** Why a row does not extend the chain [good]. *)
Definition broken (prev : string) (want : option Z) (bad : AuditRow) (rep : ChainReport) : Prop :=
  match rep.(chain_problem) with
  | Some SequenceGap =>
      ∃ s, want = Some s ∧ bad.(aud_seq) ≠ s ∧ rep.(first_bad_seq) = Some s
  | Some BrokenLink =>
      rep.(first_bad_seq) = Some bad.(aud_seq) ∧
      expected_hash bad prev ≠ bad.(aud_entry_hash) ∧
      expected_hash bad (default "" bad.(aud_prev_hash)) = bad.(aud_entry_hash)
  | Some HashMismatch =>
      rep.(first_bad_seq) = Some bad.(aud_seq) ∧
      expected_hash bad prev ≠ bad.(aud_entry_hash) ∧
      expected_hash bad (default "" bad.(aud_prev_hash)) ≠ bad.(aud_entry_hash)
  | None => False
  end.

Definition last_hash (h : option string) (rows : list AuditRow) : option string :=
  match last rows with Some r => Some r.(aud_entry_hash) | None => h end.

Lemma last_hash_cons h r rows : last_hash h (r :: rows) = last_hash (Some r.(aud_entry_hash)) rows.
Proof. unfold last_hash. destruct rows as [|r' rows]; [done|]. rewrite last_cons. by destruct (last (r' :: rows)) eqn:E; [|apply last_None in E]. Qed.

Lemma verify_loop_spec rows prev want n h :
  let rep := verify_loop rows prev want n h in
  (chain_ok prev want rows ∧
   rep = mk_report true (n + Z.of_nat (length rows)) None None (last_hash h rows)) ∨
  (∃ good bad rest, rows = (good ++ bad :: rest)%list ∧ chain_ok prev want good ∧
     rep.(intact) = false ∧ rep.(entries_checked) = n + Z.of_nat (length good) ∧
     rep.(head_hash) = last_hash h good ∧
     broken (tip_hash prev good) (next_seq want good) bad rep).
Proof.
  revert prev want n h. induction rows as [|r rows IH]; intros prev want n h; cbn zeta.
  { left. split; [done|]. cbn. by rewrite Z.add_0_r. }
  cbn [verify_loop].
  destruct (match want with Some w => negb (aud_seq r =? w) | None => false end) eqn:Egap.
  { right. exists [], r, rows. destruct want as [w|]; [|done]. bool_to_prop.
    cbn. split_and!; [done..|lia|done|]. exists w. done. }
  assert (∀ s, want = Some s → aud_seq r = s) as Hwant.
  { intros s ->. by bool_to_prop. }
  destruct (expected_hash r prev =s aud_entry_hash r) eqn:Eh; cbn [negb]; bool_to_prop.
  - destruct (IH (aud_entry_hash r) (Some (wrap_i64 (aud_seq r + 1))) (n + 1)
      (Some (aud_entry_hash r))) as [[Hok ->]|(good & bad & rest & -> & Hg & Hi & Hc & Hh & Hb)].
    + left. cbn [chain_ok]. split; [done|]. rewrite last_hash_cons. f_equal.
      cbn [length]. lia.
    + right. exists (r :: good), bad, rest. cbn [chain_ok app length].
      rewrite tip_hash_cons, next_seq_cons, last_hash_cons.
      split_and!; try done. rewrite Hc. lia.
  - right. exists [], r, rows. cbn [app chain_ok length].
    split_and!; [done|done|done|cbn; lia|done|]. unfold broken, tip_hash. cbn.
    destruct (_ =s _) eqn:Eo; bool_to_prop; done.
Qed.

Lemma verify_chain_cases rows :
  let chained := List.filter is_chained rows in
  let rep := verify_chain rows in
  (chain_ok "" None chained ∧
   rep = mk_report true (Z.of_nat (length chained)) None None (last_hash None chained)) ∨
  (¬ chain_ok "" None chained ∧
   ∃ good bad rest, chained = (good ++ bad :: rest)%list ∧ chain_ok "" None good ∧
     rep.(intact) = false ∧ rep.(entries_checked) = Z.of_nat (length good) ∧
     rep.(head_hash) = last_hash None good ∧
     broken (tip_hash "" good) (next_seq None good) bad rep).
Proof.
  cbn zeta. unfold verify_chain.
  destruct (verify_loop_spec (List.filter is_chained rows) "" None 0 None)
    as [[Hok ->]|(good & bad & rest & Heq & Hg & Hi & Hc & Hh & Hb)]; [by left|].
  right. split; [|by exists good, bad, rest].
  rewrite Heq, chain_ok_app. intros [_ (Hs & He & _)].
  unfold broken in Hb.
  destruct (chain_problem _) as [[]|]; [naive_solver..| |done].
  destruct Hb as (s & Hw & Hne & _). by apply Hne, Hs.
Qed.

(** [verify_chain] decides the specification. It reports an intact chain
    exactly when every chained row links to its predecessor, with the count
    and the head hash; otherwise it stops after the longest good prefix and
    names the problem of the next row. *)
Theorem verify_chain_spec rows :
  let chained := List.filter is_chained rows in
  let rep := verify_chain rows in
  (chain_ok "" None chained ∧
   rep = mk_report true (Z.of_nat (length chained)) None None (last_hash None chained)) ∨
  (¬ chain_ok "" None chained ∧
   ∃ good bad rest, chained = (good ++ bad :: rest)%list ∧ chain_ok "" None good ∧
     rep.(intact) = false ∧ rep.(entries_checked) = Z.of_nat (length good) ∧
     rep.(head_hash) = last_hash None good ∧
     broken (tip_hash "" good) (next_seq None good) bad rep).
Proof. apply verify_chain_cases. Qed.

Lemma verify_chain_intact rows :
  (verify_chain rows).(intact) = true ↔ chain_ok "" None (List.filter is_chained rows).
Proof.
  destruct (verify_chain_cases rows) as [[Hok ->]|[Hno (? & ? & ? & _ & _ & -> & _)]]; done.
Qed.

(** *** Tamper evidence *)

(** The hashed contents of a row, its link aside. *)
Definition content (r : AuditRow) : AuditChainInput := {|
  in_org_id := uuid_display r.(aud_org_id);
  in_seq := wrap_u64 r.(aud_seq);
  in_at := rfc3339 r.(aud_at);
  in_action := r.(aud_action);
  in_subject := r.(aud_subject);
  in_actor_token_id := uuid_display <$> r.(aud_actor_token_id);
  in_actor_token_name := r.(aud_actor_token_name);
  in_actor_role := r.(aud_actor_role);
  in_detail := r.(aud_detail);
  in_prev_hash := "" |}.

Definition collision : Prop :=
  ∃ i j : AuditChainInput, i ≠ j ∧ entry_digest i = entry_digest j.

#[export] Instance chain_input_eq_dec : EqDecision AuditChainInput.
Proof. solve_decision. Defined.

(** Rows with the same expected hash agree on content and link, or the hash
    collides. *)
Lemma same_hash a b pa pb :
  expected_hash a pa = expected_hash b pb →
  (content a = content b ∧ pa = pb) ∨ collision.
Proof.
  unfold expected_hash. intros H.
  match type of H with entry_digest ?i = entry_digest ?j =>
    destruct (decide (i = j)) as [Hij|Hij]; [|right; by exists i, j] end.
  left. unfold content. injection Hij as -> -> -> -> -> -> -> -> -> ->. done.
Qed.

Lemma chain_pinned l1 l2 want1 want2 :
  chain_ok "" want1 l1 → chain_ok "" want2 l2 →
  Forall (λ r, aud_entry_hash r ≠ "") l1 → Forall (λ r, aud_entry_hash r ≠ "") l2 →
  tip_hash "" l1 = tip_hash "" l2 →
  map content l1 = map content l2 ∨ collision.
Proof.
  revert l2. induction l1 as [|a l1 IH] using rev_ind; intros l2;
    destruct l2 as [|b l2 _] using rev_ind; unfold tip_hash; rewrite ?last_snoc; cbn [last].
  - by left.
  - intros _ _ _ [_ Hb]%Forall_app. apply Forall_cons_1 in Hb as [Hb _]. intros H. exfalso. congruence.
  - intros _ _ [_ Ha]%Forall_app _. apply Forall_cons_1 in Ha as [Ha _]. intros H. exfalso. congruence.
  - intros [H1 (_ & Ha & _)]%chain_ok_app [H2 (_ & Hb & _)]%chain_ok_app
      [N1 _]%Forall_app [N2 _]%Forall_app Hh.
    destruct (same_hash a b (tip_hash "" l1) (tip_hash "" l2)) as [[Hc Ht]|]; [congruence| |by right].
    destruct (IH l2 H1 H2 N1 N2 Ht) as [Hm|]; [|by right].
    left. by rewrite !map_app, Hm; cbn; rewrite Hc.
Qed.

Lemma chained_nonempty rows :
  Forall (λ r, aud_entry_hash r ≠ "") (List.filter is_chained rows).
Proof.
  induction rows as [|r rows IH]; cbn; [done|].
  destruct (is_chained r) eqn:E; [|done]. constructor; [|done].
  unfold is_chained in E. bool_to_prop. intros He. by rewrite He in *.
Qed.

(** Tamper evidence. Two logs that both verify and report the same head
    hash record the same entries, in the same order and number, unless a
    collision of the digest has been found: an externally noted head pins the
    whole history. *)
Theorem head_hash_pins_history rows1 rows2 :
  (verify_chain rows1).(intact) = true →
  (verify_chain rows2).(intact) = true →
  (verify_chain rows1).(head_hash) = (verify_chain rows2).(head_hash) →
  map content (List.filter is_chained rows1) = map content (List.filter is_chained rows2)
  ∨ collision.
Proof.
  intros H1 H2 Hh.
  destruct (verify_chain_cases rows1) as [[Hok1 E1]|[_ (? & ? & ? & _ & _ & Hi & _)]]; [|congruence].
  destruct (verify_chain_cases rows2) as [[Hok2 E2]|[_ (? & ? & ? & _ & _ & Hi & _)]]; [|congruence].
  rewrite E1, E2 in Hh. cbn in Hh.
  apply (chain_pinned _ _ None None); auto using chained_nonempty.
  unfold last_hash, tip_hash in *.
  destruct (last (List.filter is_chained rows1)), (last (List.filter is_chained rows2)); congruence.
Qed.
End chain.

(** ** Appends keep every chain intact *)

Section append.
Context `{ext : Externals} `{aext : AuditExternals}.

(** The log of one organization, in insertion order, with positions at most
    [bound]. Rows older than the chain, if any, come first. *)
Record org_log_wf (bound : Z) (rows : list AuditRow) : Prop := {
  log_increasing : increasing aud_seq rows;
  log_positions : Forall (λ r, 0 < r.(aud_seq) ≤ bound) rows;
  log_chain : chain_ok "" None (List.filter is_chained rows);
  log_tip : ∀ r, last rows = Some r → is_chained r = false → List.filter is_chained rows = [];
}.

Definition audits_wf (bound : Z) (d : Db) : Prop := ∀ org, org_log_wf bound (org_rows org d).

Definition tip_row (rows : list AuditRow) : option AuditRow :=
  head (order_by_desc aud_seq rows).

Lemma tip_row_last rows : increasing aud_seq rows → tip_row rows = last rows.
Proof.
  intros H. destruct rows as [|r rows _] using rev_ind; [done|].
  unfold tip_row. by rewrite order_by_desc_head_last, last_snoc.
Qed.

Lemma filter_snoc_chained rows r :
  List.filter is_chained (rows ++ [r]) =
  (List.filter is_chained rows ++ if is_chained r then [r] else [])%list.
Proof. rewrite List.filter_app. cbn. by destruct (is_chained r). Qed.

(** The chained rows end with the tip row. *)
Lemma last_chained bound rows r :
  org_log_wf bound rows → last rows = Some r → is_chained r = true →
  last (List.filter is_chained rows) = Some r.
Proof.
  intros H Hl Hc. destruct rows as [|r' rows _] using rev_ind; [done|].
  rewrite last_snoc in Hl. injection Hl as ->.
  by rewrite filter_snoc_chained, Hc, last_snoc.
Qed.

Definition next_position (rows : list AuditRow) : Z :=
  wrap_i64 (match tip_row rows with Some t => t.(aud_seq) | None => 0 end + 1).
Definition next_prev (rows : list AuditRow) : option string :=
  t ← tip_row rows; if is_empty t.(aud_entry_hash) then None else Some t.(aud_entry_hash).

Lemma next_link bound rows :
  org_log_wf bound rows → bound < i64_max → 0 ≤ bound →
  let want := next_seq None (List.filter is_chained rows) in
  (∀ s, want = Some s → next_position rows = s) ∧
  default "" (next_prev rows) = tip_hash "" (List.filter is_chained rows) ∧
  0 < next_position rows ≤ bound + 1 ∧
  Forall (λ r, r.(aud_seq) < next_position rows) rows.
Proof.
  intros H Hb Hb0. cbn zeta. unfold next_position, next_prev.
  rewrite tip_row_last by apply H.
  destruct rows as [|r rows _] using rev_ind.
  { cbn. rewrite wrap_i64_id by (unfold i64_min, i64_max; lia).
    split_and!; try done; lia. }
  rewrite last_snoc. cbn [mbind option_bind].
  pose proof (log_positions _ _ H) as Hpos. pose proof (log_increasing _ _ H) as Hinc.
  apply Forall_app in Hpos as [Hpos Hr]. apply Forall_cons_1 in Hr as [Hr _].
  rewrite wrap_i64_id by (unfold i64_min in *; lia).
  split_and!; [| |lia|lia|].
  - intros s Hs. destruct (is_chained r) eqn:Ec.
    + unfold next_seq in Hs. erewrite last_chained in Hs; [|done|by rewrite last_snoc|done].
      injection Hs as <-. rewrite wrap_i64_id; [done|unfold i64_min in *; lia].
    + erewrite (log_tip _ _ H) in Hs; [done|by rewrite last_snoc|done].
  - unfold tip_hash. destruct (is_chained r) eqn:Ec.
    + erewrite last_chained; [|done|by rewrite last_snoc|done].
      unfold is_chained in Ec. bool_to_prop.
      destruct (is_empty _) eqn:E; [|done]. congruence.
    + rewrite (log_tip _ _ H r) by (done || by rewrite last_snoc). cbn.
      unfold is_chained in Ec. apply andb_false_iff in Ec as [Ec|Ec]; bool_to_prop; [lia|].
      by rewrite Ec.
  - apply Forall_app. split; [|constructor; [lia|constructor]].
    clear - Hinc. induction rows as [|x rows IH]; [done|].
    apply StronglySorted_inv in Hinc as [Hl Hx]. constructor; [|by apply IH].
    rewrite Forall_forall in Hx. specialize (Hx r).
    rewrite elem_of_app, list_elem_of_singleton in Hx.
    assert (aud_seq x < aud_seq r) by (apply Hx; by right). lia.
Qed.

Lemma log_snoc bound rows row :
  org_log_wf bound rows → bound < i64_max → 0 ≤ bound →
  row.(aud_seq) = next_position rows →
  row.(aud_entry_hash) = expected_hash row (default "" (next_prev rows)) →
  row.(aud_entry_hash) ≠ "" →
  org_log_wf (bound + 1) (rows ++ [row]).
Proof.
  intros H Hb Hb0 Hseq Hhash Hne.
  destruct (next_link _ _ H Hb Hb0) as (Hwant & Hprev & Hpos & Hlt).
  assert (is_chained row = true) as Hc.
  { unfold is_chained. rewrite Hseq, (proj2 (Z.ltb_lt 0 _)) by lia.
    by destruct (aud_entry_hash row). }
  split.
  - pose proof (log_increasing _ _ H) as Hinc. rewrite <- Hseq in Hlt. clear - Hinc Hlt.
    unfold increasing. induction Hinc as [|x l Hl IH Hx]; cbn; [by repeat constructor|].
    apply Forall_cons_1 in Hlt as [Hxlt Hlt]. constructor; [by apply IH|].
    apply Forall_app. split; [done|]. constructor; [lia|constructor].
  - apply Forall_app. split; [|constructor; [lia|constructor]].
    eapply Forall_impl; [apply H|]. cbn. lia.
  - rewrite filter_snoc_chained, Hc, chain_ok_app. split; [apply H|].
    cbn. rewrite Hseq, <- Hprev. done.
  - intros r. rewrite last_snoc. intros [= <-] Hf. congruence.
Qed.

Lemma org_log_weaken b1 b2 rows : b1 ≤ b2 → org_log_wf b1 rows → org_log_wf b2 rows.
Proof.
  intros Hb [H1 H2 H3 H4]. split; [done| |done|done].
  eapply Forall_impl; [exact H2|]. cbn. lia.
Qed.

Lemma org_rows_snoc org d row :
  org_rows org (set_audits (λ l, l ++ [row])%list d) =
  (org_rows org d ++ if (row.(aud_org_id) =? org)%N then [row] else [])%list.
Proof. unfold org_rows. cbn. rewrite List.filter_app. cbn. by destruct (_ =? _)%N. Qed.

(** A well-formed log answers the verification route with an intact report
    that counts every chained row. *)
Lemma wf_verifies bound d org :
  audits_wf bound d →
  (verify_chain (order_by_asc aud_seq (org_rows org d))).(intact) = true.
Proof.
  intros H. rewrite order_by_asc_increasing by apply H.
  apply verify_chain_intact. apply H.
Qed.

(** What one append did, whatever the database answered. *)
Lemma append_chained_run org token action subject detail w r w' :
  append_chained org token action subject detail w = (r, w') →
  let d := others_db (tick w) (db w) in
  (db w' = d ∧ r ≠ Ok tt) ∨
  (let d := others_db (S (tick w)) d in
   ∃ row, db w' = set_audits (λ l, l ++ [row])%list d ∧ (r = Ok tt ∨ r = Err DbOther) ∧
     row.(aud_org_id) = org ∧ row.(aud_seq) = next_position (org_rows org d) ∧
     row.(aud_prev_hash) = next_prev (org_rows org d) ∧
     row.(aud_entry_hash) = expected_hash row (default "" (next_prev (org_rows org d))) ∧
     row.(aud_action) = action_as_str action ∧ row.(aud_subject) = subject ∧
     row.(aud_detail) = detail ∧ row.(aud_actor_token_id) = Some token.(tok_id) ∧
     row.(aud_actor_role) = actor_role token).
Proof.
  intros H. cbn zeta. unfold append_chained in H.
  M_step H; apply begin_inv in R as (Ek & _ & Hdb & Ht).
  { left. split; [done|]. done. }
  destruct Ht as [[_ Ht]|[[=] _]].
  M_step H; apply in_txn_rc_inv in R as (_ & _ & Hdb1 & R).
  { left. split; [congruence|done]. }
  destruct R as [(d1 & [] & d1' & Ht1 & [= <-] & [= ->] & Ht1')|(? & [=] & _)].
  M_step H; apply in_txn_inv in R as (_ & _ & Hdb2 & R).
  { left. split; [congruence|done]. }
  destruct R as [(d2 & tip & d2' & Ht2 & [= Htip <-] & [= ->] & Ht2')|(? & [=] & _)].
  M_step H.
  { M_step R; [by apply now_inv in R0 as ([=] & _)|].
    by apply mret_inv in R as [[=] _]. }
  M_step R.
  apply now_inv in R0 as ([= ->] & _ & _ & Hdb3 & Ht3).
  apply mret_inv in R as [[= ->] ->].
  M_step H; [apply uuid_v4_inv in R as ([=] & _)|].
  apply uuid_v4_inv in R as ([= ->] & _ & _ & Hdb4 & Ht4).
  M_step H; apply in_txn_inv in R as (_ & _ & Hdb5 & R).
  { left. split; [congruence|done]. }
  destruct R as [(d5 & [] & d5' & Ht5 & Hins & [= ->] & Ht5')|(? & [=] & _)].
  assert (d1 = others_db (tick w) (db w)) as -> by congruence. rewrite Ek in *.
  assert (d5 = others_db (S (tick w)) (others_db (tick w) (db w))) as -> by congruence.
  assert (d2 = others_db (S (tick w)) (others_db (tick w) (db w))) as -> by congruence.
  unfold insert_audit in Hins.
  destruct (existsb _ _); [done|]. injection Hins as <-.
  apply commit_inv in H as (_ & _ & _ & [[-> Hc]|[-> [Hc|Hc]]]).
  - rewrite Ht5' in Hc. injection Hc as Hc. right.
    eexists. rewrite <- Hc. split; [done|]. cbn. subst tip. split_and!; auto.
  - left. split; [congruence|done].
  - rewrite Ht5' in Hc. injection Hc as Hc. right.
    eexists. rewrite <- Hc. split; [done|]. cbn. subst tip. split_and!; auto.
Qed.

Lemma audits_wf_snoc bound d row :
  audits_wf bound d → bound < i64_max → 0 ≤ bound →
  row.(aud_seq) = next_position (org_rows row.(aud_org_id) d) →
  row.(aud_entry_hash) = expected_hash row (default "" (next_prev (org_rows row.(aud_org_id) d))) →
  row.(aud_entry_hash) ≠ "" →
  audits_wf (bound + 1) (set_audits (λ l, l ++ [row])%list d).
Proof.
  intros H Hb Hb0 Hs Hh Hne o. rewrite org_rows_snoc.
  destruct (N.eqb_spec (aud_org_id row) o) as [<-|_].
  - by apply log_snoc.
  - rewrite app_nil_r. eapply org_log_weaken; [|apply H]. lia.
Qed.

Section preservation.
Variable bound : Z.
Hypothesis bound_range : 0 ≤ bound < i64_max.
Hypothesis digest_nonempty : ∀ s, digest_hex s ≠ "".
(** Whatever other processes commit keeps the logs well-formed. *)
Hypothesis others_ok : ∀ t d, audits_wf bound d → audits_wf bound (others_db t d).

Lemma append_preserves org token action subject detail w r w' :
  audits_wf bound (db w) →
  append_chained org token action subject detail w = (r, w') →
  (audits_wf bound (db w') ∧ r ≠ Ok tt) ∨
  (audits_wf (bound + 1) (db w') ∧ r ≠ Err UniqueConstraintViolation).
Proof.
  intros H Hrun. apply append_chained_run in Hrun as [[-> Hr]|(row & -> & Hr & Ho & Hs & _ & Hh & _)].
  - left. auto.
  - right. subst org. split.
    + apply audits_wf_snoc; auto; [lia..|]. rewrite Hh. apply digest_nonempty.
    + by destruct Hr as [-> | ->].
Qed.

Lemma record_loop_preserves n org token action subject detail w r w' :
  audits_wf bound (db w) →
  record_loop n org token action subject detail w = (r, w') →
  r = Ok tt ∧ audits_wf (bound + 1) (db w').
Proof.
  assert (∀ d, audits_wf bound d → audits_wf (bound + 1) d) as Hweak.
  { intros d H o. eapply org_log_weaken; [|apply H]. lia. }
  revert w. induction n as [|n IH]; intros w H Hrun; cbn [record_loop] in Hrun.
  { apply mret_inv in Hrun as [-> ->]. auto. }
  M_step Hrun; [by apply attempt_inv in R as (? & [=] & _)|].
  apply attempt_inv in R as (x & [= ->] & R).
  apply append_preserves in R; [|done].
  destruct x as [[]|e].
  { apply mret_inv in Hrun as [-> ->]. destruct R as [[_ Hc]|[R _]]; [by destruct Hc|auto]. }
  M_step Hrun; apply rollback_inv in R0 as ([= ->] & _ & _ & Hdb & _).
  destruct e; cbn [is_position_taken] in Hrun.
  - eapply IH; [|exact Hrun]. rewrite Hdb. by destruct R as [[R _]|[_ Hc]]; [|destruct Hc].
  - apply mret_inv in Hrun as [-> ->]. rewrite Hdb. destruct R as [[R _]|[R _]]; auto.
Qed.

(** C36: recording is total and keeps the trail verifiable. Whatever faults
    the database shows and whatever other writers append in between,
    [record] never returns an error, and afterwards every organization's
    log still verifies as intact. *)
Theorem record_keeps_chains_intact org token action subject detail w r w' :
  audits_wf bound (db w) →
  record org token action subject detail w = (r, w') →
  r = Ok tt ∧
  ∀ o, (verify_chain (order_by_asc aud_seq (org_rows o (db w')))).(intact) = true.
Proof.
  intros H Hrun. apply record_loop_preserves in Hrun as [-> Hwf]; [|done].
  split; [done|]. intros o. by eapply wf_verifies.
Qed.
End preservation.

(** When the database answers and no other writer interferes, [record]
    adds exactly one row, and that row names the action, the subject and the
    acting token, takes the next position and links to the previous tip. *)
Theorem record_appends_one bound org token action subject detail w :
  audits_wf bound (db w) → 0 ≤ bound < i64_max →
  (∀ t, db_outcome t = Done) → (∀ t d, others_db t d = d) →
  (∀ t, Forall (λ a, aud_id a ≠ new_v4 t) (audits (db w))) →
  ∃ row w', record org token action subject detail w = (Ok tt, w') ∧
    audits (db w') = (audits (db w) ++ [row])%list ∧
    row.(aud_org_id) = org ∧ row.(aud_action) = action_as_str action ∧
    row.(aud_subject) = subject ∧ row.(aud_detail) = detail ∧
    row.(aud_actor_token_id) = Some token.(tok_id) ∧ row.(aud_actor_role) = actor_role token ∧
    row.(aud_seq) = next_position (org_rows org (db w)) ∧
    row.(aud_prev_hash) = next_prev (org_rows org (db w)) ∧
    row.(aud_entry_hash) = expected_hash row (default "" row.(aud_prev_hash)).
Proof.
  intros Hwf Hbound Hdone Hothers Hfresh.
  destruct (next_link _ _ (Hwf org) ltac:(lia) ltac:(lia)) as (_ & _ & _ & Hpos).
  destruct (append_chained org token action subject detail w) as [r w1] eqn:Happ.
  assert (r = Ok tt) as ->.
  { unfold append_chained, mbind, M_bind, begin, in_txn, chain_timestamp, now, uuid_v4, commit, mret, M_ret, mbind, M_bind in Happ.
    repeat progress (cbn in Happ; rewrite ?Hdone, ?Hothers in Happ).
    unfold insert_audit in Happ.
    match type of Happ with context [existsb ?f ?l] => destruct (existsb f l) eqn:E end;
      cbn in Happ; [|by repeat progress (rewrite ?Hdone in Happ; cbn in Happ); injection Happ as <- _].
    exfalso. apply existsb_exists in E as (a & Hin & Ha). cbn in Ha.
    apply list_elem_of_In in Hin. rewrite Forall_forall in Hpos.
    setoid_rewrite Forall_forall in Hfresh.
    apply orb_true_iff in Ha as [Ha|Ha].
    - apply N.eqb_eq in Ha. by eapply Hfresh.
    - apply andb_true_iff in Ha as [Ho Hs]. bool_to_prop.
      specialize (Hpos a). unfold next_position, tip_row in Hpos.
      assert (a ∈ org_rows org (db w)) as Hin'; [|specialize (Hpos Hin'); lia].
      unfold org_rows. apply list_elem_of_In, filter_In.
      split; [by apply list_elem_of_In|done]. }
  pose proof Happ as Hrun. apply append_chained_run in Hrun.
  destruct Hrun as [[_ Hc]|(row & Hdb & _ & Ho & Hs & Hp & Hh & Ha & Hsu & Hd & Ht & Hr)]; [by destruct Hc|].
  rewrite !Hothers in *. exists row, w1. split.
  { unfold record, record_loop, APPEND_ATTEMPTS, attempt, mbind, M_bind. by rewrite Happ. }
  rewrite Hdb, Hp. split_and!; done.
Qed.
End append.

(** *** Witnesses *)

Section witnesses.
#[local] Instance demo_ext : Externals := {|
  digest_hex := λ s, "h" +:+ s;
  uuid_display := dec_of_N;
  new_v4 := λ n, N.of_nat (100 + n);
  rfc3339 := dec_of_Z;
  utc_now := λ n, Z.of_nat n;
  db_outcome := λ _, Done;
  others_db := λ _ d, d;
  io_outcome := λ _, Done;
  others_objects := λ _ o, o |}.
#[local] Instance demo_audit : AuditExternals := {|
  audit_chain_preimage := λ i,
    join "|" [in_org_id i; dec_of_Z (in_seq i); in_at i; in_action i; in_subject i;
              in_actor_token_name i; in_actor_role i; in_prev_hash i];
  action_as_str := λ a,
    match a with Publish => "publish" | Yank => "yank" | Unyank => "unyank" | OrgClaim => "org_claim" end |}.

Definition demo_token : TokenRow := mk_token 7 "ci" "hash" None "owner" 0 None None.
Definition demo_world : World := mk_world 0 empty_db None ∅.
Definition demo_after : World := (record 1 demo_token Publish "acme/kit@1.0.0" None demo_world).2.

Lemma demo_wf : audits_wf 5 empty_db.
Proof. intros o. split; cbn; try done; constructor. Qed.

Lemma record_keeps_chains_intact_witness :
  (verify_chain (order_by_asc aud_seq (org_rows 1 (db demo_after)))).(intact) = true.
Proof.
  destruct (record_keeps_chains_intact 5 ltac:(by vm_compute) ltac:(done) ltac:(done)
    1 demo_token Publish "acme/kit@1.0.0" None demo_world
    (record 1 demo_token Publish "acme/kit@1.0.0" None demo_world).1 demo_after demo_wf)
    as [_ H]; [apply surjective_pairing|apply H].
Defined.

Lemma record_appends_one_witness :
  ∃ row w', record 1 demo_token Yank "acme/kit@1.0.0" None demo_world = (Ok tt, w') ∧
    audits (db w') = [row] ∧ row.(aud_seq) = 1 ∧ row.(aud_action) = "yank".
Proof.
  destruct (record_appends_one 5 1 demo_token Yank "acme/kit@1.0.0" None demo_world)
    as (row & w' & Hrun & Hrows & _ & Ha & _ & _ & _ & _ & Hs & _);
    [exact demo_wf|by vm_compute|done|done|done|].
  exists row, w'. rewrite Hrows, Hs, Ha. vm_compute. auto using Hrun.
Defined.

Lemma head_hash_pins_history_witness :
  let log := org_rows 1 (db demo_after) in
  map content (List.filter is_chained log) = map content (List.filter is_chained log) ∨ collision.
Proof. cbn zeta. apply head_hash_pins_history; [by vm_compute..|done]. Defined.
End witnesses.
