(* ===== verification/AuditMigration.v ===== *)
(** * The upgrade to a chained audit log
    ([migration/src/m20260726_000008_audit_chain.rs])

    [up] adds the three chain columns to a log that has none, numbers the rows
    it finds and makes the position unique per organization; [down] drops the
    columns. The rows in question are those of
    [migration/src/m20260725_000006_audit_log.rs]. *)

From S2P Require Export AuditFacts.

(** A row of [audit_log] before the upgrade. *)
Record LegacyAuditRow := mk_legacy_audit {
  leg_id : uuid;
  leg_org_id : uuid;
  leg_at : instant;
  leg_action : string;
  leg_subject : string;
  leg_actor_token_id : option uuid;
  leg_actor_token_name : string;
  leg_actor_role : string;
  leg_detail : option string;
}.

(** ** The migration *)

(** The three [add_column]s, with their defaults. *)
Definition add_chain_columns (r : LegacyAuditRow) : AuditRow := {|
  aud_id := r.(leg_id);
  aud_org_id := r.(leg_org_id);
  aud_at := r.(leg_at);
  aud_action := r.(leg_action);
  aud_subject := r.(leg_subject);
  aud_actor_token_id := r.(leg_actor_token_id);
  aud_actor_token_name := r.(leg_actor_token_name);
  aud_actor_role := r.(leg_actor_role);
  aud_detail := r.(leg_detail);
  aud_seq := 0;
  aud_entry_hash := "";
  aud_prev_hash := None |}.

(** [drop_column], three times. *)
Definition drop_chain_columns (r : AuditRow) : LegacyAuditRow := {|
  leg_id := r.(aud_id);
  leg_org_id := r.(aud_org_id);
  leg_at := r.(aud_at);
  leg_action := r.(aud_action);
  leg_subject := r.(aud_subject);
  leg_actor_token_id := r.(aud_actor_token_id);
  leg_actor_token_name := r.(aud_actor_token_name);
  leg_actor_role := r.(aud_actor_role);
  leg_detail := r.(aud_detail) |}.

Definition set_seq (r : AuditRow) (seq : Z) : AuditRow := {|
  aud_id := r.(aud_id);
  aud_org_id := r.(aud_org_id);
  aud_at := r.(aud_at);
  aud_action := r.(aud_action);
  aud_subject := r.(aud_subject);
  aud_actor_token_id := r.(aud_actor_token_id);
  aud_actor_token_name := r.(aud_actor_token_name);
  aud_actor_role := r.(aud_actor_role);
  aud_detail := r.(aud_detail);
  aud_seq := seq;
  aud_entry_hash := r.(aud_entry_hash);
  aud_prev_hash := r.(aud_prev_hash) |}.

(** The condition of the correlated subquery. *)
Definition counted (r earlier : AuditRow) : bool :=
  (earlier.(aud_org_id) =? r.(aud_org_id))%N
  && ((earlier.(aud_at) <? r.(aud_at))
      || ((earlier.(aud_at) =? r.(aud_at)) && (earlier.(aud_id) <=? r.(aud_id))%N)).

(** [LEGACY_SEQ_BACKFILL_SQL]: an UPDATE computes every new value from the
    table as it was. *)
Definition backfill_legacy_seq (rows : list AuditRow) : list AuditRow :=
  (λ r, set_seq r (zlength (List.filter (counted r) rows))) <$> rows.

(** [idx_audit_log_org_seq]: creating a unique index fails on duplicates. *)
Definition create_org_seq_index (rows : list AuditRow) : result DbErr unit :=
  if bool_decide (NoDup ((λ r, (r.(aud_org_id), r.(aud_seq))) <$> rows)) then Ok tt
  else Err UniqueConstraintViolation.

Definition up (rows : list LegacyAuditRow) : result DbErr (list AuditRow) :=
  let rows := backfill_legacy_seq (add_chain_columns <$> rows) in
  create_org_seq_index rows;;
  Ok rows.

Definition down (rows : list AuditRow) : list LegacyAuditRow := drop_chain_columns <$> rows.

(** ** Ranks *)

Section rank.
Context {A : Type}.

Lemma filter_length_le (p q : A → bool) l :
  (∀ x, x ∈ l → p x = true → q x = true) → (length (List.filter p l) ≤ length (List.filter q l))%nat.
Proof.
  induction l as [|x l IH]; intros H; [done|]. cbn.
  assert (length (List.filter p l) ≤ length (List.filter q l))%nat as Hl
    by (apply IH; intros; apply H; [by right|done]).
  specialize (H x ltac:(by left)). destruct (p x); [rewrite H by done|destruct (q x)]; cbn; lia.
Qed.

Lemma filter_length_lt (p q : A → bool) l y :
  (∀ x, x ∈ l → p x = true → q x = true) → y ∈ l → p y = false → q y = true →
  (length (List.filter p l) < length (List.filter q l))%nat.
Proof.
  induction l as [|x l IH]; intros H Hy Hp Hq; [by apply not_elem_of_nil in Hy|]. cbn.
  assert (∀ z, z ∈ l → p z = true → q z = true) as Hl by (intros; apply H; [by right|done]).
  apply elem_of_cons in Hy as [<-|Hy].
  - rewrite Hp, Hq. cbn. pose proof (filter_length_le _ _ _ Hl). lia.
  - specialize (IH Hl Hy Hp Hq). specialize (H x ltac:(by left)).
    destruct (p x); [rewrite H by done|destruct (q x)]; cbn; lia.
Qed.

(** Distinct numbers between one and their count are all of them. *)
Lemma ranks_perm (l : list Z) :
  NoDup l → Forall (λ z, 1 ≤ z ≤ zlength l) l → l ≡ₚ seqZ 1 (zlength l).
Proof.
  intros Hd Hr. apply submseteq_length_Permutation.
  - apply NoDup_submseteq; [done|]. intros z Hz. rewrite Forall_forall in Hr.
    apply elem_of_seqZ. specialize (Hr z Hz). lia.
  - rewrite length_seqZ. unfold zlength. lia.
Qed.
End rank.

(** ** What the numbering is *)

(** Recorded no later: by time, then by identifier. *)
Definition not_after (a b : AuditRow) : Prop :=
  aud_at a < aud_at b ∨ (aud_at a = aud_at b ∧ (aud_id a ≤ aud_id b)%N).

Lemma counted_spec r e : counted r e = true ↔ aud_org_id e = aud_org_id r ∧ not_after e r.
Proof.
  unfold counted, not_after.
  rewrite andb_true_iff, orb_true_iff, andb_true_iff, N.eqb_eq, Z.ltb_lt, Z.eqb_eq, N.leb_le. tauto.
Qed.

Section numbering.
Variable rows : list AuditRow.
Hypothesis ids : NoDup (aud_id <$> rows).

Definition position (r : AuditRow) : Z := zlength (List.filter (counted r) rows).

Lemma row_by_id a b : a ∈ rows → b ∈ rows → aud_id a = aud_id b → a = b.
Proof.
  intros Ha Hb E. apply list_elem_of_lookup in Ha as [i Ha]. apply list_elem_of_lookup in Hb as [j Hb].
  assert (i = j) as ->; [|congruence].
  eapply NoDup_lookup; [exact ids|rewrite list_lookup_fmap, Ha; reflexivity|].
  by rewrite list_lookup_fmap, Hb, E.
Qed.

Lemma position_lt a b :
  a ∈ rows → b ∈ rows → aud_org_id a = aud_org_id b → not_after a b → a ≠ b → position a < position b.
Proof.
  intros Ha Hb Ho Hab Hne. unfold position, zlength. apply Nat2Z.inj_lt. apply (filter_length_lt _ _ _ b).
  - intros x _. rewrite !counted_spec. unfold not_after in *. intros [-> Hx]. split; [done|lia].
  - done.
  - apply not_true_iff_false. rewrite counted_spec. intros [_ Hba].
    apply Hne, row_by_id; [done..|]. unfold not_after in *. lia.
  - apply counted_spec. split; [done|]. unfold not_after. lia.
Qed.

Lemma not_after_total a b : not_after a b ∨ not_after b a.
Proof. unfold not_after. lia. Qed.

(** Positions follow the order of recording within an organization. *)
Lemma position_order a b :
  a ∈ rows → b ∈ rows → aud_org_id a = aud_org_id b → position a < position b ↔ (not_after a b ∧ a ≠ b).
Proof.
  intros Ha Hb Ho. split.
  - intros H. split; [|intros ->; lia]. destruct (not_after_total a b) as [|Hba]; [done|].
    assert (a ≠ b) as Hne by (intros ->; lia).
    pose proof (position_lt b a Hb Ha (eq_sym Ho) Hba ltac:(congruence)). lia.
  - intros [H Hne]. by apply position_lt.
Qed.

Lemma position_inj a b :
  a ∈ rows → b ∈ rows → aud_org_id a = aud_org_id b → position a = position b → a = b.
Proof.
  intros Ha Hb Ho E.
  destruct (N.eq_dec (aud_id a) (aud_id b)) as [Hi|Hi]; [by apply row_by_id|].
  assert (a ≠ b) as Hne by congruence. exfalso.
  destruct (not_after_total a b) as [H|H].
  - pose proof (position_lt a b Ha Hb Ho H Hne). lia.
  - pose proof (position_lt b a Hb Ha (eq_sym Ho) H ltac:(congruence)). lia.
Qed.

Lemma position_range a :
  a ∈ rows → 1 ≤ position a ≤ zlength (List.filter (λ r, (aud_org_id r =? aud_org_id a)%N) rows).
Proof.
  intros Ha. unfold position, zlength. split.
  - assert (a ∈ List.filter (counted a) rows) as H.
    { apply list_elem_of_In, filter_In. split; [by apply list_elem_of_In|].
      apply counted_spec. unfold not_after. split; [done|lia]. }
    destruct (List.filter (counted a) rows); [by apply not_elem_of_nil in H|cbn; lia].
  - apply Nat2Z.inj_le, filter_length_le. intros x _ Hx. apply counted_spec in Hx as [-> _]. apply N.eqb_refl.
Qed.
End numbering.

(** ** The upgraded log *)

Definition of_org (org : uuid) : list AuditRow → list AuditRow := List.filter (λ r, (r.(aud_org_id) =? org)%N).

(** Each organization's rows are stored in the order they were recorded. *)
Definition recorded_in_order (rows : list LegacyAuditRow) : Prop :=
  StronglySorted (λ a b, leg_org_id a = leg_org_id b → leg_at a < leg_at b ∨ (leg_at a = leg_at b ∧ (leg_id a < leg_id b)%N))
    rows.

Lemma drop_set_seq r n : drop_chain_columns (set_seq r n) = drop_chain_columns r.
Proof. done. Qed.
Lemma drop_add r : drop_chain_columns (add_chain_columns r) = r.
Proof. by destruct r. Qed.

Lemma counted_set_seq r n e m : counted (set_seq r n) (set_seq e m) = counted r e.
Proof. done. Qed.

(** Only the position changes, and the subquery does not look at it. *)
Lemma filter_renumbered (f : AuditRow → bool) (g : AuditRow → Z) rows :
  (∀ e n, f (set_seq e n) = f e) →
  List.filter f ((λ r, set_seq r (g r)) <$> rows) = (λ r, set_seq r (g r)) <$> List.filter f rows.
Proof. intros H. induction rows as [|r rows IH]; [done|]. cbn. rewrite H. destruct (f r); cbn; by rewrite IH. Qed.

Lemma backfill_idempotent rows : backfill_legacy_seq (backfill_legacy_seq rows) = backfill_legacy_seq rows.
Proof.
  unfold backfill_legacy_seq at 1. set (rows' := backfill_legacy_seq rows). unfold rows' at 2, backfill_legacy_seq.
  rewrite <- list_fmap_compose. apply list_fmap_ext. intros i r _. unfold compose. cbn.
  unfold rows', backfill_legacy_seq. rewrite filter_renumbered by done. unfold zlength. rewrite length_fmap. done.
Qed.

Section upgrade.
Variable legacy : list LegacyAuditRow.
Hypothesis ids : NoDup (leg_id <$> legacy).

#[local] Abbreviation table := (add_chain_columns <$> legacy).
#[local] Abbreviation rows := (backfill_legacy_seq table).

Lemma table_ids : NoDup (aud_id <$> table).
Proof. rewrite <- list_fmap_compose. exact ids. Qed.

Lemma upgraded_row r : r ∈ rows → ∃ o, o ∈ table ∧ r = set_seq o (position table o).
Proof. intros H. by apply list_elem_of_fmap in H as (o & -> & H); exists o. Qed.

Lemma upgraded_unique : NoDup ((λ r, (r.(aud_org_id), r.(aud_seq))) <$> rows).
Proof.
  unfold backfill_legacy_seq. rewrite <- list_fmap_compose.
  apply NoDup_fmap_2_strong; [|by eapply NoDup_fmap_1, table_ids].
  intros a b Ha Hb [= Ho Hs]. by eapply position_inj; [apply table_ids|..].
Qed.

Lemma up_succeeds : up legacy = Ok rows.
Proof. unfold up, create_org_seq_index. by rewrite bool_decide_true by apply upgraded_unique. Qed.

Lemma upgraded_content : down rows = legacy.
Proof.
  unfold down, backfill_legacy_seq. rewrite <- !list_fmap_compose.
  rewrite <- (list_fmap_id legacy) at 2. apply list_fmap_ext. intros i r _. apply drop_add.
Qed.

Lemma upgraded_unchained : Forall (λ r, is_chained r = false) rows.
Proof.
  apply Forall_forall. intros r H. apply upgraded_row in H as (o & Ho & ->).
  apply list_elem_of_fmap in Ho as (l & -> & _). apply andb_false_r.
Qed.

Lemma of_org_upgraded org : of_org org rows = (λ r, set_seq r (position table r)) <$> of_org org table.
Proof. by apply (filter_renumbered (λ r, (r.(aud_org_id) =? org)%N)). Qed.

Lemma elem_of_org org r l : r ∈ of_org org l ↔ r ∈ l ∧ aud_org_id r = org.
Proof. unfold of_org. by rewrite !list_elem_of_In, filter_In, N.eqb_eq. Qed.

Lemma upgraded_positions org : aud_seq <$> of_org org rows ≡ₚ seqZ 1 (zlength (of_org org rows)).
Proof.
  assert (aud_seq <$> of_org org rows = position table <$> of_org org table) as E
    by (rewrite of_org_upgraded, <- list_fmap_compose; done).
  assert (zlength (of_org org rows) = zlength (position table <$> of_org org table)) as ->
    by (unfold zlength; by rewrite of_org_upgraded, !length_fmap).
  rewrite E. apply ranks_perm.
  - apply NoDup_fmap_2_strong.
    + intros a b Ha Hb. apply elem_of_org in Ha as [Ha Hoa], Hb as [Hb Hob].
      eapply position_inj; [apply table_ids|done..|congruence].
    + unfold of_org. apply NoDup_ListNoDup, List.NoDup_filter, NoDup_ListNoDup. by eapply NoDup_fmap_1, table_ids.
  - apply Forall_fmap, Forall_forall. intros a Ha. apply elem_of_org in Ha as [Ha <-]. cbn.
    pose proof (position_range table a Ha). unfold zlength, of_org in *. rewrite length_fmap. lia.
Qed.

Lemma upgraded_order a b :
  a ∈ rows → b ∈ rows → aud_org_id a = aud_org_id b →
  aud_seq a < aud_seq b ↔ (not_after a b ∧ aud_id a ≠ aud_id b).
Proof.
  intros Ha Hb Ho. apply upgraded_row in Ha as (x & Hx & ->), Hb as (y & Hy & ->). cbn in *.
  rewrite (position_order table table_ids x y) by done. split; intros [H Hne]; (split; [exact H|]).
  - intros E. by apply Hne, (row_by_id table table_ids).
  - by intros ->.
Qed.

Lemma upgraded_increasing org : recorded_in_order legacy → increasing aud_seq (of_org org rows).
Proof.
  intros H. rewrite of_org_upgraded. unfold increasing.
  assert (∀ l, (∀ r, r ∈ l → r ∈ legacy) → recorded_in_order l →
    StronglySorted (λ a b, aud_seq a < aud_seq b)
      ((λ r, set_seq r (position table r)) <$> of_org org (add_chain_columns <$> l))) as Hl; [|by apply Hl].
  induction 2 as [|r l Hs IH Hr]; [constructor|]. cbn.
  assert (∀ z, z ∈ l → z ∈ legacy) as Hsub by (intros; by apply H0; right).
  specialize (IH Hsub). unfold of_org in *. destruct (leg_org_id r =? org)%N eqn:E; cbn; [|done].
  constructor; [done|]. apply Forall_forall. intros y Hy. apply list_elem_of_fmap in Hy as (z & -> & Hz).
  apply elem_of_org in Hz as [Hz Ho]. apply list_elem_of_fmap in Hz as (s & -> & Hs').
  apply N.eqb_eq in E. rewrite Forall_forall in Hr. specialize (Hr s Hs'). cbn in *.
  apply (position_lt table table_ids).
  - apply list_elem_of_fmap_2, H0. by left.
  - by apply list_elem_of_fmap_2, Hsub.
  - cbn. congruence.
  - unfold not_after. cbn. destruct Hr as [?|[? ?]]; [congruence|left; lia|right; lia].
  - intros Es. apply (f_equal aud_id) in Es as E1. apply (f_equal aud_at) in Es as E2. cbn in *.
    destruct Hr as [?|[? ?]]; [congruence|lia|lia].
Qed.

Context `{ext : Externals} `{aext : AuditExternals}.

Lemma no_chained (l : list AuditRow) : Forall (λ r, is_chained r = false) l → List.filter is_chained l = [].
Proof. induction 1 as [|r l Hr _ IH]; [done|]. cbn. by rewrite Hr. Qed.

Lemma org_unchained org : List.filter is_chained (of_org org rows) = [].
Proof.
  apply no_chained, Forall_forall. intros r Hr. apply elem_of_org in Hr as [Hr _].
  pose proof upgraded_unchained as H. rewrite Forall_forall in H. by apply H.
Qed.

Lemma upgraded_wf d : recorded_in_order legacy → audits d = rows → audits_wf (zlength legacy) d.
Proof.
  intros Hr Hd org. unfold org_rows. rewrite Hd. fold (of_org org rows). split.
  - by apply upgraded_increasing.
  - apply Forall_forall. intros r H.
    assert (aud_seq r ∈ aud_seq <$> of_org org rows) as Hs by by apply list_elem_of_fmap_2.
    rewrite upgraded_positions, elem_of_seqZ in Hs.
    assert (zlength (of_org org rows) ≤ zlength legacy) as Hle; [|lia].
    rewrite of_org_upgraded. unfold zlength, of_org. rewrite length_fmap.
    pose proof (List.filter_length_le (λ r, (aud_org_id r =? org)%N) table) as Hf. rewrite length_fmap in Hf. lia.
  - by rewrite org_unchained.
  - intros r _ _. apply org_unchained.
Qed.
End upgrade.

Section theorems.
Context `{ext : Externals} `{aext : AuditExternals}.

(** C37: The upgrade to a chained log always goes through and keeps history:
    the rows come back from the downgrade as they were, each organization's are
    numbered one to their count in the order they were recorded (so that the
    unique index can be created), repeating the numbering changes nothing,
    verification vouches for none of them and finds the log intact, and a log
    stored in recorded order satisfies the invariant appends preserve. *)
Theorem upgrade_keeps_history legacy :
  NoDup (leg_id <$> legacy) →
  ∃ rows, up legacy = Ok rows ∧ down rows = legacy ∧
    (∀ org, aud_seq <$> of_org org rows ≡ₚ seqZ 1 (zlength (of_org org rows))) ∧
    (∀ a b, a ∈ rows → b ∈ rows → aud_org_id a = aud_org_id b →
       aud_seq a < aud_seq b ↔ (not_after a b ∧ aud_id a ≠ aud_id b)) ∧
    backfill_legacy_seq rows = rows ∧
    ∀ d, audits d = rows →
      (∀ org, verify_chain (org_rows org d) = mk_report true 0 None None None) ∧
      (recorded_in_order legacy → audits_wf (zlength legacy) d).
Proof.
  intros H. exists (backfill_legacy_seq (add_chain_columns <$> legacy)). split_and!.
  - by apply up_succeeds.
  - apply upgraded_content.
  - by apply upgraded_positions.
  - by apply upgraded_order.
  - apply backfill_idempotent.
  - intros d Hd. split; [|by intros; apply upgraded_wf].
    intros org. unfold verify_chain, org_rows. rewrite Hd.
    pose proof (org_unchained legacy org) as E. unfold of_org in E. by rewrite E.
Qed.
End theorems.

(** Two organizations, three entries, the first stored out of order. *)
Definition demo_legacy : list LegacyAuditRow := [
  mk_legacy_audit 3 1 20 "yank" "acme/kit@1.0.0" None "ci" "owner" None;
  mk_legacy_audit 1 1 10 "publish" "acme/kit@1.0.0" None "ci" "owner" None;
  mk_legacy_audit 2 2 10 "publish" "beta/kit@1.0.0" None "ci" "owner" None].

Lemma upgrade_keeps_history_witness :
  ∃ rows, up demo_legacy = Ok rows ∧ down rows = demo_legacy ∧ aud_seq <$> rows = [2; 1; 1].
Proof.
  destruct (@upgrade_keeps_history demo_ext demo_audit demo_legacy) as (rows & Hup & Hdown & _).
  - apply (bool_decide_unpack (NoDup (leg_id <$> demo_legacy))). vm_compute. done.
  - exists rows. split_and!; [done..|].
    assert (up demo_legacy = Ok (backfill_legacy_seq (add_chain_columns <$> demo_legacy))) as E by (vm_compute; done).
    rewrite E in Hup. injection Hup as <-. vm_compute. done.
Defined.
