(* ===== verification/SharedAuth.v ===== *)
(** * The Shared Auth adapter ([src/shared_auth.rs])

    The two calls the service makes to Shared Auth, with the checks around
    them. The HTTP client, the URL parser and the JSON codec are external. *)

From S2P Require Export World.

Definition MAX_REQUEST_BYTES : Z := 256 * 1024.
Definition MAX_RESPONSE_BYTES : Z := 1024 * 1024.
Definition MAX_CREDENTIAL_BYTES : Z := 16 * 1024.
Definition MAX_IDENTIFIER_BYTES : Z := 128.

Inductive ClientError : Type :=
| Unauthorized
| MissingServiceCredential
| InvalidBaseUrl
| InvalidInput (field : string)
| RequestTooLarge (limit : Z)
| ResponseTooLarge (limit : Z)
| Decode
| Transport
| Status (status : Z).

Record Introspection := mk_introspection {
  active : bool;
  sub : option string;
  iss : option string;
  email : option string;
  rest : list (string * json);
}.

Record ExchangeResponse := mk_exchange {
  access_token : string;
  token_type : string;
  expires_at : Z;
  shared_user_id : string;
  project : option string;
  provider : option string;
  provider_tenant : option string;
}.

(** ** External code *)

Record HttpRequest := mk_http_request {
  hr_method : string;
  hr_url : string;
  hr_headers : list (string * string);
  hr_body : option string;
}.

(** What [send] and [bytes] gave back: an error, or a status with the body, whose
    transfer may itself fail. *)
Inductive HttpAnswer : Type :=
| HttpFailed
| HttpAnswered (status : Z) (body : option string).

(** A parsed [Url] with the parts the code looks at. *)
Record Url := mk_url {
  url_scheme : string;
  url_username : string;
  url_password : option string;
  url_host : option string;
  url_query : option string;
  url_fragment : option string;
  url_text : string;
}.

Class WebExternals := {
  (** [Url::parse], [Url::join] and the text of the result *)
  url_parse : string → option Url;
  url_join : Url → string → option string;
  (** [HeaderValue::from_str] *)
  header_value_from_str : string → option string;
  (** [serde_json::to_vec] and [from_slice] to a [Value] *)
  json_to_vec : json → option string;
  json_from_slice : string → option json;
  (** the peer's answer to the request sent at an instant *)
  http_answer : nat → HttpRequest → HttpAnswer;
  (** [str::parse::<Uuid>] *)
  uuid_parse : string → option uuid;
}.

(** ** [char::is_control]

    U+0000..001F, U+007F, and U+0080..009F (encoded C2 80..C2 9F). *)
Fixpoint has_control (s : string) : bool :=
  match s with
  | "" => false
  | String a r =>
      is_ascii_control a
      || ((byte_of a =? 194) && match r with String b _ => in_range 128 159 b | "" => false end)
      || has_control r
  end.

Definition required_credential (value field : string) : result ClientError string :=
  if is_empty value || (MAX_CREDENTIAL_BYTES <? slen value) || negb (trim value =s value)
     || has_control value
  then Err (InvalidInput field) else Ok value.

Definition identifier_byte (c : ascii) : bool :=
  is_ascii_alphanumeric c || (c =c "-") || (c =c "_") || (c =c ".") || (c =c ":").

Definition required_identifier (value field : string) : result ClientError string :=
  if is_empty value || (MAX_IDENTIFIER_BYTES <? slen value) || negb (trim value =s value)
     || negb (sall identifier_byte value)
  then Err (InvalidInput field) else Ok value.

(** ** Decoding, as the derived [Deserialize] does *)

Fixpoint members_of (key : string) (m : list (string * json)) : list json :=
  match m with
  | [] => []
  | (k, v) :: r => if k =s key then v :: members_of key r else members_of key r
  end.

(** A [#[serde(default)] Option<String>] field: absent and [null] are [None]; a
    repeated field and any other type are errors. *)
Definition opt_string_field (key : string) (m : list (string * json)) : option (option string) :=
  match members_of key m with
  | [] | [JNull] => Some None
  | [JStr s] => Some (Some s)
  | _ => None
  end.

Definition string_field (key : string) (m : list (string * json)) : option string :=
  match members_of key m with [JStr s] => Some s | _ => None end.

Definition introspection_keys : list string := ["active"; "sub"; "iss"; "email"].

(** The flattened [rest] holds the other members; of a repeated one, the last. *)
Definition introspection_of_json (v : json) : option Introspection :=
  match v with
  | JObj m =>
      a ← match members_of "active" m with [JBool b] => Some b | _ => None end;
      s ← opt_string_field "sub" m;
      i ← opt_string_field "iss" m;
      e ← opt_string_field "email" m;
      Some (mk_introspection a s i e
        (rev (List.filter (λ x, negb (existsb (λ k, k =s x.1) introspection_keys)) m)))
  | _ => None
  end.

Section shared_auth.
Context `{ext : Externals} `{web : WebExternals}.

(** The JSON integers a [u64] accepts, by their text. *)
Definition exchange_of_json (v : json) : option ExchangeResponse :=
  match v with
  | JObj m =>
      a ← string_field "access_token" m;
      t ← string_field "token_type" m;
      x ← match members_of "expires_at" m with [JNum n] => parse_unsigned u64_max n | _ => None end;
      u ← string_field "shared_user_id" m;
      p ← opt_string_field "project" m;
      v ← opt_string_field "provider" m;
      w ← opt_string_field "provider_tenant" m;
      Some (mk_exchange a t x u p v w)
  | _ => None
  end.

Record SharedAuthClient := mk_client {
  base : option Url;
  service_credential : option string;
}.

Definition normalize_base (raw : string) : option Url :=
  let raw := trim raw in
  if is_empty raw then None else
  let raw := if ends_with "/" raw then raw else raw +:+ "/" in
  url ← url_parse raw;
  if negb ((url.(url_scheme) =s "http") || (url.(url_scheme) =s "https"))
     || negb (is_empty url.(url_username))
     || is_some url.(url_password)
     || negb (is_some url.(url_host))
     || is_some url.(url_query)
     || is_some url.(url_fragment)
  then None else Some url.

Definition new (base : string) : SharedAuthClient := mk_client (normalize_base base) None.

Definition with_service_credential (c : SharedAuthClient) (credential : string) : SharedAuthClient :=
  mk_client c.(base) (Some credential).

Definition bearer_value (token : string) : result ClientError string :=
  ok_or (InvalidInput "bearer credential") (header_value_from_str ("Bearer " +:+ token)).

Definition request (c : SharedAuthClient) (method relative_path : string)
    : result ClientError HttpRequest :=
  base ← ok_or InvalidBaseUrl c.(base);
  url ← ok_or InvalidBaseUrl (url_join base relative_path);
  mret (mk_http_request method url [("accept", "application/json")] None).

Definition header (k v : string) (r : HttpRequest) : HttpRequest :=
  mk_http_request r.(hr_method) r.(hr_url) (r.(hr_headers) ++ [(k, v)]) r.(hr_body).
Definition body (b : string) (r : HttpRequest) : HttpRequest :=
  mk_http_request r.(hr_method) r.(hr_url) r.(hr_headers) (Some b).

(** What an answer means, after the transport. *)
Definition read_answer {T} (decode : json → option T) (a : HttpAnswer) : result ClientError T :=
  match a with
  | HttpFailed => Err Transport
  | HttpAnswered status body =>
      if status =? 401 then Err Unauthorized
      else if negb ((200 <=? status) && (status <=? 299)) then Err (Status status)
      else match body with
      | None => Err Transport
      | Some bytes =>
          if MAX_RESPONSE_BYTES <? slen bytes then Err (ResponseTooLarge MAX_RESPONSE_BYTES)
          else ok_or Decode (v ← json_from_slice bytes; decode v)
      end
  end.

Definition send_json {T} (decode : json → option T) (r : HttpRequest) : M ClientError T := λ w,
  (read_answer decode (http_answer w.(tick) r), bump w).

Definition exchange (c : SharedAuthClient) (supabase_token : string)
    : M ClientError ExchangeResponse :=
  r ← lift (token ← required_credential supabase_token "Supabase token";
            r ← request c "POST" "auth/exchange";
            b ← bearer_value token;
            mret (header "authorization" b r));
  send_json exchange_of_json r.

(** The request of [introspect_for_audience], or why none is sent. *)
Definition introspect_request (c : SharedAuthClient) (token audience : string)
    : result ClientError HttpRequest :=
  token ← required_credential token "token";
  audience ← required_identifier audience "audience";
  credential ← ok_or MissingServiceCredential c.(service_credential);
  credential ← required_credential credential "service credential";
  payload ← ok_or Decode (json_to_vec (JObj [("token", JStr token); ("audience", JStr audience)]));
  reject_if (MAX_REQUEST_BYTES <? slen payload) (RequestTooLarge MAX_REQUEST_BYTES);;
  r ← request c "POST" "auth/introspect";
  b ← bearer_value credential;
  mret (body payload (header "content-type" "application/json" (header "authorization" b r))).

Definition introspect_for_audience (c : SharedAuthClient) (token audience : string)
    : M ClientError Introspection :=
  r ← lift (introspect_request c token audience);
  send_json introspection_of_json r.
End shared_auth.
