(* ===== verification/StorageReport.v ===== *)
(** * The provider-agnostic storage report ([src/storage_report.rs])

    Pure descriptions of the artifact backend, and the reconciliation of one
    object against the registry's record. *)

From S2P Require Export World.

Definition STORAGE_STATUS_SCHEMA : string := "zed.storage-status.v1".
Definition STORAGE_OBJECT_SCHEMA : string := "zed.storage-object.v1".

Module Kind.
Inductive StorageBackendKind : Type := ProcessMemory | Filesystem | ObjectStore.

Definition is_durable (k : StorageBackendKind) : bool :=
  match k with
  | ProcessMemory => false
  | Filesystem | ObjectStore => true
  end.

Definition as_str (k : StorageBackendKind) : string :=
  match k with
  | ProcessMemory => "process-memory"
  | Filesystem => "filesystem"
  | ObjectStore => "object-store"
  end.
End Kind.

Module Provider.
Inductive StorageProvider : Type :=
| CloudflareR2 | AmazonS3 | GoogleCloudStorage | BackblazeB2 | DigitalOceanSpaces | Minio
| S3Compatible | LocalDisk | ProcessMemory.

Definition as_str (p : StorageProvider) : string :=
  match p with
  | CloudflareR2 => "cloudflare-r2"
  | AmazonS3 => "amazon-s3"
  | GoogleCloudStorage => "google-cloud-storage"
  | BackblazeB2 => "backblaze-b2"
  | DigitalOceanSpaces => "digitalocean-spaces"
  | Minio => "minio"
  | S3Compatible => "s3-compatible"
  | LocalDisk => "local-disk"
  | ProcessMemory => "process-memory"
  end.

Definition display_name (p : StorageProvider) : string :=
  match p with
  | CloudflareR2 => "Cloudflare R2"
  | AmazonS3 => "Amazon S3"
  | GoogleCloudStorage => "Google Cloud Storage"
  | BackblazeB2 => "Backblaze B2"
  | DigitalOceanSpaces => "DigitalOcean Spaces"
  | Minio => "MinIO"
  | S3Compatible => "S3-compatible store"
  | LocalDisk => "Local disk"
  | ProcessMemory => "Process memory"
  end.
End Provider.

#[export] Instance provider_eq_dec : EqDecision Provider.StorageProvider.
Proof. solve_decision. Defined.

(** ** Naming the backend *)

Definition url_delimiter (c : ascii) : bool := (c =c "/") || (c =c "?") || (c =c "#").

Definition endpoint_host (endpoint : string) : option string :=
  let without_scheme :=
    match split_once_str "://" endpoint with Some (_, rest) => rest | None => endpoint end in
  let authority := take_until url_delimiter without_scheme in
  let host_and_port :=
    match rsplit_once "@" authority with Some (_, host) => host | None => authority end in
  let host :=
    match strip_prefix "[" host_and_port with
    | Some rest => match split_once "]" rest with Some (inside, _) => inside | None => rest end
    | None =>
        match split_once ":" host_and_port with Some (host, _) => host | None => host_and_port end
    end in
  let host := to_ascii_lowercase (trim host) in
  if is_empty host then None else Some host.

Definition suffix_matches (host suffix : string) : bool :=
  (host =s suffix) || ends_with ("." +:+ suffix) host.

Definition classify_object_store (endpoint : option string) : Provider.StorageProvider :=
  match endpoint ≫= endpoint_host with
  | None => Provider.AmazonS3
  | Some host =>
      if suffix_matches host "r2.cloudflarestorage.com" then Provider.CloudflareR2
      else if suffix_matches host "storage.googleapis.com" then Provider.GoogleCloudStorage
      else if suffix_matches host "amazonaws.com" then Provider.AmazonS3
      else if suffix_matches host "backblazeb2.com" then Provider.BackblazeB2
      else if suffix_matches host "digitaloceanspaces.com" then Provider.DigitalOceanSpaces
      else if (host =s "minio") || suffix_matches host "min.io" || starts_with "minio." host
      then Provider.Minio
      else Provider.S3Compatible
  end.

Record StorageBackend := mk_backend {
  kind : Kind.StorageBackendKind;
  backend_provider : Provider.StorageProvider;
  backend_display_name : string;
  backend_bucket : option string;
  backend_region : option string;
  backend_endpoint_host : option string;
  path_style : option bool;
  directory : option string;
  durable : bool;
}.

Definition process_memory : StorageBackend :=
  mk_backend Kind.ProcessMemory Provider.ProcessMemory
    (Provider.display_name Provider.ProcessMemory) None None None None None false.

Definition filesystem (dir : string) : StorageBackend :=
  mk_backend Kind.Filesystem Provider.LocalDisk
    (Provider.display_name Provider.LocalDisk) None None None None (Some dir) true.

Definition object_store (bucket region : string) (endpoint : option string) (path_style : bool)
    : StorageBackend :=
  let provider := classify_object_store endpoint in
  mk_backend Kind.ObjectStore provider (Provider.display_name provider)
    (Some bucket) (Some region) (endpoint ≫= endpoint_host) (Some path_style) None true.

(** ** Health, usage, limits *)

Inductive StorageHealth : Type :=
| Reachable (latency_ms : Z)
| Unreachable (reason : string)
| Unprobed.

Definition is_reachable (h : StorageHealth) : bool :=
  match h with Reachable _ => true | _ => false end.

Record StorageUsage := mk_usage {
  artifact_count : Z;
  total_bytes : Z;
  largest_bytes : Z;
}.
Definition usage_default : StorageUsage := mk_usage 0 0 0.

Record StorageLimits := mk_limits {
  limit_max_artifact_bytes : Z;
  limit_max_buffered_artifact_bytes : Z;
}.

Record StorageStatus := mk_status {
  status_schema : string;
  status_backend : StorageBackend;
  status_health : StorageHealth;
  status_usage : StorageUsage;
  status_limits : StorageLimits;
  status_observed_at : string;
}.

Definition StorageStatus_new : StorageBackend → StorageHealth → StorageUsage → StorageLimits →
    string → StorageStatus := mk_status STORAGE_STATUS_SCHEMA.

(** ** Reconciliation *)

Inductive Reconciliation : Type :=
| Consistent
| Divergent (detail : string)
| Missing.

Record ObjectHead := mk_head {
  head_size : option Z;
  head_sha256 : option string;
  head_content_type : option string;
  head_cache_control : option string;
  head_last_modified : option string;
}.
Definition head_default : ObjectHead := mk_head None None None None None.

Record StorageObjectReport := mk_object_report {
  report_schema : string;
  report_key : string;
  report_sha256 : string;
  recorded_bytes : Z;
  stored_bytes : option Z;
  stored_sha256 : option string;
  report_content_type : option string;
  report_cache_control : option string;
  last_modified : option string;
  reconciliation : Reconciliation;
  observed_at : string;
}.

Definition reconcile (recorded_bytes : Z) (recorded_sha256 : string) (head : option ObjectHead)
    : Reconciliation :=
  match head with
  | None => Missing
  | Some head =>
      let wrong_size := match head.(head_size) with
                        | Some stored => if stored =? recorded_bytes then None else Some stored
                        | None => None
                        end in
      match wrong_size with
      | Some stored =>
          Divergent ("registry records " +:+ dec_of_Z recorded_bytes +:+ " bytes; store reports "
                     +:+ dec_of_Z stored)
      | None =>
          match head.(head_sha256) with
          | Some stored =>
              if eq_ignore_ascii_case stored recorded_sha256 then Consistent
              else Divergent "stored object digest metadata does not match the registry digest"
          | None => Consistent
          end
      end
  end.

Definition object_report (key sha256 : string) (recorded_bytes : Z) (head : option ObjectHead)
    (observed_at : string) : StorageObjectReport :=
  let r := reconcile recorded_bytes sha256 head in
  let head := default head_default head in
  mk_object_report STORAGE_OBJECT_SCHEMA key sha256 recorded_bytes head.(head_size)
    head.(head_sha256) head.(head_content_type) head.(head_cache_control)
    head.(head_last_modified) r observed_at.

(** ** Redaction *)

Definition REDACTED_MAX : Z := 200.

Definition redact_backend_error (error : string) : string :=
  let first_line := trim (first_line error) in
  let without_query :=
    match split_once_str "?X-Amz-" first_line with Some (head, _) => head | None => first_line end in
  let truncated := take_chars REDACTED_MAX without_query in
  if is_empty truncated then "storage backend reported an unspecified error" else truncated.

(** ** What reaches a console *)

Definition host_byte (c : ascii) : bool := negb (url_delimiter c) && negb (c =c "@").

Lemma host_byte_lower c : host_byte (ascii_lower c) = host_byte c.
Proof. apply Bool.eqb_prop. revert c. apply byte_forall. by vm_compute. Qed.

Lemma sall_strip q p s r : strip_prefix p s = Some r → sall q s = true → sall q r = true.
Proof. intros ->%strip_prefix_Some. rewrite sall_app. intros. by bool_to_prop. Qed.

Lemma sall_split_once q c s a b :
  split_once c s = Some (a, b) → sall q s = true → sall q a = true.
Proof. intros [-> _]%split_once_Some. rewrite sall_app. intros. by bool_to_prop. Qed.

Lemma authority_host_bytes s :
  let host := match rsplit_once "@" (take_until url_delimiter s) with
              | Some (_, h) => h | None => take_until url_delimiter s end in
  sall host_byte host = true.
Proof.
  cbn zeta. pose proof (take_until_free url_delimiter s) as Hfree.
  set (t := take_until url_delimiter s) in *. clearbody t.
  assert (∀ h, sall (λ c, negb (url_delimiter c)) h = true → contains_char "@" h = false →
    sall host_byte h = true) as Hjoin.
  { intros h. induction h as [|c h IH]; cbn; [done|]. intros [H1 H2]%andb_true_iff [H3 H4]%orb_false_iff.
    rewrite IH by done. unfold host_byte. by rewrite H1, H3. }
  destruct (rsplit_once "@" t) as [[u h]|] eqn:E.
  - apply rsplit_once_Some in E as [-> Hh]. rewrite sall_app in Hfree. cbn in Hfree.
    apply Hjoin; [by bool_to_prop|done].
  - apply Hjoin; [done|by apply rsplit_once_None].
Qed.

(** A reported endpoint host never carries userinfo, a path or a query:
    it holds no [@], [/], [?] or [#] whatever the endpoint's text; and for an
    endpoint with credentials and a port it is exactly the host, in lower
    case. *)
Theorem endpoint_host_hides_credentials :
  (∀ endpoint h, endpoint_host endpoint = Some h → h ≠ "" ∧ sall host_byte h = true) ∧
  (∀ scheme user host port tail,
     sall is_ascii_alphanumeric scheme = true →
     sall (λ c, negb (url_delimiter c)) user = true →
     host ≠ "" → sall (λ c, is_ascii_graphic c && host_byte c
                            && negb (c =c ":") && negb (c =c "[")) host = true →
     sall is_ascii_digit port = true →
     endpoint_host (scheme +:+ "://" +:+ user +:+ "@" +:+ host +:+ ":" +:+ port +:+ "/" +:+ tail)
     = Some (to_ascii_lowercase host)).
Proof.
  split.
  - intros e h. unfold endpoint_host.
    set (s := match split_once_str "://" e with Some (_, rest) => rest | None => e end).
    pose proof (authority_host_bytes s) as Hb. cbn zeta in Hb.
    set (hp := match rsplit_once _ _ with Some _ => _ | None => _ end) in *. clearbody hp.
    set (host := match strip_prefix "[" hp with Some _ => _ | None => _ end).
    assert (sall host_byte host = true) as Hhost.
    { subst host. destruct (strip_prefix "[" hp) eqn:E.
      - apply (sall_strip _ _ _ _ E) in Hb. destruct (split_once "]" s0) as [[a b]|] eqn:E2; [|done].
        by eapply sall_split_once.
      - destruct (split_once ":" hp) as [[a b]|] eqn:E2; [|done]. by eapply sall_split_once. }
    destruct (is_empty _) eqn:Ee; [done|]. intros [= <-]. split.
    + intros Hc. by rewrite Hc in Ee.
    + unfold to_ascii_lowercase. rewrite sall_smap, (sall_ext _ host_byte) by apply host_byte_lower.
      by apply sall_trim.
  - intros scheme user host port tail Hs Hu Hne Hh Hp. unfold endpoint_host.
    assert (sall host_byte host = true) as Hhb.
    { eapply sall_impl; [|exact Hh]. intros c Hc. cbn beta in Hc. by bool_to_prop. }
    assert (sall is_ascii_graphic host = true) as Hhg.
    { eapply sall_impl; [|exact Hh]. intros c Hc. cbn beta in Hc. by bool_to_prop. }
    assert (sall host_byte port = true) as Hpb.
    { eapply sall_impl; [|exact Hp]. clear. intros c. revert c.
      assert (∀ c, implb (is_ascii_digit c) (host_byte c) = true) as H by (apply byte_forall; by vm_compute).
      intros c Hc. specialize (H c). by rewrite Hc in H. }
    rewrite split_once_str_app by (eapply sall_not_contains; [exact Hs|by vm_compute]).
    replace (user +:+ "@" +:+ host +:+ ":" +:+ port +:+ "/" +:+ tail)
      with ((user +:+ "@" +:+ host +:+ ":" +:+ port) +:+ String "/" tail)
      by (by rewrite !app_str_assoc).
    assert (∀ t, sall host_byte t = true → sall (λ c, negb (url_delimiter c)) t = true
                 ∧ contains_char "@" t = false) as Hsplit.
    { intros t Ht. split; [|eapply sall_not_contains; [exact Ht|by vm_compute]].
      eapply sall_impl; [|exact Ht]. intros c Hc. unfold host_byte in Hc. apply andb_true_iff in Hc as [Hc _]. done. }
    destruct (Hsplit host Hhb) as [Hh1 Hh2]. destruct (Hsplit port Hpb) as [Hp1 Hp2].
    rewrite take_until_app;
      [|by rewrite !sall_app, Hu, Hh1, Hp1|done].
    rewrite (proj2 (rsplit_once_Some "@" _ user (host +:+ ":" +:+ port)))
      by (split; [done|by rewrite !contains_char_app, Hh2, Hp2]).
    destruct host as [|c host]; [done|].
    cbn [strip_prefix String.append]. destruct ("[" =c c) eqn:Ec.
    { apply Ascii.eqb_eq in Ec as <-. cbn in Hh. done. }
    rewrite (proj2 (split_once_Some ":" _ (String c host) port)).
    2: { split; [done|]. eapply sall_not_contains; [exact Hh|].
         cbn. by rewrite ?andb_false_r. }
    rewrite trim_graphic by done. done.
Qed.

(** What an operator is shown of a backend error is one non-empty line of
    at most 200 characters without a presigned query string. *)
Theorem redact_backend_error_safe (error : string) :
  let shown := redact_backend_error error in
  shown ≠ "" ∧ char_count shown ≤ REDACTED_MAX ∧
  contains_char newline shown = false ∧ contains_str "?X-Amz-" shown = false.
Proof.
  cbn zeta. unfold redact_backend_error.
  set (l := trim (first_line error)).
  assert (contains_char newline l = false) as Hl.
  { subst l. rewrite contains_char_sall. apply negb_false_iff, sall_trim, negb_false_iff.
    rewrite <- contains_char_sall. unfold first_line.
    destruct (split_once newline error) as [[a b]|] eqn:E; [|by apply split_once_None].
    apply split_once_Some in E as [_ Ha].
    destruct (strip_suffix _ a) as [a'|] eqn:Es; [|done].
    apply strip_suffix_Some in Es as ->. rewrite contains_char_app in Ha. by bool_to_prop. }
  set (q := match split_once_str "?X-Amz-" l with Some _ => _ | None => _ end).
  assert (contains_char newline q = false ∧ contains_str "?X-Amz-" q = false) as [Hq1 Hq2].
  { subst q. destruct (split_once_str "?X-Amz-" l) as [[a b]|] eqn:E.
    - split; [|by eapply split_once_str_head].
      apply split_once_str_Some in E. rewrite E, contains_char_app in Hl. by bool_to_prop.
    - split; [done|]. by apply split_once_str_no_occurrence. }
  destruct (take_chars_prefix REDACTED_MAX q) as [t Ht].
  destruct (is_empty _) eqn:Ee; [by vm_compute|]. split_and!.
  - intros Hc. by rewrite Hc in Ee.
  - by apply take_chars_count.
  - rewrite Ht, contains_char_app in Hq1. by bool_to_prop.
  - rewrite Ht in Hq2. by eapply contains_str_prefix_false.
Qed.
