(* ===== verification/Storage.v ===== *)
(** * The artifact store ([src/storage.rs])

    Process memory, a local directory, and any S3-compatible bucket behind one
    type. The S3 client is external; the file system is modelled by the
    operations of [std::fs] the code calls, each a step that may fail and that
    other processes may interleave with. *)

From S2P Require Export StorageReport.

Inductive ArtifactStore : Type :=
| Memory (max_bytes : Z)
| Local (dir : string)
| S3 (bucket : string).

Inductive StorageConfig : Type :=
| ConfigMemory (max_bytes : Z)
| ConfigLocal (dir : string)
| ConfigS3 (bucket : string) (endpoint_url : option string) (region : string)
    (force_path_style : bool).

Definition MAX_BUFFERED_ARTIFACT_BYTES : Z := 100 * 1024 * 1024.
Definition IMMUTABLE_CACHE_CONTROL : string := "public, max-age=31536000, immutable".
Definition ARTIFACT_SHA256_METADATA_KEY : string := "zpkg-sha256".

Record ExpectedArtifact := mk_expected {
  ea_len : Z;
  ea_sha256 : string;
  ea_content_type : string;
}.

Inductive Download : Type :=
| Redirect (url : string)
| Bytes (bytes : string)
| File (contents : string) (len : Z).

(** ** External code *)

Record PutRequest := mk_put {
  put_key : string;
  put_if_none_match : option string;
  put_content_type : string;
  put_cache_control : string;
  put_metadata : list (string * string);
  put_body : string;
}.

(** The successive results of reading a body: a chunk, or an error. *)
Abbreviation Reads := (list (option string)).

Record S3Object := mk_s3_object {
  s3_content_length : option Z;
  s3_content_type : option string;
  s3_cache_control : option string;
  s3_metadata : option (list (string * string));
  s3_last_modified : option Z;
  s3_body : Reads;
}.

Class StoreExternals := {
  (** [Display] of an [io::Error] *)
  io_error_text : IoErr → string;
  (** how a reader opened at an instant hands out a file *)
  file_reads : nat → string → Reads;
  (** what a failed [write_all] leaves of the bytes *)
  partial_write : nat → string → string;
  (** the S3 client, at an instant, on the bucket's objects *)
  s3_put : nat → PutRequest → Objects → result string unit * Objects;
  s3_get : nat → string → Objects → result string S3Object;
  s3_head : nat → string → Objects → result string S3Object;
  s3_presign : nat → string → string → result string string;
  s3_head_bucket : nat → result string unit;
  (** milliseconds since the Unix epoch, from [Metadata::modified] *)
  file_modified : nat → string → option Z;
  (** [DateTime::from_timestamp_millis(_)] and [to_rfc3339_opts(Secs, true)] *)
  rfc3339_secs_of_millis : Z → option string;
  (** [Instant::elapsed] between two instants, in milliseconds *)
  elapsed_ms : nat → nat → Z;
}.

(** ** Paths *)

(** [Path::join] of a path and a relative path. *)
Definition path_join (dir key : string) : string :=
  if starts_with "/" key then key
  else if is_empty dir || ends_with "/" dir then dir +:+ key
  else dir +:+ "/" +:+ key.

(** [Path] ignores separators and [.] components at the end. *)
Fixpoint trim_path_fuel (n : nat) (p : string) : string :=
  match n with
  | O => p
  | S n =>
      if p =s "/" then p
      else match strip_suffix "/" p with
      | Some r => if is_empty r then p else trim_path_fuel n r
      | None =>
          match strip_suffix "/." p with
          | Some r => if is_empty r then "/" else trim_path_fuel n r
          | None => p
          end
      end
  end.
Definition trim_path (p : string) : string := trim_path_fuel (String.length p) p.

(** [Path::parent] and [Path::file_name]. *)
Definition path_parent (p : string) : option string :=
  let p := trim_path p in
  if is_empty p || (p =s "/") then None
  else match rsplit_once "/" p with
  | Some (parent, _) => if is_empty parent then Some "/" else Some (trim_path parent)
  | None => Some ""
  end.

Definition path_file_name (p : string) : option string :=
  let p := trim_path p in
  let last := match rsplit_once "/" p with Some (_, name) => name | None => p end in
  if is_empty last || (last =s ".") || (last =s "..") then None else Some last.

(** ** Keys *)

Definition artifact_key (sha256 extension : string) : string :=
  "artifacts/" +:+ sha256 +:+ "." +:+ extension.

Definition sha256_ok (sha256 : string) : bool :=
  (slen sha256 =? 64) && sall (λ c, is_ascii_hexdigit c && negb (is_ascii_uppercase c)) sha256.

Definition nul : ascii := "000"%char.

Definition safe_r2_segments (parts : list string) : bool :=
  forallb (λ part,
    negb (is_empty part)
    && negb (contains_char nul part)
    && negb (contains_char "\" part)
    && forallb (λ segment, negb (is_empty segment) && negb (segment =s ".") && negb (segment =s ".."))
         (split "/" part)) parts.

Section storage.
Context `{ext : Externals} `{sto : StoreExternals}.

(** [Instant::now()], as the number of the next step. *)
Definition instant_now {E} : M E nat := λ w, (Ok w.(tick), w).

Definition local_path (dir key : string) : string := path_join dir key.

Definition io {A} (m : M IoErr A) : M string A := with_err io_error_text m.

(** ** The operations of [std::fs] *)

Definition fs_metadata (path : string) : M IoErr Object :=
  on_objects (λ o, match o !! path with Some x => Ok (x, o) | None => Err NotFound end).

(** [File::open]; the handle reads the contents present at that instant. *)
Definition fs_open (path : string) : M IoErr string :=
  on_objects (λ o, match o !! path with Some x => Ok (x.(o_bytes), o) | None => Err NotFound end).

Definition fs_create_dir_all (path : string) : M IoErr unit := on_objects (λ o, Ok (tt, o)).
(** [flush], [sync_all], and syncing a directory. *)
Definition fs_sync : M IoErr unit := on_objects (λ o, Ok (tt, o)).

Definition file_of (bytes : string) : Object := mk_object bytes true None None None.

(** [OpenOptions::create_new(true).write(true).open] *)
Definition fs_create_new (path : string) : M IoErr unit :=
  on_objects (λ o, match o !! path with
                   | Some _ => Err AlreadyExists
                   | None => Ok (tt, <[path := file_of ""]> o)
                   end).

(** [write_all] on the handle of the file at [path]; a failure may leave part
    of the bytes. *)
Definition fs_write_all (path bytes : string) : M IoErr unit := λ w,
  let o := others_objects w.(tick) w.(objects) in
  match io_outcome w.(tick) with
  | Done => (Ok tt, bump (set_objects (<[path := file_of bytes]> o) w))
  | _ =>
      (Err IoOther,
       bump (set_objects (<[path := file_of (partial_write w.(tick) bytes)]> o) w))
  end.

(** [hard_link]: atomic, never replaces. *)
Definition fs_hard_link (from to : string) : M IoErr unit :=
  on_objects (λ o, match o !! from, o !! to with
                   | None, _ => Err NotFound
                   | Some _, Some _ => Err AlreadyExists
                   | Some x, None => Ok (tt, <[to := x]> o)
                   end).

Definition fs_remove_file (path : string) : M IoErr unit :=
  on_objects (λ o, match o !! path with Some _ => Ok (tt, delete path o) | None => Err NotFound end).

(** ** Hashing a reader *)

Fixpoint hash_reads (reads : Reads) (expected_len len : Z) (hashed : string)
    : result string (Z * string) :=
  match reads with
  | [] => Ok (len, digest_hex hashed)
  | None :: _ => Err (io_error_text IoOther)
  | Some chunk :: reads =>
      if slen chunk =? 0 then Ok (len, digest_hex hashed)
      else
        len ← ok_or "artifact length overflowed u64 while hashing"
                (checked_add u64_max len (slen chunk));
        if expected_len <? len then Ok (len, "")
        else hash_reads reads expected_len len (hashed +:+ chunk)
  end.

Definition hash_async_reader (reads : Reads) (expected_len : Z) : result string (Z * string) :=
  hash_reads reads expected_len 0 "".

Definition local_object_matches (path : string) (expected : ExpectedArtifact)
    : M string (option bool) :=
  m ← attempt (fs_metadata path);
  match m with
  | Err NotFound => mret None
  | Err e => fail (io_error_text e)
  | Ok x =>
      if negb x.(o_file) || negb (slen x.(o_bytes) =? expected.(ea_len)) then mret (Some false)
      else
        contents ← io (fs_open path);
        instant ← instant_now;
        '(len, sha256) ← lift (hash_async_reader (file_reads instant contents) expected.(ea_len));
        mret (Some ((len =? expected.(ea_len)) && (sha256 =s expected.(ea_sha256))))
  end.

(** The staged write and its promotion by a hard link. *)
Definition promote (temporary path bytes : string) (expected : ExpectedArtifact) : M string unit :=
  io (fs_create_new temporary);;
  io (fs_write_all temporary bytes);;
  io fs_sync;; (* flush *)
  io fs_sync;; (* sync_all *)
  r ← attempt (fs_hard_link temporary path);
  match r with
  | Ok _ => mret tt
  | Err AlreadyExists =>
      m ← local_object_matches path expected;
      match m with
      | Some true => mret tt
      | Some false => fail ("local artifact " +:+ path +:+ " won a race with different immutable content")
      | None => fail ("promoting local artifact " +:+ path)
      end
  | Err _ => fail ("promoting local artifact " +:+ path)
  end.

Definition staging_name (file_name : string) (id : uuid) : string :=
  "." +:+ file_name +:+ ".upload-" +:+ uuid_display id +:+ ".tmp".

Definition put_local (path bytes : string) (expected : ExpectedArtifact) : M string unit :=
  m ← local_object_matches path expected;
  match m with
  | Some true => mret tt
  | Some false =>
      fail ("local artifact " +:+ path +:+ " already exists with different immutable content")
  | None =>
      parent ← lift (ok_or "local artifact path has no parent directory" (path_parent path));
      io (fs_create_dir_all parent);;
      file_name ← lift (ok_or "local artifact path has no UTF-8 file name" (path_file_name path));
      id ← uuid_v4;
      let temporary := path_join parent (staging_name file_name id) in
      result ← attempt (promote temporary path bytes expected);
      cleanup ← attempt (fs_remove_file temporary);
      match cleanup, result with
      | Err NotFound, Ok _ | Ok _, Ok _ => io fs_sync
      | Err _, Ok _ => fail ("removing local artifact staging file " +:+ temporary)
      | _, Err e => fail e
      end
  end.

(** ** S3 *)

Definition on_s3_put (r : PutRequest) : M string unit := λ w,
  let '(res, o) := s3_put w.(tick) r (others_objects w.(tick) w.(objects)) in
  (res, bump (set_objects o w)).

Definition on_s3_read {A} (f : nat → Objects → result string A) : M string A := λ w,
  let o := others_objects w.(tick) w.(objects) in
  (f w.(tick) o, bump (set_objects o w)).

Definition meta_get (key : string) (m : list (string * string)) : option string :=
  snd <$> List.find (λ e, e.1 =s key) m.

(** [u64::try_from(i64)] *)
Definition u64_of_i64 (z : Z) : option Z := if z <? 0 then None else Some z.

Definition object_metadata_matches (content_length : option Z) (content_type : option string)
    (cache_control : option string) (metadata : option (list (string * string)))
    (expected : ExpectedArtifact) : bool :=
  bool_decide (content_length ≫= u64_of_i64 = Some expected.(ea_len))
  && bool_decide (content_type = Some expected.(ea_content_type))
  && bool_decide (cache_control = Some IMMUTABLE_CACHE_CONTROL)
  && bool_decide (metadata ≫= meta_get ARTIFACT_SHA256_METADATA_KEY = Some expected.(ea_sha256)).

Definition s3_object_matches (key : string) (expected : ExpectedArtifact) : M string bool :=
  object ← on_s3_read (λ t, s3_get t key);
  if negb (object_metadata_matches object.(s3_content_length) object.(s3_content_type)
             object.(s3_cache_control) object.(s3_metadata) expected)
  then mret false
  else
    '(len, sha256) ← lift (hash_async_reader object.(s3_body) expected.(ea_len));
    mret ((len =? expected.(ea_len)) && (sha256 =s expected.(ea_sha256))).

Definition put_s3 (key bytes content_type sha256 : string) (expected : ExpectedArtifact)
    : M string unit :=
  put ← attempt (on_s3_put {|
    put_key := key;
    put_if_none_match := Some "*";
    put_content_type := content_type;
    put_cache_control := IMMUTABLE_CACHE_CONTROL;
    put_metadata := [(ARTIFACT_SHA256_METADATA_KEY, sha256)];
    put_body := bytes |});
  match put with
  | Ok _ => mret tt
  | Err err =>
      m ← attempt (s3_object_matches key expected);
      match m with
      | Ok true => mret tt
      | Ok false => fail "s3 put_object failed and the existing object did not match the expected immutable artifact"
      | Err verify_error =>
          fail ("s3 put_object failed and recovery verification failed: " +:+ verify_error)
      end
  end.

(** ** Process memory *)

(** [objects.values().try_fold(0, checked_add)] *)
Fixpoint checked_sum (total : Z) (l : list Z) : option Z :=
  match l with
  | [] => Some total
  | x :: l => total ← checked_add u64_max total x; checked_sum total l
  end.

Definition lens (o : Objects) : list Z := (λ e, slen e.2.(o_bytes)) <$> map_to_list o.

Definition memory_insert (max_bytes : Z) (key bytes : string) (o : Objects)
    : result string Objects :=
  match o !! key with
  | Some existing =>
      if existing.(o_bytes) =s bytes then Ok o
      else Err ("in-memory artifact `" +:+ key +:+ "` already exists with different immutable content")
  | None =>
      let overflow := "in-memory artifact byte accounting overflowed" in
      retained ← ok_or overflow (checked_sum 0 (lens o));
      next ← ok_or overflow (checked_add u64_max retained (slen bytes));
      if max_bytes <? next
      then Err ("in-memory artifact store capacity exceeded: write would use " +:+ dec_of_Z next
                +:+ " bytes, limit is " +:+ dec_of_Z max_bytes +:+ " bytes")
      else Ok (<[key := file_of bytes]> o)
  end.

(** The write lock makes the check and the insertion one step. *)
Definition put_memory (max_bytes : Z) (key bytes : string) : M string unit := λ w,
  let o := others_objects w.(tick) w.(objects) in
  match memory_insert max_bytes key bytes o with
  | Ok o' => (Ok tt, bump (set_objects o' w))
  | Err e => (Err e, bump (set_objects o w))
  end.

(** [objects.read().await] *)
Definition memory_read {E} : M E Objects := λ w,
  let o := others_objects w.(tick) w.(objects) in (Ok o, bump (set_objects o w)).

Definition memory_get (key : string) : M string Object :=
  o ← memory_read;
  lift (ok_or ("in-memory artifact " +:+ key +:+ " not found") (o !! key)).

(** ** The store *)

Definition put_verified (store : ArtifactStore) (key bytes content_type sha256 : string)
    : M string unit :=
  if negb (sha256_ok sha256)
  then fail "artifact sha256 must be 64 lowercase hexadecimal characters"
  else
    let expected := mk_expected (slen bytes) sha256 content_type in
    match store with
    | Memory max_bytes => put_memory max_bytes key bytes
    | Local dir => put_local (local_path dir key) bytes expected
    | S3 _ => put_s3 key bytes content_type sha256 expected
    end.

Fixpoint put_aliases (store : ArtifactStore) (keys : list string)
    (bytes content_type sha256 : string) : M string unit :=
  match keys with
  | [] => mret tt
  | key :: keys =>
      put_verified store key bytes content_type sha256;;
      put_aliases store keys bytes content_type sha256
  end.

Definition put_public_aliases (store : ArtifactStore) (keys : list string)
    (bytes content_type sha256 : string) : M string unit :=
  match store with
  | Memory _ => mret tt
  | Local _ | S3 _ => put_aliases store keys bytes content_type sha256
  end.

Definition guard_buffered (key : string) (len : Z) : result string unit :=
  if MAX_BUFFERED_ARTIFACT_BYTES <? len
  then Err ("artifact " +:+ key +:+ " is " +:+ dec_of_Z len +:+ " bytes, over the "
            +:+ dec_of_Z MAX_BUFFERED_ARTIFACT_BYTES
            +:+ "-byte in-memory ceiling; refusing to buffer it")
  else Ok tt.

(** [ByteStream::collect] *)
Fixpoint collect_reads (reads : Reads) : option string :=
  match reads with
  | [] => Some ""
  | None :: _ => None
  | Some chunk :: reads => rest ← collect_reads reads; Some (chunk +:+ rest)
  end.

Definition download (store : ArtifactStore) (key : string) : M string Download :=
  match store with
  | Memory _ => x ← memory_get key; mret (Bytes x.(o_bytes))
  | Local dir => contents ← io (fs_open (local_path dir key)); mret (File contents (slen contents))
  | S3 _ =>
      u ← on_s3_read (λ t _, s3_presign t key IMMUTABLE_CACHE_CONTROL);
      mret (Redirect u)
  end.

Definition get_bytes (store : ArtifactStore) (key : string) : M string string :=
  match store with
  | Memory _ =>
      x ← memory_get key;
      lift (guard_buffered key (slen x.(o_bytes)));;
      mret x.(o_bytes)
  | Local dir =>
      let path := local_path dir key in
      x ← io (fs_metadata path);
      lift (guard_buffered key (slen x.(o_bytes)));;
      io (fs_open path)
  | S3 _ =>
      object ← on_s3_read (λ t, s3_get t key);
      lift (match object.(s3_content_length) with
            | Some len => guard_buffered key (Z.max 0 len)
            | None => Ok tt
            end);;
      bytes ← lift (ok_or "streaming error" (collect_reads object.(s3_body)));
      lift (guard_buffered key (slen bytes));;
      mret bytes
  end.

(** ** Introspection *)

Definition describe (store : ArtifactStore) (config : StorageConfig) : StorageBackend :=
  match store, config with
  | Memory _, _ => process_memory
  | Local dir, _ => filesystem dir
  | S3 bucket, ConfigS3 _ endpoint_url region force_path_style =>
      object_store bucket region endpoint_url force_path_style
  | S3 bucket, _ => object_store bucket "" None false
  end.

Definition from_config (config : StorageConfig) : M string ArtifactStore :=
  match config with
  | ConfigMemory max_bytes => mret (Memory max_bytes)
  | ConfigLocal dir => io (fs_create_dir_all dir);; mret (Local dir)
  | ConfigS3 bucket _ _ _ => mret (S3 bucket)
  end.

Definition probe {E} (store : ArtifactStore) : M E StorageHealth :=
  started ← instant_now;
  outcome ←
    match store with
    | Memory _ => mret (Ok tt)
    | Local dir =>
        x ← attempt (fs_metadata dir);
        mret (match x with
              | Err e => Err (io_error_text e)
              | Ok x => if x.(o_file) then Err (dir +:+ " is not a directory") else Ok tt
              end)
    | S3 _ => attempt (on_s3_read (λ t _, s3_head_bucket t))
    end;
  finished ← instant_now;
  mret (match outcome with
        | Ok _ => Reachable (Z.min (elapsed_ms started finished) u64_max)
        | Err e => Unreachable (redact_backend_error e)
        end).

Definition is_not_found (rendered : string) : bool :=
  let lowered := to_ascii_lowercase rendered in
  contains_str "notfound" lowered
  || contains_str "not found" lowered
  || contains_str "nosuchkey" lowered
  || contains_str "status code: 404" lowered.

Definition rfc3339_from_millis (millis : Z) : option string := rfc3339_secs_of_millis millis.

Definition object_head (store : ArtifactStore) (key : string) : M string (option ObjectHead) :=
  match store with
  | Memory _ =>
      o ← memory_read;
      mret ((λ x, mk_head (Some (slen x.(o_bytes))) None None None None) <$> o !! key)
  | Local dir =>
      m ← attempt (fs_metadata (local_path dir key));
      match m with
      | Ok x =>
          instant ← instant_now;
          mret (Some (mk_head (Some (slen x.(o_bytes))) None None None
            (t ← file_modified instant (local_path dir key);
             if (t <? 0) || (i64_max <? t) then None else rfc3339_from_millis t)))
      | Err NotFound => mret None
      | Err _ => fail "reading local artifact metadata"
      end
  | S3 _ =>
      response ← attempt (on_s3_read (λ t, s3_head t key));
      match response with
      | Ok object =>
          mret (Some (mk_head (Z.max 0 <$> object.(s3_content_length))
            (object.(s3_metadata) ≫= meta_get ARTIFACT_SHA256_METADATA_KEY)
            object.(s3_content_type) object.(s3_cache_control)
            (t ← object.(s3_last_modified); rfc3339_from_millis t)))
      | Err rendered =>
          if is_not_found rendered then mret None
          else fail (redact_backend_error rendered)
      end
  end.
End storage.

(** Keep paths folded while runs are computed. *)
#[global] Arguments path_join _ _ : simpl never.
#[global] Arguments staging_name {_} _ _ : simpl never.
