(* ===== verification/StorageFacts.v ===== *)
(** * The artifact store keeps what it promises

    Immutability of stored objects, what a successful write means, the
    capacity of the in-memory backend, retries, and bounded reads. *)

From S2P Require Export Storage.

(** ** Hashing a reader *)

Lemma collect_reads_cons chunk reads c :
  collect_reads (Some chunk :: reads) = Some c ↔
  ∃ c', collect_reads reads = Some c' ∧ c = chunk +:+ c'.
Proof.
  cbn. destruct (collect_reads reads) as [c'|]; cbn; split.
  - intros [= <-]. eauto.
  - by intros (c'' & [= ->] & ->).
  - done.
  - by intros (c'' & [=] & _).
Qed.

Section hashing.
Context `{ext : Externals} `{sto : StoreExternals}.

(** A reader hands out non-empty chunks until the end. *)
Definition chunked (reads : Reads) : Prop := Forall (λ c, c ≠ Some "") reads.

Lemma hash_reads_Ok reads expected len hashed n digest :
  chunked reads →
  hash_reads reads expected len hashed = Ok (n, digest) →
  (expected < n ∧ digest = "") ∨
  ∃ c, collect_reads reads = Some c ∧ n = len + slen c ∧ digest = digest_hex (hashed +:+ c).
Proof.
  revert len hashed. induction reads as [|[chunk|] reads IH]; intros len hashed Hc; cbn [hash_reads].
  - intros [= <- <-]. right. exists "". rewrite app_str_nil_r. split_and!; [done|unfold slen; cbn; lia|done].
  - apply Forall_cons_1 in Hc as [Hne Hc].
    destruct (Z.eqb_spec (slen chunk) 0) as [Hz|_]; [destruct chunk; [done|unfold slen in Hz; cbn in Hz; lia]|].
    intros H. inv_bind.
    match goal with Hs : checked_add _ _ _ = Some _ |- _ => apply checked_add_Some in Hs as [-> _] end.
    destruct (Z.ltb_spec expected (len + slen chunk)).
    + injection H as <- <-. by left.
    + apply IH in H as [?|(c & Hr & -> & ->)]; [by left| |done]. right.
      exists (chunk +:+ c). rewrite collect_reads_cons, slen_app, app_str_assoc.
      split_and!; [eauto|lia|done].
  - done.
Qed.

(** A match of length and digest is a match of the contents that were read. *)
Lemma hash_match reads expected sha256 n digest content :
  chunked reads → (∀ c, collect_reads reads = Some c → c = content) →
  hash_async_reader reads expected = Ok (n, digest) →
  ((n =? expected) && (digest =s sha256))%bool = true →
  slen content = expected ∧ digest_hex content = sha256.
Proof.
  intros Hch Hcontent H Hm. apply hash_reads_Ok in H; [|done]. bool_to_prop. subst.
  destruct H as [[? _]|(c & Hc & Hn & Hd)]; [lia|]. apply Hcontent in Hc as ->. by subst.
Qed.

Lemma hash_reads_complete reads c expected len hashed :
  chunked reads → collect_reads reads = Some c →
  0 ≤ len → len + slen c ≤ expected ≤ u64_max →
  hash_reads reads expected len hashed = Ok (len + slen c, digest_hex (hashed +:+ c)).
Proof.
  revert c len hashed. induction reads as [|[chunk|] reads IH]; intros c len hashed Hc Hr Hl Hb; [..|done].
  - injection Hr as <-. cbn. by rewrite app_str_nil_r, Z.add_0_r.
  - apply collect_reads_cons in Hr as (c' & Hr & ->). apply Forall_cons_1 in Hc as [Hne Hc].
    rewrite slen_app in *. pose proof (slen_nonneg chunk). pose proof (slen_nonneg c'). cbn [hash_reads].
    destruct (Z.eqb_spec (slen chunk) 0) as [Hz|_]; [destruct chunk; [done|unfold slen in Hz; cbn in Hz; lia]|].
    rewrite (proj2 (checked_add_Some u64_max len (slen chunk) _)) by (split; [reflexivity|lia]). cbn [ok_or mbind result_mbind result_bind].
    rewrite (proj2 (Z.ltb_ge _ _)) by lia. rewrite (IH c') by (done || lia).
    by rewrite app_str_assoc, Z.add_assoc.
Qed.
End hashing.

(** ** What the store relies on

    Documented behaviour of the collaborators: other writers are instances of
    this same service, so they never touch a stored object and each works on
    staging files of its own; a conditional PUT never replaces; a GET returns
    the stored object; a reader hands out the file it was opened on. *)

(** Every stored key; only staging files end in [.tmp]. *)
Definition stable (key : string) : Prop := ends_with ".tmp" key = false.

Definition s3_stored (r : PutRequest) : Object :=
  mk_object r.(put_body) true (Some r.(put_content_type)) (Some r.(put_cache_control))
    (Some r.(put_metadata)).

Class StoreLaws {ext : Externals} {sto : StoreExternals} : Prop := {
  others_keep t o k x : stable k → o !! k = Some x → others_objects t o !! k = Some x;
  others_keep_staging t o pre n x :
    o !! (pre +:+ ".upload-" +:+ uuid_display (new_v4 n) +:+ ".tmp") = Some x →
    others_objects t o !! (pre +:+ ".upload-" +:+ uuid_display (new_v4 n) +:+ ".tmp") = Some x;
  s3_put_conditional t r o res o' :
    put_if_none_match r = Some "*" → s3_put t r o = (res, o') →
    (o' = o ∧ res ≠ Ok tt) ∨ (o !! put_key r = None ∧ o' = <[put_key r := s3_stored r]> o);
  s3_get_stored t k o obj :
    s3_get t k o = Ok obj → ∃ x, o !! k = Some x ∧ chunked (s3_body obj) ∧
      (∀ c, collect_reads (s3_body obj) = Some c → c = o_bytes x) ∧
      s3_metadata obj = o_metadata x;
  s3_head_stored t k o obj :
    s3_head t k o = Ok obj → ∃ x, o !! k = Some x ∧
      s3_content_length obj = Some (slen (o_bytes x)) ∧ s3_metadata obj = o_metadata x;
  s3_head_absent t k o e : s3_head t k o = Err e → is_not_found e = true → o !! k = None;
  file_reads_chunked t c : chunked (file_reads t c);
  file_reads_sound t c c' : collect_reads (file_reads t c) = Some c' → c' = c;
}.

Section safety.
Context `{laws : StoreLaws}.

(** Stored objects stay as they are. *)
Definition keeps (w w' : World) : Prop :=
  ∀ k x, stable k → objects w !! k = Some x → objects w' !! k = Some x.

#[export] Instance keeps_preorder : PreOrder keeps.
Proof. split; [by intros w k x|intros a b c H1 H2 k x Hk Hx; by apply H2, H1]. Qed.

Lemma keeps_on_objects {A} (f : Objects → result IoErr (A * Objects)) :
  (∀ o a o' k x, stable k → f o = Ok (a, o') → o !! k = Some x → o' !! k = Some x) →
  respects keeps (on_objects f).
Proof.
  intros Hf w r w' H. apply on_objects_inv in H as (_ & _ & _ & H). intros k x Hk Hx.
  apply (others_keep (tick w)) in Hx; [|done].
  destruct H as [(a & o' & Ho & _ & ->)|(e & _ & Ho & _)].
  - by eapply Hf.
  - destruct Ho as [->|(_ & a & Ho)]; [done|]. by eapply Hf.
Qed.

Lemma keeps_read {A} (f : Objects → result IoErr A) :
  respects keeps (on_objects (λ o, match f o with Ok a => Ok (a, o) | Err e => Err e end)).
Proof. apply keeps_on_objects. intros o a o' k x _. destruct (f o); [|done]. by intros [= _ <-]. Qed.

Lemma keeps_metadata path : respects keeps (fs_metadata path).
Proof. apply keeps_on_objects. intros o a o' k x _. destruct (o !! path); [|done]. by intros [= _ <-]. Qed.

Lemma keeps_open path : respects keeps (fs_open path).
Proof. apply keeps_on_objects. intros o a o' k x _. destruct (o !! path); [|done]. by intros [= _ <-]. Qed.

Lemma keeps_create_dir_all path : respects keeps (fs_create_dir_all path).
Proof. apply keeps_on_objects. by intros o a o' k x _ [= _ <-]. Qed.

Lemma keeps_sync : respects keeps fs_sync.
Proof. apply keeps_on_objects. by intros o a o' k x _ [= _ <-]. Qed.

Lemma insert_absent_keeps (o : Objects) k k' x y :
  o !! k' = None → o !! k = Some x → <[k' := y]> o !! k = Some x.
Proof. intros Hn Hx. rewrite lookup_insert_ne; [done|congruence]. Qed.

Lemma keeps_create_new path : respects keeps (fs_create_new path).
Proof.
  apply keeps_on_objects. intros o a o' k x _. destruct (o !! path) eqn:E; [done|].
  intros [= _ <-]. by apply insert_absent_keeps.
Qed.

Lemma keeps_hard_link from to : respects keeps (fs_hard_link from to).
Proof.
  apply keeps_on_objects. intros o a o' k x _.
  destruct (o !! from); [|done]. destruct (o !! to) eqn:E; [done|].
  intros [= _ <-]. by apply insert_absent_keeps.
Qed.

Lemma keeps_write_all path bytes : ends_with ".tmp" path = true → respects keeps (fs_write_all path bytes).
Proof.
  intros Hp w r w' H k x Hk Hx.
  assert (path ≠ k) by (intros ->; unfold stable in Hk; congruence).
  unfold fs_write_all in H.
  destruct (io_outcome (tick w)); injection H as _ <-; cbn; rewrite lookup_insert_ne by done;
    by apply others_keep.
Qed.

Lemma keeps_remove path : ends_with ".tmp" path = true → respects keeps (fs_remove_file path).
Proof.
  intros Hp. apply keeps_on_objects. intros o a o' k x Hk.
  assert (path ≠ k) by (intros ->; unfold stable in Hk; congruence).
  destruct (o !! path); [|done]. intros [= _ <-]. by rewrite lookup_delete_ne.
Qed.

Lemma keeps_s3_read {A} (f : nat → Objects → result string A) : respects keeps (on_s3_read f).
Proof. intros w r w' [= _ <-] k x Hk Hx. cbn. by apply others_keep. Qed.

Lemma keeps_s3_put r : put_if_none_match r = Some "*" → respects keeps (on_s3_put r).
Proof.
  intros Hr w res w' H k x Hk Hx. unfold on_s3_put in H.
  apply (others_keep (tick w)) in Hx; [|done].
  destruct (s3_put _ _ _) as [res' o] eqn:Hp. injection H as _ <-. cbn.
  apply s3_put_conditional in Hp as [[-> _]|[Hn ->]]; [done| |done].
  by apply insert_absent_keeps.
Qed.

Lemma keeps_instant {E} : respects keeps (instant_now : M E nat).
Proof. by intros w r w' [= _ <-] k x. Qed.

Lemma keeps_uuid {E} : respects keeps (uuid_v4 : M E uuid).
Proof. by intros w r w' [= _ <-] k x. Qed.

Lemma keeps_memory_read {E} : respects keeps (memory_read : M E Objects).
Proof. intros w r w' [= _ <-] k x Hk Hx. cbn. by apply others_keep. Qed.

Lemma keeps_put_memory max key bytes : respects keeps (put_memory max key bytes).
Proof.
  intros w r w' H k x Hk Hx. unfold put_memory, memory_insert in H.
  apply (others_keep (tick w)) in Hx; [|done]. set (o := others_objects _ _) in *.
  destruct (o !! key) eqn:E.
  - destruct (_ =s _); by injection H as _ <-.
  - destruct (checked_sum _ _) as [t|]; cbn in H; [|by injection H as _ <-].
    destruct (checked_add _ _ _) as [n|]; cbn in H; [|by injection H as _ <-].
    destruct (_ <? _); injection H as _ <-; [done|]. cbn. by apply insert_absent_keeps.
Qed.

Lemma ends_with_app p a b : ends_with p b = true → ends_with p (a +:+ b) = true.
Proof. rewrite !ends_with_spec. intros [r ->]. exists (a +:+ r). by rewrite app_str_assoc. Qed.

Lemma path_join_suffix dir key p : ends_with p key = true → ends_with p (path_join dir key) = true.
Proof.
  intros H. unfold path_join. destruct (starts_with _ _); [done|].
  destruct (_ || _)%bool; by repeat apply ends_with_app.
Qed.

Lemma staging_is_tmp parent name id :
  ends_with ".tmp" (path_join parent (staging_name name id)) = true.
Proof. apply path_join_suffix. unfold staging_name. by repeat apply ends_with_app. Qed.
End safety.

#[export] Hint Resolve keeps_metadata keeps_open keeps_create_dir_all keeps_sync keeps_create_new
  keeps_hard_link keeps_write_all keeps_remove keeps_s3_read keeps_s3_put keeps_instant
  keeps_uuid keeps_memory_read keeps_put_memory staging_is_tmp : respects.

Section immutability.
Context `{laws : StoreLaws}.

Lemma keeps_local_matches path e : respects keeps (local_object_matches path e).
Proof. unfold local_object_matches, io. respects_tac. Qed.
Hint Resolve keeps_local_matches : respects.

Lemma keeps_put_verified store key bytes ct sha : respects keeps (put_verified store key bytes ct sha).
Proof.
  unfold put_verified, put_local, promote, put_s3, s3_object_matches, io.
  respects_tac.
Qed.
Hint Resolve keeps_put_verified : respects.

(** C3: a stored object is immutable. Whatever is written to the store, on
    any backend, under any faults and with other writers in between, every
    object already stored (under any key but a staging file's) is still there,
    unchanged, when the call returns, successfully or not. *)
Theorem put_verified_immutable store key bytes ct sha w r w' k x :
  put_verified store key bytes ct sha w = (r, w') →
  stable k → objects w !! k = Some x → objects w' !! k = Some x.
Proof. intros H. by apply (keeps_put_verified store key bytes ct sha w r w' H). Qed.

Lemma keeps_put_public_aliases store keys bytes ct sha :
  respects keeps (put_public_aliases store keys bytes ct sha).
Proof.
  unfold put_public_aliases. destruct store; [respects_tac|..];
    induction keys as [|k keys IH]; cbn [put_aliases]; respects_tac; apply IH.
Qed.
End immutability.

(** ** What a successful write means *)

Section stored.
Context `{laws : StoreLaws}.

(** The object behind a key has the given length and digest. *)
Definition holds (place : string) (len : Z) (sha : string) (w : World) : Prop :=
  ∃ x, objects w !! place = Some x ∧ slen x.(o_bytes) = len ∧ digest_hex x.(o_bytes) = sha.

Lemma holds_keeps place len sha w w' :
  stable place → keeps w w' → holds place len sha w → holds place len sha w'.
Proof. intros Hs Hk (x & Hx & H). exists x. by split; [apply Hk|]. Qed.

Lemma local_matches_holds path e w w' :
  stable path → local_object_matches path e w = (Ok (Some true), w') →
  holds path e.(ea_len) e.(ea_sha256) w'.
Proof.
  intros Hs H. unfold local_object_matches, io in H.
  M_step H. apply attempt_inv in R as (m & [= ->] & R).
  destruct m as [x|[]]; try (by apply fail_inv in H as [[=] _] || by apply mret_inv in H as [[=] _]).
  destruct (_ || _)%bool; [by apply mret_inv in H as [[=] _]|].
  M_step H. apply with_err_inv in R0 as (y & R0 & Hy). destruct y as [contents|]; [|done].
  injection Hy as <-.
  apply on_objects_inv in R0 as (_ & _ & _ & [(b & o & Ho & [= <-] & Hw)|(? & [=] & _)]).
  destruct (others_objects _ _ !! path) as [z|] eqn:Ez; [|done]. injection Ho as <- <-.
  M_step H. injection R0 as <- <-.
  M_step H. destruct a as [n d]. apply lift_inv in R0 as [Hh ->].
  apply mret_inv in H as [[= Hm] ->]. symmetry in Hh.
  exists z. split; [by rewrite Hw|].
  eapply hash_match; [apply file_reads_chunked|apply file_reads_sound|exact Hh|by symmetry].
Qed.

(** A staged file is promoted with the bytes that were written to it. *)
Lemma promote_holds parent name n path bytes e w w' :
  let temporary := path_join parent (staging_name name (new_v4 n)) in
  stable path → e.(ea_len) = slen bytes → e.(ea_sha256) = digest_hex bytes →
  promote temporary path bytes e w = (Ok tt, w') →
  holds path e.(ea_len) e.(ea_sha256) w'.
Proof.
  cbn zeta. intros Hs Hlen Hsha H. unfold promote, io in H.
  assert (∃ pre, path_join parent (staging_name name (new_v4 n))
    = pre +:+ ".upload-" +:+ uuid_display (new_v4 n) +:+ ".tmp") as [pre Htmp].
  { unfold path_join, staging_name. destruct (starts_with _ _); [|destruct (_ || _)%bool].
    - by exists ("." +:+ name).
    - exists (parent +:+ "." +:+ name). by rewrite app_str_assoc.
    - exists (parent +:+ "/" +:+ "." +:+ name). by rewrite !app_str_assoc. }
  set (t := path_join _ _) in *.
  M_step H. apply with_err_inv in R as (? & _ & _).
  M_step H. apply with_err_inv in R as (y & R & Hy). destruct y; [|done].
  unfold fs_write_all in R. destruct (io_outcome _); [|done..]. injection R as <- <-.
  M_step H. apply with_err_inv in R as (y & R & Hy1). destruct y; [|done].
  apply on_objects_inv in R as (_ & _ & _ & [(? & ? & [= <- <-] & _ & Hw3)|(? & [=] & _)]).
  M_step H. apply with_err_inv in R as (y & R & Hy2). destruct y; [|done].
  apply on_objects_inv in R as (_ & _ & _ & [(? & ? & [= <- <-] & _ & Hw4)|(? & [=] & _)]).
  M_step H. apply attempt_inv in R as (y & [= ->] & R).
  apply on_objects_inv in R as (_ & _ & _ & R).
  destruct y as [|[]]; [|by apply fail_inv in H as [[=] _]| |by apply fail_inv in H as [[=] _]].
  - apply mret_inv in H as [_ ->]. destruct R as [(? & o & Ho & _ & Hw5)|(? & [=] & _)].
    assert (∀ k o x, o !! t = Some x → others_objects k o !! t = Some x) as HT.
    { rewrite Htmp. intros. by apply others_keep_staging. }
    assert (objects w2 !! t = Some (file_of bytes)) as Ht.
    { rewrite Hw4. apply HT. rewrite Hw3. apply HT. apply lookup_insert_eq. }
    apply (HT (tick w2)) in Ht.
    rewrite Ht in Ho. destruct (_ !! path); [done|]. injection Ho as _ <-.
    exists (file_of bytes). rewrite Hw5. split; [apply lookup_insert_eq|]. done.
  - M_step H. do 2 run_case H. apply mret_inv in H as [_ ->]. by eapply local_matches_holds.
Qed.

Lemma put_local_holds path bytes e w w' :
  stable path → e.(ea_len) = slen bytes → e.(ea_sha256) = digest_hex bytes →
  put_local path bytes e w = (Ok tt, w') → holds path e.(ea_len) e.(ea_sha256) w'.
Proof.
  intros Hs Hlen Hsha H. unfold put_local, io in H.
  M_step H. run_case H.
  { run_case H. apply mret_inv in H as [_ ->]. by eapply local_matches_holds. }
  M_step H. M_step H. M_step H. M_step H.
  apply uuid_v4_inv in R3 as ([= ->] & _).
  M_step H. apply attempt_inv in R3 as (y & [= ->] & R3).
  M_step H. apply attempt_inv in R4 as (z & [= ->] & R4).
  destruct y as [[]|]; [|by destruct z as [|[]]; apply fail_inv in H as [[=] _]].
  apply promote_holds in R3; [|done..].
  eapply holds_keeps in R3; [|done|eapply keeps_remove; [apply staging_is_tmp|exact R4]].
  destruct z as [|[]]; try (by apply fail_inv in H as [[=] _]);
    (eapply holds_keeps; [done| |exact R3]; eapply respects_with_err; [apply keeps_sync|exact H]).
Qed.

Lemma put_s3_holds key bytes ct sha w w' :
  stable key → sha = digest_hex bytes →
  put_s3 key bytes ct sha (mk_expected (slen bytes) sha ct) w = (Ok tt, w') →
  holds key (slen bytes) sha w'.
Proof.
  intros Hs Hsha H. unfold put_s3 in H.
  M_step H. apply attempt_inv in R as (y & [= ->] & R). destruct y as [[]|err].
  - apply mret_inv in H as [_ ->]. unfold on_s3_put in R.
    destruct (s3_put _ _ _) as [res o] eqn:Hp. injection R as -> <-.
    apply s3_put_conditional in Hp as [[_ Hc]|[_ ->]]; [by destruct Hc| |done].
    eexists. cbn. rewrite lookup_insert_eq. split_and!; [reflexivity|done|done].
  - M_step H. apply attempt_inv in R0 as (m & [= ->] & R0).
    destruct m as [[|]|]; [|by apply fail_inv in H as [[=] _]..].
    apply mret_inv in H as [_ ->]. unfold s3_object_matches in R0.
    M_step R0. injection R1 as Hg <-.
    destruct (negb _); [by apply mret_inv in R0 as [[=] _]|].
    M_step R0. destruct a0 as [n d]. apply lift_inv in R1 as [Hh ->].
    apply mret_inv in R0 as [[= Hm] ->].
    apply s3_get_stored in Hg as (x & Hx & Hch & Hc & _).
    exists x. split; [done|].
    eapply hash_match; [exact Hch|exact Hc|by symmetry|by symmetry].
Qed.

(** Where a backend keeps a key. *)
Definition place (store : ArtifactStore) (key : string) : string :=
  match store with
  | Memory _ | S3 _ => key
  | Local dir => local_path dir key
  end.

Lemma put_verified_holds store key bytes ct sha w w' :
  stable (place store key) → sha = digest_hex bytes →
  put_verified store key bytes ct sha w = (Ok tt, w') →
  holds (place store key) (slen bytes) sha w'.
Proof.
  intros Hs Hsha H. unfold put_verified in H.
  destruct (sha256_ok sha); cbn [negb] in H; [|by apply fail_inv in H as [[=] _]].
  destruct store as [max|dir|bucket]; cbn [place] in *.
  - unfold put_memory, memory_insert in H. set (o := others_objects _ _) in *.
    destruct (o !! key) as [x|] eqn:E.
    + destruct (String.eqb_spec (o_bytes x) bytes) as [Hb|]; [|done]. injection H as <-.
      exists x. cbn. subst. done.
    + destruct (checked_sum _ _) as [t|]; cbn in H; [|done].
      destruct (checked_add _ _ _) as [n|]; cbn in H; [|done].
      destruct (_ <? _); [done|]. injection H as <-. exists (file_of bytes). cbn.
      rewrite lookup_insert_eq. done.
  - by eapply put_local_holds in H.
  - by eapply put_s3_holds.
Qed.

(** A successful write is a stored artifact. When [put_verified] returns
    [Ok], by whichever path (a fresh write, a recovered race, an identical
    object already there), the object behind the key has the length of the
    bytes and their digest. *)
Theorem put_verified_stores store key bytes ct sha w w' :
  stable (place store key) → sha = digest_hex bytes →
  put_verified store key bytes ct sha w = (Ok tt, w') →
  holds (place store key) (slen bytes) sha w'.
Proof. apply put_verified_holds. Qed.
End stored.

(** ** The capacity of the in-memory backend *)

Definition zsum : list Z → Z := foldr Z.add 0.
Definition total (o : Objects) : Z := zsum (lens o).

#[export] Instance zsum_perm : Proper (Permutation ==> eq) zsum.
Proof. intros l l' H. induction H; unfold zsum in *; cbn; lia. Qed.

Lemma lens_nonneg o : Forall (λ n, 0 ≤ n) (lens o).
Proof.
  unfold lens. rewrite Forall_fmap. apply Forall_true. intros e. apply slen_nonneg.
Qed.

Lemma zsum_nonneg l : Forall (λ n, 0 ≤ n) l → 0 ≤ zsum l.
Proof. induction 1; unfold zsum in *; cbn; lia. Qed.

Lemma checked_sum_Some t l s :
  0 ≤ t ≤ u64_max → Forall (λ n, 0 ≤ n) l →
  checked_sum t l = Some s ↔ s = t + zsum l ∧ s ≤ u64_max.
Proof.
  intros Ht Hl. revert t Ht. induction Hl as [|x l Hx Hl IH]; intros t Ht; cbn [checked_sum].
  - unfold zsum. cbn. split; [intros [= <-]; lia|intros [-> _]; f_equal; lia].
  - pose proof (zsum_nonneg l Hl) as Hz. change (zsum (x :: l)) with (x + zsum l).
    destruct (checked_add u64_max t x) as [t'|] eqn:E; cbn [mbind option_bind].
    + apply checked_add_Some in E as [-> E]. rewrite IH by lia. lia.
    + split; [done|]. intros [-> Hs]. unfold checked_add in E.
      destruct (Z.leb_spec (t + x) u64_max); [done|lia].
Qed.

Lemma total_insert o k x : o !! k = None → total (<[k := x]> o) = slen (o_bytes x) + total o.
Proof.
  intros Hk. unfold total, lens. rewrite map_to_list_insert by done. done.
Qed.

Lemma memory_insert_spec max key bytes o :
  0 ≤ max ≤ u64_max → total o ≤ max →
  match memory_insert max key bytes o with
  | Ok o' =>
      (∃ x, o !! key = Some x ∧ o_bytes x = bytes ∧ o' = o) ∨
      (o !! key = None ∧ total o + slen bytes ≤ max ∧ o' = <[key := file_of bytes]> o)
  | Err _ =>
      (∃ x, o !! key = Some x ∧ o_bytes x ≠ bytes) ∨
      (o !! key = None ∧ max < total o + slen bytes)
  end.
Proof.
  intros Hmax Ho. unfold memory_insert. pose proof (slen_nonneg bytes).
  pose proof (zsum_nonneg _ (lens_nonneg o)) as Hnn. fold (total o) in Hnn.
  destruct (o !! key) as [x|] eqn:E.
  { destruct (String.eqb_spec (o_bytes x) bytes); [left|left]; eauto. }
  assert (checked_sum 0 (lens o) = Some (total o)) as ->.
  { apply checked_sum_Some; [unfold u64_max; lia|apply lens_nonneg|]. fold (total o). lia. }
  cbn [ok_or mbind result_mbind result_bind].
  destruct (checked_add u64_max (total o) (slen bytes)) as [n|] eqn:Ea; cbn.
  - apply checked_add_Some in Ea as [-> _].
    destruct (Z.ltb_spec max (total o + slen bytes)); right; auto.
  - right. split; [done|]. unfold checked_add in Ea. destruct (Z.leb_spec (total o + slen bytes) u64_max); [done|lia].
Qed.

Section memory.
Context `{ext : Externals} `{sto : StoreExternals}.

(** The in-memory backend never holds more than its configured capacity,
    and a write succeeds exactly when the digest is well-formed and the key
    either already holds the same bytes or is free and the bytes still fit; a
    refused write changes nothing. *)
Theorem memory_store_bounded max key bytes ct sha w r w' :
  0 ≤ max ≤ u64_max → total (objects w) ≤ max →
  (∀ t o, total o ≤ max → total (others_objects t o) ≤ max) →
  put_verified (Memory max) key bytes ct sha w = (r, w') →
  let o := others_objects (tick w) (objects w) in
  total (objects w') ≤ max ∧
  (r = Ok tt ↔ sha256_ok sha = true ∧
     ((∃ x, o !! key = Some x ∧ o_bytes x = bytes) ∨
      (o !! key = None ∧ total o + slen bytes ≤ max))) ∧
  (r ≠ Ok tt → objects w' = objects w ∨ objects w' = o).
Proof.
  intros Hmax Hw Hrely H. cbn zeta. unfold put_verified in H.
  destruct (sha256_ok sha); cbn [negb] in H; [|injection H as <- <-; naive_solver].
  specialize (Hrely (tick w) _ Hw). unfold put_memory in H.
  set (o := others_objects _ _) in *. clearbody o.
  pose proof (memory_insert_spec max key bytes o Hmax Hrely) as Hs.
  destruct (memory_insert max key bytes o) as [o'|e]; injection H as <- <-; cbn.
  - split_and!; [|tauto || naive_solver|done].
    destruct Hs as [(x & _ & _ & ->)|(Hk & Hb & ->)]; [done|].
    rewrite total_insert by done. cbn. lia.
  - split_and!; [done| |auto]. split; [done|]. intros [_ Hc]. exfalso.
    destruct Hs as [(x & Hx & Hne)|[Hn Hb]], Hc as [(y & Hy & He)|[Hn' Hb']];
      simplify_eq; try congruence; lia.
Qed.
End memory.

(** ** Reading back *)

Section reading.
Context `{laws : StoreLaws}.

(** Under an object store, the object also carries the digest as metadata. *)
Definition labelled (store : ArtifactStore) (key sha : string) (w : World) : Prop :=
  match store with
  | S3 _ => ∃ x, objects w !! key = Some x ∧
      o_metadata x ≫= meta_get ARTIFACT_SHA256_METADATA_KEY = Some sha
  | _ => True
  end.

Lemma put_verified_labels store key bytes ct sha w w' :
  stable (place store key) → put_verified store key bytes ct sha w = (Ok tt, w') →
  labelled store key sha w'.
Proof.
  intros Hs H. destruct store as [| |bucket]; [done..|]. unfold put_verified in H.
  destruct (sha256_ok sha); cbn [negb] in H; [|by apply fail_inv in H as [[=] _]].
  unfold put_s3 in H. M_step H. apply attempt_inv in R as (y & [= ->] & R). run_case H.
  - apply mret_inv in H as [_ ->]. unfold on_s3_put in R.
    destruct (s3_put _ _ _) as [res o] eqn:Hp. injection R as -> <-.
    apply s3_put_conditional in Hp as [[_ Hc]|[_ ->]]; [by destruct a| |done].
    eexists. cbn. rewrite lookup_insert_eq. split; [reflexivity|]. done.
  - M_step H. apply attempt_inv in R0 as (m & [= ->] & R0). do 2 run_case H.
    apply mret_inv in H as [_ ->]. unfold s3_object_matches in R0.
    M_step R0. injection R1 as Hg <-.
    destruct (object_metadata_matches _ _ _ _ _) eqn:Hm; cbn [negb] in R0;
      [|by apply mret_inv in R0 as [[=] _]].
    M_step R0. run_case R0. apply lift_inv in R1 as [_ ->]. apply mret_inv in R0 as [_ ->].
    apply s3_get_stored in Hg as (x & Hx & _ & _ & Hmeta).
    exists x. split; [done|]. rewrite <- Hmeta.
    unfold object_metadata_matches in Hm. bool_to_prop. done.
Qed.

Lemma labelled_keeps store key sha w w' :
  stable (place store key) → keeps w w' → labelled store key sha w → labelled store key sha w'.
Proof. destruct store; [done..|]. intros Hs Hk (x & Hx & Hm). exists x. by split; [apply Hk|]. Qed.

Lemma keeps_others (w : World) : keeps w (bump (set_objects (others_objects (tick w) (objects w)) w)).
Proof. intros k x Hk Hx. cbn. by apply others_keep. Qed.

Lemma get_bytes_reads store key w b w' :
  stable (place store key) → get_bytes store key w = (Ok b, w') →
  slen b ≤ MAX_BUFFERED_ARTIFACT_BYTES ∧
  ∃ x, objects w' !! place store key = Some x ∧ b = o_bytes x.
Proof.
  intros Hs H. unfold get_bytes, memory_get, io in H.
  assert (∀ k n u, Ok u = guard_buffered k n → n ≤ MAX_BUFFERED_ARTIFACT_BYTES) as Hguard.
  { intros k n u. unfold guard_buffered. by destruct (Z.ltb_spec MAX_BUFFERED_ARTIFACT_BYTES n). }
  destruct store as [max|dir|bucket]; cbn [place] in *.
  - M_step H. M_step R. injection R0 as <- <-. apply lift_inv in R as [Hx ->].
    M_step H. apply lift_inv in R as [Hg ->]. apply mret_inv in H as [[= ->] ->].
    apply Hguard in Hg.
    destruct (others_objects _ _ !! key) as [x|] eqn:Ex; [|done]. injection Hx as ->.
    split; [done|]. eauto.
  - M_step H. apply with_err_inv in R as (y & R & Hy). destruct y as [x|]; [|done]. injection Hy as ->.
    apply on_objects_inv in R as (_ & _ & _ & [(z & o & Ho & [= <-] & Hw)|(? & [=] & _)]).
    destruct (others_objects _ _ !! _) as [z|] eqn:Ez; [|done]. injection Ho as -> <-.
    M_step H. apply lift_inv in R as [Hg ->]. apply Hguard in Hg.
    apply with_err_inv in H as (y & R & Hy). destruct y as [c|]; [|done]. injection Hy as ->.
    apply on_objects_inv in R as (_ & _ & _ & [(v & o & Ho & [= <-] & Hw')|(? & [=] & _)]).
    assert (others_objects (tick w0) (objects w0) !! local_path dir key = Some x) as Hx.
    { apply others_keep; [done|]. by rewrite Hw. }
    rewrite Hx in Ho. injection Ho as Hb <-. rewrite <- Hb. split; [done|]. exists x. by rewrite Hw'.
  - M_step H. injection R as Hget <-. apply s3_get_stored in Hget as (x & Hx & _ & Hc & _).
    M_step H. apply lift_inv in R as [_ ->]. M_step H. apply lift_inv in R as [Hb ->].
    M_step H. apply lift_inv in R as [Hg ->]. apply mret_inv in H as [[= ->] ->].
    apply Hguard in Hg. split; [done|].
    destruct (collect_reads _) as [c|] eqn:Ec; [|done]. injection Hb as ->.
    specialize (Hc c eq_refl) as ->. eauto.
Qed.

(** Round trip. Bytes read back under a key that was written successfully,
    at any later time, have the length and the digest that were written, and
    fit the buffering ceiling. *)
Theorem stored_bytes_roundtrip store key bytes ct sha w w1 w2 b w3 :
  stable (place store key) → sha = digest_hex bytes →
  put_verified store key bytes ct sha w = (Ok tt, w1) →
  keeps w1 w2 →
  get_bytes store key w2 = (Ok b, w3) →
  slen b = slen bytes ∧ digest_hex b = sha ∧ slen b ≤ MAX_BUFFERED_ARTIFACT_BYTES.
Proof.
  intros Hs Hsha Hput Hk Hget. apply put_verified_holds in Hput; [|done..].
  eapply holds_keeps in Hput; [|done|exact Hk].
  assert (keeps w2 w3) as Hk3.
  { assert (respects keeps (get_bytes store key)) as Hr.
    { unfold get_bytes, memory_get, io. respects_tac. }
    by eapply Hr. }
  eapply holds_keeps in Hput; [|done|exact Hk3].
  apply get_bytes_reads in Hget as (Hmax & x & Hx & ->); [|done].
  destruct Hput as (y & Hy & Hlen & Hd). simplify_eq. done.
Qed.

(** The storage console tells the truth about a published artifact: asked
    at any later time for a key that was written successfully, a backend that
    answers at all yields the verdict [Consistent]. *)
Theorem published_object_reconciles store key bytes ct sha w w1 w2 h w3 :
  stable (place store key) → sha = digest_hex bytes →
  put_verified store key bytes ct sha w = (Ok tt, w1) →
  keeps w1 w2 →
  object_head store key w2 = (Ok h, w3) →
  reconcile (slen bytes) sha h = Consistent.
Proof.
  intros Hs Hsha Hput Hk Hh.
  assert (labelled store key sha (bump (set_objects (others_objects (tick w2) (objects w2)) w2))
    ∧ holds (place store key) (slen bytes) sha (bump (set_objects (others_objects (tick w2) (objects w2)) w2)))
    as [Hl (x & Hx & Hlen & Hd)].
  { split.
    - eapply labelled_keeps; [done| |by eapply put_verified_labels]. etrans; [exact Hk|apply keeps_others].
    - eapply holds_keeps; [done| |by eapply put_verified_holds]. etrans; [exact Hk|apply keeps_others]. }
  cbn [objects bump set_objects] in Hx, Hl.
  assert (∀ s ct cc lm, s = None ∨ s = Some sha →
    reconcile (slen bytes) sha (Some (mk_head (Some (slen bytes)) s ct cc lm)) = Consistent) as Hrec.
  { intros s ct' cc lm Hss. cbn. rewrite Z.eqb_refl.
    destruct Hss as [-> | ->]; [done|]. unfold eq_ignore_ascii_case. by rewrite String.eqb_refl. }
  unfold object_head in Hh. destruct store as [max|dir|bucket]; cbn [place] in *.
  - M_step Hh. injection R as <- <-. apply mret_inv in Hh as [[= ->] _].
    rewrite Hx. cbn [fmap option_fmap option_map]. rewrite Hlen. apply Hrec. auto.
  - M_step Hh. apply attempt_inv in R as (m & [= ->] & R).
    apply on_objects_inv in R as (_ & _ & _ & R). destruct m as [y|[]].
    + destruct R as [(z & o & Ho & [= <-] & _)|(? & [=] & _)].
      rewrite Hx in Ho. injection Ho as -> _.
      M_step Hh. apply mret_inv in Hh as [[= ->] _]. rewrite Hlen. apply Hrec. auto.
    + exfalso. destruct R as [(z & o & Ho & [=] & _)|(? & [= <-] & _ & [[=]|Ho])].
      by rewrite Hx in Ho.
    + by apply fail_inv in Hh as [[=] _].
    + by apply fail_inv in Hh as [[=] _].
  - M_step Hh. apply attempt_inv in R as (m & [= ->] & R). injection R as Hm <-. destruct m as [obj|e].
    + apply s3_head_stored in Hm as (y & Hy & Hl1 & Hl2). simplify_eq.
      apply mret_inv in Hh as [[= ->] _]. destruct Hl as (z & Hz & Hz2). cbn in Hz. simplify_eq.
      rewrite Hl1, Hl2, Hz2. cbn [fmap option_fmap option_map].
      rewrite Z.max_r by apply slen_nonneg. rewrite Hlen. apply Hrec. auto.
    + destruct (is_not_found e) eqn:En; [|by apply fail_inv in Hh as [[=] _]].
      by rewrite (s3_head_absent _ _ _ _ Hm En) in Hx.
Qed.
End reading.

(** ** Without faults *)

(** Nobody else writes and every operation succeeds. *)
Class CalmStore {ext : Externals} {sto : StoreExternals} : Prop := {
  calm_others t o : others_objects t o = o;
  calm_io t : io_outcome t = Done;
  calm_reads t c : collect_reads (file_reads t c) = Some c;
  calm_put t r o :
    s3_put t r o =
      match o !! put_key r with
      | Some _ => (Err "PreconditionFailed", o)
      | None => (Ok tt, <[put_key r := s3_stored r]> o)
      end;
  calm_get t k o x : o !! k = Some x →
    ∃ obj, s3_get t k o = Ok obj ∧ s3_content_length obj = Some (slen (o_bytes x)) ∧
      s3_content_type obj = o_content_type x ∧ s3_cache_control obj = o_cache_control x ∧
      s3_metadata obj = o_metadata x ∧ collect_reads (s3_body obj) = Some (o_bytes x);
}.

Section calm.
Context `{laws : StoreLaws} {calm : CalmStore}.

(** What a fresh write stores. *)
Definition stored_as (store : ArtifactStore) (bytes ct sha : string) : Object :=
  match store with
  | S3 _ => mk_object bytes true (Some ct) (Some IMMUTABLE_CACHE_CONTROL)
              (Some [(ARTIFACT_SHA256_METADATA_KEY, sha)])
  | _ => file_of bytes
  end.

(** A place the backend can write: room in memory, a proper file path whose
    staging names are unused. *)
Definition writable (store : ArtifactStore) (key bytes : string) (o : Objects) : Prop :=
  match store with
  | Memory max => 0 ≤ max ≤ u64_max ∧ total o + slen bytes ≤ max
  | Local dir => ∃ parent name, path_parent (local_path dir key) = Some parent ∧
      path_file_name (local_path dir key) = Some name ∧
      ∀ n, o !! path_join parent (staging_name name (new_v4 n)) = None
  | S3 _ => True
  end.

Lemma calm_on_objects {A} (f : Objects → result IoErr (A * Objects)) w :
  on_objects f w = match f (objects w) with
                   | Ok (a, o) => (Ok a, bump (set_objects o w))
                   | Err e => (Err e, bump (set_objects (objects w) w))
                   end.
Proof. unfold on_objects. rewrite calm_io, calm_others. by destruct (f (objects w)) as [[]|]. Qed.

Lemma hash_of_file t c :
  slen c ≤ u64_max → hash_async_reader (file_reads t c) (slen c) = Ok (slen c, digest_hex c).
Proof.
  intros Hc. unfold hash_async_reader. rewrite (hash_reads_complete _ c); [done| |apply calm_reads|lia|lia].
  apply file_reads_chunked.
Qed.

Lemma calm_local_matches path e x w :
  objects w !! path = Some x → o_file x = true → e.(ea_len) = slen x.(o_bytes) →
  e.(ea_sha256) = digest_hex x.(o_bytes) → slen x.(o_bytes) ≤ u64_max →
  ∃ w', local_object_matches path e w = (Ok (Some true), w') ∧ objects w' = objects w.
Proof.
  intros Hx Hf Hl Hd Hmax. unfold local_object_matches, io, mbind, M_bind, attempt, with_err, fs_metadata, fs_open.
  rewrite calm_on_objects, Hx. cbn. rewrite Hf, Hl, Z.eqb_refl. cbn.
  rewrite calm_on_objects. cbn. rewrite Hx. cbn. rewrite hash_of_file by done. cbn.
  rewrite Hd, Z.eqb_refl, String.eqb_refl. eexists. split; [reflexivity|done].
Qed.

Lemma calm_put_local path bytes e w parent name :
  objects w !! path = None → stable path →
  path_parent path = Some parent → path_file_name path = Some name →
  (∀ n, objects w !! path_join parent (staging_name name (new_v4 n)) = None) →
  ∃ w', put_local path bytes e w = (Ok tt, w') ∧ objects w' = <[path := file_of bytes]> (objects w).
Proof.
  intros Hn Hs Hp Hname Hfree.
  unfold put_local, local_object_matches, promote, io, mbind, M_bind, attempt, with_err, fs_metadata.
  rewrite calm_on_objects, Hn. cbn. rewrite Hp. cbn.
  unfold fs_create_dir_all. rewrite calm_on_objects. cbn. rewrite Hname. cbn.
  unfold fs_create_new. rewrite calm_on_objects. cbn. rewrite Hfree. cbn.
  unfold fs_write_all. cbn. rewrite calm_io, calm_others. cbn.
  unfold fs_sync. rewrite calm_on_objects. cbn. rewrite calm_on_objects. cbn.
  set (t := path_join parent _).
  assert (t ≠ path) as Hne.
  { intros Ht. unfold stable in Hs. rewrite <- Ht in Hs. subst t. by rewrite staging_is_tmp in Hs. }
  unfold fs_hard_link. rewrite calm_on_objects. cbn. rewrite lookup_insert_eq, !lookup_insert_ne by done.
  rewrite Hn. cbn. unfold fs_remove_file. rewrite calm_on_objects. cbn.
  rewrite lookup_insert_ne, lookup_insert_eq by done. cbn.
  rewrite calm_on_objects. cbn. eexists. split; [reflexivity|]. cbn.
  rewrite delete_insert_ne by done. f_equal. rewrite !delete_insert_eq.
  apply delete_id, Hfree.
Qed.

Lemma calm_put_verified store key bytes ct sha w :
  stable (place store key) → objects w !! place store key = None →
  sha256_ok sha = true → writable store key bytes (objects w) →
  ∃ w', put_verified store key bytes ct sha w = (Ok tt, w') ∧
    objects w' = <[place store key := stored_as store bytes ct sha]> (objects w).
Proof.
  intros Hs Hn Hsha Hw. unfold put_verified. rewrite Hsha. cbn [negb].
  destruct store as [max|dir|bucket]; cbn [place stored_as writable] in *.
  - unfold put_memory. rewrite calm_others. destruct Hw as [Hmax Hw]. pose proof (slen_nonneg bytes).
    pose proof (memory_insert_spec max key bytes (objects w) Hmax ltac:(lia)) as H0.
    destruct (memory_insert _ _ _ _) as [o|e].
    + destruct H0 as [(x & Hx & _)|(_ & _ & ->)]; [congruence|]. eauto.
    + destruct H0 as [(x & Hx & _)|[_ Hb]]; [congruence|lia].
  - destruct Hw as (parent & name & Hp & Hname & Hfree). by eapply calm_put_local.
  - unfold put_s3, attempt, mbind, M_bind, on_s3_put. rewrite calm_put, calm_others. cbn.
    rewrite Hn. eexists. split; [reflexivity|done].
Qed.

(** Publishing the same bytes again is idempotent. Without faults, a write
    to a free key succeeds and stores exactly those bytes, and repeating it
    succeeds too and changes nothing. *)
Theorem put_verified_retry store key bytes ct sha w :
  stable (place store key) → objects w !! place store key = None →
  sha256_ok sha = true → sha = digest_hex bytes → slen bytes ≤ i64_max →
  writable store key bytes (objects w) →
  ∃ w1 w2,
    put_verified store key bytes ct sha w = (Ok tt, w1) ∧
    objects w1 = <[place store key := stored_as store bytes ct sha]> (objects w) ∧
    put_verified store key bytes ct sha w1 = (Ok tt, w2) ∧ objects w2 = objects w1.
Proof.
  intros Hs Hn Hsha Hd Hlen Hw.
  destruct (calm_put_verified store key bytes ct sha w Hs Hn Hsha Hw) as (w1 & H1 & Ho).
  exists w1. unfold put_verified at 2. rewrite Hsha. cbn [negb].
  assert (objects w1 !! place store key = Some (stored_as store bytes ct sha)) as Hx
    by (rewrite Ho; apply lookup_insert_eq).
  pose proof (slen_nonneg bytes) as Hpos.
  destruct store as [max|dir|bucket]; cbn [place stored_as] in *.
  - unfold put_memory, memory_insert. rewrite calm_others, Hx. cbn. rewrite String.eqb_refl. eauto 10.
  - unfold put_local, mbind at 1, M_bind at 1.
    destruct (calm_local_matches (local_path dir key) (mk_expected (slen bytes) sha ct) _ w1 Hx)
      as (w2 & H2 & Ho2); [done|done|done|cbn; unfold u64_max, i64_max in *; lia|].
    rewrite H2. exists w2. done.
  - unfold put_s3, attempt, mbind, M_bind, on_s3_put. rewrite calm_put, calm_others. cbn. rewrite Hx. cbn.
    unfold s3_object_matches, mbind, M_bind, on_s3_read. cbn. rewrite calm_others.
    destruct (calm_get (S (tick w1)) key (objects w1) _ Hx) as (obj & Hg & Hl & Ht & Hc & Hm & Hb).
    rewrite Hg, Hl, Ht, Hc, Hm. cbn -[Z.ltb].
    unfold object_metadata_matches, u64_of_i64. cbn -[Z.ltb].
    rewrite (proj2 (Z.ltb_ge _ _)) by lia. rewrite !bool_decide_eq_true_2 by done. cbn.
    destruct (s3_get_stored _ _ _ _ Hg) as (_ & _ & Hch & _).
    unfold hash_async_reader. rewrite (hash_reads_complete _ bytes); [|done|done|lia|unfold u64_max, i64_max in *; lia].
    cbn. rewrite <- Hd, Z.eqb_refl, String.eqb_refl. cbn.
    eexists. split_and!; [done..|reflexivity|done].
Qed.
(** What a place holds is read whole, when it fits. *)
Lemma calm_get_bytes store key x w :
  objects w !! place store key = Some x → slen x.(o_bytes) ≤ MAX_BUFFERED_ARTIFACT_BYTES →
  ∃ w', get_bytes store key w = (Ok x.(o_bytes), w').
Proof.
  intros Hx Hmax. unfold get_bytes, memory_get, memory_read, io, mbind, M_bind, with_err.
  assert (∀ key, guard_buffered key (slen x.(o_bytes)) = Ok tt) as Hg
    by (intros k; unfold guard_buffered; by rewrite (proj2 (Z.ltb_ge _ _))).
  destruct store as [max|dir|bucket]; cbn [place] in Hx.
  - rewrite calm_others. cbn. rewrite Hx. cbn. rewrite Hg. by eexists.
  - unfold fs_metadata, fs_open. rewrite calm_on_objects, Hx. cbn. rewrite Hg. rewrite calm_on_objects. cbn. rewrite Hx.
    by eexists.
  - unfold on_s3_read. rewrite calm_others. destruct (calm_get (tick w) key _ _ Hx) as (obj & -> & Hl & _ & _ & _ & Hb).
    cbn. rewrite Hl. pose proof (slen_nonneg x.(o_bytes)). rewrite Z.max_r by done. rewrite Hg. cbn. rewrite Hb. cbn.
    rewrite Hg. by eexists.
Qed.
End calm.
