(* ===== verification/Verify.v ===== *)
(** * Tag verification ([src/verify.rs]) and public aliases ([src/storage.rs])

    Which repositories can be verified, the GitHub request a verification
    sends, and the guessable keys derived from the same parse. *)

From S2P Require Export SharedAuth Storage.

Inductive TagPolicy : Type := Off | Github.
#[export] Instance tag_policy_eq_dec : EqDecision TagPolicy.
Proof. solve_decision. Defined.

Inductive TagCheck : Type :=
| Skipped
| Verified (commit : option string)
| MissingTag.

Record TagVerifier := mk_verifier {
  policy : TagPolicy;
  github_token : option string;
}.

(** The percent-encoder and the VCS table of the interface crate. *)
Class VerifyExternals := {
  (** [utf8_percent_encode], for a set given by its membership test *)
  utf8_percent_encode : (ascii → bool) → string → string;
  (** [Vcs::uses_git_tags] *)
  uses_git_tags : string → bool;
}.

(** Membership in [TAG_ENCODE_SET]: everything but unreserved characters. *)
Definition unreserved (c : ascii) : bool :=
  is_ascii_alphanumeric c || (c =c "-") || (c =c ".") || (c =c "_") || (c =c "~").
Definition TAG_ENCODE_SET (c : ascii) : bool := negb (unreserved c).

Definition repo_byte (c : ascii) : bool :=
  is_ascii_alphanumeric c || (c =c ".") || (c =c "_") || (c =c "-").

Definition valid_repo_segment (segment : string) : bool :=
  negb (is_empty segment) && sall repo_byte segment && negb (is_empty (trim_matches "." segment)).

Definition parse_github (repo_url : string) : option (string * string) :=
  rest ← match strip_prefix "https://github.com/" repo_url with
         | Some r => Some r
         | None =>
             match strip_prefix "http://github.com/" repo_url with
             | Some r => Some r
             | None => strip_prefix "git@github.com:" repo_url
             end
         end;
  let rest := trim_end_str ".git" (trim_end_matches "/" rest) in
  match split_once "/" rest with
  | Some (owner, repo) =>
      if negb (contains_char "/" repo) && valid_repo_segment owner && valid_repo_segment repo
      then Some (owner, repo) else None
  | None => None
  end.

(** [v[key]] of a JSON value: [null] where there is no such member. *)
Definition jindex (v : json) (key : string) : json :=
  match v with JObj m => default JNull (jget m key) | _ => JNull end.
Definition as_str (v : json) : option string := match v with JStr s => Some s | _ => None end.

Section verify.
Context `{ext : Externals} `{web : WebExternals} `{ver : VerifyExternals}.

Definition github_url (owner repo tag : string) : string :=
  "https://api.github.com/repos/" +:+ utf8_percent_encode TAG_ENCODE_SET owner +:+ "/"
  +:+ utf8_percent_encode TAG_ENCODE_SET repo +:+ "/git/ref/tags/"
  +:+ utf8_percent_encode TAG_ENCODE_SET tag.

Definition commit_of (body : json) : option string :=
  let object := jindex body "object" in
  match as_str (jindex object "type") with
  | Some "commit" => as_str (jindex object "sha")
  | _ => None
  end.

(** The answer to the GitHub request, [error_for_status] included. *)
Definition tag_answer (a : HttpAnswer) : result string TagCheck :=
  match a with
  | HttpFailed => Err "request failed"
  | HttpAnswered status body =>
      if status =? StatusCode.NOT_FOUND then Ok MissingTag
      else if (400 <=? status) && (status <=? 599) then Err "error status"
      else
        v ← ok_or "decode" (bytes ← body; json_from_slice bytes);
        Ok (Verified (commit_of v))
  end.

Definition github_request (v : TagVerifier) (owner repo tag : string) : HttpRequest :=
  mk_http_request "GET" (github_url owner repo tag)
    match v.(github_token) with
    | Some token => [("authorization", "Bearer " +:+ token)]
    | None => []
    end None.

Definition verify (v : TagVerifier) (vcs repo_url tag : string) : M string TagCheck :=
  if bool_decide (v.(policy) = Off) then mret Skipped
  else if negb (uses_git_tags vcs) then mret Skipped
  else match parse_github repo_url with
  | None => mret Skipped
  | Some (owner, repo) =>
      λ w, (tag_answer (http_answer w.(tick) (github_request v owner repo tag)), bump w)
  end.
End verify.

(** ** Guessable aliases *)

Definition guessable_alias_keys (org name version vcs_tag extension repo_url : string) : list string :=
  let '(owner, repo) := default (org, name) (parse_github repo_url) in
  ((if safe_r2_segments [owner; repo; vcs_tag; name; version; extension]
    then ["github/" +:+ owner +:+ "/" +:+ repo +:+ "/" +:+ vcs_tag +:+ "/" +:+ name +:+ "-"
          +:+ version +:+ "." +:+ extension]
    else [])
   ++ (if safe_r2_segments [org; name; version; extension]
       then ["packages/" +:+ org +:+ "/" +:+ name +:+ "/" +:+ version +:+ "/" +:+ name +:+ "-"
             +:+ version +:+ "." +:+ extension]
       else []))%list.

(** ** What a verification asks *)

Class VerifyLaws `{ver : VerifyExternals} : Prop := {
  (** Bytes outside the set stay, the others become [%XX]. *)
  percent_encode_unreserved s :
    sall unreserved s = true → utf8_percent_encode TAG_ENCODE_SET s = s;
  percent_encode_safe s :
    sall (λ c, unreserved c || (c =c "%")) (utf8_percent_encode TAG_ENCODE_SET s) = true;
}.

Lemma repo_byte_unreserved c : repo_byte c = true → unreserved c = true.
Proof.
  assert (∀ c, implb (repo_byte c) (unreserved c) = true) as H by (apply byte_forall; by vm_compute).
  intros Hc. specialize (H c). by rewrite Hc in H.
Qed.

Definition repo_segment (s : string) : Prop :=
  s ≠ "" ∧ sall repo_byte s = true ∧ s ≠ "." ∧ s ≠ "..".

Lemma valid_repo_segment_sound s : valid_repo_segment s = true → repo_segment s.
Proof.
  unfold valid_repo_segment. intros H. bool_to_prop. split_and!; [| done | |].
  - by intros ->.
  - by intros ->.
  - by intros ->.
Qed.

Lemma parse_github_sound repo_url owner repo :
  parse_github repo_url = Some (owner, repo) → repo_segment owner ∧ repo_segment repo.
Proof.
  unfold parse_github. destruct (match strip_prefix _ _ with Some _ => _ | None => _ end); [|done].
  cbn [mbind option_bind]. destruct (split_once _ _) as [[a b]|]; [|done].
  destruct (_ && _)%bool eqn:E; [|done]. intros [= -> ->].
  apply andb_true_iff in E as [E Hr]. apply andb_true_iff in E as [_ Ho].
  by split; apply valid_repo_segment_sound.
Qed.

Lemma trim_end_str_fuel_stuck n p s : ends_with p s = false → trim_end_str_fuel n p s = s.
Proof. unfold ends_with. destruct n; cbn; [done|]. by destruct (strip_suffix p s). Qed.

Lemma trim_end_str_one p s : p ≠ "" → ends_with p s = false → trim_end_str p (s +:+ p) = s.
Proof.
  intros Hp Hs. unfold trim_end_str.
  assert (∃ n, String.length (s +:+ p) = S n) as [n ->].
  { destruct p as [|c p]; [done|]. exists (String.length s + String.length p)%nat.
    pose proof (slen_app s (String c p)) as H. unfold slen in H. cbn in H. lia. }
  cbn. rewrite (proj2 (strip_suffix_Some p (s +:+ p) s)) by done. by apply trim_end_str_fuel_stuck.
Qed.

Lemma trim_dots_nonempty s :
  valid_repo_segment s = true ↔ sall repo_byte s = true ∧ sall (λ c, c =c ".") s = false.
Proof.
  unfold valid_repo_segment.
  assert (is_empty (trim_matches "." s) = sall (λ c, c =c ".") s) as ->.
  { unfold trim_matches, trim_start_matches, trim_end_matches.
    destruct (trim_end_by_decompose (λ x, x =c ".") s) as (t & Hs & Ht).
    destruct (trim_end_by_last (λ x, x =c ".") s) as [Hn|(a & c & Hn & Hc)]; rewrite Hn in Hs |- *.
    - cbn in Hs |- *. subst s. by rewrite Ht.
    - subst s. rewrite !sall_app. cbn. rewrite Hc, andb_false_r. cbn.
      clear -Hc. cbn beta in Hc. induction a as [|x a IH]; cbn [trim_start_by String.append].
      + rewrite Hc. done.
      + destruct (x =c "."); [exact IH|done]. }
  destruct s as [|c s]; [split; [done|by intros [_ ?]]|]. cbn [is_empty negb].
  rewrite andb_true_l, andb_true_iff, negb_true_iff. done.
Qed.

Lemma sall_last p a c : sall p (a +:+ String c "") = true → p c = true.
Proof. rewrite sall_app. cbn. intros. by bool_to_prop. Qed.

(** [parse_github] recognizes exactly the repositories it should: every
    accepted spelling of a GitHub repository parses to its owner and name,
    with or without the [.git] suffix, and whatever it returns are two path
    segments that cannot climb out of the request path. *)
Theorem parse_github_spec :
  (∀ repo_url owner repo, parse_github repo_url = Some (owner, repo) →
     repo_segment owner ∧ repo_segment repo) ∧
  (∀ prefix suffix owner repo,
     prefix ∈ ["https://github.com/"; "http://github.com/"; "git@github.com:"] →
     suffix ∈ [""; ".git"] →
     sall repo_byte owner = true → sall (λ c, c =c ".") owner = false →
     sall repo_byte repo = true → sall (λ c, c =c ".") repo = false →
     ends_with ".git" repo = false →
     parse_github (prefix +:+ owner +:+ "/" +:+ repo +:+ suffix) = Some (owner, repo)).
Proof.
  split; [apply parse_github_sound|].
  intros prefix suffix owner repo Hp Hs Ho Ho' Hr Hr' Hg.
  assert (∀ s, sall repo_byte s = true → contains_char "/" s = false) as Hslash.
  { intros s H. by eapply sall_not_contains. }
  assert (trim_end_str ".git" (trim_end_matches "/" (owner +:+ "/" +:+ repo +:+ suffix))
          = owner +:+ "/" +:+ repo) as Htrim.
  { unfold trim_end_matches. rewrite trim_end_by_none.
    2: { intros a c H. destruct (Ascii.eqb_spec c "/") as [->|]; [|done]. exfalso.
         assert (contains_char "/" (repo +:+ suffix) = false) as Hc.
         { rewrite contains_char_app, Hslash by done.
           apply elem_of_cons in Hs as [-> | Hs]; [done|]. by apply list_elem_of_singleton in Hs as ->. }
         assert (repo +:+ suffix ≠ "") as Hne by (by destruct repo).
         assert (rsplit_once "/" (owner +:+ String "/" (repo +:+ suffix)) = Some (owner, repo +:+ suffix)) as H1
           by (by apply rsplit_once_Some).
         assert (rsplit_once "/" (a +:+ String "/" "") = Some (a, "")) as H2 by (by apply rsplit_once_Some).
         rewrite <- H in H2. cbn [String.append] in H1, H2. congruence. }
    assert (ends_with ".git" (owner +:+ "/" +:+ repo) = false) as Hg'
      by (cbn [String.append]; by rewrite ends_with_sep).
    apply elem_of_cons in Hs as [-> | Hs].
    - rewrite app_str_nil_r. unfold trim_end_str. by apply trim_end_str_fuel_stuck.
    - apply list_elem_of_singleton in Hs as ->.
      replace (owner +:+ "/" +:+ repo +:+ ".git") with ((owner +:+ "/" +:+ repo) +:+ ".git")
        by (by rewrite !app_str_assoc).
      by apply trim_end_str_one. }
  assert (match split_once "/" (owner +:+ "/" +:+ repo) with
          | Some (owner, repo) =>
              if negb (contains_char "/" repo) && valid_repo_segment owner && valid_repo_segment repo
              then Some (owner, repo) else None
          | None => None end = Some (owner, repo)) as Hsplit.
  { rewrite (proj2 (split_once_Some "/" _ owner repo)) by (split; [done|by apply Hslash]).
    by rewrite Hslash, (proj2 (trim_dots_nonempty owner)), (proj2 (trim_dots_nonempty repo)). }
  unfold parse_github.
  apply elem_of_cons in Hp as [-> | Hp]; [|apply elem_of_cons in Hp as [-> | Hp]];
    [..|apply list_elem_of_singleton in Hp as ->];
    cbn -[trim_end_str trim_end_matches]; fold ("/" +:+ (repo +:+ suffix));
    change (String "/" (repo +:+ suffix)) with ("/" +:+ repo +:+ suffix);
    rewrite Htrim; exact Hsplit.
Qed.

Section requests.
Context `{ext : Externals} `{web : WebExternals} `{ver : VerifyExternals} {laws : VerifyLaws}.

(** A verification never answers for another repository or another tag.
    With the policy off, for a VCS without git tags and for a host other than
    GitHub it sends nothing and skips. Otherwise it sends one request, whose
    path is the repository's owner and name as they were declared and the tag,
    percent-encoded so that it stays one path segment; it reports [MissingTag]
    exactly on a 404, and [Verified] only on an answer that is not an error,
    with the commit of a commit reference. *)
Theorem verify_spec v vcs repo_url tag w :
  (policy v = Off ∨ uses_git_tags vcs = false ∨ parse_github repo_url = None →
     verify v vcs repo_url tag w = (Ok Skipped, w)) ∧
  (∀ owner repo, policy v = Github → uses_git_tags vcs = true →
     parse_github repo_url = Some (owner, repo) →
     ∃ request encoded,
       verify v vcs repo_url tag w = (tag_answer (http_answer (tick w) request), bump w) ∧
       hr_url request = "https://api.github.com/repos/" +:+ owner +:+ "/" +:+ repo
         +:+ "/git/ref/tags/" +:+ encoded ∧
       contains_char "/" encoded = false ∧ contains_char "?" encoded = false ∧
       contains_char "#" encoded = false ∧
       ((verify v vcs repo_url tag w).1 = Ok MissingTag ↔
          ∃ body, http_answer (tick w) request = HttpAnswered 404 body) ∧
       (∀ c, (verify v vcs repo_url tag w).1 = Ok (Verified c) →
          ∃ st body j, http_answer (tick w) request = HttpAnswered st (Some body) ∧
            st ≠ 404 ∧ ¬ (400 ≤ st ≤ 599) ∧ json_from_slice body = Some j ∧ c = commit_of j)).
Proof.
  unfold verify. split.
  - intros [-> | [Hu|Hp]]; [done|..].
    + rewrite Hu. by destruct (bool_decide _).
    + rewrite Hp. destruct (bool_decide _), (uses_git_tags vcs); done.
  - intros owner repo Hpol Hvcs Hp. rewrite Hpol, Hvcs, Hp. cbn [negb].
    rewrite (bool_decide_eq_false_2 (Github = Off)) by done. cbn [fst].
    destruct (parse_github_sound _ _ _ Hp) as [(_ & Ho & _) (_ & Hr & _)].
    exists (github_request v owner repo tag), (utf8_percent_encode TAG_ENCODE_SET tag).
    split; [reflexivity|]. split.
    { cbn [github_request hr_url]. unfold github_url.
      rewrite (percent_encode_unreserved owner), (percent_encode_unreserved repo); [done|..];
        (eapply sall_impl; [|eassumption]; apply repo_byte_unreserved). }
    split_and!; try (eapply sall_not_contains; [apply percent_encode_safe|done]).
    + unfold tag_answer. destruct (http_answer _ _) as [|st body];
        [split; [done|by intros [? [=]]]|].
      destruct (Z.eqb_spec st StatusCode.NOT_FOUND) as [->|Hne]; [split; [eauto|done]|].
      split; [|by intros [? [= -> ->]]].
      destruct (_ && _)%bool; [done|]. by destruct (ok_or _ _).
    + intros c. unfold tag_answer. destruct (http_answer _ _) as [|st body]; [done|].
      destruct (Z.eqb_spec st StatusCode.NOT_FOUND) as [->|Hne]; [done|].
      destruct (_ && _)%bool eqn:E; [done|].
      destruct body as [body|]; [|done]. cbn. destruct (json_from_slice body) as [j|] eqn:Ej; [|done].
      intros [= <-]. exists st, body, j. split_and!; try done.
      intros Hst. apply andb_false_iff in E as [E|E]; bool_to_prop; lia.
Qed.
End requests.
