(* ===== verification/Config.v ===== *)
(** * Startup configuration ([src/config.rs])

    How the resolved environment becomes a configuration, and what a process
    that starts can rely on. An error is what its [Display] prints. *)

From S2P Require Export Verify Flags.

Record FiduciaConfig := mk_fiducia {
  fiducia_url : string;
  internal_secret : option string;
  fiducia_org_id : string;
}.

Record SharedAuthConfig := mk_shared_auth_config {
  sa_url : string;
  sa_public_url : string;
  sa_service_credential : string;
  sa_audience : string;
  sa_application_id : string;
}.

Record Config := mk_config {
  bind_addr : string;
  database_url : string;
  auto_migrate : bool;
  cfg_storage : StorageConfig;
  cfg_public_base_url : string;
  cfg_mirrors : list json;
  cfg_registry_id : string;
  verify_tags : TagPolicy;
  max_artifact_bytes : Z;
  cfg_max_orgs_per_token : Z;
  db_max_connections : Z;
  cfg_fiducia : option FiduciaConfig;
  cfg_shared_auth : option SharedAuthConfig;
}.

(** The mirror descriptors of the interface crate. *)
Class MirrorExternals := {
  MAX_MIRRORS : Z;
  (** [serde_json::from_str] to a list of descriptors *)
  mirrors_from_str : string → option (list json);
  mirror_validate : json → result string unit;
  mirror_identifier : json → string;
  (** [a.order_key() <= b.order_key()] *)
  order_key_le : json → json → bool;
}.

Class MirrorLaws `{mir : MirrorExternals} : Prop := {
  order_key_total a b : order_key_le a b = true ∨ order_key_le b a = true;
  order_key_trans a b c : order_key_le a b = true → order_key_le b c = true → order_key_le a c = true;
}.

(** [env_or(key, default)]. *)
Definition env_or (env : string → option string) (key fallback : string) : string := default fallback (env key).

Definition nonempty (key value : string) : result string string :=
  let value := trim_end_matches "/" (trim value) in
  reject_if (is_empty value) (key +:+ " cannot be empty");;
  Ok value.

Definition registry_id_byte (c : ascii) : bool :=
  is_ascii_alphanumeric c || (c =c ".") || (c =c "_") || (c =c "-").

Definition validate_registry_id (value : string) : result string string :=
  let value := trim value in
  suffix ← ok_or "ZED_REGISTRY_ID must start with `registry:`" (strip_prefix "registry:" value);
  reject_if (is_empty suffix || (128 <? slen suffix) || negb (sall registry_id_byte suffix))
    "ZED_REGISTRY_ID suffix must contain 1 to 128 ASCII letters, digits, dots, underscores, or hyphens";;
  Ok value.

Section mirrors.
Context `{mir : MirrorExternals}.

Definition before (a b : json) : Prop := order_key_le a b = true.
#[export] Instance before_dec a b : Decision (before a b) := decide (order_key_le a b = true).

(** The loop over the descriptors, with the identifiers seen. *)
Fixpoint check_mirrors (mirrors : list json) (seen : list string) : result string unit :=
  match mirrors with
  | [] => Ok tt
  | mirror :: mirrors =>
      map_err (λ error, "ZED_MIRRORS is invalid: " +:+ error) (mirror_validate mirror);;
      let id := mirror_identifier mirror in
      reject_if (bool_decide (id ∈ seen)) ("ZED_MIRRORS contains duplicate mirror `" +:+ id +:+ "`");;
      check_mirrors mirrors (id :: seen)
  end.

Definition parse_mirrors (raw : string) : result string (list json) :=
  let trimmed := trim raw in
  if is_empty trimmed then Ok []
  else
    mirrors ← ok_or "ZED_MIRRORS must be a JSON array of mirrors" (mirrors_from_str trimmed);
    reject_if (MAX_MIRRORS <? zlength mirrors)
      ("ZED_MIRRORS lists " +:+ dec_of_Z (zlength mirrors) +:+ " mirrors; max is " +:+ dec_of_Z MAX_MIRRORS);;
    check_mirrors mirrors [];;
    Ok (merge_sort before mirrors).
End mirrors.

Definition storage_from_env (env : string → option string) : result string StorageConfig :=
  let backend := env_or env "STORAGE_BACKEND" "local" in
  if backend =s "memory" then
    max_bytes ← ok_or "STORAGE_MEMORY_MAX_BYTES must be a number"
      (parse_unsigned u64_max (env_or env "STORAGE_MEMORY_MAX_BYTES" "268435456"));
    reject_if (max_bytes =? 0) "STORAGE_MEMORY_MAX_BYTES must be greater than zero";;
    Ok (ConfigMemory max_bytes)
  else if backend =s "local" then Ok (ConfigLocal (env_or env "STORAGE_LOCAL_DIR" ".data/artifacts"))
  else if backend =s "s3" then
    bucket ← ok_or "S3_BUCKET is required for s3" (env "S3_BUCKET");
    Ok (ConfigS3 bucket (env "S3_ENDPOINT_URL") (env_or env "S3_REGION" "auto")
          (env_or env "S3_FORCE_PATH_STYLE" "true" =s "true"))
  else Err ("STORAGE_BACKEND must be memory, local, or s3, got `" +:+ backend +:+ "`").

Definition verify_tags_from_env (env : string → option string) : result string TagPolicy :=
  let policy := env_or env "ZED_VERIFY_TAGS" "off" in
  if policy =s "off" then Ok Off
  else if policy =s "github" then Ok Github
  else Err ("ZED_VERIFY_TAGS must be off or github, got `" +:+ policy +:+ "`").

Definition shared_auth_from_env (env : string → option string) : result string (option SharedAuthConfig) :=
  match env "SHARED_AUTH_URL" with
  | None => Ok None
  | Some url =>
      url ← nonempty "SHARED_AUTH_URL" url;
      public_url ← nonempty "SHARED_AUTH_PUBLIC_URL" (env_or env "SHARED_AUTH_PUBLIC_URL" url);
      credential ← ok_or "SHARED_AUTH_SERVICE_CREDENTIAL is required when SHARED_AUTH_URL is set"
        (env "SHARED_AUTH_SERVICE_CREDENTIAL");
      service_credential ← nonempty "SHARED_AUTH_SERVICE_CREDENTIAL" credential;
      audience ← nonempty "SHARED_AUTH_AUDIENCE" (env_or env "SHARED_AUTH_AUDIENCE" "zed-pkg");
      application_id ←
        match env "SHARED_AUTH_AUTHORIZED_PARTY" with
        | Some value => nonempty "SHARED_AUTH_AUTHORIZED_PARTY" value
        | None => nonempty "SHARED_AUTH_APPLICATION_ID" (env_or env "SHARED_AUTH_APPLICATION_ID" "zpkg-web")
        end;
      Ok (Some (mk_shared_auth_config url public_url service_credential audience application_id))
  end.

(** A numeric variable. *)
Definition number_from_env (env : string → option string) (max : Z) (key fallback : string) : result string Z :=
  ok_or (key +:+ " must be a number") (parse_unsigned max (env_or env key fallback)).

(** [Config::from_env], over [flags::var]. *)
Definition from_env `{mir : MirrorExternals} (env : string → option string) : result string Config :=
  storage ← storage_from_env env;
  verify_tags ← verify_tags_from_env env;
  shared_auth ← shared_auth_from_env env;
  database_url ← ok_or "DATABASE_URL is required" (env "DATABASE_URL");
  mirrors ← parse_mirrors (env_or env "ZED_MIRRORS" "");
  registry_id ← validate_registry_id (env_or env "ZED_REGISTRY_ID" "registry:zpkg-primary");
  max_artifact_bytes ← number_from_env env usize_max "MAX_ARTIFACT_BYTES" "104857600";
  max_orgs_per_token ← number_from_env env u64_max "ZED_MAX_ORGS_PER_TOKEN" "5";
  db_max_connections ← number_from_env env u32_max "DB_MAX_CONNECTIONS" "10";
  Ok (mk_config (env_or env "BIND_ADDR" "0.0.0.0:8080") database_url (env_or env "AUTO_MIGRATE" "false" =s "true")
        storage (env_or env "PUBLIC_BASE_URL" "http://localhost:8080") mirrors registry_id verify_tags
        max_artifact_bytes max_orgs_per_token db_max_connections
        ((λ url, mk_fiducia url (env "FIDUCIA_INTERNAL_SECRET") (env_or env "FIDUCIA_ORG_ID" "zed-registry"))
           <$> env "FIDUCIA_URL")
        shared_auth).

(** ** What a configuration guarantees *)

(** A value without surrounding white space or trailing slashes. *)
Definition stripped (value : string) : Prop := value ≠ "" ∧ ends_with "/" value = false.

Definition shared_auth_ok (env : string → option string) (c : SharedAuthConfig) : Prop :=
  stripped c.(sa_url) ∧ stripped c.(sa_public_url) ∧ stripped c.(sa_audience) ∧ stripped c.(sa_application_id) ∧
  stripped c.(sa_service_credential) ∧
  (∃ raw, env "SHARED_AUTH_SERVICE_CREDENTIAL" = Some raw ∧
    c.(sa_service_credential) = trim_end_matches "/" (trim raw)) ∧
  (∀ party, env "SHARED_AUTH_AUTHORIZED_PARTY" = Some party → c.(sa_application_id) = trim_end_matches "/" (trim party)).

Definition mirrors_ok `{mir : MirrorExternals} (raw : string) (mirrors : list json) : Prop :=
  Forall (λ m, mirror_validate m = Ok tt) mirrors ∧ NoDup (map mirror_identifier mirrors) ∧
  StronglySorted before mirrors ∧ zlength mirrors ≤ Z.max 0 MAX_MIRRORS ∧
  (trim raw ≠ "" → ∃ listed, mirrors_from_str (trim raw) = Some listed ∧ mirrors ≡ₚ listed).

Definition registry_id_ok (id : string) : Prop :=
  ∃ suffix, id = "registry:" +:+ suffix ∧ 1 ≤ slen suffix ≤ 128 ∧ sall registry_id_byte suffix = true.

Definition storage_ok (env : string → option string) (s : StorageConfig) : Prop :=
  match s with
  | ConfigMemory max_bytes => env "STORAGE_BACKEND" = Some "memory" ∧ 0 < max_bytes ≤ u64_max
  | ConfigLocal _ => env "STORAGE_BACKEND" = None ∨ env "STORAGE_BACKEND" = Some "local"
  | ConfigS3 bucket _ _ _ => env "STORAGE_BACKEND" = Some "s3" ∧ env "S3_BUCKET" = Some bucket
  end.

Lemma trimmed_base s : ends_with "/" (trim_end_matches "/" s) = false.
Proof.
  destruct (ends_with _ _) eqn:Ee; [|done]. apply ends_with_spec in Ee as [r Hr]. unfold trim_end_matches in Hr.
  destruct (trim_end_by_last (λ x, x =c "/") s) as [Hn|(b & c & Hb & Hc)].
  - rewrite Hn in Hr. by destruct r.
  - rewrite Hb in Hr. apply (f_equal srev) in Hr. rewrite !srev_app in Hr. by injection Hr as -> _.
Qed.

Lemma nonempty_Ok key value v : nonempty key value = Ok v → v = trim_end_matches "/" (trim value) ∧ stripped v.
Proof.
  unfold nonempty. intros H. inv_bind. split; [done|]. split; [|apply trimmed_base].
  intros Hv. rewrite Hv in *. discriminate.
Qed.

Lemma nonempty_stripped key value v : nonempty key value = Ok v → stripped v.
Proof. by intros [_ H]%nonempty_Ok. Qed.

Lemma parse_digits_bound s acc n : 0 ≤ acc → parse_digits acc s = Some n → 0 ≤ n.
Proof.
  revert acc. induction s as [|c s IH]; intros acc Ha; cbn; [by intros [= <-]|].
  destruct (is_ascii_digit c) eqn:Hc; [|done]. apply IH.
  unfold is_ascii_digit, in_range in Hc. bool_to_prop. lia.
Qed.

Lemma parse_unsigned_range max s n : parse_unsigned max s = Some n → 0 ≤ n ≤ max.
Proof.
  unfold parse_unsigned. set (digits := match s with String "+" r => r | _ => s end). clearbody digits.
  destruct (is_empty digits); [done|]. destruct (parse_digits 0 digits) as [k|] eqn:E; [|done]. cbn.
  destruct (Z.leb_spec k max); [|done]. intros [= <-]. split; [|done]. by eapply parse_digits_bound, E.
Qed.

Lemma number_range env max key fallback n : number_from_env env max key fallback = Ok n → 0 ≤ n ≤ max.
Proof. unfold number_from_env. destruct (parse_unsigned _ _) eqn:E; [|done]. intros [= <-]. by eapply parse_unsigned_range. Qed.

Lemma registry_id_sound raw id : validate_registry_id raw = Ok id → registry_id_ok id.
Proof.
  unfold validate_registry_id. destruct (strip_prefix _ _) as [suffix|] eqn:Es; [|done]. cbn. intros H. inv_bind.
  apply strip_prefix_Some in Es. exists suffix. bool_to_prop. split_and!; [done| |done|done].
  destruct suffix as [|c suffix]; [done|]. rewrite slen_cons. pose proof (slen_nonneg suffix). lia.
Qed.

Lemma storage_sound env s : storage_from_env env = Ok s → storage_ok env s.
Proof.
  unfold storage_from_env, env_or, storage_ok. intros H.
  destruct (env "STORAGE_BACKEND") as [b|]; cbn in H; [|injection H as <-; by left].
  destruct (b =s "memory") eqn:E1; [|destruct (b =s "local") eqn:E2; [|destruct (b =s "s3") eqn:E3; [|done]]];
    bool_to_prop; subst b.
  - destruct (parse_unsigned _ _) as [n|] eqn:En; [|done]. cbn in H. inv_bind. bool_to_prop.
    apply parse_unsigned_range in En. split; [done|lia].
  - injection H as <-. by right.
  - destruct (env "S3_BUCKET") as [k|] eqn:Ek; [|done]. by injection H as <-.
Qed.

Lemma shared_auth_sound env o :
  shared_auth_from_env env = Ok o →
  match o with
  | Some c => env "SHARED_AUTH_URL" ≠ None ∧ shared_auth_ok env c
  | None => env "SHARED_AUTH_URL" = None
  end.
Proof.
  unfold shared_auth_from_env. destruct (env "SHARED_AUTH_URL") as [url|]; [|by intros [= <-]]. intros H.
  repeat match goal with
  | H : mbind _ (nonempty ?k ?v) = Ok _ |- _ => destruct (nonempty k v) eqn:?; [|done]; cbn [mbind result_mbind result_bind] in H
  | H : mbind _ (ok_or _ ?o) = Ok _ |- _ => destruct o as [raw|] eqn:?; [|done]; cbn [mbind result_mbind result_bind ok_or] in H
  end.
  destruct (match env "SHARED_AUTH_AUTHORIZED_PARTY" with Some _ => _ | None => _ end) as [id|] eqn:Ei; [|done].
  injection H as <-. split; [done|]. unfold shared_auth_ok. cbn.
  assert (stripped id) by (destruct (env "SHARED_AUTH_AUTHORIZED_PARTY"); by eapply nonempty_stripped).
  split_and!; try assumption; try by eapply nonempty_stripped.
  - match goal with H : nonempty "SHARED_AUTH_SERVICE_CREDENTIAL" _ = Ok _ |- _ => apply nonempty_Ok in H as [-> _] end.
    by exists raw.
  - intros party Hp. rewrite Hp in Ei. by apply nonempty_Ok in Ei as [-> _].
Qed.

Section mirror_facts.
Context `{mir : MirrorExternals} {laws : MirrorLaws}.

#[local] Instance before_total : Total before.
Proof. intros a b. apply order_key_total. Qed.
#[local] Instance before_transitive : Transitive before.
Proof. intros a b c. apply order_key_trans. Qed.

Lemma check_mirrors_Ok mirrors seen :
  check_mirrors mirrors seen = Ok tt →
  Forall (λ m, mirror_validate m = Ok tt) mirrors ∧ NoDup (map mirror_identifier mirrors) ∧
  ∀ id, id ∈ map mirror_identifier mirrors → (id ∉ seen).
Proof.
  revert seen. induction mirrors as [|m mirrors IH]; intros seen H; cbn in *.
  { split_and!; [by constructor..|]. intros id Hid. by apply not_elem_of_nil in Hid. }
  destruct (mirror_validate m) as [[]|] eqn:Em; [|done]. cbn in H.
  case_bool_decide as Hs; [done|]. cbn in H. destruct (IH _ H) as (Hv & Hn & Hd).
  split_and!; [by constructor|constructor; [|done]|].
  - intros Hin. apply (Hd _ Hin). by left.
  - intros id [->|Hin]%elem_of_cons; [done|]. intros Hid. apply (Hd _ Hin). by right.
Qed.

Lemma mirrors_sound raw mirrors : parse_mirrors raw = Ok mirrors → mirrors_ok raw mirrors.
Proof.
  unfold parse_mirrors, mirrors_ok. destruct (is_empty (trim raw)) eqn:Ee.
  { intros [= <-]. apply is_empty_spec in Ee. unfold zlength; cbn; split_and!; try done; try lia; by constructor. }
  destruct (mirrors_from_str (trim raw)) as [listed|] eqn:El; [|done]. cbn.
  destruct (Z.ltb_spec MAX_MIRRORS (zlength listed)); [done|]. cbn.
  destruct (check_mirrors listed []) as [[]|] eqn:Ec; [|done]. intros [= <-].
  apply check_mirrors_Ok in Ec as (Hv & Hn & _). pose proof (merge_sort_Permutation before listed) as Hp.
  split_and!.
  - by rewrite Hp.
  - by rewrite (Permutation_map mirror_identifier Hp).
  - apply StronglySorted_merge_sort; apply _.
  - unfold zlength in *. rewrite (Permutation_length Hp). lia.
  - intros _. by exists listed.
Qed.

(** C28: A process that gets a configuration can rely on it: the store backend is
    the one named, with its bucket or a positive memory bound; the tag policy is
    off unless asked for; the mirrors are the listed ones, valid, distinct, few
    enough and in try order; the registry identity is logical; the numbers fit
    their types; and Shared Auth is configured exactly when its address is, with
    every value stripped, the credential included. *)
Theorem from_env_sound env cfg :
  from_env env = Ok cfg →
  storage_ok env cfg.(cfg_storage) ∧
  (cfg.(verify_tags) = Github ↔ env "ZED_VERIFY_TAGS" = Some "github") ∧
  mirrors_ok (env_or env "ZED_MIRRORS" "") cfg.(cfg_mirrors) ∧
  registry_id_ok cfg.(cfg_registry_id) ∧
  0 ≤ cfg.(max_artifact_bytes) ≤ usize_max ∧ 0 ≤ cfg.(cfg_max_orgs_per_token) ≤ u64_max ∧
  0 ≤ cfg.(db_max_connections) ≤ u32_max ∧
  env "DATABASE_URL" = Some cfg.(database_url) ∧
  match cfg.(cfg_shared_auth) with
  | Some c => env "SHARED_AUTH_URL" ≠ None ∧ shared_auth_ok env c
  | None => env "SHARED_AUTH_URL" = None
  end.
Proof.
  unfold from_env. intros H.
  destruct (storage_from_env env) as [s|] eqn:Es; [|done]. cbn [mbind result_mbind result_bind] in H.
  destruct (verify_tags_from_env env) as [v|] eqn:Ev; [|done]. cbn [mbind result_mbind result_bind] in H.
  destruct (shared_auth_from_env env) as [a|] eqn:Ea; [|done]. cbn [mbind result_mbind result_bind] in H.
  destruct (env "DATABASE_URL") as [u|] eqn:Eu; [|done]. cbn [mbind result_mbind result_bind ok_or] in H.
  destruct (parse_mirrors _) as [m|] eqn:Em; [|done]. cbn [mbind result_mbind result_bind] in H.
  destruct (validate_registry_id _) as [id|] eqn:Eid; [|done]. cbn [mbind result_mbind result_bind] in H.
  repeat match goal with
  | H : mbind _ (number_from_env ?e ?x ?k ?f) = Ok _ |- _ =>
      let E := fresh "En" in destruct (number_from_env e x k f) eqn:E; [|done]; apply number_range in E;
      cbn [mbind result_mbind result_bind] in H
  end.
  injection H as <-. cbn. split_and!; try done; try lia.
  - by apply storage_sound.
  - unfold verify_tags_from_env, env_or in Ev. destruct (env "ZED_VERIFY_TAGS") as [p|]; cbn in Ev; [|by simplify_eq].
    destruct (p =s "off") eqn:E1; [|destruct (p =s "github") eqn:E2; [|done]]; bool_to_prop; subst p; by simplify_eq.
  - by apply mirrors_sound.
  - by eapply registry_id_sound.
  - by apply shared_auth_sound.
Qed.
End mirror_facts.
