(* ===== verification/Auth.v ===== *)
(** * Authentication ([src/auth.rs], with [AppState] of [src/state.rs])

    Legacy registry tokens, and the Shared Auth identities of account routes
    and private package reads. *)

From S2P Require Export Verify Rbac.

(** The state the handlers share, as far as the modelled components use it.
    [registry_read] and [registry_write] are the canonical contexts of another
    crate: only their presence is looked at. *)
Record AppState := mk_state {
  registry_read : bool;
  registry_write : bool;
  store : ArtifactStore;
  storage_backend : StorageBackend;
  verifier : TagVerifier;
  public_base_url : string;
  mirrors : list json;
  registry_id : string;
  max_orgs_per_token : Z;
  fiducia : bool;
  shared_auth : option SharedAuthClient;
  shared_auth_audience : string;
  shared_auth_application_id : string;
  shared_auth_public_url : option string;
}.

Definition REQUIRED_ACCOUNT_SCOPE : string := "zpkg:account".
Definition REQUIRED_PACKAGE_READ_SCOPE : string := "zpkg:packages:read".
Definition ZPKG_CLI_AUTHORIZED_PARTY : string := "zpkg-cli".
Definition CUSTOMER_AUTH_REALM : string := "customer".

Record SessionIdentity := mk_session {
  subject : uuid;
  realm : string;
  session_email : option string;
  display_name : option string;
  avatar_url : option string;
}.

Record AccountIdentity := mk_account {
  session : SessionIdentity;
  session_id : string;
  parent_jti : string;
}.

Record PackageReaderIdentity := mk_reader {
  reader_session : SessionIdentity;
  reader_session_id : string;
  reader_parent_jti : string;
}.

Definition bearer_token (headers : HeaderMap) : option string :=
  v ← header_get headers "authorization";
  s ← v;
  t ← strip_prefix "Bearer " s;
  let t := trim t in
  if is_empty t then None else Some t.

Definition map_shared_auth_error (e : ClientError) : ApiErr :=
  match e with
  | Unauthorized | InvalidInput _ => unauthorized
  | Status s =>
      if s =? 401 then unauthorized
      else service_unavailable "auth_unavailable" "shared authentication is temporarily unavailable"
  | _ => service_unavailable "auth_unavailable" "shared authentication is temporarily unavailable"
  end.

Definition required_claim (value : option string) : ApiResult string :=
  ok_or unauthorized
    (v ← value;
     let v := trim v in
     if negb (is_empty v) && (slen v <=? 1024) then Some v else None).

Definition optional_rest_string (i : Introspection) (key : string) : ApiResult (option string) :=
  match jget i.(rest) key with
  | None | Some JNull => Ok None
  | Some (JStr value) =>
      let value := trim value in
      if is_empty value || (1024 <? slen value) then Err unauthorized else Ok (Some value)
  | Some _ => Err unauthorized
  end.

Definition has_scope (wanted scope : string) : bool :=
  existsb (λ candidate, candidate =s wanted) (split_ascii_whitespace scope).

Section auth.
Context `{ext : Externals} `{web : WebExternals}.

Definition hash_token (plaintext : string) : string := digest_hex plaintext.

Definition account_from_introspection (i : Introspection) (expected_authorized_party : string)
    : ApiResult AccountIdentity :=
  reject_if (negb i.(active)) unauthorized;;
  sub ← required_claim i.(sub);
  subject ← ok_or unauthorized (uuid_parse sub);
  _ ← required_claim i.(iss);
  let delegated_required := forbidden "delegated_user_token_required"
    "this endpoint requires a session-backed delegated user token" in
  sid ← optional_rest_string i "sid";
  session_id ← ok_or delegated_required sid;
  azp ← optional_rest_string i "azp";
  authorized_party ← ok_or delegated_required azp;
  jti ← optional_rest_string i "parent_jti";
  parent_jti ← ok_or delegated_required jti;
  reject_if (negb (authorized_party =s expected_authorized_party))
    (forbidden "wrong_authorized_party"
       "the delegated token was not issued to the zed-pkg web client");;
  let insufficient := forbidden "insufficient_scope"
    "the delegated token is missing the zed-pkg account scope" in
  scope ← optional_rest_string i "scope";
  scope ← ok_or insufficient scope;
  reject_if (negb (has_scope REQUIRED_ACCOUNT_SCOPE scope)) insufficient;;
  auth_realm ← optional_rest_string i "auth_realm";
  plain_realm ← optional_rest_string i "realm";
  let realm := default CUSTOMER_AUTH_REALM
    match auth_realm with Some r => Some r | None => plain_realm end in
  reject_if (negb (realm =s CUSTOMER_AUTH_REALM))
    (forbidden "wrong_auth_realm" "the zed-pkg browser client accepts customer identities only");;
  name ← optional_rest_string i "display_name";
  avatar ← optional_rest_string i "avatar_url";
  mret (mk_account (mk_session subject realm i.(email) name avatar) session_id parent_jti).

Definition package_reader_from_introspection (i : Introspection)
    : ApiResult PackageReaderIdentity :=
  reject_if (negb i.(active)) unauthorized;;
  sub ← required_claim i.(sub);
  subject ← ok_or unauthorized (uuid_parse sub);
  _ ← required_claim i.(iss);
  let delegated_required := forbidden "delegated_user_token_required"
    "private package reads require a session-backed delegated user token" in
  sid ← optional_rest_string i "sid";
  session_id ← ok_or delegated_required sid;
  azp ← optional_rest_string i "azp";
  authorized_party ← ok_or delegated_required azp;
  jti ← optional_rest_string i "parent_jti";
  parent_jti ← ok_or delegated_required jti;
  reject_if (negb (authorized_party =s ZPKG_CLI_AUTHORIZED_PARTY))
    (forbidden "wrong_authorized_party"
       "the delegated token was not issued to the zed-pkg CLI");;
  let insufficient := forbidden "insufficient_scope"
    "the delegated token is missing the private-package read scope" in
  scope ← optional_rest_string i "scope";
  scope ← ok_or insufficient scope;
  reject_if (negb (has_scope REQUIRED_PACKAGE_READ_SCOPE scope)) insufficient;;
  auth_realm ← optional_rest_string i "auth_realm";
  plain_realm ← optional_rest_string i "realm";
  let realm := default CUSTOMER_AUTH_REALM
    match auth_realm with Some r => Some r | None => plain_realm end in
  reject_if (negb (realm =s CUSTOMER_AUTH_REALM))
    (forbidden "wrong_auth_realm" "the zed-pkg CLI accepts customer identities only");;
  name ← optional_rest_string i "display_name";
  avatar ← optional_rest_string i "avatar_url";
  mret (mk_reader (mk_session subject realm i.(email) name avatar) session_id parent_jti).

Definition require_account (st : AppState) (headers : HeaderMap) : M ApiErr AccountIdentity :=
  token ← lift (ok_or unauthorized (bearer_token headers));
  client ← lift (ok_or (service_unavailable "auth_unavailable"
                   "shared authentication is not configured") st.(shared_auth));
  introspection ← with_err map_shared_auth_error
    (introspect_for_audience client token st.(shared_auth_audience));
  lift (account_from_introspection introspection st.(shared_auth_application_id)).

Definition require_package_reader (st : AppState) (headers : HeaderMap)
    : M ApiErr PackageReaderIdentity :=
  token ← lift (ok_or unauthorized (bearer_token headers));
  client ← lift (ok_or (service_unavailable "auth_unavailable"
                   "shared authentication is not configured") st.(shared_auth));
  introspection ← with_err map_shared_auth_error
    (introspect_for_audience client token st.(shared_auth_audience));
  lift (package_reader_from_introspection introspection).

Definition find_token (hash : string) (d : Db) : option TokenRow :=
  List.find (λ r, r.(tok_hash) =s hash) d.(tokens).

Definition require_token (headers : HeaderMap) : M ApiErr TokenRow :=
  plaintext ← lift (ok_or unauthorized (bearer_token headers));
  found ← db_q (on_db (read (find_token (hash_token plaintext))));
  row ← lift (ok_or unauthorized found);
  lift (reject_if (is_some row.(tok_revoked_at)) unauthorized);;
  match row.(tok_expires_at) with
  | Some expires_at =>
      t ← now;
      if expires_at <=? t then fail unauthorized else mret row
  | None => mret row
  end.
End auth.
