(* ===== verification/Tokens.v ===== *)
(** * The token commands ([src/tokens.rs])

    [create-token] and [revoke-token]: argument parsing, the rows they write,
    and what authentication then makes of them. *)

From S2P Require Export Auth.

(** How a command stops. *)
Inductive CliErr : Type :=
| Bail (message : string)
| DbFailed
| Panicked.

Class TokenExternals := {
  (** [Uuid::simple] and [Uuid::parse_str] *)
  uuid_simple : uuid → string;
  uuid_parse_str : string → option uuid;
  (** [t + chrono::Duration::days(d)]; [None] where chrono panics *)
  add_days : instant → Z → option instant;
  (** [Config::from_env], [Database::connect] and the migrations, which leave
      the rows of a migrated database alone *)
  connect_fails : nat → option CliErr;
}.

Record CreateArgs := mk_create_args {
  ca_name : option string;
  ca_org : option string;
  ca_role : string;
  ca_days : option Z;
}.

Fixpoint parse_create (args : list string) (a : CreateArgs) : result CliErr CreateArgs :=
  match args with
  | [] => Ok a
  | "--name" :: v :: rest => parse_create rest (mk_create_args (Some v) a.(ca_org) a.(ca_role) a.(ca_days))
  | ["--name"] => Ok (mk_create_args None a.(ca_org) a.(ca_role) a.(ca_days))
  | "--org" :: v :: rest => parse_create rest (mk_create_args a.(ca_name) (Some v) a.(ca_role) a.(ca_days))
  | ["--org"] => Ok (mk_create_args a.(ca_name) None a.(ca_role) a.(ca_days))
  | "--role" :: v :: rest => parse_create rest (mk_create_args a.(ca_name) a.(ca_org) v a.(ca_days))
  | ["--role"] => Err (Bail "--role needs a value")
  | "--expires-in-days" :: raw :: rest =>
      match parse_i64 raw with
      | None => Err (Bail ("--expires-in-days must be a positive integer (got `" +:+ raw +:+ "`)"))
      | Some days =>
          if days <=? 0
          then Err (Bail ("--expires-in-days must be positive (got " +:+ dec_of_Z days +:+ ")"))
          else parse_create rest (mk_create_args a.(ca_name) a.(ca_org) a.(ca_role) (Some days))
      end
  | ["--expires-in-days"] => Err (Bail "--expires-in-days needs a value")
  | other :: _ => Err (Bail ("unknown argument `" +:+ other +:+ "`"))
  end.

(** The checked arguments of [create-token]. *)
Definition create_args (args : list string) : result CliErr (string * CreateArgs) :=
  a ← parse_create args (mk_create_args None None "owner" None);
  name ← ok_or (Bail "--name is required") a.(ca_name);
  reject_if (negb (RoleImpl.is_valid a.(ca_role)))
    (Bail ("--role must be one of: owner, publisher, reader (got `" +:+ a.(ca_role) +:+ "`)"));;
  reject_if (negb (is_some a.(ca_org)) && negb (a.(ca_role) =s "owner"))
    (Bail "--role only applies to org-scoped tokens; pass --org, or omit --role for an admin token");;
  mret (name, a).

Record RevokeArgs := mk_revoke_args { ra_name : option string; ra_id : option string }.

Fixpoint parse_revoke (args : list string) (a : RevokeArgs) : result CliErr RevokeArgs :=
  match args with
  | [] => Ok a
  | "--name" :: v :: rest => parse_revoke rest (mk_revoke_args (Some v) a.(ra_id))
  | ["--name"] => Ok (mk_revoke_args None a.(ra_id))
  | "--id" :: v :: rest => parse_revoke rest (mk_revoke_args a.(ra_name) (Some v))
  | ["--id"] => Ok (mk_revoke_args a.(ra_name) None)
  | other :: _ => Err (Bail ("unknown argument `" +:+ other +:+ "`"))
  end.

Definition revoke_args (args : list string) : result CliErr RevokeArgs :=
  a ← parse_revoke args (mk_revoke_args None None);
  reject_if (negb (is_some a.(ra_name)) && negb (is_some a.(ra_id)))
    (Bail "pass --name <name> or --id <uuid> to identify the token to revoke");;
  mret a.

Definition revoked (at_ : instant) (r : TokenRow) : TokenRow :=
  mk_token r.(tok_id) r.(tok_name) r.(tok_hash) r.(tok_org_id) r.(tok_role) r.(tok_created_at)
    r.(tok_expires_at) (Some at_).

(** [update] of the [revoked_at] column of one row; an error if it is gone. *)
Definition update_revoked (id : uuid) (at_ : instant) (d : Db) : result DbErr (unit * Db) :=
  if existsb (λ r, (r.(tok_id) =? id)%N) d.(tokens)
  then Ok (tt, set_tokens (map (λ r, if (r.(tok_id) =? id)%N then revoked at_ r else r)) d)
  else Err DbOther.

Section tokens.
Context `{ext : Externals} `{tex : TokenExternals}.

Definition db_cli {A} (m : M DbErr A) : M CliErr A := with_err (λ _, DbFailed) m.

Definition connect : M CliErr unit := λ w,
  (match connect_fails w.(tick) with Some e => Err e | None => Ok tt end, bump w).

Definition find_or_create_org (slug : string) : M CliErr OrgRow :=
  existing ← db_cli (on_db (read (find_org_by_slug slug)));
  match existing with
  | Some row => mret row
  | None =>
      id ← uuid_v4;
      t ← now;
      let row := mk_org id slug t None in
      db_cli (on_db (insert_org row));;
      mret row
  end.

(** The plaintext it prints. *)
Definition create_token (args : list string) : M CliErr string :=
  '(name, a) ← lift (create_args args);
  connect;;
  org_id ← match a.(ca_org) with
           | Some slug => row ← find_or_create_org slug; mret (Some row.(org_id))
           | None => mret None
           end;
  expires_at ← match a.(ca_days) with
               | Some days =>
                   t ← now;
                   match add_days t days with
                   | Some t => mret (Some t)
                   | None => fail Panicked
                   end
               | None => mret None
               end;
  u1 ← uuid_v4;
  u2 ← uuid_v4;
  let plaintext := "zpkg_" +:+ uuid_simple u1 +:+ uuid_simple u2 in
  id ← uuid_v4;
  created_at ← now;
  db_cli (on_db (insert_token {|
    tok_id := id;
    tok_name := name;
    tok_hash := hash_token plaintext;
    tok_org_id := org_id;
    tok_role := a.(ca_role);
    tok_created_at := created_at;
    tok_expires_at := expires_at;
    tok_revoked_at := None |}));;
  mret plaintext.

Definition token_matches (name : option string) (id : option uuid) (r : TokenRow) : bool :=
  match name with Some n => r.(tok_name) =s n | None => true end
  && match id with Some i => (r.(tok_id) =? i)%N | None => true end.

Fixpoint revoke_rows (at_ : instant) (rows : list TokenRow) (revoked_count : Z) : M CliErr Z :=
  match rows with
  | [] => mret revoked_count
  | row :: rows =>
      if is_some row.(tok_revoked_at) then revoke_rows at_ rows revoked_count
      else
        db_cli (on_db (update_revoked row.(tok_id) at_));;
        revoke_rows at_ rows (revoked_count + 1)
  end.

Definition revoke_token (args : list string) : M CliErr Z :=
  a ← lift (revoke_args args);
  connect;;
  id ← match a.(ra_id) with
       | Some id => u ← lift (ok_or (Bail "--id must be a UUID") (uuid_parse_str id)); mret (Some u)
       | None => mret None
       end;
  rows ← db_cli (on_db (read (λ d, List.filter (token_matches a.(ra_name) id) d.(tokens))));
  if bool_decide (rows = []) then fail (Bail "no token matched")
  else
    t ← now;
    revoke_rows t rows 0.
End tokens.
