(* ===== verification/Server.v ===== *)
(** * The process ([src/server.rs])

    The subcommand a process runs, the bounded connection retries, and the
    shared state a configuration becomes. *)

From S2P Require Export Config Auth.

Inductive ProcessCommand : Type :=
| CreateToken (arguments : list string)
| Healthcheck
| Migrate
| RevokeToken (arguments : list string)
| Serve.

Definition process_command (args : list string) : ProcessCommand :=
  match args !! 1%nat with
  | Some "create-token" => CreateToken (drop 2 args)
  | Some "revoke-token" => RevokeToken (drop 2 args)
  | Some "healthcheck" => Healthcheck
  | Some "migrate" => Migrate
  | _ => Serve
  end.

(** The last [:]-separated part of the listener's address is its port. *)
Definition healthcheck_url (bind : string) : string :=
  let port := match rsplit_once ":" bind with Some (_, port) => port | None => bind end in
  "http://127.0.0.1:" +:+ port +:+ "/healthz".

(** ** Connecting, with bounded retries *)

(** In nanoseconds. *)
Definition SECOND : Z := 1000000000.

(** In seconds. *)
Definition database_connect_max_wait (env : string → option string) : Z :=
  default 30 (v ← env "DB_CONNECT_MAX_WAIT_SECS"; parse_unsigned u64_max v).

Lemma database_connect_max_wait_nonneg env : 0 ≤ database_connect_max_wait env.
Proof.
  unfold database_connect_max_wait. destruct (env _) as [v|]; cbn; [|done].
  destruct (parse_unsigned u64_max v) as [n|] eqn:E; cbn; [|done].
  apply parse_unsigned_range in E. lia.
Qed.

(** What the world does to the [n]-th round of a loop, counted from 1: what the
    connection attempt answers, how long it takes, how much longer than asked
    the sleep lasts, and how long after the deadline is checked the clock is
    read again for the error's text, in nanoseconds. *)
Record Outside (A : Type) := mk_outside {
  connect : nat → result string A;
  took : nat → N;
  overslept : nat → N;
  reread : nat → N }.
Arguments connect {A}.
Arguments took {A}.
Arguments overslept {A}.
Arguments reread {A}.

Section retry.
Context {A : Type} (out : Outside A).

(** The loop at its head: [n] rounds are behind it, [attempt] is its counter,
    [elapsed] the time since [started]. Its answer comes with the time it came
    at; [None] when [fuel] is not enough. *)
Fixpoint retry_loop (fuel : nat) (what : string) (max_wait : Z) (n : nat) (attempt elapsed : Z)
    : option (result string A * Z) :=
  match fuel with
  | O => None
  | S fuel =>
      let n := S n in
      let attempt := wrap_u32 (attempt + 1) in
      let elapsed := elapsed + Z.of_N (out.(took) n) in
      match out.(connect) n with
      | Ok a => Some (Ok a, elapsed)
      | Err error =>
          if max_wait * SECOND <=? elapsed
          then
            let elapsed := elapsed + Z.of_N (out.(reread) n) in
            Some (Err ("failed to connect " +:+ what +:+ " after " +:+ dec_of_Z attempt
                       +:+ " attempts over " +:+ dec_of_Z (elapsed / SECOND) +:+ "s"), elapsed)
          else
            let slept := 2 * SECOND + Z.of_N (out.(overslept) n) in
            retry_loop fuel what max_wait n attempt (elapsed + slept)
      end
  end.

(** The first attempt, and one for every two seconds of waiting begun. *)
Definition max_attempts (max_wait : Z) : nat := S (Z.to_nat ((max_wait + 1) / 2)).

Definition connect_with_retry (env : string → option string) : option (result string A * Z) :=
  let max_wait := database_connect_max_wait env in
  retry_loop (max_attempts max_wait) "to DATABASE_URL" max_wait 0 0 0.
Definition connect_registry_write_with_retry (env : string → option string) : option (result string A * Z) :=
  let max_wait := database_connect_max_wait env in
  retry_loop (max_attempts max_wait) "canonical registry write context" max_wait 0 0 0.
Definition connect_registry_read_with_retry (env : string → option string) : option (result string A * Z) :=
  let max_wait := database_connect_max_wait env in
  retry_loop (max_attempts max_wait) "canonical registry read context" max_wait 0 0 0.

(** *** What the loop is for *)

(** When the [n]-th answer arrives: after [n] attempts, each but the first
    preceded by two seconds of sleep at least. *)
Fixpoint answered_at (n : nat) : Z :=
  match n with
  | O => 0
  | S O => Z.of_N (out.(took) 1)
  | S m => answered_at m + 2 * SECOND + Z.of_N (out.(overslept) m) + Z.of_N (out.(took) n)
  end.

(** [r], at the time [t], is what the attempts up to the [n]-th led to. *)
Definition retried (what : string) (max_wait : Z) (n : nat) (r : result string A) (t : Z) : Prop :=
  (1 ≤ n ≤ max_attempts max_wait)%nat ∧
  (∀ k, (1 ≤ k < n)%nat → is_ok (out.(connect) k) = false ∧ answered_at k < max_wait * SECOND) ∧
  ((1 < n)%nat → answered_at n < (max_wait + 2) * SECOND + Z.of_N (out.(overslept) (pred n)) + Z.of_N (out.(took) n)) ∧
  match r with
  | Ok a => out.(connect) n = Ok a ∧ t = answered_at n
  | Err e => is_ok (out.(connect) n) = false ∧ max_wait * SECOND ≤ answered_at n ∧
      t = answered_at n + Z.of_N (out.(reread) n) ∧
      e = "failed to connect " +:+ what +:+ " after " +:+ dec_of_Z (wrap_u32 (Z.of_nat n))
          +:+ " attempts over " +:+ dec_of_Z (t / SECOND) +:+ "s"
  end.

Lemma answered_at_S n :
  (1 ≤ n)%nat →
  answered_at (S n) = answered_at n + 2 * SECOND + Z.of_N (out.(overslept) n) + Z.of_N (out.(took) (S n)).
Proof. intros H. by destruct n; [lia|]. Qed.

Lemma answered_at_least n : 2 * SECOND * Z.of_nat n ≤ answered_at (S n).
Proof.
  induction n as [|n IH]; [cbn; lia|]. rewrite answered_at_S by lia. lia.
Qed.

(** The time at the head of the loop, after [n] rounds. *)
Definition head_at (n : nat) : Z :=
  match n with O => 0 | S _ => answered_at n + (2 * SECOND + Z.of_N (out.(overslept) n)) end.

Lemma head_answered n : head_at n + Z.of_N (out.(took) (S n)) = answered_at (S n).
Proof. destruct n as [|n]; [done|]. rewrite answered_at_S by lia. unfold head_at. lia. Qed.

Lemma retry_loop_retried what max_wait fuel n :
  0 ≤ max_wait → (n + fuel = max_attempts max_wait)%nat →
  (∀ k, (1 ≤ k ≤ n)%nat → is_ok (out.(connect) k) = false ∧ answered_at k < max_wait * SECOND) →
  ∃ m r t, retry_loop fuel what max_wait n (wrap_u32 (Z.of_nat n)) (head_at n) = Some (r, t) ∧
    retried what max_wait m r t.
Proof.
  intros Hm. revert n. induction fuel as [|fuel IH]; intros n Hf Hk.
  - exfalso. rewrite Nat.add_0_r in Hf. destruct (Hk n ltac:(unfold max_attempts in Hf; lia)) as [_ H].
    rewrite Hf in H. unfold max_attempts, SECOND in H.
    pose proof (answered_at_least (Z.to_nat ((max_wait + 1) / 2))) as Hl. unfold SECOND in Hl.
    pose proof (Z.mul_succ_div_gt (max_wait + 1) 2 ltac:(lia)). pose proof (Z.div_pos (max_wait + 1) 2). lia.
  - cbn [retry_loop]. rewrite head_answered.
    assert (wrap_u32 (wrap_u32 (Z.of_nat n) + 1) = wrap_u32 (Z.of_nat (S n))) as ->.
    { unfold wrap_u32. rewrite Z.add_mod_idemp_l by lia. f_equal. lia. }
    assert ((1 < S n)%nat → answered_at (S n)
      < (max_wait + 2) * SECOND + Z.of_N (out.(overslept) n) + Z.of_N (out.(took) (S n))) as Hlate.
    { intros Hn. destruct (Hk n ltac:(lia)) as [_ ?]. rewrite answered_at_S by lia. lia. }
    assert (∀ k, (1 ≤ k < S n)%nat → is_ok (out.(connect) k) = false ∧ answered_at k < max_wait * SECOND) as Hk'
      by (intros; apply Hk; lia).
    destruct (out.(connect) (S n)) as [a|e] eqn:Ec.
    + exists (S n), (Ok a), (answered_at (S n)). split; [done|]. unfold retried. split_and!; first [lia|exact Hk'|exact Hlate|done].
    + destruct (Z.leb_spec (max_wait * SECOND) (answered_at (S n))).
      * eexists (S n), _, _. split; [done|]. unfold retried. rewrite Ec. split_and!; first [lia|exact Hk'|exact Hlate|done].
      * apply (IH (S n)); [lia|]. intros k Hk2. destruct (decide (k = S n)) as [->|]; [by rewrite Ec|]. apply Hk'. lia.
Qed.
End retry.

(** C32: Each of the three connection loops ends: within one attempt and one
    more for every two seconds begun of the configured wait, since each retry
    sleeps two seconds. It returns the first connection that succeeds, gives up
    only after an attempt that failed at or past the wait, naming the attempts
    and seconds, and answers no later than the wait, one sleep and one attempt
    after it began. *)
Theorem connect_retries_end {A} (out : Outside A) env :
  let max_wait := database_connect_max_wait env in
  (∃ n r t, connect_with_retry out env = Some (r, t) ∧ retried out "to DATABASE_URL" max_wait n r t) ∧
  (∃ n r t, connect_registry_write_with_retry out env = Some (r, t) ∧
     retried out "canonical registry write context" max_wait n r t) ∧
  (∃ n r t, connect_registry_read_with_retry out env = Some (r, t) ∧
     retried out "canonical registry read context" max_wait n r t).
Proof.
  intros max_wait. split_and!; apply (retry_loop_retried out _ _ _ 0);
    first [apply database_connect_max_wait_nonneg|lia|intros; lia].
Qed.

(** ** The shared state *)

Section state.
Context `{ext : Externals} `{web : WebExternals} `{sto : StoreExternals}.

(** The client of a configured Shared Auth. *)
Definition shared_auth_client (c : SharedAuthConfig) : SharedAuthClient :=
  with_service_credential (new c.(sa_url)) c.(sa_service_credential).

Definition app_state (env : string → option string) (cfg : Config) (store : ArtifactStore) : AppState :=
  mk_state true true store (describe store cfg.(cfg_storage))
    (mk_verifier cfg.(verify_tags) (env "GITHUB_TOKEN"))
    (trim_end_matches "/" cfg.(cfg_public_base_url)) cfg.(cfg_mirrors) cfg.(cfg_registry_id)
    cfg.(cfg_max_orgs_per_token) (is_some cfg.(cfg_fiducia)) (shared_auth_client <$> cfg.(cfg_shared_auth))
    (default "zed-pkg" (sa_audience <$> cfg.(cfg_shared_auth)))
    (default "zpkg-web" (sa_application_id <$> cfg.(cfg_shared_auth)))
    (sa_public_url <$> cfg.(cfg_shared_auth)).

(** From the environment to the state of a serving process, once it is
    connected. *)
Definition startup `{mir : MirrorExternals} (env : string → option string) : M string AppState :=
  cfg ← lift (from_env env);
  store ← from_config cfg.(cfg_storage);
  mret (app_state env cfg store).

(** The report describes the store the process serves from. *)
Definition describes_store (b : StorageBackend) (store : ArtifactStore) : Prop :=
  match store with
  | Memory _ => b.(kind) = Kind.ProcessMemory ∧ b.(durable) = false
  | Local dir => b.(kind) = Kind.Filesystem ∧ b.(directory) = Some dir ∧ b.(durable) = true
  | S3 bucket => b.(kind) = Kind.ObjectStore ∧ b.(backend_bucket) = Some bucket ∧ b.(durable) = true
  end.

(** Without a Shared Auth client nobody is a signed-in user. *)
Lemma unconfigured_refuses st headers w :
  st.(shared_auth) = None →
  (∃ e, require_account st headers w = (Err e, w) ∧ status e ∈ [401; 503]) ∧
  (∃ e, require_package_reader st headers w = (Err e, w) ∧ status e ∈ [401; 503]).
Proof.
  intros H. unfold require_account, require_package_reader.
  split; destruct (bearer_token headers) as [token|]; unfold mbind, M_bind, lift; cbn; rewrite ?H; cbn;
    eexists; (split; [done|status_in]).
Qed.

Lemma from_config_describes config store w w' :
  from_config config w = (Ok store, w') → describes_store (describe store config) store.
Proof.
  unfold from_config. destruct config as [n|dir|bucket endpoint region path_style]; intros H.
  - by apply mret_inv in H as [[= ->] _].
  - M_step H. by apply mret_inv in H as [[= ->] _].
  - by apply mret_inv in H as [[= ->] _].
Qed.

(** The state of a process that starts comes from a sound configuration:
    both canonical contexts are there, the storage description is that of the
    store in use, the public address has no trailing slash, and Shared Auth is
    the configured peer. Where no address is configured, every request for an
    account or package-reader identity is refused without asking anyone. *)
Theorem startup_sound `{mir : MirrorExternals} env w st w' :
  startup env w = (Ok st, w') →
  ∃ cfg, from_env env = Ok cfg ∧
    st.(registry_read) = true ∧ st.(registry_write) = true ∧
    describes_store st.(storage_backend) st.(store) ∧
    ends_with "/" st.(public_base_url) = false ∧
    st.(registry_id) = cfg.(cfg_registry_id) ∧ st.(mirrors) = cfg.(cfg_mirrors) ∧
    match cfg.(cfg_shared_auth) with
    | Some c => st.(shared_auth) = Some (shared_auth_client c) ∧ st.(shared_auth_audience) = c.(sa_audience) ∧
        st.(shared_auth_application_id) = c.(sa_application_id)
    | None => ∀ headers w1,
        (∃ e, require_account st headers w1 = (Err e, w1) ∧ status e ∈ [401; 503]) ∧
        (∃ e, require_package_reader st headers w1 = (Err e, w1) ∧ status e ∈ [401; 503])
    end.
Proof.
  unfold startup. intros H. M_step H. apply lift_inv in R as [Hc ->]. rename a into cfg.
  M_step H. apply mret_inv in H as [[= ->] ->]. apply from_config_describes in R.
  exists cfg. split_and!; try done; [apply trimmed_base|].
  unfold app_state. destruct (cfg_shared_auth cfg) as [c|] eqn:Es; cbn; [done|].
  intros headers w1. by apply unconfigured_refuses.
Qed.
End state.
