(* ===== verification/AuthFacts.v ===== *)
(** * Authentication: who gets in, and what it proves *)

From S2P Require Export Tokens.

(** ** Shared Auth identities *)

Section identities.
Context `{ext : Externals} `{web : WebExternals}.

(** A string claim of the introspected token: present, non-blank, bounded. *)
Definition claim (i : Introspection) (key v : string) : Prop :=
  ∃ raw, jget i.(rest) key = Some (JStr raw) ∧ v = trim raw ∧ v ≠ "" ∧ slen v ≤ 1024.

Definition subject_claim (i : Introspection) (subject : uuid) : Prop :=
  ∃ raw, i.(sub) = Some raw ∧ trim raw ≠ "" ∧ uuid_parse (trim raw) = Some subject.

Definition issuer_claim (i : Introspection) : Prop := ∃ raw, i.(iss) = Some raw ∧ trim raw ≠ "".

(** The facts a delegated product token must establish. *)
Record delegated (azp wanted : string) (i : Introspection) (s : SessionIdentity)
    (sid jti : string) : Prop := {
  dl_active : i.(active) = true;
  dl_subject : subject_claim i s.(subject);
  dl_issuer : issuer_claim i;
  dl_session : claim i "sid" sid;
  dl_party : claim i "azp" azp;
  dl_parent : claim i "parent_jti" jti;
  dl_scope : ∃ scope, claim i "scope" scope ∧ wanted ∈ split_ascii_whitespace scope;
  dl_realm : s.(realm) = CUSTOMER_AUTH_REALM;
  dl_customer : ∀ r, claim i "auth_realm" r → r = CUSTOMER_AUTH_REALM;
  dl_email : s.(session_email) = i.(email);
}.

Lemma optional_claim i key v : optional_rest_string i key = Ok (Some v) → claim i key v.
Proof.
  unfold optional_rest_string. destruct (jget _ _) as [[| | |raw| |]|] eqn:E; try done.
  destruct (_ || _)%bool eqn:Eb; [done|]. intros [= <-]. bool_to_prop.
  exists raw. split_and!; try done. intros Hc. by rewrite Hc in *.
Qed.

Lemma claim_optional i key v : claim i key v → optional_rest_string i key = Ok (Some v).
Proof.
  intros (raw & Hj & -> & Hne & Hl). unfold optional_rest_string. rewrite Hj.
  destruct (is_empty (trim raw)) eqn:E; [by apply is_empty_spec in E|].
  cbn. by rewrite (proj2 (Z.ltb_ge _ _)) by lia.
Qed.

Lemma required_claim_Ok o v : required_claim o = Ok v → ∃ raw, o = Some raw ∧ v = trim raw ∧ v ≠ "".
Proof.
  unfold required_claim. destruct o as [raw|]; cbn; [|done].
  destruct (_ && _)%bool eqn:E; cbn; [|done]. intros [= <-]. exists raw. split_and!; try done.
  intros Hc. by rewrite Hc in E.
Qed.

Lemma has_scope_In wanted scope : has_scope wanted scope = true ↔ wanted ∈ split_ascii_whitespace scope.
Proof.
  unfold has_scope. rewrite existsb_exists. split.
  - intros (x & Hx & ->%String.eqb_eq). by apply list_elem_of_In.
  - intros Hx. exists wanted. by rewrite String.eqb_refl, <- list_elem_of_In.
Qed.

Ltac identity_facts H :=
  inv_bind; bool_to_prop; subst;
  repeat match goal with
  | Hc : optional_rest_string _ _ = Ok (Some _) |- _ => apply optional_claim in Hc
  | Hc : required_claim _ = Ok _ |- _ =>
      let raw := fresh "raw" in let Hv := fresh "Hv" in let Hn := fresh "Hn" in
      apply required_claim_Ok in Hc as (raw & Hc & Hv & Hn)
  | Hc : has_scope _ _ = true |- _ => apply has_scope_In in Hc
  end.

Ltac identity_record :=
  split; cbn [session subject realm session_email session_id parent_jti
              reader_session reader_session_id reader_parent_jti]; try done;
  [by eexists; split_and!; [eassumption|congruence|congruence]
  |by eexists; split_and!; [eassumption|congruence]
  |by eexists
  |intros r Hr%claim_optional;
   match goal with
   | Hm : optional_rest_string _ "auth_realm" = Ok ?a, Hd : default _ _ = _ |- _ =>
       assert (a = Some r) as -> by congruence; exact Hd
   end].

Lemma account_delegated i azp a :
  account_from_introspection i azp = Ok a →
  delegated azp REQUIRED_ACCOUNT_SCOPE i a.(session) a.(session_id) a.(parent_jti).
Proof. unfold account_from_introspection. intros H. identity_facts H. identity_record. Qed.

Lemma reader_delegated i a :
  package_reader_from_introspection i = Ok a →
  delegated ZPKG_CLI_AUTHORIZED_PARTY REQUIRED_PACKAGE_READ_SCOPE i
    a.(reader_session) a.(reader_session_id) a.(reader_parent_jti).
Proof. unfold package_reader_from_introspection. intros H. identity_facts H. identity_record. Qed.

Lemma refuses_claims i key : refuses [401; 403] (optional_rest_string i key).
Proof. unfold optional_rest_string. refuses_tac. Qed.

Lemma refuses_required o : refuses [401; 403] (required_claim o).
Proof. unfold required_claim. refuses_tac. Qed.

Lemma account_refuses i azp : refuses [401; 403] (account_from_introspection i azp).
Proof.
  unfold account_from_introspection.
  refuses_tac; first [apply refuses_claims|apply refuses_required|refuses_tac].
Qed.

Lemma reader_refuses i : refuses [401; 403] (package_reader_from_introspection i).
Proof.
  unfold package_reader_from_introspection.
  refuses_tac; first [apply refuses_claims|apply refuses_required|refuses_tac].
Qed.

(** What the introspection endpoint vouched for. *)
Definition introspected (st : AppState) (headers : HeaderMap) (t : nat) (i : Introspection) : Prop :=
  ∃ token client request status body j,
    bearer_token headers = Some token ∧ st.(shared_auth) = Some client ∧
    introspect_request client token st.(shared_auth_audience) = Ok request ∧
    http_answer t request = HttpAnswered status (Some body) ∧ 200 ≤ status ≤ 299 ∧
    slen body ≤ MAX_RESPONSE_BYTES ∧
    json_from_slice body = Some j ∧ introspection_of_json j = Some i.

Lemma introspect_run c token audience w r w' :
  introspect_for_audience c token audience w = (r, w') →
  db w' = db w ∧ objects w' = objects w ∧ txn w' = txn w ∧
  (∀ i, r = Ok i → ∃ request status body j,
    introspect_request c token audience = Ok request ∧
    http_answer (tick w) request = HttpAnswered status (Some body) ∧ 200 ≤ status ≤ 299 ∧
    slen body ≤ MAX_RESPONSE_BYTES ∧
    json_from_slice body = Some j ∧ introspection_of_json j = Some i).
Proof.
  intros H. unfold introspect_for_audience in H.
  M_step H; apply lift_inv in R as [Hreq ->].
  { split_and!; done. }
  injection H as <- <-. cbn. split_and!; [done..|]. intros i Hi. unfold read_answer in Hi.
  destruct (http_answer _ _) as [|status body] eqn:Ea; [done|].
  destruct (status =? 401); [done|].
  destruct (negb _) eqn:Es; [done|]. destruct body as [body|]; [|done].
  destruct (Z.ltb_spec MAX_RESPONSE_BYTES (slen body)); [done|].
  destruct (json_from_slice body) as [j|] eqn:Ej; [|done]. cbn in Hi.
  destruct (introspection_of_json j) as [i'|] eqn:Ei; [|done]. injection Hi as ->.
  bool_to_prop. exists a, status, body, j. rewrite <- Ei. split_and!; auto; lia.
Qed.

Lemma require_identity_run {A} (f : Introspection → ApiResult A) st headers w r w' :
  (∀ i, refuses [401; 403] (f i)) →
  (token ← lift (ok_or unauthorized (bearer_token headers));
   client ← lift (ok_or (service_unavailable "auth_unavailable"
                   "shared authentication is not configured") st.(shared_auth));
   introspection ← with_err map_shared_auth_error
     (introspect_for_audience client token st.(shared_auth_audience));
   lift (f introspection)) w = (r, w') →
  db w' = db w ∧ objects w' = objects w ∧
  match r with
  | Ok a => ∃ i, introspected st headers (tick w) i ∧ f i = Ok a
  | Err e => status e ∈ [401; 403; 503]
  end.
Proof.
  intros Hf H.
  M_step H; apply lift_inv in R as [Ht ->].
  { destruct (bearer_token headers); [done|]. injection Ht as ->. split_and!; [done..|status_in]. }
  destruct (bearer_token headers) as [token|] eqn:Eb; [|done]. injection Ht as ->.
  M_step H; apply lift_inv in R as [Ht ->].
  { destruct (shared_auth st); [done|]. injection Ht as ->. split_and!; [done..|status_in]. }
  destruct (shared_auth st) as [client|] eqn:Ec; [|done]. injection Ht as ->.
  M_step H; apply with_err_inv in R as (x & R & Hx); apply introspect_run in R as (Hdb & Ho & _ & Hi).
  { split_and!; [done..|]. destruct x as [|e']; [done|]. injection Hx as ->.
    destruct e'; cbn; try status_in. destruct (_ =? 401); status_in. }
  destruct x as [i|]; [|done]. injection Hx as ->.
  apply lift_inv in H as [-> ->]. split_and!; [done..|].
  destruct (f i) as [a|e] eqn:Ef.
  - exists i. split; [|done]. destruct (Hi i eq_refl) as (request & status & body & j & Hr).
    exists token, client, request, status, body, j. by rewrite Eb, Ec.
  - apply Hf in Ef. rewrite !elem_of_cons in *. tauto.
Qed.

(** No branch synthesizes authority. An account identity is returned only
    for a bearer token that the configured Shared Auth service, asked with its
    protected credential, reported as an active delegated token of the expected
    client with the account scope, for a customer; the identity's fields are
    the reported claims. Every refusal is a 401, 403 or 503, and neither
    outcome changes the registry's state. The same holds of private package
    readers, with the CLI's client and the package scope. *)
Theorem require_identity_sound st headers w :
  (let '(r, w') := require_account st headers w in
   db w' = db w ∧ objects w' = objects w ∧
   match r with
   | Ok a => ∃ i, introspected st headers (tick w) i ∧
       delegated st.(shared_auth_application_id) "zpkg:account" i a.(session) a.(session_id) a.(parent_jti)
   | Err e => status e ∈ [401; 403; 503]
   end) ∧
  (let '(r, w') := require_package_reader st headers w in
   db w' = db w ∧ objects w' = objects w ∧
   match r with
   | Ok a => ∃ i, introspected st headers (tick w) i ∧
       delegated "zpkg-cli" "zpkg:packages:read" i a.(reader_session) a.(reader_session_id) a.(reader_parent_jti)
   | Err e => status e ∈ [401; 403; 503]
   end).
Proof.
  split.
  - destruct (require_account st headers w) as [r w'] eqn:H.
    apply (require_identity_run
      (λ i, account_from_introspection i (shared_auth_application_id st))) in H
      as (Hdb & Ho & H); [|intros i; apply account_refuses].
    split_and!; [done..|]. destruct r; [|done]. destruct H as (i & Hi & Ha).
    exists i. split; [done|]. by apply account_delegated.
  - destruct (require_package_reader st headers w) as [r w'] eqn:H.
    apply (require_identity_run package_reader_from_introspection) in H
      as (Hdb & Ho & H); [|apply reader_refuses].
    split_and!; [done..|]. destruct r; [|done]. destruct H as (i & Hi & Ha).
    exists i. split; [done|]. by apply reader_delegated.
Qed.
End identities.

(** ** Registry tokens *)

Lemma find_token_Some h d row :
  find_token h d = Some row → row ∈ d.(tokens) ∧ tok_hash row = h.
Proof.
  unfold find_token. intros H%List.find_some. destruct H as [Hin Heq].
  apply String.eqb_eq in Heq. by rewrite <- list_elem_of_In in Hin.
Qed.

Section registry_tokens.
Context `{ext : Externals}.

(** The row is usable at an instant. *)
Definition usable (t : instant) (row : TokenRow) : Prop :=
  tok_revoked_at row = None ∧ ∀ e, tok_expires_at row = Some e → t < e.

#[export] Instance usable_dec t row : Decision (usable t row).
Proof.
  unfold usable. destruct (tok_revoked_at row); [right; by intros [[=] _]|].
  destruct (tok_expires_at row) as [e|].
  - destruct (decide (t < e)) as [H|H]; [left|right].
    + split; [done|]. by intros ? [= <-].
    + intros [_ Hc]. auto.
  - left. split; [done|]. by intros ?.
Defined.

(** What [require_token] answers, from the tables it saw and the instant of
    its expiry check. *)
Definition token_verdict (headers : HeaderMap) (d : Db) (t : instant) : ApiResult TokenRow :=
  match bearer_token headers with
  | None => Err unauthorized
  | Some p =>
      match find_token (hash_token p) d with
      | None => Err unauthorized
      | Some row => if decide (usable t row) then Ok row else Err unauthorized
      end
  end.

Lemma require_token_run headers w r w' :
  require_token headers w = (r, w') →
  objects w' = objects w ∧ txn w' = txn w ∧
  (db w' = db w ∨ db w' = others_db (tick w) (db w)) ∧
  (r = token_verdict headers (others_db (tick w) (db w)) (utc_now (S (tick w))) ∨
   r = Err from_db_err ∧ db_outcome (tick w) ≠ Done).
Proof.
  intros H. unfold require_token, db_q in H. unfold token_verdict.
  M_step H; apply lift_inv in R as [Ht ->].
  { destruct (bearer_token headers); [done|]. injection Ht as ->. auto. }
  destruct (bearer_token headers) as [p|]; [|done]. injection Ht as ->.
  M_step H; apply with_err_inv in R as (x & R & Hx).
  { destruct x as [|e']; [done|]. injection Hx as ->. pose proof R as R2.
    apply on_db_read_inv in R as (_ & Ho & Htx & Hdb & _). split_and!; auto.
    right. split; [done|]. unfold on_db in R2. intros Hd. by rewrite Hd in R2. }
  destruct x as [o|]; [|done]. injection Hx as ->.
  apply on_db_read_inv in R as (Htick & Ho & Htx & Hdb & [[= ->]|[=]]).
  rewrite Hdb in *. set (d := others_db _ _) in *.
  M_step H; apply lift_inv in R as [Hr ->].
  { destruct (find_token _ d); [done|]. injection Hr as ->. rewrite Hdb. auto. }
  destruct (find_token _ d) as [row|]; [|done]. injection Hr as ->.
  M_step H; apply lift_inv in R as [Hr ->].
  { rewrite decide_False.
    - rewrite Hdb. unfold reject_if in Hr. destruct (is_some _); [|done]. injection Hr as ->. auto.
    - intros [Hrev _]. by rewrite Hrev in Hr. }
  assert (tok_revoked_at row = None) as Hrev by (by destruct (tok_revoked_at row)).
  destruct (tok_expires_at row) as [e|] eqn:He.
  - M_step H; apply now_inv in R as ([=] & Htick2 & Ho2 & Hdb2 & Htx2). subst.
    rewrite Htick in H.
    destruct (Z.leb_spec e (utc_now (S (tick w)))).
    + apply fail_inv in H as [-> ->]. rewrite Hdb2, Hdb, Ho2, Htx2, decide_False; [auto|].
      intros [_ Hc]. specialize (Hc e He). lia.
    + apply mret_inv in H as [-> ->]. rewrite Hdb2, Hdb, Ho2, Htx2, decide_True; [auto|].
      split; [done|]. intros e' He'. simplify_eq. lia.
  - apply mret_inv in H as [-> ->]. rewrite Hdb, decide_True; [auto|].
    split; [done|]. intros e' He'. congruence.
Qed.

(** C30: a registry token is accepted exactly when the request carries a bearer
    token whose digest is stored, not revoked and not expired, and then it is
    that stored row which acts; the tables and the store are left alone. An
    error is a 401, or a 500 when the database did not answer. *)
Theorem require_token_spec headers w :
  let '(r, w') := require_token headers w in
  let d := others_db (tick w) (db w) in
  objects w' = objects w ∧ (db w' = db w ∨ db w' = d) ∧
  (∀ row, r = Ok row →
     ∃ p, bearer_token headers = Some p ∧ row ∈ d.(tokens) ∧ tok_hash row = hash_token p ∧
       usable (utc_now (S (tick w))) row) ∧
  (db_outcome (tick w) = Done →
   (∀ e, r = Err e → e = unauthorized) ∧
   ∀ p row, bearer_token headers = Some p → find_token (hash_token p) d = Some row →
     usable (utc_now (S (tick w))) row → r = Ok row).
Proof.
  destruct (require_token headers w) as [r w'] eqn:H.
  apply require_token_run in H as (Ho & _ & Hdb & H). cbn zeta. unfold token_verdict in H.
  split_and!; [done|done| |].
  - intros row ->. destruct H as [H|[[=] _]].
    destruct (bearer_token headers) as [p|]; [|done].
    destruct (find_token _ _) as [row'|] eqn:Ef; [|done].
    destruct (decide _) as [Hu|]; [|done]. injection H as ->.
    apply find_token_Some in Ef as [Hin Hh]. eauto.
  - intros Hd. destruct H as [->|[_ Hc]]; [|done]. split.
    + intros e. destruct (bearer_token headers); [|by intros [= <-]].
      destruct (find_token _ _); [|by intros [= <-]]. destruct (decide _); [done|by intros [= <-]].
    + intros p row -> -> Hu. by rewrite decide_True.
Qed.
End registry_tokens.

(** ** The commands *)

Section commands.
Context `{ext : Externals} `{tex : TokenExternals}.
(** The command runs alone against a database that answers. *)
Hypothesis db_done : ∀ t, db_outcome t = Done.
Hypothesis db_alone : ∀ t d, others_db t d = d.

Lemma alone_on_db {A} (f : Db → result DbErr (A * Db)) w r w' :
  on_db f w = (r, w') →
  (∃ a d, f (db w) = Ok (a, d) ∧ r = Ok a ∧ db w' = d) ∨
  (∃ e, f (db w) = Err e ∧ r = Err e ∧ db w' = db w).
Proof.
  unfold on_db. rewrite db_done, db_alone.
  destruct (f (db w)) as [[a d]|e]; intros [= <- <-]; cbn; eauto 10.
Qed.

Lemma alone_read {A} (f : Db → A) w r w' :
  on_db (read f) w = (r, w') → r = Ok (f (db w)) ∧ db w' = db w.
Proof. intros [(a & d & [= <- <-] & -> & ->)|(e & [=] & _)]%alone_on_db. done. Qed.

Lemma connect_db w r w' : connect w = (r, w') → db w' = db w.
Proof. by intros [= _ <-]. Qed.

Lemma alone_find_or_create_org slug w row w' :
  find_or_create_org slug w = (Ok row, w') →
  find_org_by_slug slug (db w') = Some row ∧ tokens (db w') = tokens (db w).
Proof.
  intros H. unfold find_or_create_org, db_cli in H.
  M_step H. apply with_err_inv in R as (x & R & Hx). destruct x as [o|]; [|done]. injection Hx as ->.
  apply alone_read in R as [[= ->] Hdb].
  destruct (find_org_by_slug slug (db w)) as [row'|] eqn:Ef.
  { apply mret_inv in H as [[= ->] ->]. by rewrite Hdb. }
  M_step H. apply uuid_v4_inv in R as (_ & _ & _ & Hdb1 & _).
  M_step H. apply now_inv in R as (_ & _ & _ & Hdb2 & _).
  M_step H. apply with_err_inv in R as (x & R & Hx). destruct x as [[]|]; [|done].
  apply mret_inv in H as [[= ->] ->].
  apply alone_on_db in R as [(b & d & Hi & _ & Hd)|(e & _ & [=] & _)].
  rewrite Hdb2, Hdb1, Hdb in Hi. unfold insert_org in Hi. destruct (existsb _ _); [done|].
  injection Hi as <- <-. rewrite Hd. split; [|done].
  unfold find_org_by_slug in *. cbn. apply find_first_match; [|cbn; apply String.eqb_refl].
  clear -Ef. induction (orgs (db w)) as [|o l IH]; [done|]. cbn in *.
  destruct (org_slug o =s slug); [done|]. by rewrite IH.
Qed.

(** The row [create-token] writes, and the tables it writes it to. *)
Definition created_row (name : string) (a : CreateArgs) (plaintext : string) (org : option uuid)
    (id : uuid) (created : instant) (expires : option instant) : TokenRow :=
  mk_token id name (hash_token plaintext) org (ca_role a) created expires None.

Lemma create_token_run args w plaintext w1 :
  create_token args w = (Ok plaintext, w1) →
  ∃ name a org id created expires d,
    create_args args = Ok (name, a) ∧ tokens d = tokens (db w) ∧
    insert_token (created_row name a plaintext org id created expires) d = Ok (tt, db w1) ∧
    (expires = None ↔ ca_days a = None) ∧
    match ca_org a with
    | None => org = None
    | Some slug => ∃ o, find_org_by_slug slug d = Some o ∧ org = Some (org_id o)
    end.
Proof.
  intros H. unfold create_token, db_cli in H.
  M_step H. run_case H. apply lift_inv in R as [Hargs ->]. symmetry in Hargs.
  M_step H. apply connect_db in R. M_step H. rename a0 into org.
  assert (tokens (db w2) = tokens (db w) ∧
    match ca_org c with
    | None => org = None
    | Some slug => ∃ o, find_org_by_slug slug (db w2) = Some o ∧ org = Some (org_id o)
    end) as [Htok Horg].
  { destruct (ca_org c) as [slug|].
    - M_step R0. apply mret_inv in R0 as [[= ->] ->].
      apply alone_find_or_create_org in R1 as [Hf Ht]. rewrite Ht, R. eauto.
    - apply mret_inv in R0 as [[= ->] ->]. by rewrite R. }
  clear R0. M_step H. rename a0 into expires.
  assert (db w3 = db w2 ∧ (expires = None ↔ ca_days c = None)) as [Hdb3 Hexp].
  { destruct (ca_days c) as [days|].
    - M_step R0. apply now_inv in R1 as (_ & _ & _ & Hdb & _).
      destruct (add_days _ _); [|by apply fail_inv in R0 as [[=] _]].
      apply mret_inv in R0 as [[= ->] ->]. by split.
    - by apply mret_inv in R0 as [[= ->] ->]. }
  clear R0.
  M_step H. apply uuid_v4_inv in R0 as (_ & _ & _ & Hdb4 & _).
  M_step H. apply uuid_v4_inv in R0 as (_ & _ & _ & Hdb5 & _).
  M_step H. apply uuid_v4_inv in R0 as (_ & _ & _ & Hdb6 & _). rename a2 into id.
  M_step H. apply now_inv in R0 as (_ & _ & _ & Hdb7 & _). rename a2 into created.
  M_step H. apply with_err_inv in R0 as (x & R0 & Hx). destruct x as [[]|]; [|done].
  apply mret_inv in H as [[= ->] ->].
  apply alone_on_db in R0 as [([] & d & Hi & _ & Hd)|(e & _ & [=] & _)].
  rewrite Hdb7, Hdb6, Hdb5, Hdb4, Hdb3 in Hi. rewrite <- Hd in Hi.
  exists s, c, org, id, created, expires, (db w2). split_and!; try done.
Qed.

Lemma insert_token_found row d d' :
  insert_token row d = Ok (tt, d') →
  tokens d' = (tokens d ++ [row])%list ∧ orgs d' = orgs d ∧ find_token (tok_hash row) d' = Some row.
Proof.
  unfold insert_token. destruct (existsb _ _) eqn:E; [done|]. intros [= <-]. cbn.
  split_and!; [done|done|]. unfold find_token. cbn. apply find_first_match; [|apply String.eqb_refl].
  clear -E. induction (tokens d) as [|r l IH]; [done|]. cbn in *.
  apply orb_false_iff in E as [E1 E2]. apply orb_false_iff in E1 as [_ E1]. by rewrite E1, IH.
Qed.

(** A created token works. When [create-token] prints a plaintext, exactly
    one row was added, which stores the plaintext's digest, the name, the role
    and the organization that were asked for; and from then on a request with
    that plaintext is authenticated as that row until it expires. *)
Theorem created_token_authenticates args w plaintext w1 :
  create_token args w = (Ok plaintext, w1) →
  ∃ name a row,
    create_args args = Ok (name, a) ∧ tokens (db w1) = (tokens (db w) ++ [row])%list ∧
    tok_name row = name ∧ tok_role row = ca_role a ∧ tok_hash row = hash_token plaintext ∧
    match ca_org a with
    | None => tok_org_id row = None ∧ ca_role a = "owner"
    | Some slug => ∃ o, find_org_by_slug slug (db w1) = Some o ∧ tok_org_id row = Some (org_id o)
    end ∧
    (tok_expires_at row = None ↔ ca_days a = None) ∧
    ∀ headers w2, bearer_token headers = Some plaintext → db w2 = db w1 →
      (∀ e, tok_expires_at row = Some e → utc_now (S (tick w2)) < e) →
      (require_token headers w2).1 = Ok row.
Proof.
  intros H. apply create_token_run in H as (name & a & org & id & created & expires & d & Hargs & Htok & Hi & Hexp & Horg).
  destruct (insert_token_found _ _ _ Hi) as (Hrows & Horgs & Hfind).
  exists name, a, (created_row name a plaintext org id created expires).
  split; [done|]. split; [congruence|]. do 3 (split; [done|]). split_and!.
  - unfold create_args in Hargs. inv_bind. destruct (ca_org a) as [slug|] eqn:Ec.
    + destruct Horg as (o & Hf & ->). exists o. split; [|done].
      unfold find_org_by_slug in *. by rewrite Horgs.
    + split; [done|]. bool_to_prop. cbn in *. bool_to_prop. done.
  - done.
  - intros headers w2 Hb Hdb2 He.
    destruct (require_token headers w2) as [r w'] eqn:Hr.
    apply require_token_run in Hr as (_ & _ & _ & [->|[_ Hc]]); [|by rewrite db_done in Hc].
    rewrite db_alone, Hdb2. unfold token_verdict. rewrite Hb.
    cbn [tok_hash created_row] in Hfind. rewrite Hfind. cbn [fst].
    rewrite decide_True; [done|]. by split.
Qed.

(** Revocation of the rows a command matched. *)
Definition live (r : TokenRow) : bool := negb (is_some (tok_revoked_at r)).
Definition same_id (r x : TokenRow) : bool := (tok_id x =? tok_id r)%N.
Definition mark (at_ : instant) (rows : list TokenRow) (r : TokenRow) : TokenRow :=
  if live r && existsb (same_id r) rows then revoked at_ r else r.

Lemma mark_id at_ rows r : tok_id (mark at_ rows r) = tok_id r.
Proof. unfold mark. by destruct (_ && _)%bool. Qed.

Lemma unique_row (l : list TokenRow) x y :
  NoDup (tok_id <$> l) → x ∈ l → y ∈ l → tok_id x = tok_id y → x = y.
Proof.
  induction l as [|z l IH]; cbn; [by intros _ ?%not_elem_of_nil|].
  intros [Hz Hl]%NoDup_cons Hx Hy Hid.
  apply elem_of_cons in Hx as [->|Hx], Hy as [->|Hy]; [done|..|by apply IH].
  - exfalso. apply Hz. rewrite Hid. by apply list_elem_of_fmap_2.
  - exfalso. apply Hz. rewrite <- Hid. by apply list_elem_of_fmap_2.
Qed.

Lemma existsb_id_absent r (rows : list TokenRow) :
  tok_id r ∉ (tok_id <$> rows) → existsb (same_id r) rows = false.
Proof.
  intros H. apply not_true_iff_false. intros (x & Hx & He)%existsb_exists. apply H.
  apply N.eqb_eq in He. rewrite <- He. apply list_elem_of_fmap_2. by apply list_elem_of_In.
Qed.

(** One row's update, when identifiers are unique, marks that row. *)
Lemma update_marks at_ row l :
  NoDup (tok_id <$> l) → row ∈ l → live row = true →
  map (λ r, if (tok_id r =? tok_id row)%N then revoked at_ r else r) l = map (mark at_ [row]) l.
Proof.
  intros Hnd Hin Hlive. apply map_ext_in. intros r Hr%list_elem_of_In.
  unfold mark, same_id. cbn [existsb]. rewrite orb_false_r, (N.eqb_sym (tok_id row)).
  destruct (N.eqb_spec (tok_id r) (tok_id row)) as [E|]; [|by rewrite andb_false_r].
  rewrite (unique_row l r row) by done. by rewrite Hlive.
Qed.

Lemma revoke_rows_run at_ rows n w r w' :
  NoDup (tok_id <$> tokens (db w)) → NoDup (tok_id <$> rows) →
  Forall (λ x, x ∈ tokens (db w)) rows →
  revoke_rows at_ rows n w = (r, w') →
  r = Ok (n + Z.of_nat (length (List.filter live rows))) ∧
  tokens (db w') = map (mark at_ rows) (tokens (db w)).
Proof.
  revert n w. induction rows as [|row rows IH]; intros n w Hnd Hrows Hin H; cbn [revoke_rows] in H.
  - apply mret_inv in H as [-> ->]. split; [f_equal; cbn; lia|].
    symmetry. rewrite <- map_id. apply map_ext. intros x. unfold mark. by rewrite andb_false_r.
  - apply NoDup_cons in Hrows as [Hrow Hrows]. apply Forall_cons_1 in Hin as [Hin Hins].
    cbn [List.filter]. unfold live at 1. destruct (is_some (tok_revoked_at row)) eqn:Erev; cbn [negb].
    + apply IH in H as [-> ->]; [|done..]. split; [done|]. apply map_ext_in. intros x Hx.
      unfold mark. cbn [existsb]. destruct (live x) eqn:El; [|done]. cbn [andb].
      destruct (same_id x row) eqn:Eid; [|done]. exfalso. apply N.eqb_eq in Eid.
      rewrite (unique_row _ x row Hnd) in El; [|by apply list_elem_of_In|done|done].
      unfold live in El. by rewrite Erev in El.
    + unfold db_cli in H. M_step H; apply with_err_inv in R as (x & R & Hx);
        assert (update_revoked (tok_id row) at_ (db w)
                = Ok (tt, set_tokens (map (λ r, if (tok_id r =? tok_id row)%N then revoked at_ r else r)) (db w)))
          as Hup by (unfold update_revoked; rewrite (proj2 (existsb_exists _ _));
                     [done|exists row; by rewrite N.eqb_refl, <- list_elem_of_In]);
        apply alone_on_db in R as [([] & d & Hd' & -> & Hd)|(e' & Hd' & _)];
        rewrite Hup in Hd'; [done|done| |done].
      injection Hd' as <-.
      assert (live row = true) as Hlive by (unfold live; by rewrite Erev).
      cbn [tokens set_tokens] in Hd.
      assert (tokens (db w0) = map (mark at_ [row]) (tokens (db w))) as Htok
        by (rewrite Hd; cbn; by apply update_marks).
      apply IH in H as [-> ->].
      * rewrite Htok, map_map. cbn [length]. split; [f_equal; lia|]. apply map_ext_in. intros x Hxin.
        unfold mark at 3. cbn [existsb].
        unfold mark at 2. cbn [existsb]. rewrite orb_false_r. unfold mark.
        destruct (live x) eqn:El, (same_id x row) eqn:Eid; cbn [andb orb]; rewrite ?El; done.
      * rewrite Htok. change (map (mark at_ [row]) (tokens (db w))) with (mark at_ [row] <$> tokens (db w)).
        rewrite <- list_fmap_compose. rewrite (list_fmap_ext _ tok_id); [done|].
        intros i x _. apply mark_id.
      * done.
      * rewrite Htok. rewrite Forall_forall in Hins |- *. intros x Hxr.
        assert (mark at_ [row] x = x) as <-.
        { unfold mark. cbn [existsb]. rewrite orb_false_r. unfold same_id.
          destruct (N.eqb_spec (tok_id row) (tok_id x)) as [E|]; [|by rewrite andb_false_r].
          exfalso. apply Hrow. rewrite E. by apply list_elem_of_fmap_2. }
        apply list_elem_of_In, in_map, list_elem_of_In. by apply Hins.
Qed.

Lemma find_map_tokens h (f : TokenRow → TokenRow) l :
  (∀ r, tok_hash (f r) = tok_hash r) →
  List.find (λ r, tok_hash r =s h) (map f l) = f <$> List.find (λ r, tok_hash r =s h) l.
Proof. intros Hf. induction l as [|x l IH]; cbn; [done|]. rewrite Hf. by destruct (_ =s h). Qed.

(** Revocation is immediate, exact and idempotent. When [revoke-token]
    reports a count, precisely the tokens that matched and were not revoked yet
    carry the new revocation instant, that many of them; every other row, and
    every earlier revocation instant, is untouched; and no matching token is
    accepted any more. *)
Theorem revoke_token_revokes args w n w1 :
  NoDup (tok_id <$> tokens (db w)) →
  revoke_token args w = (Ok n, w1) →
  ∃ a id t,
    revoke_args args = Ok a ∧ id = (ra_id a ≫= uuid_parse_str) ∧
    let hit r := live r && token_matches (ra_name a) id r in
    tokens (db w1) = map (λ r, if hit r then revoked t r else r) (tokens (db w)) ∧
    n = Z.of_nat (length (List.filter hit (tokens (db w)))) ∧
    ∀ headers p r w2, db w2 = db w1 → bearer_token headers = Some p →
      find_token (hash_token p) (db w) = Some r → token_matches (ra_name a) id r = true →
      (require_token headers w2).1 = Err unauthorized.
Proof.
  intros Hnd H. unfold revoke_token, db_cli in H.
  M_step H. apply lift_inv in R as [Ha ->]. symmetry in Ha.
  M_step H. apply connect_db in R.
  M_step H. rename a1 into id. assert (w2 = w0 ∧ id = (ra_id a ≫= uuid_parse_str)) as [-> Hid].
  { destruct (ra_id a) as [u|]; [|by apply mret_inv in R0 as [[= ->] ->]].
    M_step R0. apply lift_inv in R1 as [Hu ->]. apply mret_inv in R0 as [[= ->] ->].
    cbn. destruct (uuid_parse_str u); [|done]. by injection Hu as ->. }
  clear R0.
  M_step H. apply with_err_inv in R0 as (x & R0 & Hx). destruct x as [rows|]; [|done]. injection Hx as ->.
  apply alone_read in R0 as [[= Hrows] Hdb2].
  destruct (bool_decide _); [by apply fail_inv in H as [[=] _]|].
  M_step H. apply now_inv in R0 as (_ & _ & _ & Hdb3 & _). rename a1 into t.
  rewrite R in *.
  assert (db w3 = db w) as Hdb by congruence.
  apply revoke_rows_run in H as [[= ->] Htok].
  - rewrite Hdb in Htok. subst rows.
    assert (∀ r, r ∈ tokens (db w) →
      existsb (same_id r) (List.filter (token_matches (ra_name a) id) (tokens (db w)))
      = token_matches (ra_name a) id r) as Hex.
    { intros r Hr. apply eq_true_iff_eq. rewrite existsb_exists. split.
      - intros (x & Hx & He). apply filter_In in Hx as [Hx Hm]. apply N.eqb_eq in He.
        by rewrite <- (unique_row _ x r Hnd) by (done || by apply list_elem_of_In).
      - intros Hm. exists r. split; [apply filter_In; split; [by apply list_elem_of_In|done]|].
        unfold same_id. apply N.eqb_refl. }
    assert (tokens (db w1) = map (λ r, if live r && token_matches (ra_name a) id r then revoked t r else r)
              (tokens (db w))) as Hmap.
    { rewrite Htok. apply map_ext_in. intros r Hr%list_elem_of_In. unfold mark. by rewrite Hex. }
    exists a, id, t. split; [done|]. split; [done|]. cbn zeta. split; [done|]. split.
    + rewrite Z.add_0_l. do 2 f_equal. clear. induction (tokens (db w)) as [|r l IH]; [done|].
      cbn [List.filter]. destruct (token_matches _ _ r); cbn [List.filter]; destruct (live r);
        cbn [andb]; by rewrite ?IH.
    + intros headers p r v Hdb2' Hb Hf Hm.
      destruct (require_token headers v) as [r' w'] eqn:Hr.
      apply require_token_run in Hr as (_ & _ & _ & [->|[_ Hc]]); [|by rewrite db_done in Hc].
      rewrite db_alone, Hdb2'. unfold token_verdict, find_token in *. rewrite Hb, Hmap.
      rewrite find_map_tokens by (intros x; by destruct (_ && _)%bool). rewrite Hf. cbn.
      rewrite Hm, andb_true_r. unfold live. destruct (tok_revoked_at r) eqn:Er; cbn.
      * rewrite decide_False; [done|]. intros [Hc _]. congruence.
      * rewrite decide_False; [done|]. by intros [Hc _].
  - by rewrite Hdb.
  - subst rows. clear -Hnd. induction (tokens (db w)) as [|r l IH]; cbn; [constructor|].
    apply NoDup_cons in Hnd as [Hr Hl]. destruct (token_matches _ _ r); [|by apply IH].
    cbn. constructor; [|by apply IH]. intros Hc. apply Hr.
    apply list_elem_of_fmap in Hc as (x & -> & Hx). apply list_elem_of_fmap_2.
    apply list_elem_of_In in Hx. apply filter_In in Hx as [Hx _]. by apply list_elem_of_In.
  - subst rows. rewrite Hdb. apply Forall_forall. intros x Hx.
    apply list_elem_of_In in Hx. apply filter_In in Hx as [Hx _]. by apply list_elem_of_In.
Qed.
End commands.
