(* ===== verification/Routes.v ===== *)
(** * Helpers the handlers share ([src/routes/mod.rs]) *)

From S2P Require Export Auth AuditTrail.

Definition MAX_IN_FLIGHT_REQUESTS : Z := 512.
Definition JSON_BODY_LIMIT : Z := 64 * 1024.
Definition DEFAULT_ARTIFACT_SERVE_BUDGET : Z := 256 * 1024 * 1024.
Definition DEFAULT_GRAPH_SERVE_BUDGET : Z := 256 * 1024 * 1024.
Definition GRAPH_WORKING_SET_MULTIPLIER : Z := 3.

(** The interface crate's part. *)
Class RegistryExternals := {
  (** [zed_interfaces::version::sort_desc] *)
  sort_desc : list string → list string;
  (** [serde_json::from_value] to an [ArtifactFormat], as its extension *)
  format_from_value : string → option string;
  default_format : string;
  (** [serde_json::from_value(..).unwrap_or_default()] of a mirror set and of a
      signature set *)
  decode_mirrors : json → option json;
  decode_signatures : json → option json;
  default_set : json;
  (** [zed_interfaces::registry::artifact_path] *)
  artifact_path : string → string;
  DEPENDENCY_GRAPH_DEFAULT_MAX_ENCODED_BYTES : Z;
}.

(** ** Errors of the persistence crate ([map_orm_error] of
    [src/routes/account.rs]) *)

(** The variants the code distinguishes. *)
Inductive OrmError : Type :=
| VisibilityWindowExpired (message : string)
| VisibilityDownloadLimitExceeded (message : string)
| OrmNotFound (message : string)
| PolicyViolation (message : string)
| Database (message : string)
| OrmOther.

Definition map_orm_error (error : OrmError) : ApiErr :=
  match error with
  | VisibilityWindowExpired message | VisibilityDownloadLimitExceeded message =>
      conflict "visibility_window_closed" message
  | OrmNotFound message => not_found message
  | PolicyViolation message =>
      let normalized := to_ascii_lowercase message in
      if contains_str "membership" normalized || contains_str "role" normalized
         || contains_str "permission" normalized
      then forbidden "forbidden" "insufficient registry permission"
      else bad_request "invalid_request" message
  | Database message =>
      let normalized := to_ascii_lowercase message in
      if contains_str "duplicate" normalized || contains_str "unique" normalized
      then conflict "already_exists" "the registry entity already exists"
      else mk_api_err StatusCode.INTERNAL_SERVER_ERROR "internal" "internal database error"
  | OrmOther => mk_api_err StatusCode.INTERNAL_SERVER_ERROR "internal" "internal registry error"
  end.

(** ** Memory budgets *)

(** [budget / worst.max(1)], clamped. *)
Definition serve_concurrency (budget worst : Z) : Z :=
  clamp 1 MAX_IN_FLIGHT_REQUESTS (budget / Z.max worst 1).

(** [flag]: the environment variable's value, where it is set. *)
Definition artifact_serve_concurrency (flag : option string) (max_artifact_bytes : Z) : Z :=
  let budget := default DEFAULT_ARTIFACT_SERVE_BUDGET (flag ≫= parse_unsigned usize_max) in
  serve_concurrency budget max_artifact_bytes.

Section budgets.
Context `{reg : RegistryExternals}.

Definition graph_serve_concurrency_for_budget (budget : Z) : Z :=
  let max_encoded := Z.min DEPENDENCY_GRAPH_DEFAULT_MAX_ENCODED_BYTES usize_max in
  let working_set := saturating_mul usize_max max_encoded GRAPH_WORKING_SET_MULTIPLIER in
  serve_concurrency budget working_set.

Definition graph_serve_concurrency (flag : option string) : Z :=
  graph_serve_concurrency_for_budget
    (default DEFAULT_GRAPH_SERVE_BUDGET (flag ≫= parse_unsigned usize_max)).
End budgets.

(** ** Queries *)

Section routes.
Context `{ext : Externals} `{reg : RegistryExternals}.

(** The JSON body of [healthz]; a failed ping is reported, not returned. *)
Definition healthz {E} : M E json :=
  ping ← attempt (on_db (read (λ _, tt)));
  mret (JObj [("ok", JBool true); ("db", JBool (is_ok ping))]).

Definition find_org (slug : string) : M ApiErr OrgRow :=
  row ← db_q (on_db (read (find_org_by_slug slug)));
  lift (ok_or (not_found "org") row).

Definition find_package (org_row : OrgRow) (name : string) : M ApiErr PackageRow :=
  row ← db_q (on_db (read (find_package_by_name org_row.(org_id) name)));
  lift (ok_or (not_found "package") row).

Definition versions_of (package : uuid) (d : Db) : list VersionRow :=
  List.filter (λ r, (r.(ver_package_id) =? package)%N) d.(versions).

Definition sort_versions_desc (versions : list string) : list string := sort_desc versions.

Definition visible_versions_desc (rows : list VersionRow) : list string :=
  sort_versions_desc (map ver_version (List.filter (λ r, negb r.(ver_yanked)) rows)).

Definition latest_visible_version (rows : list VersionRow) : option string :=
  List.hd_error (visible_versions_desc rows).

Definition tags_of (pkg : PackageRow) : list string :=
  match pkg.(pkg_tags) with
  | JArr l => omap as_str l
  | _ => []
  end.

Definition artifact_format (format : string) : string :=
  default default_format (format_from_value format).

Record VersionMetadata := mk_metadata {
  vm_org : string;
  vm_name : string;
  vm_version : string;
  vm_sha256 : string;
  vm_size : Z;
  vm_format : string;
  vm_vcs_tag : string;
  vm_vcs_commit : option string;
  vm_download_url : string;
  vm_published_at : string;
  vm_yanked : bool;
  vm_mirrors : json;
  vm_signatures : json;
}.

Definition version_metadata (st : AppState) (org name : string) (row : VersionRow)
    : VersionMetadata := {|
  vm_org := org;
  vm_name := name;
  vm_version := row.(ver_version);
  vm_sha256 := row.(ver_sha256);
  vm_size := wrap_u64 row.(ver_size);
  vm_format := artifact_format row.(ver_format);
  vm_vcs_tag := row.(ver_vcs_tag);
  vm_vcs_commit := row.(ver_vcs_commit);
  vm_download_url := st.(public_base_url) +:+ artifact_path row.(ver_sha256);
  vm_published_at := rfc3339 row.(ver_published_at);
  vm_yanked := row.(ver_yanked);
  vm_mirrors := default default_set (decode_mirrors row.(ver_mirrors));
  vm_signatures := default default_set (decode_signatures row.(ver_signatures));
|}.
End routes.

(** ** Bounded memory *)

Lemma serve_concurrency_spec budget worst :
  0 ≤ budget → 0 ≤ worst →
  let n := serve_concurrency budget worst in
  1 ≤ n ≤ MAX_IN_FLIGHT_REQUESTS ∧ n * worst ≤ Z.max budget worst ∧
  (n < MAX_IN_FLIGHT_REQUESTS → budget < (n + 1) * Z.max worst 1).
Proof.
  intros Hb Hw. unfold serve_concurrency, clamp, MAX_IN_FLIGHT_REQUESTS. cbn zeta.
  set (m := Z.max worst 1). assert (0 < m ∧ worst ≤ m) as [Hm Hwm] by lia.
  pose proof (Z.div_pos budget m Hb Hm). pose proof (Z.mul_div_le budget m Hm).
  pose proof (Z.mul_succ_div_gt budget m Hm).
  set (q := budget / m) in *.
  destruct (Z.le_gt_cases q 1) as [Hq|Hq].
  - rewrite (Z.max_l 1 q), Z.min_r by lia. split_and!; [lia..|nia].
  - rewrite (Z.max_r 1 q) by lia.
    destruct (Z.le_gt_cases q 512).
    + rewrite Z.min_r by lia. split_and!; [lia..|nia|nia].
    + rewrite Z.min_l by lia. split_and!; [lia..|nia|lia].
Qed.

(** The artifact routes admit as many concurrent buffered reads as the
    memory budget allows, between one and the global cap: their worst-case
    memory stays within the budget (or within a single artifact when even one
    exceeds it), and below the cap one more would overrun it. *)
Theorem artifact_serve_concurrency_bounded flag max_artifact_bytes budget :
  0 ≤ max_artifact_bytes →
  budget = default DEFAULT_ARTIFACT_SERVE_BUDGET (flag ≫= parse_unsigned usize_max) →
  0 ≤ budget →
  let n := artifact_serve_concurrency flag max_artifact_bytes in
  1 ≤ n ≤ MAX_IN_FLIGHT_REQUESTS ∧
  n * max_artifact_bytes ≤ Z.max budget max_artifact_bytes ∧
  (n < MAX_IN_FLIGHT_REQUESTS → budget < (n + 1) * Z.max max_artifact_bytes 1).
Proof. intros Hmax -> Hb. by apply serve_concurrency_spec. Qed.
