(* ===== verification/Signing.v ===== *)
(** * Signature admission ([src/signing.rs]) and enrolled keys
    ([src/routes/keys.rs]) *)

From S2P Require Export Routes.

Inductive KeyState : Type := Active | Retired | Revoked.
#[export] Instance key_state_eq_dec : EqDecision KeyState.
Proof. solve_decision. Defined.

Record PublisherKey := mk_publisher_key {
  pk_key_id : string;
  pk_algorithm : string;
  pk_public_key_multibase : string;
  pk_state : KeyState;
  pk_enrolled_at : option string;
  pk_revoked_reason : option string;
}.

Record DetachedSignature := mk_signature {
  sig_key_id : string;
  sig_algorithm : string;
  sig_value : string;
}.

(** The signing contract of the interface crate and the Ed25519 library. *)
Class SigningExternals := {
  SIGNING_ALGORITHM : string;
  (** [PublisherKeyStateV1::verifies] *)
  state_verifies : KeyState → bool;
  (** [PublisherKeyV1::validate] *)
  key_validate : PublisherKey → option string;
  (** [public_key], [VerifyingKey::from_bytes], [signature_bytes],
      [verify_strict] *)
  public_key : PublisherKey → result string string;
  verifying_key : string → option string;
  signature_bytes : DetachedSignature → result string string;
  verify_strict : string → string → string → bool;
}.

Section signing.
Context `{sgn : SigningExternals}.

Definition verify_one (preimage : string) (signature : DetachedSignature) (key : PublisherKey)
    : result string unit :=
  public ← map_err (λ e, "key `" +:+ key.(pk_key_id) +:+ "` is unusable: " +:+ e) (public_key key);
  verifying ← ok_or ("key `" +:+ key.(pk_key_id) +:+ "` is not a valid Ed25519 point")
                (verifying_key public);
  bytes ← map_err (λ e, "malformed signature: " +:+ e) (signature_bytes signature);
  if verify_strict verifying preimage bytes then Ok tt
  else Err ("signature by `" +:+ key.(pk_key_id) +:+ "` does not verify").

Definition signing_key (keys : list PublisherKey) (key_id : string) : option PublisherKey :=
  List.find (λ k, k.(pk_key_id) =s key_id)
    (List.filter (λ k, state_verifies k.(pk_state)) keys).

Fixpoint verify_loop (preimage : string) (signatures : list DetachedSignature)
    (keys : list PublisherKey) (last : option string) : result string PublisherKey :=
  match signatures with
  | [] => Err (default "no signature verified" last)
  | signature :: signatures =>
      if negb (signature.(sig_algorithm) =s SIGNING_ALGORITHM)
      then verify_loop preimage signatures keys
             (Some ("unsupported algorithm `" +:+ signature.(sig_algorithm) +:+ "`"))
      else match signing_key keys signature.(sig_key_id) with
      | None =>
          verify_loop preimage signatures keys
            (Some ("no enrolled, non-revoked key named `" +:+ signature.(sig_key_id) +:+ "`"))
      | Some key =>
          match verify_one preimage signature key with
          | Ok _ => Ok key
          | Err e => verify_loop preimage signatures keys (Some e)
          end
      end
  end.

Definition verify_any (preimage : string) (signatures : list DetachedSignature)
    (keys : list PublisherKey) : result string PublisherKey :=
  if bool_decide (length signatures = 0%nat) then Err "no signature supplied"
  else if bool_decide (length keys = 0%nat)
  then Err "this org has no enrolled signing keys; run `zed key enroll` first"
  else verify_loop preimage signatures keys None.

(** The signature was made over the preimage by the key. *)
Definition signed_by (preimage : string) (s : DetachedSignature) (k : PublisherKey) : Prop :=
  ∃ public verifying bytes, public_key k = Ok public ∧ verifying_key public = Some verifying ∧
    signature_bytes s = Ok bytes ∧ verify_strict verifying preimage bytes = true.

Lemma verify_one_Ok preimage s k : verify_one preimage s k = Ok tt ↔ signed_by preimage s k.
Proof.
  unfold verify_one, signed_by. split.
  - intros H. destruct (public_key k) as [p|]; [|done]. cbn in H.
    destruct (verifying_key p) as [v|] eqn:Ev; [|done]. cbn in H.
    destruct (signature_bytes s) as [b|]; [|done]. cbn in H.
    destruct (verify_strict v preimage b) eqn:E; [|done]. by exists p, v, b.
  - intros (p & v & b & -> & Hv & -> & Hs). cbn. rewrite Hv. cbn. by rewrite Hs.
Qed.

(** The key a signature names is enrolled and may still verify. *)
Definition admissible (preimage : string) (keys : list PublisherKey) (s : DetachedSignature)
    (k : PublisherKey) : Prop :=
  s.(sig_algorithm) = SIGNING_ALGORITHM ∧ signing_key keys s.(sig_key_id) = Some k ∧
  signed_by preimage s k.

Lemma signing_key_Some keys id k :
  signing_key keys id = Some k →
  k ∈ keys ∧ state_verifies k.(pk_state) = true ∧ k.(pk_key_id) = id.
Proof.
  intros [Hin Hid]%List.find_some. apply filter_In in Hin as [Hin Hs].
  apply String.eqb_eq in Hid. by rewrite list_elem_of_In.
Qed.

Lemma admit_loop_spec preimage signatures keys last :
  match verify_loop preimage signatures keys last with
  | Ok k => ∃ s, s ∈ signatures ∧ admissible preimage keys s k
  | Err _ => ∀ s k, s ∈ signatures → ¬ admissible preimage keys s k
  end.
Proof.
  assert (∀ s r (m : result string PublisherKey),
    match m with
    | Ok k => ∃ s, s ∈ r ∧ admissible preimage keys s k
    | Err _ => ∀ s k, s ∈ r → ¬ admissible preimage keys s k
    end →
    (∀ k, ¬ admissible preimage keys s k) →
    match m with
    | Ok k => ∃ x, x ∈ s :: r ∧ admissible preimage keys x k
    | Err _ => ∀ x k, x ∈ s :: r → ¬ admissible preimage keys x k
    end) as Hstep.
  { intros s r [k|e] H Hs.
    - destruct H as (x & Hx & Ha). exists x. split; [by right|done].
    - intros x k [->|Hx]%elem_of_cons; [apply Hs|by apply H]. }
  revert last. induction signatures as [|s r IH]; intros last; cbn [verify_loop].
  { intros s k []%not_elem_of_nil. }
  destruct (String.eqb_spec (sig_algorithm s) SIGNING_ALGORITHM) as [Ha|Ha]; cbn [negb].
  - destruct (signing_key keys (sig_key_id s)) as [key|] eqn:Ek.
    + destruct (verify_one preimage s key) as [[]|e] eqn:Ev.
      * exists s. split; [by left|]. split_and!; [done..|]. by apply verify_one_Ok.
      * apply Hstep; [apply IH|]. intros k (_ & Hk & Hsig%verify_one_Ok). simplify_eq. congruence.
    + apply Hstep; [apply IH|]. intros k (_ & Hk & _). congruence.
  - apply Hstep; [apply IH|]. intros k (Hk & _). done.
Qed.

Lemma verify_any_cases preimage signatures keys :
  match verify_any preimage signatures keys with
  | Ok k => ∃ s, s ∈ signatures ∧ admissible preimage keys s k ∧
      k ∈ keys ∧ state_verifies k.(pk_state) = true ∧ k.(pk_key_id) = s.(sig_key_id)
  | Err _ => ∀ s k, s ∈ signatures → ¬ admissible preimage keys s k
  end.
Proof.
  unfold verify_any. destruct signatures as [|s0 r]; [intros s k []%not_elem_of_nil|].
  rewrite bool_decide_eq_false_2 by done. destruct keys as [|k0 keys].
  { intros s k _ (_ & Hk & _). done. }
  rewrite bool_decide_eq_false_2 by done.
  pose proof (admit_loop_spec preimage (s0 :: r) (k0 :: keys) None) as H.
  destruct (verify_loop _ _ _ _) as [k|e]; [|done]. destruct H as (s & Hs & Ha).
  exists s. split; [done|]. split; [done|]. destruct Ha as (_ & Hk & _). by apply signing_key_Some.
Qed.

(** A publication is admitted exactly when some supplied signature uses the
    one supported algorithm, names an enrolled key whose state may still
    verify, and verifies strictly under that key; the key returned is such a
    key. Signatures that fail for any other reason never mask a good one. *)
Theorem verify_any_spec preimage signatures keys :
  match verify_any preimage signatures keys with
  | Ok k => ∃ s, s ∈ signatures ∧ admissible preimage keys s k ∧
      k ∈ keys ∧ state_verifies k.(pk_state) = true ∧ k.(pk_key_id) = s.(sig_key_id)
  | Err _ => ∀ s k, s ∈ signatures → ¬ admissible preimage keys s k
  end.
Proof. apply verify_any_cases. Qed.
End signing.
