(* ===== verification/PublishMeta.v ===== *)
(** * The publish form

    The metadata a publisher uploads beside the artifact, as the handlers read
    it ([zed_interfaces::registry::PublishMeta]). *)

From S2P Require Export Signing.

(** What the handlers read of a [PublishMeta] of the interface crate. A format
    is its extension. *)
Record Manifest := mk_manifest {
  m_org : string;
  m_name : string;
  m_version : string;
  m_description : option string;
  m_vcs : string;
  m_repo_url : string;
  m_version_scheme : string;
  m_keywords : list string;
  m_dependencies : list (string * string);
  m_build_dependencies : list (string * string);
  m_rest : json;
}.

Record PublishMeta := mk_meta {
  manifest : Manifest;
  meta_sha256 : string;
  meta_size : Z;
  meta_format : string;
  meta_vcs_tag : string;
  meta_vcs_commit : option string;
  meta_published_at : option string;
  meta_mirrors : json;
  meta_signatures : list DetachedSignature;
}.
