(* ===== verification/BinaryArtifact.v ===== *)
(** * Native-binary archives ([src/binary_artifact.rs])

    The walk over a ZIP's central directory that decides whether an upload opts
    into the binary profile, and the verification of an archive that does. The
    ZIP reader and the descriptor's own rules are other crates. *)

From stdpp Require Export gmap.
From S2P Require Export PublishMeta.

(** ** What the ZIP reader delivers *)

Inductive Compression : Type := Stored | Deflated | OtherCompression (debug : string).

(** Successive [read]s of an entry: a failure, or a chunk. *)
Abbreviation EntryReads := (list (result string string)).

Record ZipEntry := mk_zip_entry {
  name_raw : string;
  encrypted : bool;
  compression : Compression;
  is_symlink : bool;
  is_file : bool;
  is_dir : bool;
  entry_size : Z;
  compressed_size : Z;
  unix_mode : option Z;
  (** [enclosed_name], after [to_string_lossy] *)
  enclosed_name : option string;
  entry_reads : EntryReads;
}.

(** An opened archive. *)
Record ZipArchive := mk_zip {
  central_directory_start : Z;
  zip_len : Z;
  has_overlapping_files : result string bool;
  by_index : Z → result string ZipEntry;
  by_name : string → result string ZipEntry;
}.

Record BinaryFile := mk_binary_file {
  bf_path : string;
  bf_size : Z;
  bf_sha256 : string;
  bf_executable : bool;
}.

Record SourceProvenance := mk_source {
  sp_repository : string;
  sp_vcs_tag : string;
  sp_vcs_commit : option string;
}.

(** [BinaryArtifactManifestV1]: what this module reads of it. *)
Record Descriptor := mk_descriptor {
  d_source : option SourceProvenance;
  d_files : list BinaryFile;
  d_rest : json;
}.

Class BinaryExternals := {
  zip_open : string → result string ZipArchive;
  (** the extension of [ArtifactFormat::Zip] *)
  ZIP_FORMAT : string;
  BINARY_ARCHIVE_ROOT : string;
  BINARY_DESCRIPTOR_PATH : string;
  BINARY_PACKAGE_MANIFEST_PATH : string;
  (** [validate_safe_relative_path] of an entry's path *)
  unsafe_relative_path : string → option string;
  (** [serde_json::from_slice], [validate_against_manifest],
      [canonical_json_bytes] of a descriptor *)
  descriptor_parse : string → result string Descriptor;
  descriptor_invalid : Descriptor → Manifest → option string;
  canonical_json_bytes : Descriptor → result string string;
  (** [Manifest::parse], and the equality of manifests *)
  manifest_parse : string → result string Manifest;
  manifest_eq : Manifest → Manifest → bool;
  (** [str::to_lowercase]: the Unicode tables *)
  to_lowercase : string → string;
  (** [crate::flags::var] *)
  binary_flag : string → option string;
}.

(** ** Limits *)

Definition DEFAULT_MAX_BINARY_ARCHIVE_BYTES : Z := 1024 * 1024 * 1024.
Definition DEFAULT_MAX_BINARY_EXPANDED_BYTES : Z := 2 * 1024 * 1024 * 1024.
Definition DEFAULT_MAX_BINARY_ENTRIES : Z := 200000.
Definition DEFAULT_MAX_BINARY_COMPRESSION_RATIO : Z := 1000.
Definition MAX_DESCRIPTOR_BYTES : Z := 4 * 1024 * 1024.
Definition MAX_PACKAGE_MANIFEST_BYTES : Z := 4 * 1024 * 1024.
Definition BINARY_DESCRIPTOR_ARCHIVE_PATH : string := "pkg/.zpkg-binary.json".

(** [bounded_u64_override] and [bounded_usize_override]: a flag only lowers the
    ceiling. *)
Definition bounded_override (max : Z) (value : option string) (ceiling : Z) : Z :=
  match (v ← value; n ← parse_unsigned max v; if 0 <? n then Some n else None) with
  | Some n => Z.min n ceiling
  | None => ceiling
  end.
Definition bounded_u64_override : option string → Z → Z := bounded_override u64_max.
Definition bounded_usize_override : option string → Z → Z := bounded_override usize_max.

(** ** Bytes *)

(** [bytes.get(a..b)]. *)
Definition get_range (a b : Z) (s : string) : option string :=
  if (a <=? b) && (b <=? slen s) then Some (substring (Z.to_nat a) (Z.to_nat (b - a)) s) else None.

(** [bytes[i]] of a slice long enough. *)
Definition byte_at (i : nat) (s : string) : Z :=
  match String.get i s with Some c => byte_of c | None => 0 end.
Definition u16_le (i : nat) (s : string) : Z := byte_at i s + 256 * byte_at (S i) s.
Definition u32_le (i : nat) (s : string) : Z := u16_le i s + 65536 * u16_le (S (S i)) s.

Definition in_bytes (lo hi : Z) (c : ascii) : bool := in_range lo hi c.

(** [str::from_utf8] succeeds. *)
Fixpoint valid_utf8 (s : string) : bool :=
  match s with
  | "" => true
  | String a r =>
      let l := byte_of a in
      if l <? 128 then valid_utf8 r
      else match r with
      | "" => false
      | String b r1 =>
          if in_range 194 223 a then is_continuation b && valid_utf8 r1
          else match r1 with
          | "" => false
          | String c r2 =>
              if in_range 224 239 a
              then (if l =? 224 then in_range 160 191 b
                    else if l =? 237 then in_range 128 159 b else is_continuation b)
                   && is_continuation c && valid_utf8 r2
              else match r2 with
              | "" => false
              | String d r3 =>
                  in_range 240 244 a
                  && (if l =? 240 then in_range 144 191 b
                      else if l =? 244 then in_range 128 143 b else is_continuation b)
                  && is_continuation c && is_continuation d && valid_utf8 r3
              end
          end
      end
  end.

Definition from_utf8 (s : string) : option string := if valid_utf8 s then Some s else None.

Definition slash : ascii := "/".
Definition backslash_byte : ascii := "092"%char.
(** [replace('\\', "/")]. *)
Definition forward_slashes : string → string := smap (λ c, if c =c backslash_byte then slash else c).

(** [{:o}]. *)
Fixpoint octal_aux (fuel : nat) (n : Z) (acc : string) : string :=
  match fuel with
  | O => acc
  | S fuel =>
      let acc := String (digit_char (Z.to_N (n mod 8))) acc in
      if n <? 8 then acc else octal_aux fuel (n / 8) acc
  end.
Definition octal (n : Z) : string := octal_aux (S (Z.to_nat (Z.log2 n))) n "".

(** ** The central directory *)

(** Whether the extra fields of an entry hold a ZIP64 one; [None] when they are
    malformed. *)
Fixpoint contains_zip64_extra_fuel (fuel : nat) (extra : string) (offset : Z) : option bool :=
  match fuel with
  | O => None
  | S fuel =>
      if offset <? slen extra then
        header_end ← checked_add usize_max offset 4;
        header ← get_range offset header_end extra;
        let kind := u16_le 0 header in
        let len := u16_le 2 header in
        start ← checked_add usize_max offset 4;
        data_end ← checked_add usize_max start len;
        if slen extra <? data_end then None
        else if kind =? 1 then Some true
        else contains_zip64_extra_fuel fuel extra data_end
      else Some false
  end.
Definition contains_zip64_extra (extra : string) : option bool :=
  contains_zip64_extra_fuel (S (String.length extra)) extra 0.

Inductive DescriptorPresence : Type := Absent | Present.

Definition quoted (s : string) : string := "`" +:+ s +:+ "`".

(** The loop's variables. *)
Record Walk := mk_walk {
  offset : Z;
  exact : Z;
  entries : Z;
  encoding_violation : option string;
}.

(** [if bad && violation.is_none() { violation = Some(text) }]. *)
Definition note (bad : bool) (text : string) (violation : option string) : option string :=
  if bad && negb (is_some violation) then Some text else violation.

Definition CENTRAL_MAGIC : string := "PK" +:+ String "001" (String "002" "").
Definition CENTRAL_HEADER_BYTES : Z := 46.

Section binary.
Context `{bin : BinaryExternals}.

Definition max_binary_archive_bytes : Z :=
  bounded_u64_override (binary_flag "ZED_MAX_BINARY_ARCHIVE_BYTES") DEFAULT_MAX_BINARY_ARCHIVE_BYTES.
Definition max_binary_expanded_bytes : Z :=
  bounded_u64_override (binary_flag "ZED_MAX_BINARY_EXPANDED_BYTES") DEFAULT_MAX_BINARY_EXPANDED_BYTES.
Definition max_binary_entries : Z :=
  bounded_usize_override (binary_flag "ZED_MAX_BINARY_ENTRIES") DEFAULT_MAX_BINARY_ENTRIES.
Definition max_binary_compression_ratio : Z :=
  bounded_u64_override (binary_flag "ZED_MAX_BINARY_COMPRESSION_RATIO") DEFAULT_MAX_BINARY_COMPRESSION_RATIO.

Definition portable_path_key (path : string) : string := to_lowercase (forward_slashes path).

(** [trim_end_matches(['.', ' '])]. *)
Definition trim_dots_spaces : string → string := trim_end_by (λ c, (c =c ".") || (c =c " ")).

(** The loop over the components, kept last first. *)
Fixpoint normalize_components (parts : list string) (components : list string) : option (list string) :=
  match parts with
  | [] => Some components
  | raw :: parts =>
      if is_empty raw || (raw =s ".") then normalize_components parts components
      else if raw =s ".." then
        match components with
        | [] => None
        | _ :: components => normalize_components parts components
        end
      else
        let component := trim_dots_spaces raw in
        if is_empty component then normalize_components parts components
        else normalize_components parts (to_lowercase component :: components)
  end.

Definition normalized_archive_path (path : string) : option string :=
  components ← normalize_components (split slash (forward_slashes path)) [];
  Some (join "/" (rev components)).

(** What an entry's header and extra fields add to [encoding_violation]. *)
Definition entry_violation (header extra : string) (violation : option string) : option string :=
  let flags := u16_le 8 header in
  let v := note (negb (Z.land flags 8 =? 0))
    "binary ZIP entries must not use general-purpose bit 3 data descriptors" violation in
  let v := note ((u32_le 20 header =? u32_max) || (u32_le 24 header =? u32_max)
                 || (u16_le 34 header =? u16_max) || (u32_le 42 header =? u32_max))
    "binary ZIP contains an unnecessary per-entry ZIP64 sentinel" v in
  match contains_zip64_extra extra with
  | Some true => note true "binary ZIP contains an unnecessary per-entry ZIP64 extra field" v
  | None => note true "binary ZIP contains a malformed central-directory extra field" v
  | Some false => v
  end.

(** The count of exact descriptor names, and the refusal of their aliases. *)
Definition count_descriptor (raw : string) (exact : Z) : result string Z :=
  if raw =s BINARY_DESCRIPTOR_ARCHIVE_PATH then Ok (exact + 1)
  else match from_utf8 raw with
  | Some name =>
      if bool_decide (normalized_archive_path name = Some BINARY_DESCRIPTOR_ARCHIVE_PATH)
      then Err ("reserved binary descriptor path must be exactly "
                +:+ quoted BINARY_DESCRIPTOR_ARCHIVE_PATH +:+ ", got " +:+ quoted name)
      else Ok exact
  | None => Ok exact
  end.

(** One central-directory entry. *)
Definition walk_entry (bytes : string) (w : Walk) : result string Walk :=
  header ← ok_or "truncated ZIP central-directory header"
    (get_range w.(offset) (saturating_add usize_max w.(offset) CENTRAL_HEADER_BYTES) bytes);
  name_start ← ok_or "ZIP central-directory offset overflow"
    (checked_add usize_max w.(offset) CENTRAL_HEADER_BYTES);
  name_end ← ok_or "ZIP central-directory filename length overflow"
    (checked_add usize_max name_start (u16_le 28 header));
  raw ← ok_or "truncated ZIP central-directory filename" (get_range name_start name_end bytes);
  extra_end ← ok_or "ZIP central-directory extra-field length overflow"
    (checked_add usize_max name_end (u16_le 30 header));
  extra ← ok_or "truncated ZIP central-directory extra field" (get_range name_end extra_end bytes);
  exact ← count_descriptor raw w.(exact);
  entries ← ok_or "ZIP central-directory entry count overflow" (checked_add usize_max w.(entries) 1);
  offset ← ok_or "ZIP central-directory entry length overflow" (checked_add usize_max extra_end (u16_le 32 header));
  reject_if (slen bytes <? offset) "truncated ZIP central-directory entry";;
  Ok (mk_walk offset exact entries (entry_violation header extra w.(encoding_violation))).

(** The loop; [None] when [fuel] is not enough. *)
Fixpoint walk_directory (fuel : nat) (bytes : string) (w : Walk) : option (result string Walk) :=
  match fuel with
  | O => None
  | S fuel =>
      if bool_decide (get_range w.(offset) (saturating_add usize_max w.(offset) 4) bytes = Some CENTRAL_MAGIC)
      then match walk_entry bytes w with
           | Err e => Some (Err e)
           | Ok w => walk_directory fuel bytes w
           end
      else Some (Ok w)
  end.

(** What the walk finds; the fuel is enough for every archive. *)
Definition walk (bytes : string) (start : Z) : result string Walk :=
  default (Err "out of fuel") (walk_directory (S (String.length bytes)) bytes (mk_walk start 0 0 None)).

Definition descriptor_presence (bytes : string) : result string DescriptorPresence :=
  archive ← map_err (λ e, "invalid ZIP archive: " +:+ e) (zip_open bytes);
  start ← ok_or "ZIP central-directory offset does not fit usize"
    (if archive.(central_directory_start) <=? usize_max then Some archive.(central_directory_start) else None);
  w ← walk bytes start;
  reject_if (negb (w.(entries) =? archive.(zip_len)))
    ("ZIP central directory contains duplicate or inconsistently indexed entries: raw count "
     +:+ dec_of_Z w.(entries) +:+ ", parser exposes " +:+ dec_of_Z archive.(zip_len));;
  if w.(exact) =? 0 then Ok Absent
  else if w.(exact) =? 1 then
    match w.(encoding_violation) with
    | Some message => Err message
    | None => Ok Present
    end
  else Err ("binary ZIP contains " +:+ dec_of_Z w.(exact) +:+ " copies of "
            +:+ quoted BINARY_DESCRIPTOR_ARCHIVE_PATH).
End binary.

(** ** Verifying an archive *)

Definition require_canonical_zip_magic (bytes : string) : result string unit :=
  reject_if (negb (bool_decide (get_range 0 4 bytes = Some ("PK" +:+ String "003" (String "004" "")))))
    "binary artifact is not a canonical ZIP; self-extracting prefixes are forbidden".

(** [reader.take(limit).read_to_end]. *)
Fixpoint take_reads (reads : EntryReads) (limit : Z) (buf : string) : result string string :=
  if limit <=? 0 then Ok buf
  else match reads with
  | [] => Ok buf
  | Err e :: _ => Err e
  | Ok chunk :: reads =>
      if is_empty chunk then Ok buf
      else
        let got := substring 0 (Z.to_nat limit) chunk in
        take_reads reads (limit - slen got) (buf +:+ got)
  end.

Definition read_small_entry (reads : EntryReads) (limit : Z) (name : string) : result string string :=
  bytes ← map_err (λ e, "reading " +:+ quoted name +:+ " failed: " +:+ e)
    (take_reads reads (saturating_add u64_max limit 1) "");
  reject_if (limit <? slen bytes)
    ("ZIP entry " +:+ quoted name +:+ " exceeds the " +:+ dec_of_Z limit +:+ "-byte limit");;
  Ok bytes.

(** The loop of [hash_zip_entry]: the size and the bytes hashed so far. *)
Fixpoint hash_entry_reads (reads : EntryReads) (expected size : Z) (hashed : string) : result string (Z * string) :=
  match reads with
  | [] => Ok (size, hashed)
  | Err e :: _ => Err ("reading ZIP payload failed: " +:+ e)
  | Ok chunk :: reads =>
      if is_empty chunk then Ok (size, hashed)
      else
        size ← ok_or "ZIP payload size overflows u64" (checked_add u64_max size (slen chunk));
        reject_if (expected <? size) "ZIP payload exceeds its descriptor-declared size";;
        hash_entry_reads reads expected size (hashed +:+ chunk)
  end.

Definition hash_zip_entry `{ext : Externals} (reads : EntryReads) (expected_size : Z) : result string string :=
  '(size, hashed) ← hash_entry_reads reads expected_size 0 "";
  reject_if (negb (size =? expected_size))
    ("ZIP payload size mismatch: expected " +:+ dec_of_Z expected_size +:+ ", got " +:+ dec_of_Z size);;
  Ok (digest_hex hashed).

(** The loop's variables: the paths under their portable keys, and the files
    among them. *)
Record Scan := mk_scan {
  regular_files : gset string;
  portable_paths : gmap string string;
  portable_regular_files : gset string;
  descriptor_bytes : option string;
  package_manifest_bytes : option string;
  expanded_total : Z;
}.

(** The prefixes of a path that end before a separator, shortest first. *)
Fixpoint ancestors (path : string) : list string :=
  match path with
  | "" => []
  | String c r => (if c =c slash then [""] else []) ++ map (String c) (ancestors r)
  end.

(** [map.range(key..).next()]. *)
Definition least_from (key : string) (m : gmap string string) : option (string * string) :=
  foldr (λ e best,
    if String.leb key e.1
    then match best with
         | Some b => if String.leb e.1 b.1 then Some e else Some b
         | None => Some e
         end
    else best) None (map_to_list m).

Definition compression_debug (c : Compression) : string :=
  match c with Stored => "Stored" | Deflated => "Deflated" | OtherCompression text => text end.

Section verify.
Context `{ext : Externals} `{bin : BinaryExternals}.

Definition enforce_compression_ratio (name : string) (expanded compressed : Z) : result string unit :=
  if expanded =? 0 then Ok tt
  else if compressed =? 0 then Err ("ZIP entry " +:+ quoted name +:+ " has zero compressed bytes")
  else
    let ratio := saturating_add u64_max expanded (compressed - 1) / compressed in
    reject_if (max_binary_compression_ratio <? ratio)
      ("ZIP entry " +:+ quoted name +:+ " has compression ratio " +:+ dec_of_Z ratio +:+ ":1, above the "
       +:+ dec_of_Z max_binary_compression_ratio +:+ ":1 limit").

(** The file types an entry may carry in its Unix mode. *)
Definition allowed_kind (e : ZipEntry) (kind : Z) : bool :=
  (kind =? 0) || (e.(is_file) && (kind =? 32768)) || (e.(is_dir) && (kind =? 16384)).

(** What is checked of an entry before its path is. *)
Definition check_entry_kind (e : ZipEntry) (name : string) : result string unit :=
  reject_if e.(encrypted) ("ZIP entry " +:+ quoted name +:+ " is encrypted");;
  reject_if (match e.(compression) with OtherCompression _ => true | _ => false end)
    ("ZIP entry " +:+ quoted name +:+ " uses unsupported compression " +:+ compression_debug e.(compression));;
  reject_if e.(is_symlink) ("ZIP entry " +:+ quoted name +:+ " is a symlink");;
  reject_if (negb e.(is_file) && negb e.(is_dir))
    ("ZIP entry " +:+ quoted name +:+ " is neither a regular file nor a directory");;
  reject_if (e.(is_dir) && negb (e.(entry_size) =? 0))
    ("ZIP directory entry " +:+ quoted name +:+ " carries " +:+ dec_of_Z e.(entry_size) +:+ " bytes of data");;
  match e.(unix_mode) with
  | Some mode =>
      let kind := Z.land mode 61440 in
      reject_if (negb (allowed_kind e kind))
        ("ZIP entry " +:+ quoted name +:+ " carries unsupported Unix file type " +:+ octal kind)
  | None => Ok tt
  end.

(** The path of an entry beneath the archive's root; [None] for the root's own
    directory. *)
Definition entry_path (e : ZipEntry) (name : string) : result string (option string) :=
  enclosed ← ok_or ("ZIP entry " +:+ quoted name +:+ " escapes the archive root") e.(enclosed_name);
  let normalized := forward_slashes enclosed in
  if e.(is_dir) && (trim_end_matches slash normalized =s BINARY_ARCHIVE_ROOT) then
    reject_if (negb (name =s BINARY_ARCHIVE_ROOT +:+ "/"))
      ("ZIP root directory " +:+ quoted name +:+ " is not canonically encoded");;
    Ok None
  else
    stripped ← ok_or ("ZIP entry " +:+ quoted name +:+ " is not beneath " +:+ quoted (BINARY_ARCHIVE_ROOT +:+ "/"))
      (strip_prefix (BINARY_ARCHIVE_ROOT +:+ "/") normalized);
    let relative := trim_end_matches slash stripped in
    match unsafe_relative_path relative with
    | Some error => Err error
    | None =>
        let canonical_name := BINARY_ARCHIVE_ROOT +:+ "/" +:+ relative +:+ (if e.(is_dir) then "/" else "") in
        reject_if (negb (name =s canonical_name))
          ("ZIP entry " +:+ quoted name +:+ " is not canonically encoded as " +:+ quoted canonical_name);;
        Ok (Some relative)
    end.

(** No two paths may be one on a supported host, nor a file a directory. *)
Definition check_collisions (e : ZipEntry) (relative portable : string) (s : Scan) : result string unit :=
  match s.(portable_paths) !! portable with
  | Some existing =>
      Err ("ZIP entries " +:+ quoted existing +:+ " and " +:+ quoted relative +:+ " collide under portable path rules")
  | None =>
      match List.find (λ a, bool_decide (a ∈ s.(portable_regular_files))) (ancestors portable) with
      | Some existing => Err ("ZIP file " +:+ quoted existing +:+ " is an ancestor of " +:+ quoted relative)
      | None =>
          if e.(is_file) then
            match least_from (portable +:+ "/") s.(portable_paths) with
            | Some (path, existing) =>
                reject_if (starts_with (portable +:+ "/") path)
                  ("ZIP file " +:+ quoted relative +:+ " is an ancestor of " +:+ quoted existing)
            | None => Ok tt
            end
          else Ok tt
      end
  end.

(** The contents of the two files the profile reserves. *)
Definition read_reserved (e : ZipEntry) (relative : string) (s : Scan) : result string Scan :=
  if relative =s BINARY_DESCRIPTOR_PATH then
    reject_if (is_some s.(descriptor_bytes)) "binary ZIP has multiple descriptors";;
    bytes ← read_small_entry e.(entry_reads) MAX_DESCRIPTOR_BYTES BINARY_DESCRIPTOR_PATH;
    Ok (mk_scan s.(regular_files) s.(portable_paths) s.(portable_regular_files) (Some bytes)
          s.(package_manifest_bytes) s.(expanded_total))
  else if relative =s BINARY_PACKAGE_MANIFEST_PATH then
    reject_if (is_some s.(package_manifest_bytes)) "binary ZIP has multiple package manifests";;
    bytes ← read_small_entry e.(entry_reads) MAX_PACKAGE_MANIFEST_BYTES BINARY_PACKAGE_MANIFEST_PATH;
    Ok (mk_scan s.(regular_files) s.(portable_paths) s.(portable_regular_files) s.(descriptor_bytes)
          (Some bytes) s.(expanded_total))
  else Ok s.

(** The body of the loop over the entries. *)
Definition scan_entry (e : ZipEntry) (name : string) (s : Scan) : result string Scan :=
  check_entry_kind e name;;
  path ← entry_path e name;
  match path with
  | None => Ok s
  | Some relative =>
      let portable := portable_path_key relative in
      check_collisions e relative portable s;;
      let paths := <[portable := relative]> s.(portable_paths) in
      if e.(is_dir)
      then Ok (mk_scan s.(regular_files) paths s.(portable_regular_files) s.(descriptor_bytes)
                 s.(package_manifest_bytes) s.(expanded_total))
      else
        reject_if (bool_decide (relative ∈ s.(regular_files)))
          ("binary ZIP contains duplicate file " +:+ quoted relative);;
        enforce_compression_ratio name e.(entry_size) e.(compressed_size);;
        total ← ok_or "binary ZIP expanded size overflows u64"
          (checked_add u64_max s.(expanded_total) e.(entry_size));
        reject_if (max_binary_expanded_bytes <? total)
          ("binary ZIP expands past the " +:+ dec_of_Z max_binary_expanded_bytes +:+ "-byte limit");;
        read_reserved e relative
          (mk_scan ({[ relative ]} ∪ s.(regular_files)) paths ({[ portable ]} ∪ s.(portable_regular_files))
             s.(descriptor_bytes) s.(package_manifest_bytes) total)
  end.

Fixpoint scan_entries (archive : ZipArchive) (indices : list nat) (s : Scan) : result string Scan :=
  match indices with
  | [] => Ok s
  | i :: indices =>
      let index := dec_of_Z (Z.of_nat i) in
      e ← map_err (λ error, "opening ZIP entry " +:+ index +:+ " failed: " +:+ error)
            (archive.(by_index) (Z.of_nat i));
      name ← ok_or ("ZIP entry " +:+ index +:+ " name is not UTF-8") (from_utf8 e.(name_raw));
      s ← scan_entry e name s;
      scan_entries archive indices s
  end.

Definition ensure_descriptor_matches_publish (d : Descriptor) (meta : PublishMeta) : result string unit :=
  source ← ok_or "binary publication requires source provenance in `.zpkg-binary.json`" d.(d_source);
  reject_if (negb (source.(sp_repository) =s meta.(manifest).(m_repo_url)))
    "binary descriptor source repository does not match publish metadata";;
  reject_if (negb (source.(sp_vcs_tag) =s meta.(meta_vcs_tag)))
    "binary descriptor source tag does not match publish metadata";;
  reject_if (negb (bool_decide (source.(sp_vcs_commit) = meta.(meta_vcs_commit))))
    "binary descriptor source commit does not match publish metadata".

(** The files of the archive are the descriptor's, and the descriptor itself;
    a [BTreeSet] iterates in order. *)
Definition check_inventory (d : Descriptor) (files : gset string) : result string unit :=
  let listed := map bf_path d.(d_files) in
  match List.find (λ f, negb (f =s BINARY_DESCRIPTOR_PATH) && negb (bool_decide (f ∈ listed))) (merge_sort String.le (elements files)) with
  | Some f => Err ("binary ZIP contains unlisted payload file " +:+ quoted f)
  | None =>
      match List.find (λ f, negb (bool_decide (f ∈ files))) listed with
      | Some f => Err ("binary descriptor lists missing payload file " +:+ quoted f)
      | None =>
          reject_if (negb (saturating_add usize_max (zlength d.(d_files)) 1 =? Z.of_nat (size files)))
            "binary descriptor and archive payload counts differ"
      end
  end.

Definition check_payload_file (archive : ZipArchive) (expected : BinaryFile) : result string unit :=
  let archive_name := BINARY_ARCHIVE_ROOT +:+ "/" +:+ expected.(bf_path) in
  e ← map_err (λ error, "opening " +:+ quoted archive_name +:+ " for integrity verification failed: " +:+ error)
        (archive.(by_name) archive_name);
  match e.(unix_mode) with
  | Some mode =>
      reject_if (negb (Bool.eqb (negb (Z.land mode 73 =? 0)) expected.(bf_executable)))
        ("payload " +:+ quoted expected.(bf_path) +:+ " executable mode disagrees with "
         +:+ quoted BINARY_DESCRIPTOR_ARCHIVE_PATH)
  | None => Ok tt
  end;;
  actual ← hash_zip_entry e.(entry_reads) expected.(bf_size);
  reject_if (negb (actual =s expected.(bf_sha256)))
    ("payload digest mismatch for " +:+ quoted expected.(bf_path) +:+ ": expected " +:+ expected.(bf_sha256)
     +:+ ", got " +:+ actual).

Fixpoint check_payload_files (archive : ZipArchive) (files : list BinaryFile) : result string unit :=
  match files with
  | [] => Ok tt
  | f :: files => check_payload_file archive f;; check_payload_files archive files
  end.

(** The documents inside the archive, against each other and the metadata. *)
Definition check_documents (meta : PublishMeta) (s : Scan) : result string Descriptor :=
  bytes ← ok_or ("binary ZIP is missing " +:+ quoted BINARY_DESCRIPTOR_ARCHIVE_PATH) s.(descriptor_bytes);
  d ← map_err (λ e, "parsing " +:+ quoted BINARY_DESCRIPTOR_ARCHIVE_PATH +:+ " failed: " +:+ e) (descriptor_parse bytes);
  manifest_bytes ← ok_or ("binary ZIP is missing " +:+ quoted ("pkg/" +:+ BINARY_PACKAGE_MANIFEST_PATH))
    s.(package_manifest_bytes);
  text ← ok_or "embedded `.zpkg.toml` is not UTF-8" (from_utf8 manifest_bytes);
  embedded ← map_err (λ e, "parsing embedded `.zpkg.toml` failed: " +:+ e) (manifest_parse text);
  match descriptor_invalid d embedded with
  | Some error => Err error
  | None =>
      canonical ← canonical_json_bytes d;
      reject_if (negb (bytes =s canonical)) (quoted BINARY_DESCRIPTOR_ARCHIVE_PATH +:+ " is not canonical JSON");;
      reject_if (negb (manifest_eq embedded meta.(manifest)))
        "embedded `.zpkg.toml` does not exactly match publish metadata";;
      ensure_descriptor_matches_publish d meta;;
      Ok d
  end.

Definition verify_binary_zip (meta : PublishMeta) (bytes : string) : result string Descriptor :=
  reject_if (max_binary_archive_bytes <? slen bytes)
    ("binary ZIP is " +:+ dec_of_Z (slen bytes) +:+ " bytes, above the " +:+ dec_of_Z max_binary_archive_bytes
     +:+ "-byte limit");;
  require_canonical_zip_magic bytes;;
  archive ← map_err (λ e, "invalid binary ZIP: " +:+ e) (zip_open bytes);
  overlapping ← map_err (λ e, "checking overlapping ZIP entries failed: " +:+ e) archive.(has_overlapping_files);
  reject_if overlapping "binary ZIP contains overlapping file ranges; refusing";;
  reject_if (max_binary_entries <? archive.(zip_len))
    ("binary ZIP has " +:+ dec_of_Z archive.(zip_len) +:+ " entries, above the " +:+ dec_of_Z max_binary_entries
     +:+ "-entry limit");;
  s ← scan_entries archive (seq 0 (Z.to_nat archive.(zip_len))) (mk_scan ∅ ∅ ∅ None None 0);
  d ← check_documents meta s;
  check_inventory d s.(regular_files);;
  archive ← map_err (λ e, "reopening binary ZIP failed: " +:+ e) (zip_open bytes);
  check_payload_files archive d.(d_files);;
  Ok d.

Definition verify_publish (meta : PublishMeta) (bytes : string) : result string (option Descriptor) :=
  if negb (meta.(meta_format) =s ZIP_FORMAT) then Ok None
  else
    reject_if (negb (slen bytes =? meta.(meta_size)))
      ("publish metadata declares " +:+ dec_of_Z meta.(meta_size) +:+ " bytes, but the upload contains "
       +:+ dec_of_Z (slen bytes));;
    presence ← descriptor_presence bytes;
    match presence with
    | Absent => Ok None
    | Present => d ← verify_binary_zip meta bytes; Ok (Some d)
    end.
End verify.
