(* ===== verification/HostPaths.v ===== *)
(** * Where a host puts an archive's entry

    What the operating systems an archive is unpacked on make of an entry's
    name, stated without the code's own normalisation
    ([normalized_archive_path] in [src/binary_artifact.rs]), and that the
    normalisation finds every alias of the reserved descriptor it is meant to
    find. *)

From S2P Require Export BinaryArtifact.

(** ** Hosts *)

(** Every host separates directories by [/]. Windows separates them by [\] as
    well, drops dots and spaces at the end of a name, and folds case; macOS
    folds case; POSIX does none of these. *)
Record Host := mk_host {
  backslash_separates : bool;
  strips_tails : bool;
  folds_case : bool }.

Definition windows : Host := mk_host true true true.
Definition macos : Host := mk_host false false true.
Definition posix : Host := mk_host false false false.

(** The parts of [s] between the characters that satisfy [sep]. *)
Fixpoint pieces_by (sep : ascii → bool) (s : string) : list string :=
  match s with
  | "" => [""]
  | String c r =>
      if sep c then "" :: pieces_by sep r
      else match pieces_by sep r with
           | p :: ps => String c p :: ps
           | [] => [String c ""]
           end
  end.

Definition separates (h : Host) (c : ascii) : bool :=
  (c =c "/") || (h.(backslash_separates) && (c =c "092")).
Definition pieces (h : Host) (name : string) : list string := pieces_by (separates h) name.

(** The name a piece has on the disk. *)
Definition drop_tail : string → string := trim_end_by (λ c, (c =c ".") || (c =c " ")).
Definition stored (h : Host) (piece : string) : string := if h.(strips_tails) then drop_tail piece else piece.

(** The directory the pieces lead to from the directory [at_], both as the names
    on the way from the root of the unpacked archive, the last first; [None]
    when they leave the root. *)
Fixpoint walk_to (h : Host) (at_ : list string) (ps : list string) : option (list string) :=
  match ps with
  | [] => Some at_
  | p :: ps =>
      if bool_decide (p ∈ [""; "."]) then walk_to h at_ ps
      else if bool_decide (p = "..") then
        match at_ with [] => None | _ :: parent => walk_to h parent ps end
      else if bool_decide (stored h p = "") then walk_to h at_ ps
      else walk_to h (stored h p :: at_) ps
  end.

Section hosts.
Context `{bin : BinaryExternals}.

Definition same_name (h : Host) (a b : string) : Prop :=
  if h.(folds_case) then to_lowercase a = to_lowercase b else a = b.

(** The host puts an entry of this name where the descriptor is. *)
Definition resolves (h : Host) (name : string) : Prop :=
  ∃ d, walk_to h [] (pieces h name) = Some d ∧ Forall2 (same_name h) d [".zpkg-binary.json"; "pkg"].

(** On a Windows host every name is looked at; on another host those that do
    not go up. *)
Definition looked_at (h : Host) (name : string) : Prop :=
  (h.(backslash_separates) = true ∧ h.(strips_tails) = true) ∨ ".." ∉ pieces h name.

(** A name that is the descriptor's on some host. *)
Definition reserved (name : string) : Prop :=
  name = "pkg/.zpkg-binary.json" ∨ valid_utf8 name = true ∧ ∃ h, looked_at h name ∧ resolves h name.
End hosts.

(** What the Unicode tables say of the characters that matter here: an ASCII
    text has its letters lowered, a backslash stays, and so does a dot or space
    at the end. *)
Class LowercaseLaws `{bin : BinaryExternals} : Prop := {
  lower_ascii s : sall is_ascii s = true → to_lowercase s = to_ascii_lowercase s;
  lower_backslash s : contains_char "092" s = true → contains_char "092" (to_lowercase s) = true;
  lower_last s c : c ∈ ["."; " "]%char → ∃ t, to_lowercase (s +:+ String c "") = t +:+ String c "" }.

(** ** Pieces *)

Lemma pieces_by_ne sep s : pieces_by sep s ≠ [].
Proof. destruct s as [|c s]; [done|]. cbn. destruct (sep c); [done|]. by destruct (pieces_by sep s). Qed.

(** The code's pieces are those of a host with both separators. *)
Lemma split_forward s :
  split slash (forward_slashes s) = pieces_by (λ c, (c =c "/") || (c =c "092")) s.
Proof.
  induction s as [|c s IH]; [done|]. unfold forward_slashes in *. cbn [smap split pieces_by].
  unfold backslash_byte, slash in *. destruct (Ascii.eqb_spec c "092") as [->|Hb]; cbn; [by rewrite IH|].
  rewrite orb_false_r, IH. done.
Qed.

Lemma pieces_by_plain s :
  Forall (λ p, contains_char "092" p = false) (pieces_by (λ c, c =c "/") s) →
  pieces_by (λ c, (c =c "/") || (c =c "092")) s = pieces_by (λ c, c =c "/") s.
Proof.
  induction s as [|c s IH]; [done|]. cbn [pieces_by]. destruct (c =c "/") eqn:Es; cbn [orb].
  - intros [_ H]%Forall_cons. by rewrite IH.
  - pose proof (pieces_by_ne (λ c, c =c "/") s) as Hne. destruct (pieces_by (λ c, c =c "/") s) as [|p ps]; [done|].
    intros [Hp H]%Forall_cons. cbn [contains_char] in Hp. apply orb_false_iff in Hp as [-> Hp].
    rewrite IH; [done|by constructor].
Qed.

Lemma pieces_both h s :
  h.(backslash_separates) = true ∨ Forall (λ p, contains_char "092" p = false) (pieces h s) →
  split slash (forward_slashes s) = pieces h s.
Proof.
  rewrite split_forward. unfold pieces, separates. destruct (backslash_separates h); [done|].
  intros [|H]; [done|]. cbn [andb] in *.
  assert (∀ s, pieces_by (λ c, (c =c "/") || false) s = pieces_by (λ c, c =c "/") s) as E.
  { clear. induction s as [|c s IH]; [done|]. cbn [pieces_by]. rewrite orb_false_r. by destruct (c =c "/"); rewrite IH. }
  rewrite E in *. by apply pieces_by_plain.
Qed.

(** ** Walking *)

Lemma app_last_inj a x b y : a +:+ String x "" = b +:+ String y "" → x = y.
Proof. intros H%(f_equal srev). rewrite !srev_app in H. by injection H as ->. Qed.

Lemma drop_tail_backslash p : contains_char "092" (drop_tail p) = false → contains_char "092" p = false.
Proof.
  unfold drop_tail. set (q := λ c, (c =c ".") || (c =c " ")). intros H.
  destruct (trim_end_by_decompose q p) as (t & -> & Ht). rewrite contains_char_app, H. cbn.
  by eapply sall_not_contains.
Qed.

(** Without going up nothing is left again. *)
Lemma walk_to_keeps h at_ ps d :
  ".." ∉ ps → walk_to h at_ ps = Some d → ∀ n, n ∈ at_ → n ∈ d.
Proof.
  revert at_. induction ps as [|p ps IH]; intros at_ Hup H n Hn; cbn in H; [by injection H as <-|].
  apply not_elem_of_cons in Hup as [Hp Hup]. repeat case_bool_decide; try done; eapply IH; eauto; set_solver.
Qed.

Lemma walk_to_enters h at_ ps d :
  ".." ∉ ps → walk_to h at_ ps = Some d → ∀ p, p ∈ ps → p ∈ [""; "."] ∨ stored h p = "" ∨ stored h p ∈ d.
Proof.
  revert at_. induction ps as [|p ps IH]; intros at_ Hup H q Hq; [by apply elem_of_nil in Hq|]. cbn in H.
  apply not_elem_of_cons in Hup as [Hp Hup]. apply elem_of_cons in Hq as [->|Hq].
  - repeat case_bool_decide; [by left|done|by right; left|]. right. right. eapply walk_to_keeps; [done..|]. set_solver.
  - repeat case_bool_decide; try done; by eapply IH.
Qed.

Section laws.
Context `{bin : BinaryExternals} {low : LowercaseLaws}.

(** The code's components are the lowered names of the host's. *)
Lemma walk_to_normalized h at_ ps d :
  walk_to h at_ ps = Some d →
  h.(strips_tails) = true ∨ (".." ∉ ps) ∧ (∀ n, n ∈ d → drop_tail n = n) →
  normalize_components ps (map to_lowercase at_) = Some (map to_lowercase d).
Proof.
  revert at_. induction ps as [|p ps IH]; intros at_ H Hh; cbn in *; [by injection H as <-|].
  assert (strips_tails h = true ∨ (".." ∉ ps) ∧ (∀ n, n ∈ d → drop_tail n = n)) as Hh'.
  { destruct Hh as [?|[Hup Hd]]; [by left|]. right. split; [|exact Hd]. set_solver. }
  case_bool_decide as Hhere.
  { apply elem_of_cons in Hhere as [->|Hhere]; [by apply IH|]. apply list_elem_of_singleton in Hhere as ->. by apply IH. }
  apply not_elem_of_cons in Hhere as [Hne Hdot]. apply not_elem_of_cons in Hdot as [Hdot _].
  rewrite (proj2 (String.eqb_neq p ".")) by done.
  assert (is_empty p = false) as -> by (by destruct p). cbn [orb].
  case_bool_decide as Hup.
  { subst p. cbn. destruct at_ as [|n at_]; [done|]. cbn. by apply IH. }
  rewrite (proj2 (String.eqb_neq p "..")) by done.
  change (trim_dots_spaces p) with (drop_tail p). unfold stored in *.
  destruct (strips_tails h) eqn:Es.
  - case_bool_decide as He; [rewrite He; cbn; by apply IH|].
    destruct (drop_tail p) eqn:Ed; [done|]. cbn [is_empty]. rewrite <- Ed in *. by apply (IH (drop_tail p :: at_)).
  - destruct Hh as [?|[Hup' Hd]]; [done|]. case_bool_decide; [done|].
    assert (drop_tail p = p) as ->. { apply Hd. eapply walk_to_keeps; [|exact H|set_solver]. set_solver. }
    destruct p; [done|]. cbn [is_empty]. by apply (IH (_ :: at_)).
Qed.

(** A name that is the descriptor's, or its directory's, on a host. *)
Lemma same_name_plain h n c :
  sall is_ascii c = true → to_ascii_lowercase c = c → contains_char "092" c = false → drop_tail c = c → c ≠ "" →
  same_name h n c →
  to_lowercase n = c ∧ contains_char "092" n = false ∧ drop_tail n = n ∧ n ≠ "".
Proof.
  intros Ha Hl Hb Hd Hc H. assert (to_lowercase c = c) as Ec by (by rewrite lower_ascii).
  assert (to_lowercase n = c) as En.
  { unfold same_name in H. destruct (folds_case h); [by rewrite H|by subst]. }
  split; [done|]. split; [|split].
  - destruct (contains_char "092" n) eqn:E; [|done]. apply lower_backslash in E. congruence.
  - apply trim_end_by_none. intros a x ->. destruct ((x =c ".") || (x =c " ")) eqn:Ex; [|done]. exfalso.
    assert (x ∈ ["."; " "]%char) as Hx by (apply orb_true_iff in Ex as [?%Ascii.eqb_eq|?%Ascii.eqb_eq]; set_solver).
    destruct (lower_last a x Hx) as [t Ht]. rewrite En in Ht. unfold drop_tail in Hd.
    destruct (trim_end_by_last (λ c, (c =c ".") || (c =c " ")) c) as [E|(b & y & E & Hy)]; rewrite Hd in E; [done|].
    rewrite E in Ht. apply app_last_inj in Ht as ->. cbn in Hy. congruence.
  - intros ->. rewrite lower_ascii in En by done. cbn in En. congruence.
Qed.

(** The normalisation finds the aliases. *)
Lemma resolves_normalized h name :
  looked_at h name → resolves h name → normalized_archive_path name = Some BINARY_DESCRIPTOR_ARCHIVE_PATH.
Proof.
  intros Hl (d & Hw & Hd). apply Forall2_cons_inv_r in Hd as (f & d1 & Hf & Hd & ->).
  apply Forall2_cons_inv_r in Hd as (g & d2 & Hg & Hd & ->). apply Forall2_nil_inv_r in Hd as ->.
  apply same_name_plain in Hf as (Lf & Bf & Tf & _); [|by vm_compute..|done].
  apply same_name_plain in Hg as (Lg & Bg & Tg & _); [|by vm_compute..|done].
  unfold normalized_archive_path. rewrite (pieces_both h).
  - pose proof (walk_to_normalized h [] _ _ Hw) as Hn. cbn [map] in Hn. rewrite Hn.
    + cbn. by rewrite Lf, Lg.
    + destruct Hl as [[_ ?]|Hup]; [by left|right]. split; [done|].
      intros n [->|[->|[]%elem_of_nil]%elem_of_cons]%elem_of_cons; done.
  - destruct Hl as [[? _]|Hup]; [by left|right]. apply Forall_forall. intros p Hp.
    destruct (walk_to_enters h [] _ _ Hup Hw p Hp) as [H|[H|H]].
    + apply elem_of_cons in H as [->|[->|[]%elem_of_nil]%elem_of_cons]; done.
    + unfold stored in H. destruct (strips_tails h); [|by subst]. apply drop_tail_backslash. by rewrite H.
    + assert (contains_char "092" (stored h p) = false) as Hs
        by (by apply elem_of_cons in H as [->|[->|[]%elem_of_nil]%elem_of_cons]).
      unfold stored in Hs. destruct (strips_tails h); [by apply drop_tail_backslash|done].
Qed.

(** So a name that is not the descriptor's, and not found by it, is nobody's
    descriptor. *)
Lemma reserved_found name :
  reserved name → name = BINARY_DESCRIPTOR_ARCHIVE_PATH ∨
    valid_utf8 name = true ∧ normalized_archive_path name = Some BINARY_DESCRIPTOR_ARCHIVE_PATH.
Proof. intros [->|(Hv & h & Hl & Hr)]; [by left|right]. split; [done|by eapply resolves_normalized]. Qed.
End laws.
