(* ===== verification/BinaryFacts.v ===== *)
(** * What the verification of binary archives guarantees *)

From S2P Require Export HostPaths.

#[local] Arguments walk : simpl never.
#[local] Arguments descriptor_presence : simpl never.
#[local] Arguments verify_binary_zip : simpl never.

(** ** Slices *)

Lemma get_range_Some a b s r : get_range a b s = Some r → a ≤ b ∧ b ≤ slen s.
Proof. unfold get_range. destruct (_ && _) eqn:E; [|done]. intros _. by bool_to_prop. Qed.

Lemma byte_at_bounds i s : 0 ≤ byte_at i s ≤ 255.
Proof. unfold byte_at. destruct (String.get i s); [pose proof (byte_of_bounds a)|]; lia. Qed.

Lemma u16_le_bounds i s : 0 ≤ u16_le i s ≤ u16_max.
Proof. unfold u16_le, u16_max. pose proof (byte_at_bounds i s). pose proof (byte_at_bounds (S i) s). lia. Qed.

(** The extra fields are four bytes or more each, so their length is fuel
    enough: more changes nothing. *)
Lemma zip64_enough f g extra offset :
  slen extra - offset < Z.of_nat f → slen extra - offset < Z.of_nat g → (0 < f)%nat → (0 < g)%nat →
  contains_zip64_extra_fuel f extra offset = contains_zip64_extra_fuel g extra offset.
Proof.
  revert g offset. induction f as [|f IH]; intros [|g] offset Hf Hg F0 G0; [lia..|]. cbn [contains_zip64_extra_fuel].
  destruct (offset <? slen extra); [|done].
  destruct (checked_add usize_max offset 4) as [start|] eqn:E1; [|done]. cbn [mbind option_bind].
  destruct (get_range offset start extra) as [header|]; [|done]. cbn [mbind option_bind].
  destruct (checked_add usize_max start (u16_le 2 header)) as [data_end|] eqn:E2; [|done]. cbn [mbind option_bind].
  apply checked_add_Some in E1 as [-> _]. apply checked_add_Some in E2 as [-> _].
  pose proof (u16_le_bounds 2 header). destruct (Z.ltb_spec (slen extra) (offset + 4 + u16_le 2 header)); [done|].
  destruct (u16_le 0 header =? 1); [done|]. apply IH; lia.
Qed.

(** ** The central directory *)

Section directory.
Context `{bin : BinaryExternals}.

(** The canonical spelling, or one the normalisation takes for it. *)
Definition aliased (raw : string) : Prop :=
  raw = BINARY_DESCRIPTOR_ARCHIVE_PATH ∨
  valid_utf8 raw = true ∧ normalized_archive_path raw = Some BINARY_DESCRIPTOR_ARCHIVE_PATH.

Definition magic_at (bytes : string) (off : Z) : Prop :=
  get_range off (saturating_add usize_max off 4) bytes = Some CENTRAL_MAGIC.

(** An entry's encoding is the plain one. *)
Definition plain (header extra : string) : Prop :=
  Z.land (u16_le 8 header) 8 = 0 ∧ u32_le 20 header ≠ u32_max ∧ u32_le 24 header ≠ u32_max ∧
  u16_le 34 header ≠ u16_max ∧ u32_le 42 header ≠ u32_max ∧ contains_zip64_extra extra = Some false.

(** The entries from an offset on, as the lengths in their headers lay them
    out: their raw names, with whether each is plainly encoded. *)
Inductive directory (bytes : string) : Z → list (string * Prop) → Prop :=
| directory_end off : ¬ magic_at bytes off → directory bytes off []
| directory_entry off header raw extra names :
    magic_at bytes off →
    get_range off (off + CENTRAL_HEADER_BYTES) bytes = Some header →
    let name_end := off + CENTRAL_HEADER_BYTES + u16_le 28 header in
    let extra_end := name_end + u16_le 30 header in
    get_range (off + CENTRAL_HEADER_BYTES) name_end bytes = Some raw →
    get_range name_end extra_end bytes = Some extra →
    directory bytes (extra_end + u16_le 32 header) names →
    directory bytes off ((raw, plain header extra) :: names).

Lemma note_kept bad text v : is_some v = true → note bad text v = v.
Proof. unfold note. intros ->. by rewrite andb_false_r. Qed.

Lemma note_none bad text v : note bad text v = None → bad = false ∧ v = None.
Proof. unfold note. destruct bad, v; naive_solver. Qed.

Lemma entry_violation_kept header extra v : is_some v = true → entry_violation header extra v = v.
Proof.
  intros H. unfold entry_violation. cbn zeta.
  assert (∀ b t, note b t v = v) as N by (intros; by apply note_kept). rewrite !N.
  by destruct (contains_zip64_extra extra) as [[]|].
Qed.

Lemma entry_violation_none header extra v : entry_violation header extra v = None → plain header extra ∧ v = None.
Proof.
  unfold entry_violation, plain. intros H.
  assert (contains_zip64_extra extra = Some false) as Hx.
  { destruct (contains_zip64_extra extra) as [[]|]; [|done|]; by apply note_none in H as [??]. }
  rewrite Hx in *. apply note_none in H as [H1 H]. apply note_none in H as [H2 ->]. bool_to_prop. by split_and!.
Qed.

Lemma count_descriptor_inv raw exact n :
  count_descriptor raw exact = Ok n →
  raw = BINARY_DESCRIPTOR_ARCHIVE_PATH ∧ n = exact + 1 ∨ ¬ aliased raw ∧ n = exact.
Proof.
  unfold count_descriptor, aliased, from_utf8. intros H.
  destruct (String.eqb_spec raw BINARY_DESCRIPTOR_ARCHIVE_PATH) as [->|Hne]; [injection H as <-; by left|].
  right. destruct (valid_utf8 raw); [|injection H as <-; naive_solver].
  case_bool_decide; [done|]. injection H as <-. naive_solver.
Qed.

Lemma checked_add_get max a b c : checked_add max a b = Some c → c = a + b.
Proof. intros H. by apply checked_add_Some in H as [-> _]. Qed.

(** What one entry adds to the loop's variables. *)
Lemma walk_entry_inv bytes w w' :
  walk_entry bytes w = Ok w' →
  w.(offset) + CENTRAL_HEADER_BYTES ≤ w'.(offset) ∧ w'.(offset) ≤ slen bytes ∧ w'.(entries) = w.(entries) + 1 ∧
  ∃ header raw extra,
    let name_end := w.(offset) + CENTRAL_HEADER_BYTES + u16_le 28 header in
    let extra_end := name_end + u16_le 30 header in
    get_range w.(offset) (w.(offset) + CENTRAL_HEADER_BYTES) bytes = Some header ∧
    get_range (w.(offset) + CENTRAL_HEADER_BYTES) name_end bytes = Some raw ∧
    get_range name_end extra_end bytes = Some extra ∧
    w'.(offset) = extra_end + u16_le 32 header ∧
    w'.(encoding_violation) = entry_violation header extra w.(encoding_violation) ∧
    (raw = BINARY_DESCRIPTOR_ARCHIVE_PATH ∧ w'.(exact) = w.(exact) + 1 ∨ ¬ aliased raw ∧ w'.(exact) = w.(exact)).
Proof.
  unfold walk_entry. intros H. inv_bind.
  repeat match goal with H : checked_add _ _ _ = Some _ |- _ =>
    let Hm := fresh in pose proof H as Hm; apply checked_add_Some in Hm as [_ Hm]; apply checked_add_get in H; subst end.
  assert (get_range (offset w) (offset w + CENTRAL_HEADER_BYTES) bytes = Some a) as Eh.
  { rewrite <- E16. unfold saturating_add. by rewrite Z.min_r. }
  cbn [offset exact entries encoding_violation]. bool_to_prop.
  pose proof (u16_le_bounds 28 a). pose proof (u16_le_bounds 30 a). pose proof (u16_le_bounds 32 a).
  split; [lia|]. split; [done|]. split; [done|]. exists a, a2, a4. repeat (split; [done|]). by apply count_descriptor_inv.
Qed.

(** Every entry is 46 bytes or more, so the archive's length is fuel enough. *)
Lemma walk_directory_enough fuel bytes w :
  (0 < fuel)%nat → slen bytes - w.(offset) < Z.of_nat fuel → is_some (walk_directory fuel bytes w) = true.
Proof.
  revert w. induction fuel as [|fuel IH]; intros w H0 Hf; [lia|]. cbn [walk_directory].
  case_bool_decide; [|done]. destruct (walk_entry bytes w) as [w'|] eqn:E; [|done].
  apply walk_entry_inv in E as (H1 & H2 & _). unfold CENTRAL_HEADER_BYTES in H1. apply IH; lia.
Qed.

Definition descriptors (l : list (string * Prop)) : nat :=
  length (List.filter (λ e : string * Prop, e.1 =s BINARY_DESCRIPTOR_ARCHIVE_PATH) l).

(** What the walk finds out about the directory. *)
Lemma walk_directory_spec fuel bytes w w' :
  walk_directory fuel bytes w = Some (Ok w') →
  ∃ l, directory bytes w.(offset) l ∧ w'.(entries) = w.(entries) + zlength l ∧
    w'.(exact) = w.(exact) + Z.of_nat (descriptors l) ∧
    Forall (λ e, e.1 = BINARY_DESCRIPTOR_ARCHIVE_PATH ∨ ¬ aliased e.1) l ∧
    (w'.(encoding_violation) = None → w.(encoding_violation) = None ∧ Forall snd l).
Proof.
  unfold zlength, descriptors. revert w. induction fuel as [|fuel IH]; intros w H; [done|]. cbn [walk_directory] in H.
  case_bool_decide as Hm.
  2:{ injection H as <-. exists []. split; [by apply directory_end|]. split; [cbn; lia|]. split; [cbn; lia|].
      split; [constructor|]. intros Hv. split; [done|constructor]. }
  destruct (walk_entry bytes w) as [w1|] eqn:E; [|done].
  apply walk_entry_inv in E as (_ & _ & En & header & raw & extra & Hh & Hr & Hx & Eo & Ev & Hc).
  destruct (IH w1 H) as (l & Hd & Hn & Hk & Hall & Hv). rewrite Eo in Hd.
  exists ((raw, plain header extra) :: l). split; [by eapply directory_entry|]. cbn [length List.filter fst].
  split; [lia|]. split; [|split].
  - rewrite Hk. destruct (String.eqb_spec raw BINARY_DESCRIPTOR_ARCHIVE_PATH) as [->|Hne]; cbn [length].
    + destruct Hc as [[_ ->]|[Hc _]]; [lia|]. destruct Hc. by left.
    + destruct Hc as [[? _]|[_ ->]]; [done|lia].
  - constructor; [|done]. cbn. destruct Hc as [[? _]|[? _]]; auto.
  - intros Hn'. destruct (Hv Hn') as [H1 H2]. rewrite Ev in H1. apply entry_violation_none in H1 as [Hp ->].
    split; [done|by constructor].
Qed.

Lemma walk_spec bytes start w :
  0 ≤ start → walk bytes start = Ok w →
  ∃ l, directory bytes start l ∧ w.(entries) = zlength l ∧ w.(exact) = Z.of_nat (descriptors l) ∧
    Forall (λ e, e.1 = BINARY_DESCRIPTOR_ARCHIVE_PATH ∨ ¬ aliased e.1) l ∧
    (w.(encoding_violation) = None → Forall snd l).
Proof.
  intros Hs H. unfold walk in H.
  pose proof (walk_directory_enough (S (String.length bytes)) bytes (mk_walk start 0 0 None)) as Hf.
  destruct (walk_directory _ _ _) as [r|] eqn:E; [|exfalso; cbn [offset] in Hf; unfold slen in Hf; discriminate Hf; lia].
  cbn in H. subst r. apply walk_directory_spec in E as (l & Hd & Hn & Hk & Hall & Hv).
  exists l. cbn [offset exact entries encoding_violation] in *. do 3 (split; [done || lia|]). split; [done|]. naive_solver.
Qed.
End directory.

Section no_downgrade.
Context `{ext : Externals} `{bin : BinaryExternals}.
(** An offset in a file is not negative. *)
Hypothesis start_nonneg : ∀ s a, zip_open s = Ok a → 0 ≤ a.(central_directory_start).

Lemma descriptor_presence_spec bytes p :
  descriptor_presence bytes = Ok p →
  ∃ archive l, zip_open bytes = Ok archive ∧ directory bytes archive.(central_directory_start) l ∧
    zlength l = archive.(zip_len) ∧
    Forall (λ e, e.1 = BINARY_DESCRIPTOR_ARCHIVE_PATH ∨ ¬ aliased e.1) l ∧
    match p with
    | Absent => descriptors l = 0%nat
    | Present => descriptors l = 1%nat ∧ Forall snd l
    end.
Proof.
  unfold descriptor_presence. intros H.
  destruct (zip_open bytes) as [archive|] eqn:Ez; [|done]. cbn in H. pose proof (start_nonneg _ _ Ez) as Hs.
  destruct (central_directory_start archive <=? usize_max); [|done]. cbn in H.
  destruct (walk bytes (central_directory_start archive)) as [w|] eqn:Ew; [|done]. cbn in H.
  apply (walk_spec bytes _ w Hs) in Ew as (l & Hd & Hn & Hk & Hall & Hv).
  destruct (Z.eqb_spec (entries w) (zip_len archive)); [|done]. cbn in H. exists archive, l.
  do 2 (split; [done|]). split; [lia|]. split; [done|].
  destruct (Z.eqb_spec (exact w) 0); [injection H as <-; lia|].
  destruct (Z.eqb_spec (exact w) 1); [|done].
  destruct (encoding_violation w); [done|]. injection H as <-. split; [lia|by apply Hv].
Qed.

(** C7: an archive cannot dodge the binary profile. When an upload in the ZIP
    format is accepted as an ordinary archive, no entry of its central
    directory, laid out as its headers say and as many as the reader exposes,
    has a UTF-8 name that a Windows host, or a macOS or POSIX host for a name
    that does not go up, puts where the descriptor is: whatever its case, its
    separators, dot components or trailing dots and spaces. When it is accepted
    as a binary artifact, exactly one entry has the descriptor's name, in the
    canonical spelling, none is an alias of it, and none uses data descriptors
    or ZIP64 fields. *)
Theorem no_profile_downgrade {low : LowercaseLaws} meta bytes r :
  meta.(meta_format) = ZIP_FORMAT → verify_publish meta bytes = Ok r →
  slen bytes = meta.(meta_size) ∧
  ∃ archive l, zip_open bytes = Ok archive ∧ directory bytes archive.(central_directory_start) l ∧
    zlength l = archive.(zip_len) ∧
    match r with
    | None => ∀ e, e ∈ l → ¬ reserved e.1
    | Some _ =>
        descriptors l = 1%nat ∧ Forall snd l ∧
        ∀ e, e ∈ l → reserved e.1 → e.1 = BINARY_DESCRIPTOR_ARCHIVE_PATH
    end.
Proof.
  intros Hf H. unfold verify_publish in H. rewrite Hf, String.eqb_refl in H. cbn [negb] in H.
  destruct (Z.eqb_spec (slen bytes) (meta_size meta)) as [Hl|]; [|done]. cbn [negb reject_if] in H. split; [done|].
  cbn in H. destruct (descriptor_presence bytes) as [p|] eqn:Ep; [|done]. cbn in H.
  apply descriptor_presence_spec in Ep as (archive & l & Hz & Hd & Hn & Hall & Hp).
  exists archive, l. do 3 (split; [done|]). rewrite Forall_forall in Hall. destruct p.
  - injection H as <-. intros e He Hr%reserved_found. destruct (Hall e He) as [Hx|]; [|done].
    unfold descriptors in Hp. apply length_zero_iff_nil in Hp.
    assert (e ∈ List.filter (λ e : string * Prop, e.1 =s BINARY_DESCRIPTOR_ARCHIVE_PATH) l) as Hin.
    { apply list_elem_of_In, filter_In. split; [by apply list_elem_of_In|]. by apply String.eqb_eq. }
    rewrite Hp in Hin. by apply not_elem_of_nil in Hin.
  - destruct (verify_binary_zip meta bytes) as [d|]; [|done]. injection H as <-. destruct Hp as [Hp Hs].
    split; [done|]. split; [done|]. intros e He Hr%reserved_found. by destruct (Hall e He).
Qed.
End no_downgrade.

(** ** The order of strings *)

Lemma ascii_compare_refl c : Ascii.compare c c = Eq.
Proof. by apply N.compare_refl. Qed.

Lemma leb_app p t : String.leb p (p +:+ t) = true.
Proof.
  unfold String.leb. induction p as [|c p IH]; cbn; [by destruct t|]. by rewrite ascii_compare_refl.
Qed.

(** What lies between a string and an extension of it extends it. *)
Lemma leb_sandwich p q t : String.leb p q = true → String.leb q (p +:+ t) = true → starts_with p q = true.
Proof.
  unfold String.leb, starts_with. revert q. induction p as [|c p IH]; intros [|d q] H1 H2; cbn in *; try done.
  rewrite (Ascii.compare_antisym c d) in H1. destruct (Ascii.compare d c) eqn:E; cbn in H1; try done.
  apply Ascii.compare_eq_iff in E as ->. rewrite Ascii.eqb_refl. by apply IH.
Qed.

Lemma leb_total_false a b : String.leb a b = false → String.leb b a = true.
Proof. intros H. destruct (String.leb_total a b); congruence. Qed.

Lemma leb_trans a b c : String.leb a b = true → String.leb b c = true → String.leb a c = true.
Proof.
  intros H1 H2. assert (String.le a c) as H; [|by apply Is_true_true in H].
  transitivity b; by apply Is_true_true.
Qed.

Lemma leb_refl a : String.leb a a = true.
Proof. by destruct (String.leb_total a a). Qed.

Definition least_list (key : string) (l : list (string * string)) : option (string * string) :=
  foldr (λ e best,
    if String.leb key e.1
    then match best with
         | Some b => if String.leb e.1 b.1 then Some e else Some b
         | None => Some e
         end
    else best) None l.

Lemma least_list_spec key l :
  match least_list key l with
  | Some b => b ∈ l ∧ String.leb key b.1 = true ∧ ∀ e, e ∈ l → String.leb key e.1 = true → String.leb b.1 e.1 = true
  | None => ∀ e, e ∈ l → String.leb key e.1 = false
  end.
Proof.
  induction l as [|x l IH]; cbn; [by intros e He%not_elem_of_nil|]. fold (least_list key l).
  destruct (String.leb key x.1) eqn:Ex; destruct (least_list key l) as [b|].
  - destruct IH as (Hb & Hk & Hmin). destruct (String.leb x.1 b.1) eqn:Exb.
    + split; [by left|]. split; [done|]. intros e [->|He]%elem_of_cons Hke; [apply leb_refl|].
      by apply (leb_trans _ _ _ Exb), Hmin.
    + split; [by right|]. split; [done|]. intros e [->|He]%elem_of_cons Hke; [by apply leb_total_false|by apply Hmin].
  - split; [by left|]. split; [done|]. intros e [->|He]%elem_of_cons Hke; [apply leb_refl|]. by rewrite (IH e He) in Hke.
  - destruct IH as (Hb & Hk & Hmin). split; [by right|]. split; [done|].
    intros e [->|He]%elem_of_cons Hke; [congruence|by apply Hmin].
  - intros e [->|He]%elem_of_cons; [done|by apply IH].
Qed.

(** Looking at the next key alone decides whether any key has the prefix. *)
Lemma least_from_prefix p (m : gmap string string) :
  match least_from p m with Some (path, _) => starts_with p path = false | None => True end →
  ∀ k v, m !! k = Some v → starts_with p k = false.
Proof.
  intros H k v Hk. apply elem_of_map_to_list in Hk. pose proof (least_list_spec p (map_to_list m)) as Hl.
  change (least_list p (map_to_list m)) with (least_from p m) in Hl.
  destruct (starts_with p k) eqn:E; [|done]. apply starts_with_spec in E as [t ->].
  destruct (least_from p m) as [[path x]|].
  - destruct Hl as (_ & Hp & Hmin). specialize (Hmin _ Hk (leb_app p t)). cbn in Hmin. rewrite <- H. symmetry.
    by eapply leb_sandwich.
  - specialize (Hl _ Hk). cbn in Hl. by rewrite leb_app in Hl.
Qed.

(** The ancestors of a path are what a separator follows. *)
Lemma ancestors_spec a path : a ∈ ancestors path ↔ starts_with (a +:+ "/") path = true.
Proof.
  rewrite starts_with_spec. revert a. induction path as [|c path IH]; intros a; cbn [ancestors].
  - rewrite elem_of_nil. split; [done|]. intros [r H]. by destruct a.
  - rewrite elem_of_app, list_elem_of_fmap. split.
    + intros [H|(x & -> & Hx)].
      * destruct (Ascii.eqb_spec c slash) as [->|]; [|by apply not_elem_of_nil in H].
        apply list_elem_of_singleton in H as ->. by exists path.
      * apply IH in Hx as [r ->]. by exists r.
    + intros [r H]. destruct a as [|d a]; injection H as -> H.
      * left. by left.
      * right. exists a. split; [done|]. apply IH. by exists r.
Qed.

(** ** The scan of the entries *)

Section scan.
Context `{ext : Externals} `{bin : BinaryExternals}.

Lemma check_collisions_Ok e relative portable s :
  check_collisions e relative portable s = Ok tt →
  s.(portable_paths) !! portable = None ∧
  (∀ f, f ∈ s.(portable_regular_files) → starts_with (f +:+ "/") portable = false) ∧
  (e.(is_file) = true → ∀ k v, s.(portable_paths) !! k = Some v → starts_with (portable +:+ "/") k = false).
Proof.
  unfold check_collisions. intros H. destruct (portable_paths s !! portable) eqn:Ep; [done|].
  destruct (List.find _ (ancestors portable)) eqn:Ea; [done|]. split; [done|]. split.
  - intros f Hf. destruct (starts_with (f +:+ "/") portable) eqn:E; [|done].
    apply ancestors_spec, list_elem_of_In in E. apply (List.find_none _ _ Ea) in E. by case_bool_decide.
  - intros Hfile. rewrite Hfile in H. apply least_from_prefix.
    destruct (least_from _ _) as [[path existing]|]; [|done]. by destruct (starts_with _ path).
Qed.

Lemma read_reserved_Ok e relative s s' :
  read_reserved e relative s = Ok s' →
  s'.(regular_files) = s.(regular_files) ∧ s'.(portable_paths) = s.(portable_paths) ∧
  s'.(portable_regular_files) = s.(portable_regular_files) ∧ s'.(expanded_total) = s.(expanded_total) ∧
  (is_some s'.(descriptor_bytes) = true → is_some s.(descriptor_bytes) = true ∨ relative = BINARY_DESCRIPTOR_PATH).
Proof.
  unfold read_reserved. intros H. destruct (String.eqb_spec relative BINARY_DESCRIPTOR_PATH).
  - inv_bind. cbn. split_and!; auto.
  - destruct (relative =s BINARY_PACKAGE_MANIFEST_PATH); inv_bind; cbn; split_and!; auto.
Qed.

(** What an accepted entry does to the scan. *)
Lemma scan_entry_Ok e name s s' :
  scan_entry e name s = Ok s' →
  check_entry_kind e name = Ok tt ∧
  (entry_path e name = Ok None ∧ s' = s ∨
   ∃ p, entry_path e name = Ok (Some p) ∧ check_collisions e p (portable_path_key p) s = Ok tt ∧
     s'.(portable_paths) = <[portable_path_key p := p]> s.(portable_paths) ∧
     if e.(is_dir)
     then s'.(regular_files) = s.(regular_files) ∧ s'.(portable_regular_files) = s.(portable_regular_files) ∧
          s'.(expanded_total) = s.(expanded_total) ∧ s'.(descriptor_bytes) = s.(descriptor_bytes)
     else s'.(regular_files) = {[ p ]} ∪ s.(regular_files) ∧
          s'.(portable_regular_files) = {[ portable_path_key p ]} ∪ s.(portable_regular_files) ∧
          (p ∉ s.(regular_files)) ∧ enforce_compression_ratio name e.(entry_size) e.(compressed_size) = Ok tt ∧
          s'.(expanded_total) = s.(expanded_total) + e.(entry_size) ∧
          s'.(expanded_total) ≤ max_binary_expanded_bytes ∧
          (is_some s'.(descriptor_bytes) = true → is_some s.(descriptor_bytes) = true ∨ p = BINARY_DESCRIPTOR_PATH)).
Proof.
  unfold scan_entry. intros H. destruct (check_entry_kind e name) as [[]|] eqn:Ek; [|done]. split; [done|]. cbn in H.
  destruct (entry_path e name) as [[p|]|] eqn:Ep; [|by injection H as <-; left|done]. cbn in H. right. exists p.
  split; [done|]. destruct (check_collisions _ _ _ s) as [[]|] eqn:Ec; [|done]. split; [done|]. cbn in H.
  destruct (is_dir e); [injection H as <-; by cbn|].
  case_bool_decide; [done|]. cbn in H. destruct (enforce_compression_ratio _ _ _) as [[]|] eqn:Er; [|done]. cbn in H.
  destruct (checked_add _ _ _) as [total|] eqn:Et; [|done]. apply checked_add_get in Et as ->. cbn in H.
  destruct (Z.ltb_spec max_binary_expanded_bytes (expanded_total s + entry_size e)); [done|]. cbn in H.
  apply read_reserved_Ok in H as (-> & -> & -> & -> & Hd). cbn in *. by split_and!.
Qed.

(** The entry with an index has a path beneath the root. *)
Definition entry_at (archive : ZipArchive) (i : nat) (e : ZipEntry) (p : string) : Prop :=
  archive.(by_index) (Z.of_nat i) = Ok e ∧ entry_path e e.(name_raw) = Ok (Some p).

(** Two entries a supported host keeps apart. *)
Definition apart (e : ZipEntry) (p q : string) : Prop :=
  portable_path_key p ≠ portable_path_key q ∧
  (e.(is_dir) = false → starts_with (portable_path_key p +:+ "/") (portable_path_key q) = false).

(** The size of a regular file, and of the files with some indices. *)
Definition file_size (archive : ZipArchive) (i : nat) : Z :=
  match archive.(by_index) (Z.of_nat i) with
  | Ok e => match entry_path e e.(name_raw) with
            | Ok (Some _) => if e.(is_dir) then 0 else e.(entry_size)
            | _ => 0
            end
  | Err _ => 0
  end.
Definition total_size (archive : ZipArchive) (indices : list nat) : Z :=
  foldr (λ i n, file_size archive i + n) 0 indices.

Lemma total_size_perm archive l l' : l ≡ₚ l' → total_size archive l = total_size archive l'.
Proof. induction 1; unfold total_size in *; cbn; lia. Qed.

Lemma bounded_override_bounds max v ceiling : 1 ≤ ceiling → 1 ≤ bounded_override max v ceiling ≤ ceiling.
Proof.
  intros H. unfold bounded_override. destruct v as [v|]; cbn; [|lia].
  destruct (parse_unsigned max v) as [n|]; cbn; [|lia]. destruct (Z.ltb_spec 0 n); lia.
Qed.

(** The scan after the entries with the indices [seen]. *)
Record scanned (archive : ZipArchive) (seen : list nat) (s : Scan) : Prop := {
  sc_entry i : i ∈ seen → ∃ e, archive.(by_index) (Z.of_nat i) = Ok e ∧ valid_utf8 e.(name_raw) = true ∧
    check_entry_kind e e.(name_raw) = Ok tt ∧ is_ok (entry_path e e.(name_raw)) = true;
  sc_path i e p : i ∈ seen → entry_at archive i e p →
    s.(portable_paths) !! portable_path_key p = Some p ∧
    (e.(is_dir) = false → portable_path_key p ∈ s.(portable_regular_files) ∧ p ∈ s.(regular_files) ∧
       enforce_compression_ratio e.(name_raw) e.(entry_size) e.(compressed_size) = Ok tt);
  sc_apart i j e e' p q : i ∈ seen → j ∈ seen → i ≠ j → entry_at archive i e p → entry_at archive j e' q → apart e p q;
  sc_files f : f ∈ s.(regular_files) → ∃ i e, i ∈ seen ∧ entry_at archive i e f ∧ e.(is_dir) = false;
  sc_descriptor : is_some s.(descriptor_bytes) = true → BINARY_DESCRIPTOR_PATH ∈ s.(regular_files);
  sc_total : s.(expanded_total) = total_size archive seen ∧ total_size archive seen ≤ max_binary_expanded_bytes;
}.

Lemma entry_at_unique archive i e e' p q : entry_at archive i e p → entry_at archive i e' q → e = e' ∧ p = q.
Proof. intros [H1 H2] [H3 H4]. rewrite H1 in H3. injection H3 as <-. rewrite H2 in H4. by injection H4 as <-. Qed.

Lemma checked_file e name : check_entry_kind e name = Ok tt → e.(is_dir) = false → e.(is_file) = true.
Proof. unfold check_entry_kind. intros H Hd. rewrite Hd in H. by destruct (encrypted e), (compression e), (is_symlink e), (is_file e). Qed.

Lemma scanned_nil archive : scanned archive [] (mk_scan ∅ ∅ ∅ None None 0).
Proof.
  split; cbn.
  - intros i []%not_elem_of_nil.
  - intros i e p []%not_elem_of_nil.
  - intros i j e e' p q []%not_elem_of_nil.
  - intros f []%not_elem_of_empty.
  - done.
  - split; [done|]. pose proof (bounded_override_bounds u64_max (binary_flag "ZED_MAX_BINARY_EXPANDED_BYTES") DEFAULT_MAX_BINARY_EXPANDED_BYTES ltac:(by vm_compute)).
    unfold max_binary_expanded_bytes, bounded_u64_override. lia.
Qed.

(** A directory entry of the root adds nothing, another entry its path. *)
Lemma scanned_step archive seen s e s' i :
  scanned archive seen s → (i ∉ seen) → archive.(by_index) (Z.of_nat i) = Ok e → valid_utf8 e.(name_raw) = true →
  scan_entry e e.(name_raw) s = Ok s' → scanned archive (i :: seen) s'.
Proof.
  intros [S1 S2 S3 S4 S5 S6] Hi He Hu H. apply scan_entry_Ok in H as [Hk H].
  assert (∀ j e' q, j ∈ seen → entry_at archive j e' q → i ≠ j) as Hne by (intros j e' q Hj _ ->; done).
  destruct H as [[Hp ->]|(p & Hp & Hc & Hpaths & H)].
  - assert (∀ e' q, ¬ entry_at archive i e' q) as Hno.
    { intros e' q [H1 H2]. rewrite He in H1. injection H1 as <-. congruence. }
    assert (file_size archive i = 0) as Hz by (unfold file_size; by rewrite He, Hp).
    split; try done.
    + intros j [->|Hj]%elem_of_cons; [|by apply S1]. exists e. by rewrite Hp.
    + intros j e' q [->|Hj]%elem_of_cons Hq; [by apply Hno in Hq|by apply (S2 j)].
    + intros j k e' e'' q r [->|Hj]%elem_of_cons [->|Hk']%elem_of_cons Hjk Hq Hr;
        [done|by apply Hno in Hq|by apply Hno in Hr|by eapply (S3 j k)].
    + intros f Hf. destruct (S4 f Hf) as (j & e' & Hj & H). exists j, e'. split; [by right|done].
    + cbn. by rewrite Hz.
  - apply check_collisions_Ok in Hc as (C1 & C2 & C3).
    assert (regular_files s ⊆ regular_files s' ∧ portable_regular_files s ⊆ portable_regular_files s' ∧
      (is_dir e = false → portable_path_key p ∈ portable_regular_files s' ∧ p ∈ regular_files s' ∧
         enforce_compression_ratio (name_raw e) (entry_size e) (compressed_size e) = Ok tt) ∧
      (∀ f, f ∈ regular_files s' → f ∈ regular_files s ∨ f = p ∧ is_dir e = false) ∧
      (is_some (descriptor_bytes s') = true → BINARY_DESCRIPTOR_PATH ∈ regular_files s') ∧
      expanded_total s' = total_size archive (i :: seen) ∧ total_size archive (i :: seen) ≤ max_binary_expanded_bytes) as (R1 & R2 & R3 & R4 & R5 & R6).
    { cbn [total_size foldr]. fold (total_size archive seen). unfold file_size. rewrite He, Hp. destruct (is_dir e).
      - destruct H as (-> & -> & -> & ->). split_and!; try done; [intros f Hf; by left|lia..].
      - destruct H as (-> & -> & Hn & Hr & Ht & Hm & Hd). split_and!; [set_solver..| |lia|lia].
        intros Hs. destruct (Hd Hs) as [Hold| ->]; [apply S5 in Hold; set_solver|set_solver]. }
    assert (entry_at archive i e p) as Hat by done.
    assert (∀ j e' q, j ∈ seen → entry_at archive j e' q → portable_path_key p ≠ portable_path_key q) as Hkey.
    { intros j e' q Hj Hq Heq. destruct (S2 j e' q Hj Hq) as [Hl _]. congruence. }
    split.
    + intros j [->|Hj]%elem_of_cons; [|by apply S1]. exists e. by rewrite Hp.
    + intros j e' q [->|Hj]%elem_of_cons Hq.
      * destruct (entry_at_unique _ _ _ _ _ _ Hat Hq) as [<- <-]. rewrite Hpaths, lookup_insert_eq. by split.
      * destruct (S2 j e' q Hj Hq) as [Hl Hf]. rewrite Hpaths, lookup_insert_ne by (by eapply Hkey). split; [done|].
        intros Hd. destruct (Hf Hd) as (F1 & F2 & F3). split_and!; [by apply R2|by apply R1|done].
    + intros j k e' e'' q r [->|Hj]%elem_of_cons [->|Hk']%elem_of_cons Hjk Hq Hr; [done|..].
      * destruct (entry_at_unique _ _ _ _ _ _ Hat Hq) as [<- <-]. split; [by eapply Hkey|]. intros Hd.
        destruct (S2 k e'' r Hk' Hr) as [Hl _]. eapply C3; [by eapply checked_file|exact Hl].
      * destruct (entry_at_unique _ _ _ _ _ _ Hat Hr) as [<- <-]. split; [intros Heq; by eapply Hkey|]. intros Hd.
        apply C2. by apply (S2 j e' q Hj Hq).
      * by eapply (S3 j k).
    + intros f Hf. destruct (R4 f Hf) as [Hold|[-> Hd]].
      * destruct (S4 f Hold) as (j & e' & Hj & H'). exists j, e'. split; [by right|done].
      * exists i, e. split; [by left|done].
    + exact R5.
    + exact R6.
Qed.

Lemma scan_entries_scanned archive indices seen s s' :
  scanned archive seen s → NoDup (indices ++ seen) → scan_entries archive indices s = Ok s' →
  ∃ seen', scanned archive seen' s' ∧ seen' ≡ₚ indices ++ seen.
Proof.
  revert seen s. induction indices as [|i indices IH]; intros seen s Hs Hnd H; cbn [scan_entries] in H.
  - injection H as <-. by exists seen.
  - destruct (by_index archive (Z.of_nat i)) as [e|] eqn:He; [|done]. cbn [map_err mbind result_mbind result_bind] in H.
    unfold from_utf8 in H. destruct (valid_utf8 (name_raw e)) eqn:Hu; [|done]. cbn [ok_or mbind result_mbind result_bind] in H.
    destruct (scan_entry e (name_raw e) s) as [s1|] eqn:E; [|done]. cbn [mbind result_mbind result_bind] in H.
    cbn [app] in Hnd. apply NoDup_cons in Hnd as [Hi Hnd]. rewrite elem_of_app in Hi.
    eapply scanned_step in E; [|exact Hs|naive_solver|done|done].
    apply (IH (i :: seen)) in H as (seen' & Hs' & Hin); [|done|].
    + exists seen'. split; [done|]. rewrite Hin. symmetry. apply Permutation_middle.
    + apply NoDup_app in Hnd as (N1 & N2 & N3). apply NoDup_app. split; [done|]. split.
      * intros j Hj [->|Hj']%elem_of_cons; [naive_solver|by apply (N2 j)].
      * apply NoDup_cons. naive_solver.
Qed.
End scan.

(** ** What an accepted binary archive holds *)

(** An entry's contents, once it has been read to its end. *)
Fixpoint contents_of (reads : EntryReads) : option string :=
  match reads with
  | [] => Some ""
  | Err _ :: _ => None
  | Ok chunk :: reads =>
      if is_empty chunk then Some "" else rest ← contents_of reads; Some (chunk +:+ rest)
  end.

Lemma hash_entry_reads_Ok reads expected size hashed n out :
  hash_entry_reads reads expected size hashed = Ok (n, out) → size = slen hashed →
  ∃ rest, contents_of reads = Some rest ∧ out = hashed +:+ rest ∧ n = slen out.
Proof.
  revert size hashed. induction reads as [|[chunk|e] reads IH]; intros size hashed H Hs; cbn [hash_entry_reads] in H.
  - injection H as <- <-. exists "". by rewrite app_str_nil_r.
  - cbn [contents_of]. destruct (is_empty chunk); [injection H as <- <-; exists ""; by rewrite app_str_nil_r|].
    destruct (checked_add _ _ _) as [size'|] eqn:Ea; [|done]. apply checked_add_get in Ea as ->. cbn in H.
    destruct (expected <? size + slen chunk); [done|]. cbn in H.
    apply IH in H as (rest & -> & -> & ->); [|rewrite slen_app; lia].
    exists (chunk +:+ rest). cbn. by rewrite app_str_assoc.
  - done.
Qed.

Section accepted.
Context `{ext : Externals} `{bin : BinaryExternals}.

Lemma hash_zip_entry_Ok reads size sha :
  hash_zip_entry reads size = Ok sha → ∃ contents, contents_of reads = Some contents ∧ slen contents = size ∧ digest_hex contents = sha.
Proof.
  unfold hash_zip_entry. destruct (hash_entry_reads reads size 0 "") as [[n out]|] eqn:E; [|done]. cbn. intros H.
  apply hash_entry_reads_Ok in E as (rest & Hc & -> & ->); [|done]. cbn in H.
  destruct (Z.eqb_spec (slen rest) size); [|done]. cbn in H. injection H as <-. by exists rest.
Qed.

(** The archive delivers the file the descriptor lists. *)
Definition genuine (archive : ZipArchive) (f : BinaryFile) : Prop :=
  ∃ e contents, archive.(by_name) (BINARY_ARCHIVE_ROOT +:+ "/" +:+ f.(bf_path)) = Ok e ∧
    contents_of e.(entry_reads) = Some contents ∧ slen contents = f.(bf_size) ∧ digest_hex contents = f.(bf_sha256) ∧
    ∀ mode, e.(unix_mode) = Some mode → (Z.land mode 73 ≠ 0 ↔ f.(bf_executable) = true).

Lemma check_payload_file_Ok archive f : check_payload_file archive f = Ok tt → genuine archive f.
Proof.
  unfold check_payload_file, genuine. destruct (by_name archive _) as [e|]; [|done]. cbn [map_err mbind result_mbind result_bind].
  intros H. assert (∀ mode, unix_mode e = Some mode → (Z.land mode 73 ≠ 0 ↔ bf_executable f = true)) as Hm.
  { intros mode Hm. rewrite Hm in H. destruct (Z.eqb_spec (Z.land mode 73) 0), (bf_executable f); try done. }
  assert (hash_zip_entry (entry_reads e) (bf_size f) = Ok (bf_sha256 f)) as Hh.
  { destruct (match unix_mode e with Some _ => _ | None => _ end); [|done]. cbn [mbind result_mbind result_bind] in H.
    destruct (hash_zip_entry _ _) as [actual|]; [|done]. cbn in H.
    by destruct (String.eqb_spec actual (bf_sha256 f)) as [Heq|]; [rewrite Heq|]. }
  apply hash_zip_entry_Ok in Hh as (contents & ? & ? & ?). by exists e, contents.
Qed.

Lemma check_payload_files_Ok archive files :
  check_payload_files archive files = Ok tt → ∀ f, f ∈ files → genuine archive f.
Proof.
  induction files as [|g files IH]; intros H f Hf; [by apply not_elem_of_nil in Hf|]. cbn in H.
  destruct (check_payload_file archive g) as [[]|] eqn:E; [|done]. cbn in H.
  apply elem_of_cons in Hf as [->|Hf]; [by apply check_payload_file_Ok|by apply IH].
Qed.

Lemma size_list_le (l : list string) : (size (list_to_set l : gset string) ≤ length l)%nat.
Proof.
  induction l as [|x l IH]; cbn; [by rewrite size_empty|]. rewrite size_union_alt, size_singleton.
  pose proof (subseteq_size (list_to_set l ∖ {[x]}) (list_to_set l : gset string)). set_solver by lia.
Qed.

Lemma NoDup_by_size (l : list string) : (length l ≤ size (list_to_set l : gset string))%nat → NoDup l.
Proof.
  induction l as [|x l IH]; intros H; [constructor|]. cbn in H. pose proof (size_list_le l).
  assert (x ∉ (list_to_set l : gset string)) as Hx.
  { intros Hx. rewrite (subseteq_union_1_L {[x]} (list_to_set l)) in H by set_solver. lia. }
  rewrite size_union, size_singleton in H by set_solver. constructor; [set_solver|apply IH; lia].
Qed.

(** The inventory leaves no room for a file that is not listed once. *)
Lemma check_inventory_Ok d files :
  zlength d.(d_files) < usize_max → BINARY_DESCRIPTOR_PATH ∈ files → check_inventory d files = Ok tt →
  NoDup (BINARY_DESCRIPTOR_PATH :: map bf_path d.(d_files)) ∧
  ∀ f, f ∈ files ↔ f ∈ BINARY_DESCRIPTOR_PATH :: map bf_path d.(d_files).
Proof.
  intros Hlen Hdesc H. unfold check_inventory in H. set (listed := map bf_path (d_files d)) in *.
  destruct (List.find _ (merge_sort _ _)) eqn:E1; [done|]. destruct (List.find _ listed) eqn:E2; [done|].
  assert (∀ f, f ∈ files → f ∈ BINARY_DESCRIPTOR_PATH :: listed) as Hin.
  { intros f Hf. assert (f ∈ merge_sort String.le (elements files)) as Hs by (rewrite merge_sort_Permutation; by apply elem_of_elements).
    apply list_elem_of_In, (List.find_none _ _ E1) in Hs. apply andb_false_iff in Hs as [Hs|Hs]; bool_to_prop.
    - subst. by left.
    - by right. }
  assert (∀ f, f ∈ listed → f ∈ files) as Hout.
  { intros f Hf%list_elem_of_In. apply (List.find_none _ _ E2) in Hf. by case_bool_decide. }
  assert (files = list_to_set (BINARY_DESCRIPTOR_PATH :: listed)) as Hfiles.
  { apply set_eq. intros f. rewrite elem_of_list_to_set. split; [by apply Hin|].
    intros [->|Hf]%elem_of_cons; [done|by apply Hout]. }
  unfold reject_if in H. destruct (Z.eqb_spec (saturating_add usize_max (zlength (d_files d)) 1) (Z.of_nat (size files))) as [Hc|]; [|done].
  unfold saturating_add in Hc. rewrite Z.min_r in Hc by lia. unfold zlength in Hc.
  split; [|intros f; rewrite Hfiles; by rewrite elem_of_list_to_set].
  assert (length (BINARY_DESCRIPTOR_PATH :: listed) = size (list_to_set (C := gset string) (BINARY_DESCRIPTOR_PATH :: listed))) as Hsize.
  { rewrite <- Hfiles. unfold listed. cbn [length]. rewrite length_map. lia. }
  apply NoDup_by_size. lia.
Qed.

Lemma verify_publish_Some meta bytes d : verify_publish meta bytes = Ok (Some d) → verify_binary_zip meta bytes = Ok d.
Proof.
  unfold verify_publish. destruct (negb _); [done|]. intros H. destruct (negb (slen bytes =? _)); [done|].
  cbn [reject_if mbind result_mbind result_bind] in H. destruct (descriptor_presence bytes) as [[]|]; [done| |done].
  cbn [mbind result_mbind result_bind] in H. destruct (verify_binary_zip meta bytes); [by injection H as ->|done].
Qed.

Lemma verify_binary_zip_Ok meta bytes d :
  verify_binary_zip meta bytes = Ok d →
  ∃ archive s seen, zip_open bytes = Ok archive ∧ slen bytes ≤ max_binary_archive_bytes ∧
    archive.(has_overlapping_files) = Ok false ∧ archive.(zip_len) ≤ max_binary_entries ∧
    scanned archive seen s ∧ seen ≡ₚ seq 0 (Z.to_nat archive.(zip_len)) ∧
    check_documents meta s = Ok d ∧ check_inventory d s.(regular_files) = Ok tt ∧
    check_payload_files archive d.(d_files) = Ok tt.
Proof.
  unfold verify_binary_zip. destruct (Z.ltb_spec max_binary_archive_bytes (slen bytes)); [done|].
  cbn [reject_if mbind result_mbind result_bind]. destruct (require_canonical_zip_magic bytes); [|done].
  cbn [mbind result_mbind result_bind]. destruct (zip_open bytes) as [archive|]; [|done].
  cbn [map_err mbind result_mbind result_bind]. destruct (has_overlapping_files archive) as [[]|] eqn:Eo; [done| |done].
  cbn [map_err reject_if mbind result_mbind result_bind].
  destruct (Z.ltb_spec max_binary_entries (zip_len archive)); [done|]. cbn [reject_if mbind result_mbind result_bind].
  destruct (scan_entries _ _ _) as [s|] eqn:Es; [|done]. cbn [mbind result_mbind result_bind].
  destruct (check_documents meta s) as [d'|] eqn:Ed; [|done]. cbn [mbind result_mbind result_bind].
  destruct (check_inventory d' _) as [[]|] eqn:Ei; [|done]. cbn [mbind result_mbind result_bind].
  destruct (check_payload_files _ _) as [[]|] eqn:Ep; [|done]. intros [= <-].
  apply (scan_entries_scanned archive _ []) in Es as (seen & Hs & Hin); [|apply scanned_nil|].
  2:{ rewrite app_nil_r. apply NoDup_seq. }
  rewrite app_nil_r in Hin. by exists archive, s, seen.
Qed.

Lemma check_documents_Ok meta s d :
  check_documents meta s = Ok d →
  is_some s.(descriptor_bytes) = true ∧
  (∃ bytes, s.(descriptor_bytes) = Some bytes ∧ descriptor_parse bytes = Ok d ∧ canonical_json_bytes d = Ok bytes) ∧
  ∃ source, d.(d_source) = Some source ∧ source.(sp_repository) = meta.(manifest).(m_repo_url) ∧
    source.(sp_vcs_tag) = meta.(meta_vcs_tag) ∧ source.(sp_vcs_commit) = meta.(meta_vcs_commit).
Proof.
  unfold check_documents. intros H. destruct (descriptor_bytes s) as [bytes|]; [|done]. split; [done|].
  cbn [ok_or mbind result_mbind result_bind] in H. destruct (descriptor_parse bytes) as [d'|] eqn:Ep; [|done].
  cbn [map_err ok_or mbind result_mbind result_bind] in H. destruct (package_manifest_bytes s) as [mb|]; [|done].
  cbn [ok_or mbind result_mbind result_bind] in H. destruct (from_utf8 mb) as [text|]; [|done].
  cbn [ok_or mbind result_mbind result_bind] in H. destruct (manifest_parse text) as [m|]; [|done].
  cbn [map_err mbind result_mbind result_bind] in H. destruct (descriptor_invalid d' m); [done|].
  destruct (canonical_json_bytes d') as [c|] eqn:Ec; [|done]. cbn [mbind result_mbind result_bind] in H.
  destruct (String.eqb_spec bytes c) as [->|]; [|done]. cbn [negb reject_if mbind result_mbind result_bind] in H.
  destruct (manifest_eq m (manifest meta)); [|done]. cbn [negb reject_if mbind result_mbind result_bind] in H.
  destruct (ensure_descriptor_matches_publish d' meta) as [[]|] eqn:Em; [|done]. injection H as <-.
  split; [by exists c|]. unfold ensure_descriptor_matches_publish in Em.
  destruct (d_source d') as [source|]; [|done]. cbn in Em. exists source. split; [done|].
  destruct (String.eqb_spec (sp_repository source) (m_repo_url (manifest meta))); [|done]. cbn in Em.
  destruct (String.eqb_spec (sp_vcs_tag source) (meta_vcs_tag meta)); [|done]. cbn in Em. by case_bool_decide.
Qed.

(** A [Vec] does not fill the address space. *)
Hypothesis files_fit : ∀ s d, descriptor_parse s = Ok d → zlength d.(d_files) < usize_max.

(** C6: an accepted binary archive is exactly what its descriptor says. Its
    regular files are the descriptor and the files the descriptor lists, each
    once; every listed file is delivered with the listed size, digest and
    executable bit; the descriptor is the canonical encoding of what it parses
    to and names the repository, tag and commit of the publish form; and the
    archive keeps to the limits on bytes, entries and inflated bytes and
    overlaps no ranges. *)
Theorem binary_verified meta bytes d :
  verify_publish meta bytes = Ok (Some d) →
  ∃ archive, zip_open bytes = Ok archive ∧
    slen bytes ≤ max_binary_archive_bytes ∧ archive.(zip_len) ≤ max_binary_entries ∧
    archive.(has_overlapping_files) = Ok false ∧
    total_size archive (seq 0 (Z.to_nat archive.(zip_len))) ≤ max_binary_expanded_bytes ∧
    NoDup (BINARY_DESCRIPTOR_PATH :: map bf_path d.(d_files)) ∧
    (∀ f, f ∈ BINARY_DESCRIPTOR_PATH :: map bf_path d.(d_files) ↔
       ∃ i e, (i < Z.to_nat archive.(zip_len))%nat ∧ entry_at archive i e f ∧ e.(is_dir) = false) ∧
    (∀ f, f ∈ d.(d_files) → genuine archive f) ∧
    (∃ text, descriptor_parse text = Ok d ∧ canonical_json_bytes d = Ok text) ∧
    ∃ source, d.(d_source) = Some source ∧ source.(sp_repository) = meta.(manifest).(m_repo_url) ∧
      source.(sp_vcs_tag) = meta.(meta_vcs_tag) ∧ source.(sp_vcs_commit) = meta.(meta_vcs_commit).
Proof.
  intros H. apply verify_publish_Some in H.
  apply verify_binary_zip_Ok in H as (archive & s & seen & Hz & Hl & Ho & Hn & Hs & Hseen & Hd & Hi & Hp).
  apply check_documents_Ok in Hd as (Hsome & (text & _ & Ht & Hc) & Hsrc).
  apply check_inventory_Ok in Hi as [Hnd Hin]; [|by eapply files_fit|by apply (sc_descriptor _ _ _ Hs)].
  assert (∀ i, i ∈ seen ↔ (i < Z.to_nat archive.(zip_len))%nat) as Hmem by (intros i; rewrite Hseen, elem_of_seq; lia).
  destruct (sc_total _ _ _ Hs) as [_ Htotal]. rewrite (total_size_perm _ _ _ Hseen) in Htotal.
  exists archive. do 6 (split; [done|]). split; [|split; [by apply check_payload_files_Ok|split; [by exists text|done]]].
  intros f. rewrite <- Hin. split.
  - intros Hf. destruct (sc_files _ _ _ Hs f Hf) as (i & e & Hi & H). exists i, e. by rewrite <- Hmem.
  - intros (i & e & Hi & Hat & Hdir). apply Hmem in Hi. by apply (sc_path _ _ _ Hs i e f Hi Hat).
Qed.
End accepted.

Section portable.
Context `{ext : Externals} `{bin : BinaryExternals}.
(** Sizes are unsigned. *)
Hypothesis sizes_nonneg : ∀ s a i e,
  zip_open s = Ok a → a.(by_index) i = Ok e → 0 ≤ e.(entry_size) ∧ 0 ≤ e.(compressed_size).

Lemma check_entry_kind_Ok e name :
  check_entry_kind e name = Ok tt →
  e.(encrypted) = false ∧ e.(is_symlink) = false ∧ (e.(compression) = Stored ∨ e.(compression) = Deflated) ∧
  (e.(is_file) = true ∨ e.(is_dir) = true).
Proof. unfold check_entry_kind. destruct (encrypted e), (compression e), (is_symlink e), (is_file e), (is_dir e); cbn; auto; done. Qed.

Lemma entry_path_Ok e name path :
  entry_path e name = Ok path →
  match path with
  | None => name = BINARY_ARCHIVE_ROOT +:+ "/"
  | Some p => unsafe_relative_path p = None ∧ name = BINARY_ARCHIVE_ROOT +:+ "/" +:+ p +:+ (if e.(is_dir) then "/" else "")
  end.
Proof.
  unfold entry_path. destruct (enclosed_name e) as [enclosed|]; [|done]. cbn [ok_or mbind result_mbind result_bind]. cbn zeta.
  destruct (is_dir e && _).
  - destruct (String.eqb_spec name (BINARY_ARCHIVE_ROOT +:+ "/")); [|done]. by intros [= <-].
  - destruct (strip_prefix _ _) as [stripped|]; [|done]. cbn [ok_or mbind result_mbind result_bind].
    set (relative := trim_end_matches slash stripped). destruct (unsafe_relative_path relative) eqn:Eu; [done|].
    match goal with |- context [reject_if (negb (name =s ?c)) _] => destruct (String.eqb_spec name c) as [Hn|]; [|done] end.
    by intros [= <-].
Qed.

Lemma total_size_bounds archive i l :
  (∀ i, 0 ≤ file_size archive i) → i ∈ l → file_size archive i ≤ total_size archive l.
Proof.
  intros Hn. assert (∀ l, 0 ≤ total_size archive l) as H0.
  { intros k. induction k as [|j k IH]; unfold total_size in *; cbn; [lia|]. pose proof (Hn j). lia. }
  induction l as [|j l IH]; intros Hi; [by apply not_elem_of_nil in Hi|]. cbn. pose proof (H0 l). pose proof (Hn j).
  unfold total_size in *. apply elem_of_cons in Hi as [->|Hi]; [lia|]. apply IH in Hi. lia.
Qed.

(** The ratio is computed without overflow. *)
Lemma compression_bounded name size compressed :
  0 ≤ size ≤ DEFAULT_MAX_BINARY_EXPANDED_BYTES → 0 ≤ compressed →
  enforce_compression_ratio name size compressed = Ok tt → size ≤ max_binary_compression_ratio * compressed.
Proof.
  intros Hs Hc H. unfold enforce_compression_ratio in H.
  destruct (bounded_override_bounds u64_max (binary_flag "ZED_MAX_BINARY_COMPRESSION_RATIO")
    DEFAULT_MAX_BINARY_COMPRESSION_RATIO ltac:(by vm_compute)) as [R1 _].
  fold (bounded_u64_override (binary_flag "ZED_MAX_BINARY_COMPRESSION_RATIO") DEFAULT_MAX_BINARY_COMPRESSION_RATIO) in R1.
  fold max_binary_compression_ratio in R1.
  destruct (Z.eqb_spec size 0); [nia|]. destruct (Z.eqb_spec compressed 0); [done|].
  unfold saturating_add, DEFAULT_MAX_BINARY_EXPANDED_BYTES, u64_max in *. cbn zeta in H.
  destruct (Z.ltb_spec max_binary_compression_ratio (Z.min 18446744073709551615 (size + (compressed - 1)) / compressed)) as [|Hr]; [done|].
  destruct (Z.le_ge_cases (size + (compressed - 1)) 18446744073709551615) as [Hle|Hge]; [|nia].
  rewrite Z.min_r in Hr by done.
  assert (size + (compressed - 1) < compressed * (max_binary_compression_ratio + 1)); [|nia].
  apply Z.lt_le_trans with (compressed * ((size + (compressed - 1)) / compressed + 1)); [|nia].
  pose proof (Z.mul_succ_div_gt (size + (compressed - 1)) compressed ltac:(lia)). lia.
Qed.

(** C23: an accepted binary archive unpacks to one tree on every supported host.
    Every entry is an unencrypted plain file or directory under its canonical
    name, inflated no more than the ratio allows; no two entries have the same
    path up to letter case and separators, and no file has a path beneath
    another file's. *)
Theorem archive_paths_portable meta bytes d :
  verify_publish meta bytes = Ok (Some d) →
  ∃ archive, zip_open bytes = Ok archive ∧ ∀ i, (i < Z.to_nat archive.(zip_len))%nat →
    ∃ e, archive.(by_index) (Z.of_nat i) = Ok e ∧ valid_utf8 e.(name_raw) = true ∧
      e.(encrypted) = false ∧ e.(is_symlink) = false ∧ (e.(is_file) = true ∨ e.(is_dir) = true) ∧
      (e.(name_raw) = BINARY_ARCHIVE_ROOT +:+ "/" ∨ ∃ p, entry_at archive i e p) ∧
      ∀ p, entry_at archive i e p →
        unsafe_relative_path p = None ∧
        e.(name_raw) = BINARY_ARCHIVE_ROOT +:+ "/" +:+ p +:+ (if e.(is_dir) then "/" else "") ∧
        (e.(is_dir) = false → e.(entry_size) ≤ max_binary_compression_ratio * e.(compressed_size)) ∧
        ∀ j e' q, (j < Z.to_nat archive.(zip_len))%nat → i ≠ j → entry_at archive j e' q → apart e p q.
Proof.
  intros H. apply verify_publish_Some in H.
  apply verify_binary_zip_Ok in H as (archive & s & seen & Hz & _ & _ & _ & Hs & Hseen & _).
  assert (∀ i, i ∈ seen ↔ (i < Z.to_nat archive.(zip_len))%nat) as Hmem by (intros i; rewrite Hseen, elem_of_seq; lia).
  exists archive. split; [done|]. intros i Hi. apply Hmem in Hi.
  destruct (sc_entry _ _ _ Hs i Hi) as (e & He & Hu & Hk & Hp). exists e. split; [done|]. split; [done|].
  destruct (check_entry_kind_Ok _ _ Hk) as (K1 & K2 & _ & K3). do 3 (split; [done|]). split.
  - destruct (entry_path e (name_raw e)) as [[p|]|] eqn:Ep; [right; by exists p|left; by apply entry_path_Ok in Ep|done].
  - intros p Hat. destruct Hat as [H1 H2]. destruct (entry_path_Ok _ _ _ H2) as [Hsafe Hname].
    do 2 (split; [done|]). split.
    + intros Hd. destruct (sizes_nonneg _ _ _ _ Hz He) as [S1 S2].
      destruct (sc_path _ _ _ Hs i e p Hi (conj H1 H2)) as [_ Hf]. destruct (Hf Hd) as (_ & _ & Hr).
      eapply compression_bounded; [split; [done|]|done|exact Hr]. destruct (sc_total _ _ _ Hs) as [_ Ht].
      assert (file_size archive i = entry_size e) as <- by (unfold file_size; by rewrite He, H2, Hd).
      etrans; [apply (total_size_bounds archive i seen)|].
      * intros k. unfold file_size. destruct (by_index archive (Z.of_nat k)) as [e'|] eqn:Ek; [|done].
        destruct (sizes_nonneg _ _ _ _ Hz Ek). by destruct (entry_path e' _) as [[]|], (is_dir e').
      * done.
      * etrans; [exact Ht|]. by apply bounded_override_bounds.
    + intros j e' q Hj Hne Hq. apply Hmem in Hj. by eapply (sc_apart _ _ _ Hs i j).
Qed.
End portable.
