(* ===== verification/Keys.v ===== *)
(** * Publisher signing keys ([src/routes/keys.rs]) *)

From S2P Require Export Signing AuthFacts.

Definition MAX_KEYS_PER_ORG : Z := 8.

Definition publisher_key_state_str (s : KeyState) : string :=
  match s with Active => "active" | Retired => "retired" | Revoked => "revoked" end.

Definition key_state_of (s : string) : KeyState :=
  match s with "active" => Active | "retired" => Retired | _ => Revoked end.

Definition keys_of_org (org : uuid) (d : Db) : list KeyRow :=
  List.filter (λ r, (r.(key_org_id) =? org)%N) d.(keys).

Definition find_key (org : uuid) (id : string) (d : Db) : option KeyRow :=
  List.find (λ r, (r.(key_org_id) =? org)%N && (r.(key_key_id) =s id)) d.(keys).

Definition key_with_state (state : string) (reason : option string) (r : KeyRow) : KeyRow :=
  mk_key r.(key_row_id) r.(key_org_id) r.(key_key_id) r.(key_algorithm) r.(key_public_multibase)
    state reason r.(key_enrolled_at).

(** [update] of the state and reason columns of one row. *)
Definition update_key (id : uuid) (state : string) (reason : option string) (d : Db)
    : result DbErr (unit * Db) :=
  if existsb (λ r, (r.(key_row_id) =? id)%N) d.(keys)
  then Ok (tt, set_keys (map (λ r, if (r.(key_row_id) =? id)%N
                                   then key_with_state state reason r else r)) d)
  else Err DbOther.

Section keys.
Context `{ext : Externals} `{web : WebExternals} `{sgn : SigningExternals}.

Definition row_to_key (row : KeyRow) : PublisherKey :=
  mk_publisher_key row.(key_key_id) row.(key_algorithm) row.(key_public_multibase)
    (key_state_of row.(key_state)) (Some (rfc3339 row.(key_enrolled_at))) row.(key_revoked_reason).

Definition stored_keys (org : uuid) (d : Db) : list PublisherKey :=
  map row_to_key (order_by_asc key_enrolled_at (keys_of_org org d)).

Definition load_keys (org : uuid) : M ApiErr (list PublisherKey) :=
  db_q (on_db (read (stored_keys org))).

Definition get_keys (org_slug : string) : M ApiErr (list PublisherKey) :=
  org_row ← find_org org_slug;
  load_keys org_row.(org_id).

Fixpoint validate_keys (l : list PublisherKey) : ApiResult unit :=
  match l with
  | [] => Ok tt
  | k :: l =>
      match key_validate k with
      | Some error => Err (bad_request "invalid_key" ("invalid signing key: " +:+ error))
      | None => validate_keys l
      end
  end.

(** The refused transitions of one enrolled key. *)
Definition check_transition (submitted : list PublisherKey) (previous : PublisherKey)
    : ApiResult unit :=
  match List.find (λ c, c.(pk_key_id) =s previous.(pk_key_id)) submitted with
  | None =>
      Err (bad_request "key_removed"
        ("key `" +:+ previous.(pk_key_id) +:+ "` cannot be removed; set its state to `retired` or `revoked` so consumers that pinned it learn why"))
  | Some s =>
      reject_if (negb (s.(pk_public_key_multibase) =s previous.(pk_public_key_multibase)))
        (conflict "key_rebind"
          ("key `" +:+ previous.(pk_key_id) +:+ "` is already enrolled with different key material; enroll a new key id instead of rebinding this one"));;
      reject_if (bool_decide (previous.(pk_state) = Revoked) && negb (bool_decide (s.(pk_state) = Revoked)))
        (conflict "key_unrevoke"
          ("key `" +:+ previous.(pk_key_id) +:+ "` is revoked and cannot be reinstated"))
  end.

Fixpoint check_transitions (submitted existing : list PublisherKey) : ApiResult unit :=
  match existing with
  | [] => Ok tt
  | previous :: existing =>
      check_transition submitted previous;; check_transitions submitted existing
  end.

Fixpoint write_keys (org : uuid) (l : list PublisherKey) : M ApiErr unit :=
  match l with
  | [] => mret tt
  | key :: l =>
      current ← db_q (in_txn_rc (read (find_key org key.(pk_key_id))));
      match current with
      | Some row =>
          db_q (in_txn_rc (update_key row.(key_row_id) (publisher_key_state_str key.(pk_state))
                          key.(pk_revoked_reason)))
      | None =>
          id ← uuid_v4;
          t ← now;
          db_q (in_txn_rc (insert_key {|
            key_row_id := id;
            key_org_id := org;
            key_key_id := key.(pk_key_id);
            key_algorithm := key.(pk_algorithm);
            key_public_multibase := key.(pk_public_key_multibase);
            key_state := publisher_key_state_str key.(pk_state);
            key_revoked_reason := key.(pk_revoked_reason);
            key_enrolled_at := t |}))
      end;;
      write_keys org l
  end.

Definition put_keys (org_slug : string) (headers : HeaderMap) (request : list PublisherKey)
    : M ApiErr (list PublisherKey) :=
  token ← require_token headers;
  org_row ← find_org org_slug;
  lift (authorize_manage token.(tok_org_id) (RoleImpl.parse token.(tok_role)) org_row.(org_id));;
  lift (reject_if (MAX_KEYS_PER_ORG <? Z.of_nat (length request))
    (bad_request "too_many_keys" ("at most " +:+ dec_of_Z MAX_KEYS_PER_ORG +:+ " signing keys per org")));;
  lift (validate_keys request);;
  existing ← load_keys org_row.(org_id);
  lift (check_transitions request existing);;
  with_txn (λ _, from_db_err) (write_keys org_row.(org_id) request);;
  load_keys org_row.(org_id).
End keys.

(** ** What no submission can do *)

(** Every enrolled key is still enrolled with the same material. *)
Definition material_kept (d d' : Db) : Prop :=
  ∀ r, r ∈ keys d → ∃ r', r' ∈ keys d' ∧ key_row_id r' = key_row_id r ∧
    key_org_id r' = key_org_id r ∧ key_key_id r' = key_key_id r ∧
    key_algorithm r' = key_algorithm r ∧ key_public_multibase r' = key_public_multibase r ∧
    key_enrolled_at r' = key_enrolled_at r.

#[export] Instance material_preorder : PreOrder material_kept.
Proof.
  split; [intros d r Hr; by exists r; split_and!|]. intros a b c H1 H2 r Hr.
  destruct (H1 r Hr) as (r1 & Hr1 & ? & ? & ? & ? & ? & ?).
  destruct (H2 r1 Hr1) as (r2 & Hr2 & ? & ? & ? & ? & ? & ?).
  exists r2. split_and!; [done|congruence..].
Qed.

Lemma update_key_kept id st reason d a d' :
  update_key id st reason d = Ok (a, d') → material_kept d d'.
Proof.
  unfold update_key. destruct (existsb _ _); [|done]. intros [= _ <-] r Hr. cbn.
  eexists. split; [apply list_elem_of_In, in_map, list_elem_of_In, Hr|].
  destruct (_ =? _)%N; by split_and!.
Qed.

Lemma insert_key_kept row d a d' : insert_key row d = Ok (a, d') → material_kept d d'.
Proof.
  unfold insert_key. destruct (existsb _ _); [done|]. intros [= _ <-] r Hr. cbn.
  exists r. split; [apply elem_of_app; by left|]. by split_and!.
Qed.

Section material.
Context `{ext : Externals} `{web : WebExternals} `{sgn : SigningExternals}.
Hypothesis rely : ∀ t d, material_kept d (others_db t d).

Lemma write_keys_kept org l : respects (txn_rel material_kept) (write_keys org l).
Proof.
  induction l as [|k l IH]; cbn [write_keys]; unfold db_q; respects_tac; try exact IH;
    apply in_txn_rc_rel; try typeclasses eauto; try exact rely; intros d a' d';
    [apply update_key_kept|apply insert_key_kept].
Qed.

Lemma require_token_rel (K : Db → Db → Prop) `{!PreOrder K} headers :
  (∀ t d, K d (others_db t d)) → respects (db_rel K) (require_token headers).
Proof.
  intros Hrely w r w' H Ht. apply require_token_run in H as (_ & Htx & Hdb & _).
  split; [congruence|]. destruct Hdb as [-> | ->]; [done|apply Hrely].
Qed.

(** Enrolled keys are never lost or rebound. Whatever key set is submitted,
    by whom, and whatever concurrent submissions and database faults do in
    between, every key enrolled before is still enrolled afterwards, under the
    same id and with the same algorithm and key material. *)
Theorem put_keys_keeps_material org_slug headers request w r w' :
  txn w = None → put_keys org_slug headers request w = (r, w') →
  material_kept (db w) (db w').
Proof.
  intros Ht H. revert Ht. unfold put_keys in H.
  enough (respects (db_rel material_kept) (put_keys org_slug headers request)) as Hr
    by (intros Ht; by apply (Hr _ _ _ H)).
  unfold put_keys, find_org, load_keys, db_q.
  respects_tac; try (apply require_token_rel; [typeclasses eauto|exact rely]).
  apply with_txn_rel; [typeclasses eauto|exact rely|apply write_keys_kept].
Qed.
End material.

(** ** Revocation is final, for submissions without duplicates *)

Definition revoked_row (r : KeyRow) : Prop := key_state_of (key_state r) = Revoked.

(** A row that is named [i], and enrolls [id] for [org] as revoked. *)
Definition revoked_as (i org : uuid) (id : string) (r : KeyRow) : Prop :=
  key_row_id r = i ∧ key_org_id r = org ∧ key_key_id r = id ∧ revoked_row r.

(** Every revoked key stays revoked. *)
Definition stay_revoked (d d' : Db) : Prop :=
  ∀ r, r ∈ keys d → revoked_row r →
    ∃ r', r' ∈ keys d' ∧ revoked_as (key_row_id r) (key_org_id r) (key_key_id r) r'.

(** The same of one key, beside the primary key of the table. *)
Definition holds_revoked (i org : uuid) (id : string) (d : Db) : Prop :=
  NoDup (key_row_id <$> keys d) ∧ ∃ r, r ∈ keys d ∧ revoked_as i org id r.

Definition keeps_revoked (i org : uuid) (id : string) (d d' : Db) : Prop :=
  holds_revoked i org id d → holds_revoked i org id d'.

#[export] Instance keeps_revoked_preorder i org id : PreOrder (keeps_revoked i org id).
Proof. split; [by intros d H|]. intros a b c H1 H2 H. by apply H2, H1. Qed.

Lemma state_str_of s : key_state_of (publisher_key_state_str s) = s.
Proof. by destruct s. Qed.

Lemma find_key_Some org id d row :
  find_key org id d = Some row → row ∈ keys d ∧ key_org_id row = org ∧ key_key_id row = id.
Proof.
  unfold find_key. intros H%List.find_some. destruct H as [Hin H]. apply andb_true_iff in H as [H1 H2].
  apply N.eqb_eq in H1. apply String.eqb_eq in H2. by rewrite list_elem_of_In.
Qed.

Lemma unique_key_row l (x y : KeyRow) :
  NoDup (key_row_id <$> l) → x ∈ l → y ∈ l → key_row_id x = key_row_id y → x = y.
Proof.
  induction l as [|z l IH]; cbn; [by intros _ ?%not_elem_of_nil|].
  intros [Hz Hl]%NoDup_cons Hx Hy Hid.
  apply elem_of_cons in Hx as [->|Hx], Hy as [->|Hy]; [done|..|by apply IH].
  - exfalso. apply Hz. rewrite Hid. by apply list_elem_of_fmap_2.
  - exfalso. apply Hz. rewrite <- Hid. by apply list_elem_of_fmap_2.
Qed.

(** Writing [st] to row [n] keeps the revoked key when it is in another row, or
    [st] is [Revoked]. *)
Lemma update_key_keeps i org id n st reason d a d' :
  (n = i → st = Revoked) → update_key n (publisher_key_state_str st) reason d = Ok (a, d') →
  keeps_revoked i org id d d'.
Proof.
  intros Hst H (Hnd & r & Hr & Hi & Ho & Hk & Hv). unfold update_key in H.
  destruct (existsb _ _); [|done]. injection H as _ <-. split; cbn.
  - rewrite <- list_fmap_compose. erewrite list_fmap_ext; [exact Hnd|].
    intros j x _. cbn. by destruct (_ =? _)%N.
  - eexists. split; [apply list_elem_of_In, in_map, list_elem_of_In, Hr|].
    destruct (N.eqb_spec (key_row_id r) n) as [<-|]; [|by split_and!]. split_and!; try done.
    unfold revoked_row. cbn. rewrite state_str_of. by apply Hst.
Qed.

Lemma insert_key_keeps i org id row d a d' :
  insert_key row d = Ok (a, d') → keeps_revoked i org id d d'.
Proof.
  unfold insert_key. destruct (existsb _ _) eqn:Ex; [done|]. intros [= _ <-] (Hnd & r & Hr & H).
  split; cbn.
  - rewrite fmap_app. apply NoDup_app. split; [done|]. split; [|apply NoDup_singleton].
    intros n (x & -> & Hx)%list_elem_of_fmap Hn%list_elem_of_singleton.
    apply not_true_iff_false in Ex. apply Ex, existsb_exists. exists x.
    split; [by apply list_elem_of_In|]. by rewrite Hn, N.eqb_refl.
  - exists r. split; [|done]. apply elem_of_app. by left.
Qed.

(** What the transition check refuses, and what it lets through says. *)
Lemma check_transitions_In request existing k :
  check_transitions request existing = Ok tt → k ∈ existing → check_transition request k = Ok tt.
Proof.
  induction existing as [|p l IH]; [by intros _ ?%not_elem_of_nil|]. cbn.
  destruct (check_transition request p) as [[]|] eqn:E; [|done]. cbn.
  by intros H [->|Hk]%elem_of_cons; [|apply IH].
Qed.

Lemma same_submitted request (x s : PublisherKey) :
  NoDup (pk_key_id <$> request) → x ∈ request → s ∈ request → pk_key_id x = pk_key_id s → x = s.
Proof.
  induction request as [|z l IH]; [by intros _ ?%not_elem_of_nil|]. intros [Hz Hl]%NoDup_cons Hx Hs Hid.
  apply elem_of_cons in Hx as [->|Hx], Hs as [->|Hs]; [done|..|by apply IH].
  - exfalso. apply Hz. change (pk_key_id z ∈ pk_key_id <$> l). rewrite Hid. by apply list_elem_of_fmap_2.
  - exfalso. apply Hz. change (pk_key_id z ∈ pk_key_id <$> l). rewrite <- Hid. by apply list_elem_of_fmap_2.
Qed.

Lemma check_transitions_sound request existing k :
  check_transitions request existing = Ok tt → k ∈ existing → pk_state k = Revoked →
  NoDup (pk_key_id <$> request) →
  ∀ s, s ∈ request → pk_key_id s = pk_key_id k → pk_state s = Revoked.
Proof.
  intros H Hk Hrev Hnd s Hs Hid. apply (check_transitions_In _ _ k) in H; [|done].
  unfold check_transition in H.
  destruct (List.find _ request) as [x|] eqn:Ef; [|done].
  apply List.find_some in Ef as [Hx Hxid]. apply String.eqb_eq in Hxid. apply list_elem_of_In in Hx.
  assert (x = s) as -> by (apply (same_submitted request); congruence).
  rewrite Hrev in H. destruct (negb (_ =s _)); [done|]. cbn in H.
  rewrite bool_decide_eq_true_2 in H by done.
  destruct (bool_decide (pk_state s = Revoked)) eqn:E; [by apply bool_decide_eq_true in E|done].
Qed.

Section revocation.
Context `{ext : Externals} `{web : WebExternals} `{sgn : SigningExternals}.

(** Nobody else brings a revoked key back; they may well revoke keys. *)
Hypothesis rely : ∀ t d, NoDup (key_row_id <$> keys d) →
  NoDup (key_row_id <$> keys (others_db t d)) ∧ stay_revoked d (others_db t d).

Lemma others_keep i org id t d : keeps_revoked i org id d (others_db t d).
Proof.
  intros (Hnd & r & Hr & <- & <- & <- & Hv). destruct (rely t d Hnd) as [Hnd' Hs].
  split; [done|]. by apply Hs.
Qed.

(** One statement that writes to a row the transaction has seen. *)
Lemma txn_update_keeps i org id d n st reason w r w' :
  txn w = Some d → (holds_revoked i org id d → n = i → st = Revoked) →
  db_q (in_txn_rc (update_key n (publisher_key_state_str st) reason)) w = (r, w') →
  txn_rel (keeps_revoked i org id) w w'.
Proof.
  intros Ht Hst H. apply with_err_inv in H as (x & H & _).
  apply in_txn_rc_inv in H as (_ & _ & Hdb & H). split; [done|]. intros d0 Hd. simplify_eq.
  destruct H as [(d1 & a & d' & Hd1 & Hu & _ & Ht')|(e & _ & [Htx|(d1 & Hd1 & Htx)] & _)].
  - simplify_eq. exists d'. split; [done|]. intros Hh.
    apply (update_key_keeps i org id) in Hu; [|by apply Hst]. by apply Hu, others_keep.
  - exists d. by rewrite Htx.
  - simplify_eq. eexists. split; [done|apply others_keep].
Qed.

(** The row of a key that is revoked is written only by a submission of that key. *)
Lemma found_key_revoked i org id d o k row :
  (o = org → pk_key_id k = id → pk_state k = Revoked) →
  find_key o (pk_key_id k) d = Some row → holds_revoked i org id d →
  key_row_id row = i → pk_state k = Revoked.
Proof.
  intros Hk (Hrow & <- & Hid)%find_key_Some (Hnd & r & Hr & <- & Ho & Hrk & _) Hi.
  apply (unique_key_row _ _ _ Hnd Hrow Hr) in Hi as ->. apply Hk; congruence.
Qed.

Lemma write_keys_keeps i org id o l :
  (∀ s, s ∈ l → o = org → pk_key_id s = id → pk_state s = Revoked) →
  respects (txn_rel (keeps_revoked i org id)) (write_keys o l).
Proof.
  pose proof (others_keep i org id) as Hrely.
  induction l as [|k l IH]; intros Hl; cbn [write_keys]; [respects_tac|].
  assert (respects (txn_rel (keeps_revoked i org id)) (write_keys o l)) as Hrest
    by (apply IH; intros s Hs; apply Hl; by right).
  intros w r w' H. unfold db_q in H.
  M_step H; apply with_err_inv in R as (x & R & Hx); pose proof R as Rd;
    apply (in_txn_rc_read_rel (keeps_revoked i org id) Hrely) in R; [done|]. etrans; [exact R|].
  revert H. destruct a as [row|].
  - intros H. apply in_txn_rc_inv in Rd as (_ & _ & _ & Rd).
    destruct x as [o'|]; [|done]. injection Hx as <-.
    destruct Rd as [(d & o'' & d1 & _ & [= Hf <-] & [= <-] & Ht)|(e' & [=] & _)].
    pose proof (found_key_revoked i org id _ o k row (Hl k ltac:(by left)) Hf) as Hst.
    apply bind_inv in H as [(e & H & _)|([] & w1 & H1 & H2)];
      [by eapply txn_update_keeps|etrans; [by eapply txn_update_keeps|by eapply Hrest]].
  - apply respects_bind; [typeclasses eauto| |intros []; exact Hrest].
    unfold db_q. respects_tac. apply in_txn_rc_rel; [typeclasses eauto|exact Hrely|].
    intros d x' d'. apply insert_key_keeps.
Qed.

Lemma load_keys_keeps i org id o : respects (db_rel (keeps_revoked i org id)) (load_keys o).
Proof.
  unfold load_keys, db_q. respects_tac. apply on_db_read_rel; [typeclasses eauto|apply others_keep].
Qed.

(** What is read of a key that is revoked, when the keys are read. *)
Lemma load_keys_sees_revoked i org id w l w' :
  holds_revoked i org id (db w) → load_keys org w = (Ok l, w') →
  ∃ k, k ∈ l ∧ pk_key_id k = id ∧ pk_state k = Revoked.
Proof.
  intros Hh H. unfold load_keys, db_q in H. apply with_err_inv in H as (x & H & Hx).
  apply on_db_read_inv in H as (_ & _ & _ & Hd & H).
  destruct H as [-> | ->]; [|done]. injection Hx as ->. rewrite Hd.
  apply (others_keep _ _ _ (tick w)) in Hh as (_ & r & Hr & _ & Ho & Hk & Hv).
  exists (row_to_key r). split; [|done]. unfold stored_keys. apply list_elem_of_In, in_map.
  rewrite order_by_asc_perm. unfold keys_of_org. apply filter_In.
  split; [by apply list_elem_of_In|by apply N.eqb_eq].
Qed.

(** Between statements: no transaction is open, and the key is revoked. *)
Definition settled (i org : uuid) (id : string) (w : World) : Prop :=
  txn w = None ∧ holds_revoked i org id (db w).

Lemma settled_step {E A} i org id (m : M E A) w r w' :
  respects (db_rel (keeps_revoked i org id)) m → settled i org id w → m w = (r, w') →
  settled i org id w'.
Proof. intros Hm [Ht Hh] H. destruct (Hm _ _ _ H Ht) as [Ht' Hh']. split; [done|by apply Hh']. Qed.

(** Each call of the handler leaves it so. *)
Ltac settled_tac :=
  match goal with
  | Hs : settled ?i ?org ?id ?w, R : ?m ?w = (_, ?w') |- _ =>
      let Hs' := fresh "Hs" in
      assert (settled i org id w') as Hs';
      [refine (settled_step i org id _ w _ w' _ Hs R);
       first [apply require_token_rel; [typeclasses eauto|apply others_keep]
             |apply load_keys_keeps
             |unfold find_org, db_q; respects_tac;
              apply on_db_read_rel; [typeclasses eauto|apply others_keep]]|clear R Hs; rename Hs' into Hs]
  end.

Lemma put_keys_settled org_slug headers request i org id w r w' :
  NoDup (pk_key_id <$> request) → settled i org id w →
  put_keys org_slug headers request w = (r, w') → settled i org id w'.
Proof.
  intros Hreq Hs H. unfold put_keys in H.
  do 2 (M_step H; settled_tac; [done|]).
  do 3 (M_step H; apply lift_inv in R as [_ ->]; [done|]).
  M_step H; [by settled_tac|].
  match type of R with load_keys (org_id ?x) _ = (Ok ?l, _) => rename x into org_row, l into existing end.
  assert (org_id org_row = org → ∃ k, k ∈ existing ∧ pk_key_id k = id ∧ pk_state k = Revoked) as Hseen.
  { intros <-. by eapply load_keys_sees_revoked; [apply Hs|]. }
  settled_tac. M_step H; apply lift_inv in R as [Hc ->]; [done|].
  match type of Hc with Ok ?u = _ => destruct u end.
  assert (∀ s, s ∈ request → org_id org_row = org → pk_key_id s = id → pk_state s = Revoked) as Hsay.
  { intros s Hin Ho Hid. destruct (Hseen Ho) as (k & Hk & <- & Hkr).
    by eapply (check_transitions_sound request existing k). }
  apply (write_keys_keeps i) in Hsay. apply (with_txn_rel _ (others_keep _ _ _) (λ _ : DbErr, from_db_err)) in Hsay.
  M_step H; apply (settled_step _ _ _ _ _ _ _ Hsay Hs) in R; [done|].
  by apply (settled_step _ _ _ _ _ _ _ (load_keys_keeps _ _ _ _) R) in H.
Qed.

(** C40: revocation is final. A submission whose key ids are distinct never
    brings a revoked key back, of its own organization or of another, whatever
    it says about that key, wherever the database fails, and whatever others
    do in between, as long as they do not bring one back either. *)
Theorem put_keys_never_reinstates org_slug headers request w r w' :
  txn w = None → NoDup (key_row_id <$> keys (db w)) → NoDup (pk_key_id <$> request) →
  put_keys org_slug headers request w = (r, w') →
  stay_revoked (db w) (db w').
Proof.
  intros Ht Hnd Hreq H row Hrow Hv.
  eapply (put_keys_settled _ _ _ (key_row_id row)) in H as [_ [_ Hr]]; [exact Hr|done|].
  split; [done|]. split; [done|]. by exists row.
Qed.
End revocation.
