(* ===== verification/Publish.v ===== *)
(** * The publish pipeline ([src/routes/publish.rs]) *)

From S2P Require Export Keys AuditFacts BinaryArtifact.

Record PublishResponse := mk_publish_response {
  pr_org : string;
  pr_name : string;
  pr_version : string;
  pr_sha256 : string;
}.

(** One field of the multipart body, as the extractor yields it. *)
Inductive Part : Type :=
| PartFailed (error : string)
| PartField (name : option string) (content : result string string).

(** What the signature covers. *)
Record VersionAttestation := mk_attestation {
  at_org : string;
  at_name : string;
  at_version : string;
  at_sha256 : string;
  at_size : Z;
  at_format : string;
  at_vcs_tag : string;
  at_vcs_commit : string;
  at_published_at : string;
  at_mirrors : json;
}.

(** The canonical projection of a publication, in the persistence crate. *)
Record MachinePublish := mk_machine_publish {
  mp_org_slug : string;
  mp_org_name : option string;
  mp_package_name : string;
  mp_description : option string;
  mp_vcs : string;
  mp_repo_url : string;
  mp_keywords : json;
  mp_version : string;
  mp_version_scheme : string;
  mp_sha256 : string;
  mp_size_bytes : Z;
  mp_format : string;
  mp_vcs_tag : option string;
  mp_vcs_commit : option string;
  mp_artifact_key : string;
  mp_manifest : json;
  mp_user_agent : option string;
}.

Class PublishExternals := {
  PUBLISH_META_FIELD : string;
  PUBLISH_ARTIFACT_FIELD : string;
  (** [serde_json::from_str] to a [PublishMeta]; [Manifest::validate] *)
  parse_meta : string → result string PublishMeta;
  manifest_validate : Manifest → option string;
  content_type_of : string → string;
  (** what the verification of binary artifacts uses *)
  publish_binary :: BinaryExternals;
  (** [DateTime::parse_from_rfc3339] in UTC *)
  parse_rfc3339 : string → option instant;
  version_attestation_preimage : VersionAttestation → result string string;
  (** [serde_json::to_value] of the mirror set, of the signature set and of
      the manifest *)
  mirrors_to_value : json → result string json;
  signatures_to_value : list DetachedSignature → result string json;
  manifest_to_value : Manifest → result string json;
  adopt_machine_publish : nat → MachinePublish → result OrmError unit;
}.

(** A test build; the modelled binary is not one. *)
Definition cfg_test : bool := false.

(** ** Statements of the package table *)

(** [INSERT .. ON CONFLICT (org_id, name) DO UPDATE]: a conflicting row keeps
    its identity, creation time, index sequence and signed index. *)
Definition upsert_row (row : PackageRow) (d : Db) : result DbErr (unit * Db) :=
  let same r := (r.(pkg_org_id) =? row.(pkg_org_id))%N && (r.(pkg_name) =s row.(pkg_name)) in
  if existsb same d.(packages)
  then Ok (tt, set_packages (map (λ r,
         if same r
         then mk_package r.(pkg_id) r.(pkg_org_id) r.(pkg_name) row.(pkg_description) row.(pkg_vcs)
                row.(pkg_repo_url) row.(pkg_version_scheme) row.(pkg_tags) r.(pkg_created_at)
                r.(pkg_index_sequence) r.(pkg_signed_index)
         else r)) d)
  else if existsb (λ r, (r.(pkg_id) =? row.(pkg_id))%N) d.(packages)
  then Err UniqueConstraintViolation
  else Ok (tt, set_packages (λ l, l ++ [row])%list d).

Definition with_sequence (n : Z) (r : PackageRow) : PackageRow :=
  mk_package r.(pkg_id) r.(pkg_org_id) r.(pkg_name) r.(pkg_description) r.(pkg_vcs)
    r.(pkg_repo_url) r.(pkg_version_scheme) r.(pkg_tags) r.(pkg_created_at) n r.(pkg_signed_index).

(** [update] of the [index_sequence] column of one row. *)
Definition update_sequence (id : uuid) (n : Z) (d : Db) : result DbErr (unit * Db) :=
  if existsb (λ r, (r.(pkg_id) =? id)%N) d.(packages)
  then Ok (tt, set_packages (map (λ r, if (r.(pkg_id) =? id)%N then with_sequence n r else r)) d)
  else Err DbOther.

(** [i64::saturating_add]. *)
Definition i64_saturating_succ (n : Z) : Z := Z.min i64_max (n + 1).

Definition is_commit (value : string) : bool :=
  ((slen value =? 40) || (slen value =? 64)) && sall is_ascii_hexdigit value.
Definition canonical_commit (value : string) : option string :=
  if is_commit value then Some (to_ascii_lowercase value) else None.

Definition validate_verified_vcs_commit (declared verified : option string) : ApiResult unit :=
  match declared with
  | None => Ok tt
  | Some declared =>
      match verified with
      | None => Err (bad_request "vcs_commit_mismatch"
          "publish metadata declares a VCS commit, but the verified tag did not resolve directly to a commit")
      | Some verified =>
          reject_if (negb (is_some (canonical_commit declared))
                     || negb (bool_decide (canonical_commit declared = canonical_commit verified)))
            (bad_request "vcs_commit_mismatch"
              ("publish metadata declares VCS commit `" +:+ declared
               +:+ "`, but tag verification resolved `" +:+ verified +:+ "`"))
      end
  end.

Definition legacy_version_matches (existing : VersionRow) (meta : PublishMeta) (actual_sha : string)
    (artifact_len : Z) (artifact_key : string) : bool :=
  (existing.(ver_sha256) =s actual_sha)
  && (existing.(ver_size) =? artifact_len)
  && (existing.(ver_format) =s meta.(meta_format))
  && (existing.(ver_vcs_tag) =s meta.(meta_vcs_tag))
  && bool_decide (existing.(ver_vcs_commit) = meta.(meta_vcs_commit))
  && (existing.(ver_artifact_key) =s artifact_key).

Definition user_agent_of (headers : HeaderMap) : option string :=
  v ← header_get headers "user-agent"; v.

Section publish.
Context `{ext : Externals} `{web : WebExternals} `{ver : VerifyExternals} `{sto : StoreExternals}
  `{sgn : SigningExternals} `{aext : AuditExternals} `{pub : PublishExternals}.

Fixpoint read_parts (parts : list Part) (meta : option PublishMeta) (artifact : option string)
    : ApiResult (PublishMeta * string) :=
  match parts with
  | [] =>
      meta ← ok_or (bad_request "invalid_meta" "missing meta field") meta;
      artifact ← ok_or (bad_request "invalid_artifact" "missing artifact field") artifact;
      mret (meta, artifact)
  | PartFailed e :: _ => Err (bad_request "invalid_multipart" e)
  | PartField None _ :: _ =>
      Err (bad_request "invalid_multipart" "multipart fields must have a name")
  | PartField (Some name) content :: parts =>
      if name =s PUBLISH_META_FIELD then
        reject_if (is_some meta) (bad_request "invalid_multipart"
          ("duplicate multipart field `" +:+ PUBLISH_META_FIELD +:+ "`"));;
        text ← map_err (bad_request "invalid_meta") content;
        parsed ← map_err (bad_request "invalid_meta") (parse_meta text);
        read_parts parts (Some parsed) artifact
      else if name =s PUBLISH_ARTIFACT_FIELD then
        reject_if (is_some artifact) (bad_request "invalid_multipart"
          ("duplicate multipart field `" +:+ PUBLISH_ARTIFACT_FIELD +:+ "`"));;
        bytes ← map_err (bad_request "invalid_artifact") content;
        read_parts parts meta (Some bytes)
      else Err (bad_request "invalid_multipart" ("unexpected multipart field `" +:+ name +:+ "`"))
  end.

Definition read_multipart (parts : list Part) : ApiResult (PublishMeta * string) :=
  read_parts parts None None.

Definition find_package_row (org_row : OrgRow) (name : string) : M ApiErr (option PackageRow) :=
  db_q (on_db (read (find_package_by_name org_row.(org_id) name))).

Definition upsert_package (org_row : OrgRow) (name : string) (meta : PublishMeta)
    : M ApiErr PackageRow :=
  let m := meta.(manifest) in
  id ← uuid_v4;
  t ← now;
  db_q (in_txn_rc (upsert_row {|
    pkg_id := id;
    pkg_org_id := org_row.(org_id);
    pkg_name := name;
    pkg_description := m.(m_description);
    pkg_vcs := m.(m_vcs);
    pkg_repo_url := m.(m_repo_url);
    pkg_version_scheme := m.(m_version_scheme);
    pkg_tags := JArr (map JStr m.(m_keywords));
    pkg_created_at := t;
    pkg_index_sequence := 1;
    pkg_signed_index := None |}));;
  found ← db_q (in_txn (read (find_package_by_name org_row.(org_id) name)));
  row ← lift (ok_or (mk_api_err StatusCode.INTERNAL_SERVER_ERROR "package_upsert_missing"
                 "package row missing immediately after upsert") found);
  let next := Z.max 1 (i64_saturating_succ row.(pkg_index_sequence)) in
  db_q (in_txn (update_sequence row.(pkg_id) next));;
  mret (with_sequence next row).

(** The call into the persistence crate. *)
Definition adopt (input : MachinePublish) : M OrmError unit := λ w,
  (adopt_machine_publish w.(tick) input, bump w).

Definition adopt_canonical_publish (st : AppState) (org_row : OrgRow) (meta : PublishMeta)
    (actual_sha : string) (artifact_len : Z) (artifact_key : string) (user_agent : option string)
    : M ApiErr unit :=
  if negb st.(registry_write) then
    if cfg_test then mret tt
    else fail (service_unavailable "registry_data_plane_unavailable"
           "canonical registry write context is not configured")
  else
    let m := meta.(manifest) in
    manifest ← lift (map_err
      (λ e, bad_request "invalid_manifest" ("manifest serialization failed: " +:+ e))
      (manifest_to_value m));
    with_err map_orm_error (adopt {|
         mp_org_slug := m.(m_org);
         mp_org_name := Some org_row.(org_slug);
         mp_package_name := m.(m_name);
         mp_description := m.(m_description);
         mp_vcs := m.(m_vcs);
         mp_repo_url := m.(m_repo_url);
         mp_keywords := JArr (map JStr m.(m_keywords));
         mp_version := m.(m_version);
         mp_version_scheme := m.(m_version_scheme);
         mp_sha256 := actual_sha;
         mp_size_bytes := artifact_len;
         mp_format := meta.(meta_format);
         mp_vcs_tag := Some meta.(meta_vcs_tag);
         mp_vcs_commit := meta.(meta_vcs_commit);
         mp_artifact_key := artifact_key;
         mp_manifest := manifest;
         mp_user_agent := user_agent |}).

(** [anyhow::Error] becomes an internal error. *)
Definition any_q {A} (m : M string A) : M ApiErr A := with_err (λ _, from_anyhow) m.

(** *** The checks on the payload *)

(** The manifest, digest, size and layout, against the URL and the bytes. *)
Definition check_payload (org_slug name ver : string) (meta : PublishMeta) (artifact : string)
    : ApiResult unit :=
  match manifest_validate meta.(manifest) with
  | Some e => Err (bad_request "invalid_manifest" e)
  | None => Ok tt
  end;;
  let m := meta.(manifest) in
  reject_if (negb (m.(m_org) =s org_slug) || negb (m.(m_name) =s name) || negb (m.(m_version) =s ver))
    (bad_request "manifest_url_mismatch"
      ("manifest says " +:+ m.(m_org) +:+ "/" +:+ m.(m_name) +:+ "@" +:+ m.(m_version)
       +:+ ", url says " +:+ org_slug +:+ "/" +:+ name +:+ "@" +:+ ver));;
  let actual_sha := digest_hex artifact in
  reject_if (negb (actual_sha =s meta.(meta_sha256)))
    (bad_request "sha256_mismatch"
      ("client declared " +:+ meta.(meta_sha256) +:+ ", server computed " +:+ actual_sha));;
  reject_if (negb (slen artifact =? meta.(meta_size)))
    (bad_request "artifact_size_mismatch"
      ("client declared " +:+ dec_of_Z meta.(meta_size) +:+ " bytes, server received "
       +:+ dec_of_Z (slen artifact)));;
  map_err (bad_request "invalid_binary_artifact") (verify_publish meta artifact);;
  mret tt.

Definition check_tag (st : AppState) (meta : PublishMeta) : M ApiErr unit :=
  let m := meta.(manifest) in
  check ← any_q (verify st.(verifier) m.(m_vcs) m.(m_repo_url) meta.(meta_vcs_tag));
  match check with
  | MissingTag => fail (bad_request "tag_not_found"
      ("tag `" +:+ meta.(meta_vcs_tag) +:+ "` not found on " +:+ m.(m_repo_url)
       +:+ "; authors must tag the backing repo before publishing"))
  | Verified commit => lift (validate_verified_vcs_commit meta.(meta_vcs_commit) commit)
  | Skipped => mret tt
  end.

Definition published_instant (meta : PublishMeta) : M ApiErr instant :=
  match meta.(meta_published_at) with
  | Some raw => lift (ok_or (bad_request "invalid_published_at"
                        "published_at must be an RFC 3339 timestamp") (parse_rfc3339 raw))
  | None => now
  end.

Definition attestation (org_slug name ver : string) (meta : PublishMeta) (actual_sha : string)
    (artifact_len : Z) (published_at : instant) : VersionAttestation := {|
  at_org := org_slug;
  at_name := name;
  at_version := ver;
  at_sha256 := actual_sha;
  at_size := Z.max 0 artifact_len;
  at_format := meta.(meta_format);
  at_vcs_tag := meta.(meta_vcs_tag);
  at_vcs_commit := default "" meta.(meta_vcs_commit);
  at_published_at := default (rfc3339 published_at) meta.(meta_published_at);
  at_mirrors := meta.(meta_mirrors) |}.

Definition check_signatures (org_row : OrgRow) (org_slug name ver : string) (meta : PublishMeta)
    (actual_sha : string) (artifact_len : Z) (published_at : instant) : M ApiErr unit :=
  if bool_decide (length meta.(meta_signatures) = 0%nat) then mret tt
  else
    preimage ← lift (map_err
      (λ e, bad_request "invalid_signature" ("cannot reconstruct the signed payload: " +:+ e))
      (version_attestation_preimage
         (attestation org_slug name ver meta actual_sha artifact_len published_at)));
    enrolled ← load_keys org_row.(org_id);
    lift (map_err
      (λ e, bad_request "signature_invalid" ("no enrolled key verifies this publication: " +:+ e))
      (verify_any preimage meta.(meta_signatures) enrolled));;
    mret tt.

(** *** Recording *)

Definition exists_err (org_slug name ver suffix : string) : ApiErr :=
  conflict "version_exists" (org_slug +:+ "/" +:+ name +:+ "@" +:+ ver +:+ suffix).

(** The immutability check before any mutation. *)
Definition check_existing (st : AppState) (org_row : OrgRow) (org_slug name ver : string)
    (meta : PublishMeta) (actual_sha : string) (artifact_len : Z) (key : string)
    (user_agent : option string) : M ApiErr unit :=
  pkg ← find_package_row org_row name;
  match pkg with
  | None => mret tt
  | Some pkg =>
      existing ← db_q (on_db (read (find_version_row pkg.(pkg_id) ver)));
      match existing with
      | None => mret tt
      | Some existing =>
          if negb (legacy_version_matches existing meta actual_sha artifact_len key)
          then fail (exists_err org_slug name ver
                 " is already published with different immutable facts")
          else
            adopt_canonical_publish st org_row meta actual_sha artifact_len key user_agent;;
            fail (exists_err org_slug name ver
              " is already published; canonical projection reconciled")
      end
  end.

Definition version_row (id : uuid) (pkg : PackageRow) (ver : string) (meta : PublishMeta)
    (actual_sha : string) (artifact_len : Z) (key : string) (published_at : instant)
    (mirrors signatures : json) : VersionRow := {|
  ver_id := id;
  ver_package_id := pkg.(pkg_id);
  ver_version := ver;
  ver_sha256 := actual_sha;
  ver_size := artifact_len;
  ver_format := meta.(meta_format);
  ver_vcs_tag := meta.(meta_vcs_tag);
  ver_vcs_commit := meta.(meta_vcs_commit);
  ver_artifact_key := key;
  ver_yanked := false;
  ver_published_at := published_at;
  ver_mirrors := mirrors;
  ver_signatures := signatures |}.

(** The package upsert and the version insert, in one transaction. *)
Definition record_version (st : AppState) (org_row : OrgRow) (org_slug name ver : string)
    (meta : PublishMeta) (actual_sha : string) (artifact_len : Z) (key : string)
    (user_agent : option string) (published_at : instant) (mirrors signatures : json)
    : M ApiErr unit :=
  db_q begin;;
  upserted ← attempt (upsert_package org_row name meta);
  match upserted with
  | Err err => rollback;; fail err
  | Ok pkg =>
      id ← uuid_v4;
      inserted ← attempt (in_txn (insert_version
        (version_row id pkg ver meta actual_sha artifact_len key published_at mirrors signatures)));
      match inserted with
      | Ok _ => db_q commit
      | Err err =>
          rollback;;
          match err with
          | DbOther => fail from_db_err
          | UniqueConstraintViolation =>
              existing ← db_q (on_db (read (find_version_row pkg.(pkg_id) ver)));
              match existing with
              | Some existing =>
                  if legacy_version_matches existing meta actual_sha artifact_len key
                  then adopt_canonical_publish st org_row meta actual_sha artifact_len key user_agent
                  else mret tt
              | None => mret tt
              end;;
              fail (exists_err org_slug name ver " is already published; versions are immutable")
          end
      end
  end.

(** What follows the commit: the canonical projection and the audit entry. *)
Definition finish (st : AppState) (token : TokenRow) (org_row : OrgRow) (org_slug name ver : string)
    (meta : PublishMeta) (actual_sha : string) (artifact_len : Z) (key : string)
    (user_agent : option string) : M ApiErr PublishResponse :=
  adopt_canonical_publish st org_row meta actual_sha artifact_len key user_agent;;
  record org_row.(org_id) token AuditTrail.Publish (org_slug +:+ "/" +:+ name +:+ "@" +:+ ver)
    (Some ("sha256=" +:+ actual_sha));;
  mret (mk_publish_response org_slug name ver actual_sha).

Definition publish (st : AppState) (org_slug name ver : string) (headers : HeaderMap)
    (multipart : list Part) : M ApiErr PublishResponse :=
  token ← require_token headers;
  let user_agent := user_agent_of headers in
  found ← db_q (on_db (read (find_org_by_slug org_slug)));
  org_row ← lift (ok_or (mk_api_err StatusCode.NOT_FOUND "org_not_found"
      ("org `" +:+ org_slug +:+ "` does not exist; claim it first with `zed org claim "
       +:+ org_slug +:+ "`")) found);
  lift (authorize_publish token.(tok_org_id) (RoleImpl.parse token.(tok_role)) org_row.(org_id));;
  '(meta, artifact) ← lift (read_multipart multipart);
  lift (check_payload org_slug name ver meta artifact);;
  let actual_sha := digest_hex artifact in
  check_tag st meta;;
  let key := artifact_key actual_sha meta.(meta_format) in
  let artifact_len := wrap_i64 (slen artifact) in
  let alias_keys := guessable_alias_keys org_slug name ver meta.(meta_vcs_tag) meta.(meta_format)
                      meta.(manifest).(m_repo_url) in
  published_at ← published_instant meta;
  check_signatures org_row org_slug name ver meta actual_sha artifact_len published_at;;
  stored_mirrors ← lift (map_err
    (λ e, bad_request "invalid_mirrors" ("mirror set is not encodable: " +:+ e))
    (mirrors_to_value meta.(meta_mirrors)));
  stored_signatures ← lift (map_err
    (λ e, bad_request "invalid_signature" ("signature set is not encodable: " +:+ e))
    (signatures_to_value meta.(meta_signatures)));
  check_existing st org_row org_slug name ver meta actual_sha artifact_len key user_agent;;
  any_q (put_verified st.(store) key artifact (content_type_of meta.(meta_format)) actual_sha);;
  attempt (put_public_aliases st.(store) alias_keys artifact (content_type_of meta.(meta_format)) actual_sha);;
  record_version st org_row org_slug name ver meta actual_sha artifact_len key user_agent published_at
    stored_mirrors stored_signatures;;
  finish st token org_row org_slug name ver meta actual_sha artifact_len key user_agent.
End publish.
