(* ===== verification/PublishFacts.v ===== *)
(** * What a publication does

    The run of [publish] as one atomic step between background steps, and what
    follows from it: authorization, immutability, stored bytes. *)

From S2P Require Export Publish StorageFacts.

(** ** Background steps

    What happens to the tables around a handler: commits of other processes,
    and entries of the audit trail. *)

Section background.
Context `{ext : Externals}.

Inductive background_step : Db → Db → Prop :=
| by_others t d : background_step d (others_db t d)
| by_audit f d : background_step d (set_audits f d).

Definition background : Db → Db → Prop := rtc background_step.

Lemma background_others t d : background d (others_db t d).
Proof. apply rtc_once. constructor. Qed.

Lemma background_audit f d : background d (set_audits f d).
Proof. apply rtc_once. constructor. Qed.

(** Whatever all other writers maintain, and the audit trail does not touch,
    holds across background steps. *)
Lemma background_ind_rel (K : Db → Db → Prop) `{!PreOrder K} :
  (∀ t d, K d (others_db t d)) → (∀ f d, K d (set_audits f d)) →
  ∀ d d', background d d' → K d d'.
Proof.
  intros Ho Ha d d' H. induction H as [d|d d1 d2 Hs _ IH]; [done|].
  etrans; [|exact IH]. by destruct Hs.
Qed.
End background.

#[export] Instance background_preorder `{ext : Externals} : PreOrder background.
Proof. unfold background. typeclasses eauto. Qed.

(** *** Steps that leave the tables alone *)

Section quiet.
Context `{ext : Externals} `{sto : StoreExternals}.

Lemma quiet_on_objects {A} (f : Objects → result IoErr (A * Objects)) : respects db_quiet (on_objects f).
Proof. intros w r w' H. by apply on_objects_inv in H as (_ & Hd & Ht & _). Qed.

Lemma quiet_write_all path bytes : respects db_quiet (fs_write_all path bytes).
Proof. intros w r w'. unfold fs_write_all. by destruct (io_outcome _); intros [= _ <-]. Qed.

Lemma quiet_s3_put r : respects db_quiet (on_s3_put r).
Proof. intros w x w'. unfold on_s3_put. destruct (s3_put _ _ _). by intros [= _ <-]. Qed.

Lemma quiet_s3_read {A} (f : nat → Objects → result string A) : respects db_quiet (on_s3_read f).
Proof. by intros w x w' [= _ <-]. Qed.

Lemma quiet_put_memory max key bytes : respects db_quiet (put_memory max key bytes).
Proof. intros w r w'. unfold put_memory. destruct (memory_insert _ _ _ _); by intros [= _ <-]. Qed.

Lemma quiet_instant {E} : respects db_quiet (instant_now : M E nat).
Proof. by intros w x w' [= _ <-]. Qed.
End quiet.

#[export] Hint Resolve quiet_on_objects quiet_write_all quiet_s3_put quiet_s3_read quiet_put_memory
  quiet_instant : respects.

Section store_quiet.
Context `{ext : Externals} `{sto : StoreExternals} `{web : WebExternals} `{ver : VerifyExternals}.

Lemma quiet_put_verified store key bytes ct sha : respects db_quiet (put_verified store key bytes ct sha).
Proof.
  unfold put_verified, put_local, promote, put_s3, s3_object_matches, local_object_matches, io,
    fs_metadata, fs_open, fs_create_new, fs_hard_link, fs_remove_file, fs_sync, fs_create_dir_all.
  respects_tac.
Qed.
Hint Resolve quiet_put_verified : respects.

Lemma quiet_put_public_aliases store keys bytes ct sha :
  respects db_quiet (put_public_aliases store keys bytes ct sha).
Proof.
  unfold put_public_aliases. destruct store; [respects_tac|..];
    induction keys as [|k keys IH]; cbn [put_aliases]; respects_tac; apply IH.
Qed.

(** A tag check talks to GitHub only. *)
Lemma quiet_verify v vcs repo tag : respects db_quiet (verify v vcs repo tag).
Proof.
  intros w r w'. unfold verify.
  destruct (bool_decide _); [by intros [= _ <-]|].
  destruct (uses_git_tags vcs); cbn [negb]; [|by intros [= _ <-]].
  destruct (parse_github repo) as [[o p]|]; by intros [= _ <-].
Qed.

Lemma objects_verify v vcs repo tag : respects objects_quiet (verify v vcs repo tag).
Proof.
  intros w r w'. unfold verify.
  destruct (bool_decide _); [by intros [= _ <-]|].
  destruct (uses_git_tags vcs); cbn [negb]; [|by intros [= _ <-]].
  destruct (parse_github repo) as [[o p]|]; by intros [= _ <-].
Qed.
End store_quiet.

#[export] Hint Resolve quiet_put_verified quiet_put_public_aliases quiet_verify objects_verify : respects.

(** ** The parts of the pipeline *)

Section parts.
Context `{ext : Externals} `{web : WebExternals} `{ver : VerifyExternals} `{sto : StoreExternals}
  `{sgn : SigningExternals} `{aext : AuditExternals} `{pub : PublishExternals}.

Abbreviation in_background := (respects (db_rel background)).

Lemma append_closes_txn org token action subject detail w w' :
  append_chained org token action subject detail w = (Ok tt, w') → txn w' = None.
Proof.
  intros H. unfold append_chained in H. M_step H. M_step H. M_step H. M_step H. M_step H. M_step H.
  by apply commit_inv in H as (_ & _ & Ht & _).
Qed.

Lemma record_background org token action subject detail :
  in_background (record org token action subject detail).
Proof.
  unfold record. generalize APPEND_ATTEMPTS. intros n. induction n as [|n IH]; intros w r w' H Ht;
    cbn [record_loop] in H; [by apply mret_inv in H as [_ ->]|].
  M_step H; [by apply attempt_inv in R as (? & [=] & _)|]. apply attempt_inv in R as (x & [= ->] & R).
  assert (background (db w) (db w0)) as Hb.
  { pose proof (background_others (tick w) (db w)) as Ho.
    apply append_chained_run in R as [[-> _]|(row & -> & _)]; [done|].
    etrans; [exact Ho|]. etrans; [apply (background_others (S (tick w)))|apply background_audit]. }
  destruct x as [[]|e].
  - apply append_closes_txn in R. by apply mret_inv in H as [_ ->].
  - M_step H; apply rollback_inv in R0 as ([= ->] & _ & _ & Hdb & Htx).
    destruct (is_position_taken e); [|apply mret_inv in H as [_ ->]; split; [done|]; by rewrite Hdb].
    destruct (IH _ _ _ H Htx) as [? Hb2]. split; [done|]. rewrite Hdb in Hb2. by etrans.
Qed.

Lemma append_objects org token action subject detail :
  respects objects_quiet (append_chained org token action subject detail).
Proof. unfold append_chained, chain_timestamp. respects_tac. Qed.

Lemma record_objects org token action subject detail :
  respects objects_quiet (record org token action subject detail).
Proof.
  unfold record. generalize APPEND_ATTEMPTS. intros n. induction n as [|n IH]; cbn [record_loop];
    respects_tac; try apply append_objects; apply IH.
Qed.

Lemma require_token_background headers : in_background (require_token headers).
Proof.
  intros w r w' H Ht. apply require_token_run in H as (_ & Htx & Hdb & _).
  split; [congruence|]. destruct Hdb as [-> | ->]; [done|apply background_others].
Qed.

Lemma require_token_objects headers : respects objects_quiet (require_token headers).
Proof. intros w r w' H. by apply require_token_run in H as (? & _). Qed.

(** A call into the persistence crate touches neither the legacy tables nor
    the store. *)
Lemma quiet_adopt input : respects db_quiet (adopt input).
Proof. by intros w r w' [= _ <-]. Qed.
Lemma objects_adopt input : respects objects_quiet (adopt input).
Proof. by intros w r w' [= _ <-]. Qed.
End parts.

#[export] Hint Resolve record_background append_objects record_objects require_token_background
  require_token_objects quiet_adopt objects_adopt background_others : respects.
#[export] Hint Extern 1 (respects (db_rel background) (on_db (read _))) =>
  apply on_db_read_rel; [typeclasses eauto|apply background_others] : respects.

Section checks.
Context `{ext : Externals} `{web : WebExternals} `{ver : VerifyExternals} `{sto : StoreExternals}
  `{sgn : SigningExternals} `{aext : AuditExternals} `{pub : PublishExternals}.

Lemma adopt_canonical_background st org meta sha len key ua :
  respects (db_rel background) (adopt_canonical_publish st org meta sha len key ua).
Proof. unfold adopt_canonical_publish. respects_tac. Qed.

Lemma adopt_canonical_objects st org meta sha len key ua :
  respects objects_quiet (adopt_canonical_publish st org meta sha len key ua).
Proof. unfold adopt_canonical_publish. respects_tac. Qed.

Lemma check_tag_background st meta : respects (db_rel background) (check_tag st meta).
Proof. unfold check_tag, any_q. respects_tac. Qed.

Lemma check_tag_objects st meta : respects objects_quiet (check_tag st meta).
Proof. unfold check_tag, any_q. respects_tac. Qed.

Lemma check_signatures_background o slug name v meta sha len t :
  respects (db_rel background) (check_signatures o slug name v meta sha len t).
Proof. unfold check_signatures, load_keys, db_q. respects_tac. Qed.

Lemma check_signatures_objects o slug name v meta sha len t :
  respects objects_quiet (check_signatures o slug name v meta sha len t).
Proof. unfold check_signatures, load_keys, db_q. respects_tac. Qed.

Lemma published_instant_background meta : respects (db_rel background) (published_instant meta).
Proof. unfold published_instant. respects_tac. Qed.

Lemma published_instant_objects meta : respects objects_quiet (published_instant meta).
Proof. unfold published_instant. respects_tac. Qed.
End checks.

#[export] Hint Resolve adopt_canonical_background adopt_canonical_objects check_tag_background
  check_tag_objects check_signatures_background check_signatures_objects
  published_instant_background published_instant_objects : respects.

Section more_checks.
Context `{ext : Externals} `{web : WebExternals} `{ver : VerifyExternals} `{sto : StoreExternals}
  `{sgn : SigningExternals} `{aext : AuditExternals} `{pub : PublishExternals}.

Lemma check_existing_background st o slug name v meta sha len key ua :
  respects (db_rel background) (check_existing st o slug name v meta sha len key ua).
Proof. unfold check_existing, find_package_row, db_q. respects_tac. Qed.

Lemma check_existing_objects st o slug name v meta sha len key ua :
  respects objects_quiet (check_existing st o slug name v meta sha len key ua).
Proof. unfold check_existing, find_package_row, db_q. respects_tac. Qed.

Lemma finish_background st token o slug name v meta sha len key ua :
  respects (db_rel background) (finish st token o slug name v meta sha len key ua).
Proof. unfold finish. respects_tac. Qed.

Lemma finish_objects st token o slug name v meta sha len key ua :
  respects objects_quiet (finish st token o slug name v meta sha len key ua).
Proof. unfold finish. respects_tac. Qed.

Lemma record_version_objects st o slug name v meta sha len key ua t m s :
  respects objects_quiet (record_version st o slug name v meta sha len key ua t m s).
Proof. unfold record_version, upsert_package, db_q. respects_tac. Qed.
End more_checks.

#[export] Hint Resolve check_existing_background check_existing_objects finish_background
  finish_objects record_version_objects : respects.

(** ** The publication transaction *)

Section transaction.
Context `{ext : Externals} `{web : WebExternals} `{ver : VerifyExternals} `{sto : StoreExternals}
  `{sgn : SigningExternals} `{aext : AuditExternals} `{pub : PublishExternals}.

(** The package row of a publication, as it is proposed to the upsert. *)
Definition proposed_row (id : uuid) (t : instant) (org_row : OrgRow) (name : string)
    (m : Manifest) : PackageRow := {|
  pkg_id := id;
  pkg_org_id := org_row.(org_id);
  pkg_name := name;
  pkg_description := m.(m_description);
  pkg_vcs := m.(m_vcs);
  pkg_repo_url := m.(m_repo_url);
  pkg_version_scheme := m.(m_version_scheme);
  pkg_tags := JArr (map JStr m.(m_keywords));
  pkg_created_at := t;
  pkg_index_sequence := 1;
  pkg_signed_index := None |}.

(** The tables after the package part of a publication, and the row it
    returns. *)
Definition upserted (org_row : OrgRow) (name : string) (meta : PublishMeta) (d : Db)
    (pkg : PackageRow) (d' : Db) : Prop :=
  ∃ id t d1 row,
    upsert_row (proposed_row id t org_row name meta.(manifest)) d = Ok (tt, d1) ∧
    find_package_by_name org_row.(org_id) name d1 = Some row ∧
    let next := Z.max 1 (i64_saturating_succ row.(pkg_index_sequence)) in
    update_sequence row.(pkg_id) next d1 = Ok (tt, d') ∧ pkg = with_sequence next row.

(** A statement of the open transaction: what others committed, then it. *)
Lemma in_txn_rc_step {A} (f : Db → result DbErr (A * Db)) w r w' d :
  txn w = Some d → in_txn_rc f w = (r, w') →
  db w' = db w ∧ objects w' = objects w ∧
  ∃ d0 d1, background d d0 ∧ txn w' = Some d1 ∧ (d1 = d0 ∨ ∃ a, r = Ok a ∧ f d0 = Ok (a, d1)) ∧
    ∀ a, r = Ok a → f d0 = Ok (a, d1).
Proof.
  intros Ht H. apply in_txn_rc_inv in H as (_ & O & D & H). split; [done|]. split; [done|].
  pose proof (background_others (tick w) d) as B. rewrite Ht in H.
  destruct H as [(d0 & a & d' & [= <-] & Hf & -> & Ht')|(e & -> & [Ht'|(d0 & [= <-] & Ht')] & _)].
  - exists (others_db (tick w) d), d'. split; [done|]. split; [done|]. split; [eauto|]. by intros b [= <-].
  - exists d, d. split; [done|]. split; [done|]. split; [by left|done].
  - exists (others_db (tick w) d), (others_db (tick w) d). split; [done|]. split; [done|]. split; [by left|done].
Qed.

Lemma in_txn_run {A} (f : Db → result DbErr (A * Db)) d w (r : ApiResult A) w' :
  txn w = Some d → db_q (in_txn f) w = (r, w') →
  db w' = db w ∧
  ((∃ a d', f d = Ok (a, d') ∧ r = Ok a ∧ txn w' = Some d') ∨ (∃ e, r = Err e ∧ txn w' = Some d)).
Proof.
  intros Ht H. apply with_err_inv in H as (x & H & ->). apply in_txn_inv in H as (_ & _ & Hdb & H).
  split; [done|]. destruct H as [(d1 & a & d' & Hd & Hf & -> & Htx)|(e & -> & Htx & _)].
  - left. exists a, d'. split_and!; [congruence|done..].
  - right. eexists. split; [done|congruence].
Qed.

Lemma upsert_package_run org_row name meta d w r w' :
  txn w = Some d → upsert_package org_row name meta w = (r, w') →
  db w' = db w ∧
  ((∃ e, r = Err e) ∨
   ∃ pkg d0 d', r = Ok pkg ∧ txn w' = Some d' ∧ background d d0 ∧ upserted org_row name meta d0 pkg d').
Proof.
  intros Ht H. unfold upsert_package in H.
  M_step H; [by apply uuid_v4_inv in R as ([=] & _)|].
  apply uuid_v4_inv in R as ([= ->] & _ & _ & Hdb1 & Ht1). rewrite Ht in Ht1.
  M_step H; [by apply now_inv in R as ([=] & _)|].
  apply now_inv in R as ([= ->] & _ & _ & Hdb2 & Ht2). rewrite Ht1 in Ht2.
  M_step H; apply with_err_inv in R as (x & R & Hx);
    apply (in_txn_rc_step _ _ _ _ _ Ht2) in R as (Hdb3 & _ & d0 & d1 & Hb & Ht3 & _ & Hup).
  { split; [congruence|]. left. eauto. }
  destruct x as [[]|]; [|done]. specialize (Hup tt eq_refl). clear Hx.
  M_step H; apply (in_txn_run _ _ _ _ _ Ht3) in R as [Hdb4 R].
  { split; [congruence|]. left. eauto. }
  destruct R as [(found & d1' & [= Hf <-] & [= ->] & Ht4)|(? & [=] & _)].
  M_step H; apply lift_inv in R as [Hrow ->].
  { split; [congruence|]. left. eauto. }
  destruct found as [row|]; [|done]. injection Hrow as ->.
  M_step H; apply (in_txn_run _ _ _ _ _ Ht4) in R as [Hdb5 R].
  { split; [congruence|]. left. eauto. }
  destruct R as [([] & d2 & Hseq & [= ->] & Ht5)|(? & [=] & _)].
  apply mret_inv in H as [-> ->]. split; [congruence|]. right.
  eexists _, d0, d2. split_and!; [done..|]. eexists _, _, d1, row. by split_and!.
Qed.

(** The transaction as a whole: nothing but background steps, or exactly the
    package upsert followed by the version insert. *)
Definition recorded (org_row : OrgRow) (name v : string) (meta : PublishMeta) (sha : string)
    (len : Z) (key : string) (t : instant) (mirrors signatures : json) (d d' : Db) : Prop :=
  ∃ id pkg d1, upserted org_row name meta d pkg d1 ∧
    insert_version (version_row id pkg v meta sha len key t mirrors signatures) d1 = Ok (tt, d').

Lemma record_version_run st org_row slug name v meta sha len key ua t mirrors signatures w r w' :
  txn w = None →
  record_version st org_row slug name v meta sha len key ua t mirrors signatures w = (r, w') →
  txn w' = None ∧
  ((background (db w) (db w') ∧ r ≠ Ok tt) ∨
   (∃ d, background (db w) d ∧ recorded org_row name v meta sha len key t mirrors signatures d (db w'))).
Proof.
  intros Ht H. unfold record_version in H. pose proof (background_others (tick w) (db w)) as Hb.
  M_step H; apply with_err_inv in R as (x & R & Hx); apply begin_inv in R as (_ & _ & Hdb & R).
  { destruct R as [[-> _]|[-> Ht1]]; [done|]. split; [congruence|]. left. by rewrite Hdb. }
  destruct R as [[-> Ht1]|[-> _]]; [|done]. rewrite <- Hdb in *. clear Hx.
  M_step H; [by apply attempt_inv in R as (? & [=] & _)|]. apply attempt_inv in R as (x & [= ->] & R).
  apply (upsert_package_run _ _ _ _ _ _ _ Ht1) in R as [Hdb1 R].
  destruct R as [[e ->]|(pkg & d0 & d1 & -> & Ht2 & Hb0 & Hup)].
  { M_step H; apply rollback_inv in R as ([= ->] & _ & _ & Hdb2 & Htx).
    apply fail_inv in H as [-> ->]. split; [done|]. left. split; [|done]. by rewrite Hdb2, Hdb1. }
  M_step H; [by apply uuid_v4_inv in R as ([=] & _)|].
  apply uuid_v4_inv in R as ([= ->] & _ & _ & Hdb2 & Ht3). rewrite Ht2 in Ht3.
  M_step H; [by apply attempt_inv in R as (? & [=] & _)|]. apply attempt_inv in R as (x & [= ->] & R).
  apply in_txn_inv in R as (_ & _ & Hdb3 & R).
  assert (db w3 = db w0) as Hdb4 by congruence.
  destruct x as [[]|err].
  - destruct R as [(d1' & [] & d2 & Hd1 & Hins & _ & Ht4)|(? & [=] & _)].
    assert (d1' = d1) as -> by congruence.
    apply with_err_inv in H as (y & H & ->). apply commit_inv in H as (_ & _ & Htx & H).
    split; [done|]. rewrite Ht4 in H.
    assert (db w' = d2 → ∃ d, background (db w) d ∧
      recorded org_row name v meta sha len key t mirrors signatures d (db w')) as Hrec.
    { intros ->. exists d0. split; [by etrans|]. by eexists _, pkg, d1. }
    destruct H as [[_ [= H]]|[-> [H|[= H]]]]; [right; auto|left|right; auto].
    split; [|done]. by rewrite H, Hdb4.
  - assert (respects (db_rel background) (match err with
      | DbOther => fail from_db_err
      | UniqueConstraintViolation =>
          existing ← db_q (on_db (read (find_version_row pkg.(pkg_id) v)));
          match existing with
          | Some existing =>
              if legacy_version_matches existing meta sha len key
              then adopt_canonical_publish st org_row meta sha len key ua
              else mret tt
          | None => mret tt
          end;;
          fail (exists_err slug name v " is already published; versions are immutable")
      end : M ApiErr unit)) as Hrest.
    { destruct err; unfold db_q; respects_tac. }
    M_step H; apply rollback_inv in R0 as ([= ->] & _ & _ & Hdb5 & Htx).
    pose proof H as Hq. destruct (Hrest _ _ _ H Htx) as [Hn Hb2]. split; [done|]. left. split.
    + rewrite Hdb5, Hdb4 in Hb2. by etrans.
    + clear H. destruct err; [|by apply fail_inv in Hq as [-> _]].
      intros ->. M_step Hq. M_step Hq. by apply fail_inv in Hq as [[=] _].
Qed.
End transaction.

(** ** The pipeline up to the first write *)

Section admission.
Context `{ext : Externals} `{web : WebExternals} `{ver : VerifyExternals} `{sto : StoreExternals}
  `{sgn : SigningExternals} `{aext : AuditExternals} `{pub : PublishExternals}.

(** Everything [publish] does before it writes: it returns what it goes on
    with. *)
Definition prepare (st : AppState) (org_slug name v : string) (headers : HeaderMap)
    (multipart : list Part) : M ApiErr (TokenRow * OrgRow * PublishMeta * string * instant * json * json) :=
  token ← require_token headers;
  found ← db_q (on_db (read (find_org_by_slug org_slug)));
  org_row ← lift (ok_or (mk_api_err StatusCode.NOT_FOUND "org_not_found"
      ("org `" +:+ org_slug +:+ "` does not exist; claim it first with `zed org claim "
       +:+ org_slug +:+ "`")) found);
  lift (authorize_publish token.(tok_org_id) (RoleImpl.parse token.(tok_role)) org_row.(org_id));;
  '(meta, artifact) ← lift (read_multipart multipart);
  lift (check_payload org_slug name v meta artifact);;
  check_tag st meta;;
  t ← published_instant meta;
  check_signatures org_row org_slug name v meta (digest_hex artifact) (wrap_i64 (slen artifact)) t;;
  mirrors ← lift (map_err
    (λ e, bad_request "invalid_mirrors" ("mirror set is not encodable: " +:+ e))
    (mirrors_to_value meta.(meta_mirrors)));
  signatures ← lift (map_err
    (λ e, bad_request "invalid_signature" ("signature set is not encodable: " +:+ e))
    (signatures_to_value meta.(meta_signatures)));
  check_existing st org_row org_slug name v meta (digest_hex artifact) (wrap_i64 (slen artifact))
    (artifact_key (digest_hex artifact) meta.(meta_format)) (user_agent_of headers);;
  mret (token, org_row, meta, artifact, t, mirrors, signatures).

Definition write_out (st : AppState) (org_slug name v : string) (headers : HeaderMap)
    (x : TokenRow * OrgRow * PublishMeta * string * instant * json * json)
    : M ApiErr PublishResponse :=
  let '(token, org_row, meta, artifact, t, mirrors, signatures) := x in
  let sha := digest_hex artifact in
  let key := artifact_key sha meta.(meta_format) in
  let len := wrap_i64 (slen artifact) in
  let ct := content_type_of meta.(meta_format) in
  any_q (put_verified st.(store) key artifact ct sha);;
  attempt (put_public_aliases st.(store) (guessable_alias_keys org_slug name v meta.(meta_vcs_tag)
    meta.(meta_format) meta.(manifest).(m_repo_url)) artifact ct sha);;
  record_version st org_row org_slug name v meta sha len key (user_agent_of headers) t mirrors signatures;;
  finish st token org_row org_slug name v meta sha len key (user_agent_of headers).

Lemma publish_split st slug name v headers parts w :
  publish st slug name v headers parts w =
  (prepare st slug name v headers parts ≫= write_out st slug name v headers) w.
Proof.
  unfold publish, prepare, mbind, M_bind.
  repeat match goal with
  | |- context [match ?m ?x with (_, _) => _ end] =>
      lazymatch m with
      | match _ with _ => _ end => fail
      | _ => destruct (m x) as [[?|?] ?]; [|reflexivity]
      end
  | |- context [match ?p with (_, _) => _ end] => is_var p; destruct p
  end.
  reflexivity.
Qed.

Lemma prepare_background st slug name v headers parts :
  respects (db_rel background) (prepare st slug name v headers parts).
Proof. unfold prepare, db_q. respects_tac. Qed.

Lemma prepare_objects st slug name v headers parts :
  respects objects_quiet (prepare st slug name v headers parts).
Proof. unfold prepare, db_q. respects_tac. Qed.
End admission.

(** ** What an admitted publication has passed *)

Section admitted.
Context `{ext : Externals} `{web : WebExternals} `{ver : VerifyExternals} `{sto : StoreExternals}
  `{sgn : SigningExternals} `{aext : AuditExternals} `{pub : PublishExternals}.

(** The request acts for a live token that may publish for the organization
    of the URL, in the tables as they were at some moment of the request. *)
Definition authorized (headers : HeaderMap) (slug : string) (d : Db) (token : TokenRow)
    (org_row : OrgRow) : Prop :=
  (∃ d1 t, background d d1 ∧ token_verdict headers d1 t = Ok token) ∧
  (∃ d1, background d d1 ∧ find_org_by_slug slug d1 = Some org_row) ∧
  may_publish token org_row.(org_id).

(** The uploaded fields are consistent with each other and with the URL. *)
Definition consistent (slug name v : string) (parts : list Part) (meta : PublishMeta)
    (artifact : string) : Prop :=
  read_multipart parts = Ok (meta, artifact) ∧
  manifest_validate meta.(manifest) = None ∧
  meta.(manifest).(m_org) = slug ∧ meta.(manifest).(m_name) = name ∧
  meta.(manifest).(m_version) = v ∧
  meta.(meta_sha256) = digest_hex artifact ∧ meta.(meta_size) = slen artifact ∧
  is_ok (verify_publish meta artifact) = true.

(** The tag of the repository vouches for the declared commit, unless no
    policy or forge applies. *)
Definition tag_vouched (st : AppState) (meta : PublishMeta) : Prop :=
  ∃ w1 w2 check, verify st.(verifier) meta.(manifest).(m_vcs) meta.(manifest).(m_repo_url)
      meta.(meta_vcs_tag) w1 = (Ok check, w2) ∧
    match check with
    | MissingTag => False
    | Verified commit => validate_verified_vcs_commit meta.(meta_vcs_commit) commit = Ok tt
    | Skipped => True
    end.

(** A signed publication carries a signature, over exactly what is published,
    of a key the organization has enrolled and not revoked. *)
Definition vouched_by_key (slug name v : string) (d : Db) (org_row : OrgRow) (meta : PublishMeta)
    (artifact : string) (t : instant) : Prop :=
  meta.(meta_signatures) = [] ∨
  ∃ preimage d1 s k,
    version_attestation_preimage (attestation slug name v meta (digest_hex artifact)
      (wrap_i64 (slen artifact)) t) = Ok preimage ∧
    background d d1 ∧ s ∈ meta.(meta_signatures) ∧
    admissible preimage (stored_keys org_row.(org_id) d1) s k.

Definition admitted (st : AppState) (slug name v : string) (headers : HeaderMap) (parts : list Part)
    (d : Db) (token : TokenRow) (org_row : OrgRow) (meta : PublishMeta) (artifact : string)
    (t : instant) : Prop :=
  authorized headers slug d token org_row ∧ consistent slug name v parts meta artifact ∧
  tag_vouched st meta ∧ vouched_by_key slug name v d org_row meta artifact t.

Lemma check_payload_Ok slug name v meta artifact parts :
  read_multipart parts = Ok (meta, artifact) →
  check_payload slug name v meta artifact = Ok tt → consistent slug name v parts meta artifact.
Proof.
  intros Hp H. unfold check_payload in H. inv_bind.
  destruct (manifest_validate _) eqn:Em; [done|]. unfold reject_if in *. cbn beta zeta in *.
  repeat match goal with
  | H : (if ?b then Err _ else Ok _) = Ok _ |- _ => destruct b eqn:?; [discriminate H|clear H]
  end.
  bool_to_prop. unfold consistent. split_and!; try done; try congruence.
  by destruct (verify_publish meta artifact).
Qed.

Lemma check_tag_Ok st meta w w' : check_tag st meta w = (Ok tt, w') → tag_vouched st meta.
Proof.
  intros H. unfold check_tag, any_q in H. M_step H.
  apply with_err_inv in R as (x & R & Hx). destruct x as [check|]; [|done]. injection Hx as ->.
  exists w, w0, check. split; [done|]. destruct check; [done|..].
  - by apply lift_inv in H as [H _].
  - done.
Qed.

Lemma load_keys_run org w r w' :
  load_keys org w = (r, w') →
  ∀ l, r = Ok l → l = stored_keys org (others_db (tick w) (db w)).
Proof.
  intros H l ->. unfold load_keys, db_q in H. apply with_err_inv in H as (x & R & Hx).
  apply on_db_read_inv in R as (_ & _ & _ & Hd & [-> | ->]); [|done].
  injection Hx as ->. by rewrite Hd.
Qed.

Lemma check_signatures_Ok org_row slug name v meta artifact t d w w' :
  background d (db w) →
  check_signatures org_row slug name v meta (digest_hex artifact) (wrap_i64 (slen artifact)) t w
    = (Ok tt, w') →
  vouched_by_key slug name v d org_row meta artifact t.
Proof.
  intros Hd H. unfold check_signatures in H.
  destruct (meta_signatures meta) as [|s0 l] eqn:E; [by left|]. right.
  rewrite bool_decide_eq_false_2 in H by done. rewrite E.
  M_step H. apply lift_inv in R as [Hpre ->].
  destruct (version_attestation_preimage _) as [preimage|] eqn:Ep; [|done]. injection Hpre as ->.
  M_step H. pose proof (load_keys_run _ _ _ _ R _ eq_refl) as ->. clear R.
  M_step H. apply lift_inv in R as [Hv ->].
  pose proof (verify_any_cases preimage (s0 :: l)
    (stored_keys (org_id org_row) (others_db (tick w) (db w)))) as Hspec.
  destruct (verify_any _ _ _) as [k|]; [|done]. destruct Hspec as (s & Hs & Ha & _).
  exists preimage, (others_db (tick w) (db w)), s, k. split_and!; [done| |done..].
  etrans; [exact Hd|apply background_others].
Qed.

Lemma prepare_Ok st slug name v headers parts w w' token org_row meta artifact t mirrors sigs :
  txn w = None →
  prepare st slug name v headers parts w = (Ok (token, org_row, meta, artifact, t, mirrors, sigs), w') →
  admitted st slug name v headers parts (db w) token org_row meta artifact t ∧
  mirrors_to_value meta.(meta_mirrors) = Ok mirrors ∧
  signatures_to_value meta.(meta_signatures) = Ok sigs.
Proof.
  intros Ht H. unfold prepare in H. M_step H.
  assert (db_rel background w w0) as Hw0 by (by eapply require_token_background).
  apply require_token_run in R as (_ & _ & _ & [Hv|[[=] _]]). symmetry in Hv.
  M_step H. apply with_err_inv in R as (x & R & Hx). destruct x as [o|]; [|done]. injection Hx as ->.
  assert (db_rel background w w1) as Hw1.
  { etrans; [exact Hw0|]. refine (on_db_read_rel background background_others _ _ _ _ R). }
  apply on_db_read_inv in R as (_ & _ & _ & _ & [[= ->]|[=]]).
  M_step H. apply lift_inv in R as [Ho ->].
  destruct (find_org_by_slug slug (db w1)) as [o|] eqn:Eo; [|done]. injection Ho as ->.
  M_step H. destruct a0 as []. apply lift_inv in R as [Hauth ->]. symmetry in Hauth.
  apply (proj1 (authorize_publish_cases _ _)) in Hauth.
  M_step H. apply lift_inv in R as [Hparts ->]. destruct a0 as [meta' artifact'].
  M_step H. destruct a0 as []. apply lift_inv in R as [Hpay ->].
  M_step H. destruct a0 as []. pose proof (check_tag_Ok _ _ _ _ R) as Htag.
  apply check_tag_background in R.
  M_step H. apply published_instant_background in R0.
  M_step H. destruct a1 as [].
  assert (db_rel background w w3) as Hw3 by (do 2 (etrans; [eassumption|]); done).
  destruct (Hw3 Ht) as [_ Hw2].
  pose proof (check_signatures_Ok _ _ _ _ _ _ _ _ _ _ Hw2 R1) as Hsig.
  M_step H. apply lift_inv in R2 as [Hm ->]. M_step H. apply lift_inv in R2 as [Hsv ->]. M_step H.
  apply mret_inv in H as [[= -> -> -> -> -> -> ->] _].
  split; [|by destruct (mirrors_to_value _), (signatures_to_value _); inversion Hm; inversion Hsv].
  split_and!; [|by eapply check_payload_Ok|done|done].
  split_and!; [|exists (db w1); split; [by apply Hw1|done]|done].
  eexists _, _. split; [|exact Hv]. apply background_others.
Qed.
End admitted.

(** ** The run *)

Section run.
Context `{laws : StoreLaws} `{web : WebExternals} `{ver : VerifyExternals} `{sgn : SigningExternals}
  `{aext : AuditExternals} `{pub : PublishExternals}.

(** No artifact format is stored under a staging file's suffix. *)
Hypothesis formats : ∀ text meta, parse_meta text = Ok meta →
  ends_with ".tmp" ("." +:+ meta.(meta_format)) = false.

Lemma path_join_app dir key : ∃ pre, path_join dir key = pre +:+ key.
Proof.
  unfold path_join. destruct (starts_with _ _); [by exists ""|].
  destruct (_ || _)%bool; eexists; [done|]. by rewrite app_str_assoc.
Qed.

Lemma suffix_of_app pre s :
  ends_with ".tmp" (pre +:+ "." +:+ s) = true → ends_with ".tmp" ("." +:+ s) = true.
Proof.
  rewrite !ends_with_spec. intros [r Hr]. apply (f_equal srev) in Hr.
  rewrite !srev_app in Hr. change (srev ".tmp") with "pmt." in Hr. change (srev ".") with "." in Hr.
  rewrite <- (srev_involutive s). destruct (srev s) as [|a [|b [|c t]]]; try done.
  rewrite app_str_assoc in Hr. cbn in Hr. injection Hr as -> -> -> Hr.
  assert (srev (String "p" (String "m" (String "t" t))) = srev t +:+ "tmp") as ->
    by (by rewrite !srev_cons, !app_str_assoc).
  destruct t as [|d t]; [by exists ""|]. cbn in Hr. injection Hr as -> _.
  exists ("." +:+ srev t). by rewrite srev_cons, !app_str_assoc.
Qed.

Definition key_of (meta : PublishMeta) (artifact : string) : string :=
  artifact_key (digest_hex artifact) meta.(meta_format).

Lemma key_stable st meta artifact :
  ends_with ".tmp" ("." +:+ meta.(meta_format)) = false →
  stable (place st.(store) (key_of meta artifact)).
Proof.
  intros Hf. unfold stable. apply not_true_iff_false. intros H. revert Hf. apply not_false_iff_true.
  unfold key_of, artifact_key in H.
  destruct (store st) as [|dir|]; cbn [place] in H.
  1,3: rewrite <- !app_str_assoc in H; rewrite app_str_assoc in H; by apply suffix_of_app in H.
  unfold local_path in H.
  destruct (path_join_app dir ("artifacts/" +:+ digest_hex artifact +:+ "." +:+ meta_format meta)) as [p Hp].
  rewrite Hp in H. rewrite <- !app_str_assoc in H. rewrite app_str_assoc in H. by apply suffix_of_app in H.
Qed.

Lemma read_parts_format parts m a meta artifact :
  (∀ m', m = Some m' → ends_with ".tmp" ("." +:+ m'.(meta_format)) = false) →
  read_parts parts m a = Ok (meta, artifact) →
  ends_with ".tmp" ("." +:+ meta.(meta_format)) = false.
Proof.
  revert m a. induction parts as [|[e|[name|] content] parts IH]; intros m a Hm H; cbn [read_parts] in H;
    try done.
  - destruct m as [m|], a as [a|]; try done. injection H as <- _. by apply Hm.
  - destruct (name =s PUBLISH_META_FIELD).
    + inv_bind. eapply IH; [|exact H]. intros m' [= <-]. by eapply formats.
    + destruct (name =s PUBLISH_ARTIFACT_FIELD); [|done]. inv_bind. by eapply IH.
Qed.

Lemma quiet_keeps {E A} (m : M E A) : respects objects_quiet m → respects keeps m.
Proof. intros H w r w' Hr k x _ Hx. by rewrite (H _ _ _ Hr). Qed.

(** The published bytes are behind their key. *)
Definition blob_stored (st : AppState) (meta : PublishMeta) (artifact : string) (w : World) : Prop :=
  holds (place st.(store) (key_of meta artifact)) (slen artifact) (digest_hex artifact) w.

(** Exactly the publication of a payload between background steps. *)
Definition publication (st : AppState) (slug name v : string) (headers : HeaderMap)
    (parts : list Part) (w : World) (r : ApiResult PublishResponse) (w' : World) : Prop :=
  ∃ token org_row meta artifact t mirrors sigs d d',
    admitted st slug name v headers parts (db w) token org_row meta artifact t ∧
    mirrors_to_value meta.(meta_mirrors) = Ok mirrors ∧
    signatures_to_value meta.(meta_signatures) = Ok sigs ∧
    blob_stored st meta artifact w' ∧
    background (db w) d ∧
    recorded org_row name v meta (digest_hex artifact) (wrap_i64 (slen artifact))
      (key_of meta artifact) t mirrors sigs d d' ∧
    background d' (db w') ∧
    ∀ a, r = Ok a → a = mk_publish_response slug name v (digest_hex artifact).

Lemma write_out_run st slug name v headers token org_row meta artifact t mirrors sigs w r w' :
  txn w = None → stable (place st.(store) (key_of meta artifact)) →
  write_out st slug name v headers (token, org_row, meta, artifact, t, mirrors, sigs) w = (r, w') →
  txn w' = None ∧ keeps w w' ∧
  ((background (db w) (db w') ∧ ∀ a, r ≠ Ok a) ∨
   (blob_stored st meta artifact w' ∧ ∃ d d', background (db w) d ∧
      recorded org_row name v meta (digest_hex artifact) (wrap_i64 (slen artifact))
        (key_of meta artifact) t mirrors sigs d d' ∧ background d' (db w') ∧
      ∀ a, r = Ok a → a = mk_publish_response slug name v (digest_hex artifact))).
Proof.
  intros Ht Hs H. unfold write_out in H.
  M_step H; apply with_err_inv in R as (x & R & Hx); pose proof (quiet_put_verified _ _ _ _ _ _ _ _ R) as [Hdb0 Ht0];
    pose proof (keeps_put_verified _ _ _ _ _ _ _ _ R) as Hk0.
  { split; [congruence|]. split; [done|]. left. by rewrite Hdb0. }
  destruct x as [[]|]; [|done]. apply put_verified_holds in R; [|done..].
  M_step H; apply attempt_inv in R0 as (y & [=] & R0). subst a0.
  pose proof (quiet_put_public_aliases _ _ _ _ _ _ _ _ R0) as [Hdb1 Ht1].
  apply keeps_put_public_aliases in R0 as Hk1.
  assert (txn w1 = None) as Htn by congruence.
  assert (blob_stored st meta artifact w1) as Hblob by (by eapply holds_keeps).
  assert (keeps w w1) as Hk by (by etrans).
  M_step H.
  { apply record_version_objects in R1 as Ho. apply record_version_run in R1 as [Htx R1]; [|done].
    split; [done|]. split; [etrans; [exact Hk|]; intros k z _ Hz; by rewrite Ho|].
    rewrite <- Hdb0, <- Hdb1. destruct R1 as [[Hb _]|(d & Hb & Hrec)]; [by left|right].
    split; [by eapply holds_keeps; [..|exact Hblob]; [|intros k z _ Hz; rewrite Ho]|].
    by exists d, (db w'). }
  destruct a as []. apply record_version_objects in R1 as Ho.
  apply record_version_run in R1 as [Htx R1]; [|done].
  pose proof (finish_objects _ _ _ _ _ _ _ _ _ _ _ _ _ _ H) as Ho2.
  destruct (finish_background _ _ _ _ _ _ _ _ _ _ _ _ _ _ H Htx) as [Htx2 Hb2].
  assert (keeps w1 w') as Hkw by (intros k z _ Hz; by rewrite Ho2, Ho).
  split; [done|]. split; [by etrans|]. rewrite <- Hdb0, <- Hdb1.
  destruct a0 as []. destruct R1 as [[_ Hc]|(d & Hb & Hrec)]; [done|right]. split; [by eapply holds_keeps|].
  exists d, (db w2). split_and!; [done..|].
  intros a ->. unfold finish in H. M_step H. M_step H. by apply mret_inv in H as [[= ->] _].
Qed.

Lemma publish_run st slug name v headers parts w r w' :
  txn w = None → publish st slug name v headers parts w = (r, w') →
  txn w' = None ∧ keeps w w' ∧
  ((background (db w) (db w') ∧ (∀ a, r ≠ Ok a) ∧
    (objects w' = objects w ∨ ∃ token org_row meta artifact t,
       admitted st slug name v headers parts (db w) token org_row meta artifact t)) ∨
   publication st slug name v headers parts w r w').
Proof.
  intros Ht H. rewrite publish_split in H. M_step H.
  { destruct (prepare_background _ _ _ _ _ _ _ _ _ R Ht) as [Htx Hb]. apply prepare_objects in R as Ho.
    split; [done|]. split; [intros k z _ Hz; by rewrite Ho|]. left. by split_and!; [..|left]. }
  destruct (prepare_background _ _ _ _ _ _ _ _ _ R Ht) as [Htx Hb]. apply prepare_objects in R as Ho.
  destruct a as [[[[[[token org_row] meta] artifact] t] mirrors] sigs].
  apply prepare_Ok in R as (Ha & Hm & Hsv); [|done].
  assert (stable (place st.(store) (key_of meta artifact))) as Hs.
  { destruct Ha as (_ & (Hp & _) & _). apply key_stable. eapply read_parts_format; [|exact Hp]. done. }
  apply write_out_run in H as (Htx' & Hk & H); [|done..]. split; [done|].
  split; [intros k z Hst Hz; apply Hk; [done|]; by rewrite Ho|].
  destruct H as [[Hb2 Hr]|(Hblob & d & d' & Hb2 & Hrec & Hb3 & Hr)].
  - left. split; [by etrans|]. split; [done|]. right. by eexists _, _, _, _, _.
  - right. exists token, org_row, meta, artifact, t, mirrors, sigs, d, d'. split_and!; try done. by etrans.
Qed.
End run.

(** ** Tables before and after *)

(** The immutable facts of a version: everything but the yank flag. *)
Definition same_facts (v v' : VersionRow) : Prop :=
  v' = mk_version v.(ver_id) v.(ver_package_id) v.(ver_version) v.(ver_sha256) v.(ver_size)
    v.(ver_format) v.(ver_vcs_tag) v.(ver_vcs_commit) v.(ver_artifact_key) v'.(ver_yanked)
    v.(ver_published_at) v.(ver_mirrors) v.(ver_signatures).

#[export] Instance same_facts_preorder : PreOrder same_facts.
Proof.
  split; [by intros []|]. intros a b c H1 H2. unfold same_facts in *. rewrite H2, H1. by destruct c.
Qed.

Definition version_slot (v : VersionRow) : uuid * string := (v.(ver_package_id), v.(ver_version)).

(** No version row is lost or rewritten, and no version of a package gets a
    second row. *)
Definition versions_kept (d d' : Db) : Prop :=
  (∀ v, v ∈ versions d → ∃ v', v' ∈ versions d' ∧ same_facts v v') ∧
  (NoDup (version_slot <$> versions d) → NoDup (version_slot <$> versions d')).

#[export] Instance versions_kept_preorder : PreOrder versions_kept.
Proof.
  split; [split; [intros v Hv; by exists v|done]|]. intros a b c [H1 U1] [H2 U2]. split; [|auto].
  intros v Hv. destruct (H1 v Hv) as (v1 & Hv1 & S1). destruct (H2 v1 Hv1) as (v2 & Hv2 & S2).
  exists v2. split; [done|by etrans].
Qed.

Lemma upserted_versions `{ext : Externals} org_row name meta d pkg d' :
  upserted org_row name meta d pkg d' → versions d' = versions d.
Proof.
  intros (id & t & d1 & row & Hup & _ & Hseq & _). unfold update_sequence in Hseq.
  destruct (existsb _ _); [|done]. injection Hseq as <-. unfold upsert_row in Hup.
  destruct (existsb _ (packages d)); [by injection Hup as <-|].
  destruct (existsb _ _); [done|]. by injection Hup as <-.
Qed.

Lemma insert_version_inv row d d' :
  insert_version row d = Ok (tt, d') →
  versions d' = (versions d ++ [row])%list ∧ packages d' = packages d ∧
  version_slot row ∉ (version_slot <$> versions d).
Proof.
  unfold insert_version. destruct (existsb _ _) eqn:E; [done|]. intros [= <-].
  split_and!; [done..|]. intros (r & Hr & Hin)%list_elem_of_fmap.
  apply not_true_iff_false in E. apply E, existsb_exists. exists r. split; [by apply list_elem_of_In|].
  unfold version_slot in Hr. injection Hr as -> ->. by rewrite N.eqb_refl, String.eqb_refl, orb_true_r.
Qed.

Lemma recorded_versions `{ext : Externals} org_row name v meta sha len key t mirrors sigs d d' :
  recorded org_row name v meta sha len key t mirrors sigs d d' →
  ∃ id pkg, versions d' = (versions d ++ [version_row id pkg v meta sha len key t mirrors sigs])%list ∧
    ((pkg.(pkg_id), v) ∉ (version_slot <$> versions d)) ∧
    versions_kept d d' ∧ pkg ∈ packages d'.
Proof.
  intros (id & pkg & d1 & Hup & Hins). pose proof (upserted_versions _ _ _ _ _ _ Hup) as Hv.
  apply insert_version_inv in Hins as (Hd' & Hp & Hfresh). rewrite Hv in *.
  exists id, pkg. split; [done|]. split; [|split; [split|]].
  - intros (r & Hr & Hin)%list_elem_of_fmap. apply Hfresh, list_elem_of_fmap. exists r.
    split; [|done]. unfold version_slot in *. cbn. congruence.
  - intros r Hr. exists r. split; [|done]. rewrite Hd'. apply elem_of_app. by left.
  - intros Hn. rewrite Hd', fmap_app. apply NoDup_app. split; [done|]. split; [|apply NoDup_singleton].
    intros s Hs ->%list_elem_of_singleton. done.
  - rewrite Hp. destruct Hup as (i & u & d2 & row & _ & Hf & Hseq & ->).
    unfold update_sequence in Hseq. destruct (existsb _ _); [|done]. injection Hseq as <-. cbn.
    apply List.find_some in Hf as [Hin _]. apply list_elem_of_In, in_map_iff.
    exists row. split; [|done]. by rewrite N.eqb_refl.
Qed.

Lemma find_version_unique d (v : VersionRow) :
  NoDup (version_slot <$> versions d) → v ∈ versions d →
  find_version_row v.(ver_package_id) v.(ver_version) d = Some v.
Proof.
  unfold find_version_row. induction (versions d) as [|x l IH]; [by intros _ ?%not_elem_of_nil|].
  cbn. intros [Hx Hl]%NoDup_cons Hv.
  destruct ((ver_package_id x =? ver_package_id v)%N && (ver_version x =s ver_version v)) eqn:E.
  - apply andb_true_iff in E as [Hid%N.eqb_eq Hvn%String.eqb_eq].
    apply elem_of_cons in Hv as [->|Hv]; [done|]. exfalso. apply Hx.
    apply list_elem_of_fmap. exists v. split; [|done]. unfold version_slot.
    by rewrite Hid, Hvn.
  - apply elem_of_cons in Hv as [->|Hv]; [|by apply IH].
    by rewrite N.eqb_refl, String.eqb_refl in E.
Qed.

(** ** The theorems *)

Section theorems.
Context `{laws : StoreLaws} `{web : WebExternals} `{ver : VerifyExternals} `{sgn : SigningExternals}
  `{aext : AuditExternals} `{pub : PublishExternals}.
Hypothesis formats : ∀ text meta, parse_meta text = Ok meta →
  ends_with ".tmp" ("." +:+ meta.(meta_format)) = false.

(** C1: publishing is atomic and admitted. Whatever the database, the store,
    GitHub and concurrent writers do, a request to publish ends in one of two
    ways. Either nothing but background steps (commits of others, audit
    entries) happened to the tables, no success is reported, and the store was
    not touched unless the payload passed every check; or the payload passed
    every check (a live token that may publish, fields consistent with the URL
    and the bytes, the tag, a valid signature if any was supplied), its bytes
    are stored, and between background steps there is exactly one step: the
    package upsert together with the insert of exactly this version. *)
Theorem publish_atomic st slug name v headers parts w r w' :
  txn w = None → publish st slug name v headers parts w = (r, w') →
  (background (db w) (db w') ∧ (∀ a, r ≠ Ok a) ∧
    (objects w' = objects w ∨ ∃ token org_row meta artifact t,
       admitted st slug name v headers parts (db w) token org_row meta artifact t)) ∨
  publication st slug name v headers parts w r w'.
Proof. intros Ht H. by apply publish_run in H as (_ & _ & H). Qed.

Section kept.
Hypothesis rely : ∀ t d, versions_kept d (others_db t d).

Lemma background_versions d d' : background d d' → versions_kept d d'.
Proof. apply background_ind_rel; [typeclasses eauto|exact rely|]. intros f x. by split; [intros v Hv; exists v|]. Qed.

(** C4: versions are immutable. Whatever is published, by whom and with
    whatever outcome, every version row keeps its digest, size, key, tag,
    commit, instant, mirrors and signatures, every stored object stays as it
    is, and no version of a package ever has two rows. *)
Theorem publish_immutable st slug name v headers parts w r w' :
  txn w = None → publish st slug name v headers parts w = (r, w') →
  versions_kept (db w) (db w') ∧
  ∀ k x, ends_with ".tmp" k = false → objects w !! k = Some x → objects w' !! k = Some x.
Proof.
  intros Ht H. apply publish_run in H as (_ & Hk & H); [|done..]. split; [|exact Hk].
  destruct H as [(Hb & _)|(tk & o & m & a & t & mi & si & d & d' & _ & _ & _ & _ & Hb1 & Hrec & Hb2 & _)].
  - by apply background_versions.
  - apply background_versions in Hb1, Hb2. apply recorded_versions in Hrec as (_ & _ & _ & _ & Hrec & _).
    etrans; [exact Hb1|]. by etrans.
Qed.

(** C5: a reported success is a fetchable version. When [publish] answers, the
    answer names the version of the URL and the digest of the uploaded bytes;
    the payload passed every check; looking the version up finds a row, not
    taken before, with the digest, length and key of those bytes; and the object
    under that key has that digest and length. *)
Theorem publish_success st slug name v headers parts w resp w' :
  txn w = None → NoDup (version_slot <$> versions (db w)) →
  publish st slug name v headers parts w = (Ok resp, w') →
  ∃ token org_row meta artifact t pkg_id row,
    admitted st slug name v headers parts (db w) token org_row meta artifact t ∧
    resp = mk_publish_response slug name v (digest_hex artifact) ∧
    ((pkg_id, v) ∉ (version_slot <$> versions (db w))) ∧
    find_version_row pkg_id v (db w') = Some row ∧
    row.(ver_sha256) = digest_hex artifact ∧ row.(ver_size) = wrap_i64 (slen artifact) ∧
    row.(ver_artifact_key) = key_of meta artifact ∧ row.(ver_published_at) = t ∧
    holds (place st.(store) row.(ver_artifact_key)) (slen artifact) row.(ver_sha256) w'.
Proof.
  intros Ht Hn H. apply publish_run in H as (_ & _ & H); [|done..].
  destruct H as [(_ & Hr & _)|(tk & o & m & a & t & mi & si & d & d' & Ha & _ & _ & Hblob & Hb1 & Hrec & Hb2 & Hr)];
    [by destruct (Hr resp)|].
  apply background_versions in Hb1 as [Hk1 Hn1], Hb2 as [Hk2 Hn2].
  apply recorded_versions in Hrec as (id & pkg & Hd' & Hfresh & [_ Hn3] & _).
  destruct (Hk2 (version_row id pkg v m (digest_hex a) (wrap_i64 (slen a)) (key_of m a) t mi si))
    as (row & Hrow & Hsame). { rewrite Hd'. apply elem_of_app. right. by left. }
  exists tk, o, m, a, t, (pkg_id pkg), row. split; [done|]. split; [by apply Hr|].
  split. { intros (x & Hx & Hin)%list_elem_of_fmap. destruct (Hk1 x Hin) as (x' & Hin' & Hs).
    apply Hfresh, list_elem_of_fmap. exists x'. split; [|done]. rewrite Hx. unfold version_slot. by rewrite Hs. }
  pose proof (find_version_unique (db w') row (Hn2 (Hn3 (Hn1 Hn))) Hrow) as Hf.
  assert (ver_package_id row = pkg_id pkg ∧ ver_version row = v ∧ ver_sha256 row = digest_hex a ∧
    ver_size row = wrap_i64 (slen a) ∧ ver_artifact_key row = key_of m a ∧ ver_published_at row = t)
    as (E1 & E2 & E3 & E4 & E5 & E6) by (rewrite Hsame; by split_and!).
  rewrite E1, E2 in Hf. rewrite E3, E4, E5. by split_and!.
Qed.
End kept.
End theorems.

(** ** Every version row has its bytes *)

Section backing.
Context `{laws : StoreLaws} `{web : WebExternals} `{ver : VerifyExternals} `{sgn : SigningExternals}
  `{aext : AuditExternals} `{pub : PublishExternals}.
Hypothesis formats : ∀ text meta, parse_meta text = Ok meta →
  ends_with ".tmp" ("." +:+ meta.(meta_format)) = false.

(** The object a version row points at exists, with its digest and length. *)
Definition backed (st : AppState) (v : VersionRow) (w : World) : Prop :=
  stable (place st.(store) v.(ver_artifact_key)) ∧
  ∃ x, objects w !! place st.(store) v.(ver_artifact_key) = Some x ∧
    digest_hex x.(o_bytes) = v.(ver_sha256) ∧ wrap_i64 (slen x.(o_bytes)) = v.(ver_size).

(** Rows other writers may create. *)
Context (foreign : VersionRow → Prop).
Hypothesis foreign_yank : ∀ v v', foreign v → same_facts v v' → foreign v'.

(** Rows come from somewhere. *)
Definition rows_from (d d' : Db) : Prop :=
  ∀ v, v ∈ versions d' → foreign v ∨ ∃ v0, v0 ∈ versions d ∧ same_facts v0 v.

#[local] Instance rows_from_preorder : PreOrder rows_from.
Proof.
  split; [intros d v Hv; right; by exists v|]. intros a b c H1 H2 v Hv.
  destruct (H2 v Hv) as [Hf|(v1 & Hv1 & S1)]; [by left|].
  destruct (H1 v1 Hv1) as [Hf|(v0 & Hv0 & S0)]; [left; by eapply foreign_yank|].
  right. exists v0. split; [done|by etrans].
Qed.

Hypothesis rely : ∀ t d, rows_from d (others_db t d).

Lemma backed_same st v v' w : same_facts v v' → backed st v w → backed st v' w.
Proof. intros -> H. exact H. Qed.

Lemma recorded_rows org_row name v meta sha len key t mirrors sigs d d' u :
  recorded org_row name v meta sha len key t mirrors sigs d d' → u ∈ versions d' →
  u ∈ versions d ∨ u.(ver_artifact_key) = key ∧ u.(ver_sha256) = sha ∧ u.(ver_size) = len.
Proof.
  intros (id & pkg & -> & _)%recorded_versions [Hu|Hu%list_elem_of_singleton]%elem_of_app; [by left|].
  subst u. by right.
Qed.

(** C8: the bytes come before the row. If every version row points at a stored
    object with its digest and length (rows of writers outside this service
    apart), then so it is after any request to publish, successful or not,
    wherever it failed: a row is never visible without its bytes. *)
Theorem publish_rows_backed st slug name v headers parts w r w' :
  txn w = None → publish st slug name v headers parts w = (r, w') →
  (∀ u, u ∈ versions (db w) → foreign u ∨ backed st u w) →
  ∀ u, u ∈ versions (db w') → foreign u ∨ backed st u w'.
Proof.
  intros Ht H Hinv. pose proof H as Hrun. apply publish_run in Hrun as (_ & Hk & Hout); [|done..].
  assert (∀ d d', background d d' → rows_from d d') as Hbg.
  { apply background_ind_rel; [typeclasses eauto|exact rely|]. intros f d u Hu. right. by exists u. }
  assert (∀ u, u ∈ versions (db w) → foreign u ∨ backed st u w') as Hold.
  { intros u Hu. destruct (Hinv u Hu) as [Hf|(Hs & x & Hx & Hfacts)]; [by left|]. right.
    split; [done|]. exists x. split; [by apply Hk|done]. }
  assert (∀ d, (∀ u, u ∈ versions d → foreign u ∨ backed st u w') →
    ∀ d', background d d' → ∀ u, u ∈ versions d' → foreign u ∨ backed st u w') as Hext.
  { intros d Hd d' Hb u Hu. destruct (Hbg _ _ Hb u Hu) as [Hf|(u0 & Hu0 & Hs)]; [by left|].
    destruct (Hd u0 Hu0) as [Hf|Hback]; [left; by eapply foreign_yank|right; by eapply backed_same]. }
  destruct Hout as [(Hb & _)|(tk & o & m & a & t & mi & si & d & d' & Ha & _ & _ & Hblob & Hb1 & Hrec & Hb2 & _)].
  - by eapply Hext.
  - eapply Hext; [|exact Hb2]. intros u Hu.
    destruct (recorded_rows _ _ _ _ _ _ _ _ _ _ _ _ _ Hrec Hu) as [Hu'|(Ek & Es & El)].
    + by eapply (Hext _ Hold).
    + right. unfold backed. rewrite Ek, Es, El. destruct Ha as (_ & (Hp & _) & _).
      split; [apply key_stable; eapply read_parts_format; [exact formats| |exact Hp]; done|].
      destruct Hblob as (x & Hx & Hlen & Hsha). exists x. by rewrite Hlen.
Qed.
End backing.

(** ** The package row *)

Definition package_slot (r : PackageRow) : uuid * string := (r.(pkg_org_id), r.(pkg_name)).

Section package_row.
Context `{ext : Externals}.

(** The declared metadata of a publication, in a package row. *)
Definition describes (m : Manifest) (r : PackageRow) : Prop :=
  r.(pkg_description) = m.(m_description) ∧ r.(pkg_vcs) = m.(m_vcs) ∧
  r.(pkg_repo_url) = m.(m_repo_url) ∧ r.(pkg_version_scheme) = m.(m_version_scheme) ∧
  r.(pkg_tags) = JArr (map JStr m.(m_keywords)).

Lemma find_package_None org name d :
  find_package_by_name org name d = None →
  existsb (λ r, (r.(pkg_org_id) =? org)%N && (r.(pkg_name) =s name))%bool (packages d) = false.
Proof.
  unfold find_package_by_name. induction (packages d) as [|x l IH]; cbn; [done|].
  destruct (_ && _)%bool; [done|apply IH].
Qed.

(** Looking a row up in a list whose rows were rewritten in place. *)
Lemma find_map_slot org name (f : PackageRow → PackageRow) l :
  (∀ r, package_slot (f r) = package_slot r) →
  List.find (λ r, (r.(pkg_org_id) =? org)%N && (r.(pkg_name) =s name))%bool (map f l)
  = f <$> List.find (λ r, (r.(pkg_org_id) =? org)%N && (r.(pkg_name) =s name))%bool l.
Proof.
  intros Hf. induction l as [|x l IH]; [done|]. cbn. pose proof (Hf x) as Hx. unfold package_slot in Hx.
  injection Hx as -> ->. by destruct (_ && _)%bool.
Qed.

Lemma find_snoc {A} (f : A → bool) l x :
  List.find f (l ++ [x]) = match List.find f l with Some y => Some y | None => if f x then Some x else None end.
Proof. induction l as [|y l IH]; [done|]. cbn. by destruct (f y). Qed.

(** Publishing updates one package row. In its transaction the upsert, of the
    tables as they are then, creates the package with the manifest's metadata, or replaces exactly the
    metadata of the existing one, which keeps its identity, creation time and
    signed index; in both cases the index sequence moves strictly forward (to
    2 for a new package) until it saturates at the largest 64-bit integer, and
    looking the package up yields the returned row. *)
Theorem upsert_package_spec org_row name meta d w pkg w' :
  txn w = Some d → upsert_package org_row name meta w = (Ok pkg, w') →
  db w' = db w ∧ ∃ d0 d', background d d0 ∧ txn w' = Some d' ∧
    find_package_by_name org_row.(org_id) name d' = Some pkg ∧
    describes meta.(manifest) pkg ∧
    match find_package_by_name org_row.(org_id) name d0 with
    | Some old =>
        pkg.(pkg_id) = old.(pkg_id) ∧ pkg.(pkg_created_at) = old.(pkg_created_at) ∧
        pkg.(pkg_signed_index) = old.(pkg_signed_index) ∧
        pkg.(pkg_index_sequence) = Z.max 1 (i64_saturating_succ old.(pkg_index_sequence)) ∧
        (old.(pkg_index_sequence) < i64_max → old.(pkg_index_sequence) < pkg.(pkg_index_sequence))
    | None => pkg.(pkg_index_sequence) = 2 ∧ pkg.(pkg_signed_index) = None
    end ∧
    versions d' = versions d0.
Proof.
  intros Ht H.
  apply (upsert_package_run _ _ _ _ _ _ _ Ht) in H as [Hdb [[e [=]]|(p & d0 & d' & [= ->] & Ht' & Hb & Hup)]].
  split; [done|]. exists d0, d'. split; [done|]. split; [done|]. clear d Ht Hb. rename d0 into d. pose proof (upserted_versions _ _ _ _ _ _ Hup) as Hv.
  destruct Hup as (id & t & d1 & row & Hup & Hfind & Hseq & ->). cbn zeta in *.
  set (next := Z.max 1 _) in *.
  assert (find_package_by_name org_row.(org_id) name d' = Some (with_sequence next row)) as Hfind'.
  { unfold update_sequence in Hseq. destruct (existsb _ _); [|done]. injection Hseq as <-.
    etrans; [apply find_map_slot; intros r; by destruct (_ =? _)%N|].
    change (List.find _ (packages d1)) with (find_package_by_name (org_id org_row) name d1).
    rewrite Hfind. cbn. by rewrite N.eqb_refl. }
  split; [done|]. unfold upsert_row in Hup.
  destruct (find_package_by_name (org_id org_row) name d) as [old|] eqn:Eold.
  - assert (existsb (λ r, (pkg_org_id r =? org_id org_row)%N && (pkg_name r =s name))%bool (packages d) = true) as Hex.
    { apply List.find_some in Eold as [Hin Hm]. apply existsb_exists. by exists old. }
    cbn in Hup. rewrite Hex in Hup. injection Hup as <-.
    assert (∀ f, (∀ r, package_slot (f r) = package_slot r) →
      find_package_by_name (org_id org_row) name (set_packages (map f) d) = Some (f old)) as Hmap.
    { intros f Hf. etrans; [by apply find_map_slot|].
      change (List.find _ (packages d)) with (find_package_by_name (org_id org_row) name d). by rewrite Eold. }
    apply List.find_some in Eold as [_ Hold].
    rewrite Hmap in Hfind by (intros r; unfold package_slot; by case_match). rewrite Hold in Hfind. injection Hfind as <-.
    split; [by split_and!|]. split; [|done]. cbn. split_and!; try done.
    subst next. unfold i64_saturating_succ. cbn. lia.
  - apply find_package_None in Eold as Hex. cbn in Hup. rewrite Hex in Hup.
    destruct (existsb _ _); [done|]. injection Hup as <-.
    unfold find_package_by_name in Hfind, Eold. cbn [packages set_packages] in Hfind.
    rewrite find_snoc, Eold in Hfind. cbn in Hfind.
    rewrite N.eqb_refl, String.eqb_refl in Hfind. cbn in Hfind. injection Hfind as <-.
    split; [by split_and!|]. split; [|done]. by split.
Qed.
End package_row.
