(* ===== verification/Canonical.v ===== *)
(** * The canonical registry plane

    What the handlers read of the persistence crate: rows of the canonical
    organizations, packages, versions and memberships. Its queries are another
    crate; each call is one step of the process. *)

From S2P Require Export Routes.

(** A column that is only ever serialized is kept as its JSON value. *)
Record CanonicalOrg := mk_canonical_org {
  co_id : uuid;
  co_slug : string;
  co_name : string;
  co_description : option string;
  co_settings : json;
}.

Record CanonicalPackage := mk_canonical_package {
  cp_id : uuid;
  cp_org_id : uuid;
  cp_project_id : option uuid;
  cp_visibility : string;
  cp_name : string;
  cp_description : option string;
  cp_vcs : string;
  cp_repo_url : string;
  cp_homepage_url : option string;
  cp_keywords : json;
  cp_config : json;
  cp_download_count : json;
  cp_version_count : json;
  cp_latest_version : json;
  cp_first_published_at : json;
  cp_created_at : json;
  cp_updated_at : json;
}.

(** The reads, at an instant. A user is known by its identifier, a role by its
    name, a version by its stored manifest. *)
Class CanonicalReads := {
  package_by_org_and_name :
    nat → string → string → result OrmError (option (CanonicalPackage * CanonicalOrg));
  package_version_by_package_and_version : nat → uuid → string → result OrmError (option json);
  packages_for_artifact_sha256 : nat → string → result OrmError (list CanonicalPackage);
  user_by_subject : nat → string → uuid → result OrmError (option uuid);
  org_role_for_user : nat → uuid → uuid → result OrmError (option string);
  project_role_for_user : nat → uuid → uuid → result OrmError (option string);
}.

(** One read. *)
Definition orm {A} (f : nat → result OrmError A) : M OrmError A := λ w, (f w.(tick), bump w).

Lemma orm_inv {A} (f : nat → result OrmError A) w r w' :
  orm f w = (r, w') →
  r = f (tick w) ∧ tick w' = S (tick w) ∧ objects w' = objects w ∧ db w' = db w ∧ txn w' = txn w.
Proof. by intros [= <- <-]. Qed.

Lemma objects_orm {A} (f : nat → result OrmError A) : respects objects_quiet (orm f).
Proof. by intros w r w' [= _ <-]. Qed.
Lemma quiet_orm {A} (f : nat → result OrmError A) : respects db_quiet (orm f).
Proof. by intros w r w' [= _ <-]. Qed.

#[export] Hint Resolve objects_orm quiet_orm : respects.
