(* ===== verification/Graph.v ===== *)
(** * Dependency-graph reads ([src/routes/graph.rs])

    The graph document, its limits, who may read it, content negotiation and
    the conditional response. The encodings are in [GraphText]. *)

From S2P Require Export Canonical Publish.

(** ** The document

    [zpkg/dependency-graph/v1], as the code takes it apart. *)
Record PackageVersionIdentity := mk_identity {
  registry_id_of : string;
  id_org : string;
  id_name : string;
  id_version : string;
}.

Inductive DependencyKind : Type := Runtime | Build | Development | Peer | Tooling.
Inductive Completeness : Type := Complete | Projected.

Record DeclaredDependency := mk_dependency {
  dep_registry_id : string;
  dep_org : string;
  dep_name : string;
  dep_requirement : string;
  dep_kind : DependencyKind;
  dep_optional : bool;
  dep_default_features : bool;
  dep_features : list string;
  dep_target : option string;
}.

Record ResolvedNode := mk_node {
  node_id : PackageVersionIdentity;
  node_artifact_digest : option string;
  node_features : list string;
}.

Record ResolvedEdge := mk_edge {
  edge_from : PackageVersionIdentity;
  edge_to : PackageVersionIdentity;
  edge_kind : DependencyKind;
  edge_requirement : option string;
  edge_target : option string;
  edge_optional : bool;
  edge_features : list string;
}.

Record RegistrySnapshot := mk_snapshot {
  snap_registry_id : string;
  snap_checkpoint_digest : string;
}.

Record Provenance := mk_provenance {
  prov_resolver_version : string;
  prov_target : string;
  prov_enabled_features : list string;
  prov_registry_snapshots : list RegistrySnapshot;
  prov_lock_digest : string;
}.

Record Projection := mk_projection {
  proj_target : option string;
  proj_features : list string;
  proj_kinds : list DependencyKind;
  proj_max_depth : option Z;
}.

Inductive GraphData : Type :=
| Declared (package : PackageVersionIdentity) (dependencies : list DeclaredDependency)
| Resolved (completeness : Completeness) (roots : list PackageVersionIdentity)
    (nodes : list ResolvedNode) (edges : list ResolvedEdge) (provenance : Provenance)
    (parent_graph_digest : option string) (projection : option Projection).

Record GraphDocument := mk_document {
  doc_schema : string;
  doc_graph : GraphData;
  doc_digest : option string;
}.

Inductive GraphFormat : Type := FJson | FYaml | FToml | FDot | FMermaid.
#[export] Instance graph_format_eq_dec : EqDecision GraphFormat.
Proof. solve_decision. Defined.

Definition all_formats : list GraphFormat := [FJson; FYaml; FToml; FDot; FMermaid].

(** A response with its body's bytes; [None] is the metadata-only body. *)
Record GraphResponse := mk_graph_response {
  gr_status : Z;
  gr_headers : RespHeaders;
  gr_body : option string;
}.

(** The interface crate's part: constants, the names and media types of the
    formats, and the operations of a document. *)
Class GraphExternals := {
  DEPENDENCY_GRAPH_SCHEMA_V1 : string;
  DEPENDENCY_GRAPH_DEFAULT_MAX_NODES : Z;
  DEPENDENCY_GRAPH_DEFAULT_MAX_EDGES : Z;
  MAX_ENCODED_BYTES : Z;
  DEPENDENCY_GRAPH_DIGEST_HEADER : string;
  DEPENDENCY_GRAPH_AUTHORITATIVE_HEADER : string;
  media_type : GraphFormat → string;
  extension : GraphFormat → string;
  is_authoritative : GraphFormat → bool;
  identity_to_string : PackageVersionIdentity → string;
  finalize : GraphDocument → result string GraphDocument;
  canonical_document_bytes : GraphDocument → result string string;
  (** [serde_json::from_value] of a stored manifest *)
  manifest_from_value : json → result string Manifest;
  (** [VersionScheme::validate_version] *)
  scheme_validate_version : string → string → result string unit;
  (** [serde_json]'s text of a string *)
  json_string : string → string;
}.

(** ** Access ([DeclaredGraphAccess]) *)

Definition PUBLIC_IMMUTABLE : string := "public, max-age=31536000, immutable".
Definition PRIVATE_NO_STORE : string := "private, no-store".

Inductive GraphAccess : Type := AccessPublic | AccessPrivate.

Definition cache_control (a : GraphAccess) : string :=
  match a with AccessPublic => PUBLIC_IMMUTABLE | AccessPrivate => PRIVATE_NO_STORE end.
Definition vary (a : GraphAccess) : string :=
  match a with AccessPublic => "Accept" | AccessPrivate => "Accept, Authorization" end.

Definition graph_not_found : ApiErr :=
  mk_api_err StatusCode.NOT_FOUND "not_found" "dependency graph not found".

Definition requires_graph_authorization (visibility : string) : ApiResult bool :=
  match visibility with
  | "public" => Ok false
  | "internal" | "private" => Ok true
  | _ => Err graph_not_found
  end.

(** ** Limits *)

Definition graph_limit_exceeded : ApiErr :=
  mk_api_err StatusCode.UNPROCESSABLE_ENTITY "graph_limit_exceeded"
    "dependency graph exceeds the server node or edge limit".

Definition representation_too_large : ApiErr :=
  mk_api_err StatusCode.PAYLOAD_TOO_LARGE "graph_representation_too_large"
    "dependency graph representation exceeds the server limit".

Section limits.
Context `{gext : GraphExternals}.

Definition ensure_graph_counts (nodes edges : Z) : ApiResult unit :=
  reject_if ((DEPENDENCY_GRAPH_DEFAULT_MAX_NODES <? nodes) || (DEPENDENCY_GRAPH_DEFAULT_MAX_EDGES <? edges))
    graph_limit_exceeded.

Definition ensure_graph_bounds (document : GraphDocument) : ApiResult unit :=
  match document.(doc_graph) with
  | Declared _ dependencies =>
      nodes ← ok_or graph_limit_exceeded (checked_add usize_max (zlength dependencies) 1);
      ensure_graph_counts nodes (zlength dependencies)
  | Resolved _ _ nodes edges _ _ _ => ensure_graph_counts (zlength nodes) (zlength edges)
  end.

Definition ensure_encoded_size (length : Z) : ApiResult unit :=
  reject_if (MAX_ENCODED_BYTES <? length) representation_too_large.

Definition checked_declared_dependency_count (runtime build : Z) : ApiResult Z :=
  count ← ok_or graph_limit_exceeded (checked_add usize_max runtime build);
  nodes ← ok_or graph_limit_exceeded (checked_add usize_max count 1);
  ensure_graph_counts nodes count;;
  mret count.

(** ** The declared view *)

(** One declared dependency; a key without an organization is a corrupt
    manifest. *)
Definition declared_dependency (registry : string) (kind : DependencyKind) (entry : string * string)
    : ApiResult DeclaredDependency :=
  '(dep_org, dep_name) ← ok_or from_anyhow (split_once "/" entry.1);
  mret (mk_dependency registry dep_org dep_name entry.2 kind false true [] None).

Fixpoint declared_dependencies (registry : string) (l : list (DependencyKind * (string * string)))
    : ApiResult (list DeclaredDependency) :=
  match l with
  | [] => mret []
  | (kind, entry) :: l =>
      d ← declared_dependency registry kind entry;
      r ← declared_dependencies registry l;
      mret (d :: r)
  end.

Definition declared_document (registry version : string) (manifest : Manifest)
    : ApiResult GraphDocument :=
  reject_if (negb (manifest.(m_version) =s version)) from_anyhow;;
  map_err (λ _, from_anyhow) (scheme_validate_version manifest.(m_version_scheme) version);;
  checked_declared_dependency_count (zlength manifest.(m_dependencies))
    (zlength manifest.(m_build_dependencies));;
  dependencies ← declared_dependencies registry
    (map (λ kv, (Runtime, kv)) manifest.(m_dependencies)
     ++ map (λ kv, (Build, kv)) manifest.(m_build_dependencies))%list;
  map_err (λ _, from_anyhow) (finalize {|
    doc_schema := DEPENDENCY_GRAPH_SCHEMA_V1;
    doc_graph := Declared (mk_identity registry manifest.(m_org) manifest.(m_name) version) dependencies;
    doc_digest := None |}).
End limits.

(** ** Authorization *)

Section access.
Context `{ext : Externals} `{web : WebExternals} `{can : CanonicalReads} `{gext : GraphExternals}.

Definition concealed {E A} (m : M E A) : M ApiErr A := with_err (λ _, graph_not_found) m.

Definition authorize_declared_graph (st : AppState) (headers : HeaderMap) (org_slug : string)
    (package : CanonicalPackage) (canonical_org : CanonicalOrg) : M ApiErr GraphAccess :=
  if negb st.(registry_read)
  then fail (service_unavailable "registry_data_plane_unavailable"
               "canonical registry read context is not configured")
  else
    required ← lift (requires_graph_authorization package.(cp_visibility));
    if negb required then mret AccessPublic
    else if negb (is_some (bearer_token headers)) then fail graph_not_found
    else
      token ← attempt (require_token headers);
      match token with
      | Ok token =>
          legacy_org ← concealed (find_org org_slug);
          if bool_decide (token.(tok_org_id) = Some legacy_org.(org_id))
          then mret AccessPrivate else fail graph_not_found
      | Err _ =>
          account ← concealed (require_account st headers);
          found ← concealed (orm (λ t, user_by_subject t account.(session).(realm)
                                         account.(session).(subject)));
          user ← lift (ok_or graph_not_found found);
          org_role ← concealed (orm (λ t, org_role_for_user t canonical_org.(co_id) user));
          if is_some org_role then mret AccessPrivate
          else match package.(cp_project_id) with
          | Some project_id =>
              project_role ← concealed (orm (λ t, project_role_for_user t project_id user));
              if is_some project_role then mret AccessPrivate else fail graph_not_found
          | None => fail graph_not_found
          end
      end.

(** [load_authorized_declared_document]: the non-test build. *)
Definition load_authorized_declared_document (st : AppState) (headers : HeaderMap)
    (org_slug name ver : string) : M ApiErr (GraphDocument * GraphAccess) :=
  if negb st.(registry_read)
  then fail (service_unavailable "registry_data_plane_unavailable"
               "canonical registry read context is not configured")
  else
    found ← with_err (λ _, from_anyhow) (orm (λ t, package_by_org_and_name t org_slug name));
    '(package, canonical_org) ← lift (ok_or graph_not_found found);
    access ← authorize_declared_graph st headers org_slug package canonical_org;
    found ← with_err (λ _, from_anyhow)
      (orm (λ t, package_version_by_package_and_version t package.(cp_id) ver));
    row ← lift (ok_or graph_not_found found);
    manifest ← lift (map_err (λ _, from_anyhow) (manifest_from_value row));
    lift (reject_if (negb (manifest.(m_org) =s org_slug) || negb (manifest.(m_name) =s name)
                     || negb (manifest.(m_version) =s ver)) from_anyhow);;
    document ← lift (declared_document st.(registry_id) ver manifest);
    mret (document, access).
End access.

(** ** Content negotiation *)

Definition unsupported_format (m : string) : ApiErr :=
  mk_api_err StatusCode.NOT_ACCEPTABLE "unsupported_format" m.
Definition no_acceptable : ApiErr :=
  unsupported_format "no acceptable dependency graph representation".

Definition parse_format_name (value : string) : option GraphFormat :=
  match to_ascii_lowercase value with
  | "json" => Some FJson
  | "yaml" | "yml" => Some FYaml
  | "toml" => Some FToml
  | "dot" | "graphviz" => Some FDot
  | "mermaid" | "mmd" => Some FMermaid
  | _ => None
  end.

(** [format!("{fraction:0<3}")] *)
Definition pad_right_zeros (fraction : string) : string :=
  fraction +:+ srepeat (3 - String.length fraction) "0".

(** Thousandths. *)
Definition parse_accept_quality (value : string) : option Z :=
  let '(whole, fraction) := default (value, "") (split_once "." value) in
  if (3 <? slen fraction) || negb (sall is_ascii_digit fraction) then None
  else
    fraction ← parse_unsigned u16_max (pad_right_zeros fraction);
    if whole =s "0" then Some fraction
    else if (whole =s "1") && (fraction =? 0) then Some 1000
    else None.

Definition quote : ascii := "034"%char.

(** The loop over the parameters of a media range, up to its quality. *)
Fixpoint accept_parameters (registered : list (string * string)) (parts : list string)
    (parameter_specificity : Z) : option (Z * Z) :=
  match parts with
  | [] => Some (parameter_specificity, 1000)
  | parameter :: parts =>
      match split_once "=" (trim parameter) with
      | None => accept_parameters registered parts parameter_specificity
      | Some (name, value) =>
          if eq_ignore_ascii_case (trim name) "q"
          then Some (parameter_specificity, default 0 (parse_accept_quality (trim value)))
          else
            let requested_value := trim_matches quote (trim value) in
            if existsb (λ r, eq_ignore_ascii_case (trim name) (trim r.1)
                 && eq_ignore_ascii_case requested_value (trim_matches quote (trim r.2))) registered
            then accept_parameters registered parts (saturating_add u16_max parameter_specificity 1)
            else None
      end
  end.

Definition media_specificity (requested_type requested_subtype registered_type registered_subtype : string)
    : option Z :=
  if (requested_type =s "*") && (requested_subtype =s "*") then Some 0
  else if (requested_subtype =s "*") && (requested_type =s registered_type) then Some 1
  else if (requested_type =s registered_type) && (requested_subtype =s registered_subtype) then Some 2
  else None.

(** The specificity and the quality a media range gives a registered type. *)
Definition canonical_accept_match (entry registered : string) : option (Z * Z) :=
  match split ";" entry, split ";" registered with
  | media :: parts, registered_media :: registered_parts =>
      '(requested_type, requested_subtype) ← split_once "/" (to_ascii_lowercase (trim media));
      '(registered_type, registered_subtype) ← split_once "/" (trim registered_media);
      let registered_parameters := omap (λ p, split_once "=" (trim p)) registered_parts in
      media ← media_specificity requested_type requested_subtype registered_type registered_subtype;
      '(parameters, quality) ← accept_parameters registered_parameters parts 0;
      Some (media * 256 + Z.min parameters 255, quality)
  | _, _ => None
  end.

(** Keep the more specific match, and of two equally specific ones the one of
    higher quality. *)
Definition better (current candidate : option (Z * Z)) : option (Z * Z) :=
  match candidate, current with
  | None, _ => current
  | Some _, None => candidate
  | Some (s, q), Some (cs, cq) =>
      if (cs <? s) || ((s =? cs) && (cq <? q)) then candidate else current
  end.

Section negotiation.
Context `{gext : GraphExternals}.

Definition update_selected (entry : string) (selected : list (option (Z * Z))) : list (option (Z * Z)) :=
  zip_with (λ format current, better current (canonical_accept_match entry (media_type format)))
    all_formats selected.

Definition media_ranges (value : string) : list string :=
  List.filter (λ entry, negb (is_empty (trim entry))) (split "," value).

Fixpoint scan_accept (values : list (option string)) (saw_entry : bool) (selected : list (option (Z * Z)))
    : ApiResult (bool * list (option (Z * Z))) :=
  match values with
  | [] => mret (saw_entry, selected)
  | value :: values =>
      value ← ok_or no_acceptable value;
      let entries := media_ranges value in
      scan_accept values (saw_entry || negb (bool_decide (entries = [])))
        (fold_left (λ selected entry, update_selected entry selected) entries selected)
  end.

(** A format that is accepted at all, with its quality. *)
Definition positive_quality (e : GraphFormat * option (Z * Z)) : option (GraphFormat * Z) :=
  '(_, quality) ← e.2; if 0 <? quality then Some (e.1, quality) else None.

Definition parse_accept (headers : HeaderMap) : ApiResult (option (list (GraphFormat * Z))) :=
  scanned ← scan_accept (headers "accept") false (replicate 5 None);
  mret (if fst (A := bool) scanned then Some (omap positive_quality (zip all_formats (snd scanned))) else None).

(** The first format of the highest quality. *)
Definition prefer (selected : option (GraphFormat * Z)) (candidate : GraphFormat * Z)
    : option (GraphFormat * Z) :=
  match selected with
  | Some current => if candidate.2 <=? current.2 then Some current else Some candidate
  | None => Some candidate
  end.

Definition resolve_format (headers : HeaderMap) (format_query : option string) : ApiResult GraphFormat :=
  from_query ← (match format_query with
    | None => Ok None
    | Some value =>
        f ← ok_or (unsupported_format ("unsupported dependency graph format `" +:+ value +:+ "`"))
              (parse_format_name value);
        Ok (Some f)
    end : ApiResult (option GraphFormat));
  accepted ← parse_accept headers;
  match from_query, accepted with
  | Some format, None => mret format
  | Some format, Some accepted =>
      if existsb (λ entry, bool_decide (entry.1 = format)) accepted then mret format
      else Err (mk_api_err StatusCode.NOT_ACCEPTABLE "format_conflict"
                  "requested graph representations conflict")
  | None, None => mret FJson
  | None, Some accepted => ok_or no_acceptable (fst <$> fold_left prefer accepted None)
  end.
End negotiation.

(** ** Conditional responses *)

Definition if_none_match_matches (headers : HeaderMap) (etag : string) : bool :=
  existsb (λ candidate, (candidate =s "*") || (default candidate (strip_prefix "W/" candidate) =s etag))
    (map trim (flat_map (split ",") (omap id (headers "if-none-match")))).

Definition not_modified_response (headers : RespHeaders) : GraphResponse :=
  mk_graph_response StatusCode.NOT_MODIFIED headers None.

Definition filename_byte (c : ascii) : bool :=
  is_ascii_alphanumeric c || (c =c ".") || (c =c "-") || (c =c "+").

(** A character becomes one byte: itself, or an underscore. *)
Fixpoint filename_part (s : string) : string :=
  match s with
  | "" => ""
  | String c r =>
      if is_continuation c then filename_part r
      else String (if filename_byte c then c else "_"%char) (filename_part r)
  end.

Definition filename_stem (org name version : string) : string :=
  filename_part org +:+ "_" +:+ filename_part name +:+ "_" +:+ filename_part version.
