(* ===== verification/GraphText.v ===== *)
(** * Representations of a dependency graph ([src/routes/graph.rs])

    The YAML and TOML projections of the canonical JSON, the DOT and Mermaid
    renderings, and the handlers that serve them. Text appended to a buffer in
    the source is concatenated here. *)

From S2P Require Export Graph.

Definition nl : string := String newline "".
Definition quotes : string := String quote "".

(** ** UTF-8 ([str::chars])

    The characters of a string with their code points. On the encodings of
    UTF-8 a lead byte takes its continuation bytes; a byte that begins no
    character (an overlong form is none) is a character of its own. *)
Definition cont (c : ascii) : Z := byte_of c mod 64.

(** The first character: its code point, its bytes and the rest. *)
Definition next_char (s : string) : option (Z * string * string) :=
  match s with
  | "" => None
  | String a r =>
      let single := Some (byte_of a, String a "", r) in
      let lead := byte_of a in
      let multi code bytes rest := if code <? 128 then single else Some (code, bytes, rest) in
      match r with
      | String b r =>
          if (lead <? 192) || negb (is_continuation b) then single
          else if lead <? 224
          then multi (64 * (lead mod 32) + cont b) (String a (String b "")) r
          else match r with
          | String c r =>
              if negb (is_continuation c) then single
              else if lead <? 240
              then multi (4096 * (lead mod 16) + 64 * cont b + cont c) (String a (String b (String c ""))) r
              else match r with
              | String d r =>
                  if negb (is_continuation d) then single
                  else multi (262144 * (lead mod 8) + 4096 * cont b + 64 * cont c + cont d)
                             (String a (String b (String c (String d "")))) r
              | "" => single
              end
          | "" => single
          end
      | "" => single
      end
  end.

Fixpoint chars_fuel (fuel : nat) (s : string) : list (Z * string) :=
  match fuel, next_char s with
  | S fuel, Some (code, bytes, rest) => (code, bytes) :: chars_fuel fuel rest
  | _, _ => []
  end.
Definition chars (s : string) : list (Z * string) := chars_fuel (String.length s) s.

(** [{:X}] of an unsigned integer. *)
Definition hex_upper_digit (n : Z) : ascii :=
  if n <? 10 then chr (Z.to_N (48 + n)) else chr (Z.to_N (55 + n)).
Fixpoint hex_upper_aux (fuel : nat) (n : Z) (acc : string) : string :=
  match fuel with
  | O => acc
  | S fuel =>
      let acc := String (hex_upper_digit (n mod 16)) acc in
      if n <? 16 then acc else hex_upper_aux fuel (n / 16) acc
  end.
Definition hex_upper_of_Z (n : Z) : string := hex_upper_aux (S (Z.to_nat (Z.log2 n))) n "".

Section text.
Context `{ext : Externals} `{web : WebExternals} `{gext : GraphExternals}.

(** ** YAML *)

Definition yaml_scalar_key (key : string) : string := json_string key.

Definition is_block (v : json) : bool :=
  match v with JObj (_ :: _) | JArr (_ :: _) => true | _ => false end.
Definition is_nonempty_object (v : json) : bool :=
  match v with JObj (_ :: _) => true | _ => false end.

Fixpoint write_yaml (indent : nat) (value : json) : string :=
  let pad := srepeat indent "  " in
  match value with
  | JObj [] => "{}" +:+ nl
  | JObj map =>
      (fix members (index : nat) (map : list (string * json)) : string :=
         match map with
         | [] => ""
         | (key, child) :: map =>
             (if (0 <? index)%nat || (0 <? indent)%nat then pad else "")
             +:+ yaml_scalar_key key +:+ ":" +:+ (if is_block child then nl else " ")
             +:+ write_yaml (S indent) child +:+ members (S index) map
         end) O map
  | JArr [] => "[]" +:+ nl
  | JArr items =>
      (fix elements (items : list json) : string :=
         match items with
         | [] => ""
         | item :: items =>
             pad +:+ "- "
             +:+ (if is_nonempty_object item
                  then trim_start_matches " " (write_yaml (S indent) item)
                  else write_yaml (S indent) item)
             +:+ elements items
         end) items
  | JStr text => json_string text +:+ nl
  | JNum number => number +:+ nl
  | JBool flag => (if flag then "true" else "false") +:+ nl
  | JNull => quotes +:+ quotes +:+ nl
  end.

(** ** TOML *)

Definition is_toml_table (value : json) : bool := is_nonempty_object value.
Definition is_object (value : json) : bool := match value with JObj _ => true | _ => false end.
Definition is_toml_array_of_tables (value : json) : bool :=
  match value with
  | JArr (item :: items) => forallb is_object (item :: items)
  | _ => false
  end.

Fixpoint toml_inline (value : json) : string :=
  match value with
  | JStr text => json_string text
  | JNum number => number
  | JBool flag => if flag then "true" else "false"
  | JNull => quotes +:+ quotes
  | JArr items => "[" +:+ join ", " (map toml_inline items) +:+ "]"
  | JObj members =>
      "{ " +:+ join ", " (map (λ e, json_string e.1 +:+ " = " +:+ toml_inline e.2) members) +:+ " }"
  end.

Definition toml_entry (e : string * json) : string :=
  json_string e.1 +:+ " = " +:+ toml_inline e.2 +:+ nl.
Definition concat_str : list string → string := foldr String.append "".

Definition toml_table (header : string) (table : json) : string :=
  nl +:+ header +:+ nl
  +:+ match table with JObj members => concat_str (map toml_entry members) | _ => "" end.

Definition write_toml (value : json) : ApiResult string :=
  match value with
  | JObj root =>
      mret (concat_str (map toml_entry
              (List.filter (λ e, negb (is_toml_table e.2 || is_toml_array_of_tables e.2)) root))
            +:+ concat_str (map (λ e, toml_table ("[" +:+ json_string e.1 +:+ "]") e.2)
                  (List.filter (λ e, is_toml_table e.2) root))
            +:+ concat_str (map (λ e, match e.2 with
                                      | JArr items => concat_str
                                          (map (toml_table ("[[" +:+ json_string e.1 +:+ "]]")) items)
                                      | _ => ""
                                      end)
                  (List.filter (λ e, is_toml_array_of_tables e.2) root)))
  | _ => Err from_anyhow
  end.

(** ** Renderings *)

Definition push_graph_text (output value : string) : ApiResult string :=
  length ← ok_or representation_too_large (checked_add usize_max (slen output) (slen value));
  ensure_encoded_size length;;
  mret (output +:+ value).

(** A sequence of pushes. *)
Fixpoint push_all (output : string) (values : list string) : ApiResult string :=
  match values with
  | [] => mret output
  | value :: values => output ← push_graph_text output value; push_all output values
  end.

(** ["n"] and the first eight bytes of the digest in hexadecimal. *)
Definition graph_node_id (text : string) : string := "n" +:+ substring 0 16 (digest_hex text).

Definition dependency_label (d : DeclaredDependency) : string :=
  d.(dep_registry_id) +:+ "::" +:+ d.(dep_org) +:+ "/" +:+ d.(dep_name) +:+ " " +:+ d.(dep_requirement).

Definition dot_header : string :=
  "// Non-authoritative rendering of a zpkg/dependency-graph/v1 document." +:+ nl
  +:+ "// Use the JSON, YAML, or TOML representation for interchange." +:+ nl
  +:+ "digraph zpkg {" +:+ nl +:+ "  rankdir=LR;" +:+ nl.

Definition dot_box (label : string) : string :=
  "  " +:+ graph_node_id label +:+ " [label=" +:+ json_string label +:+ ", shape=box];" +:+ nl.
Definition dot_node (label : string) : string :=
  "  " +:+ graph_node_id label +:+ " [label=" +:+ json_string label +:+ "];" +:+ nl.
Definition dot_edge (from to : string) : string :=
  "  " +:+ graph_node_id from +:+ " -> " +:+ graph_node_id to +:+ ";" +:+ nl.

Definition render_dot (document : GraphDocument) : ApiResult string :=
  push_all dot_header
    (match document.(doc_graph) with
     | Declared package dependencies =>
         let root := identity_to_string package in
         dot_box root :: flat_map (λ d, [dot_node (dependency_label d); dot_edge root (dependency_label d)])
                           dependencies
     | Resolved _ _ nodes edges _ _ _ =>
         map (λ n, dot_box (identity_to_string n.(node_id))) nodes
         ++ map (λ e, dot_edge (identity_to_string e.(edge_from)) (identity_to_string e.(edge_to))) edges
     end ++ ["}" +:+ nl])%list.

Definition mermaid_byte (c : ascii) : bool :=
  is_ascii_alphanumeric c
  || existsb (λ x, c =c x) [" "; "."; "_"; ":"; "/"; "@"; "+"; "-"; "^"; "="; ","]%char.

Definition mermaid_char (char : Z * string) : string :=
  match char.2 with
  | String c "" => if mermaid_byte c then char.2 else "_u" +:+ hex_upper_of_Z char.1 +:+ "_"
  | _ => "_u" +:+ hex_upper_of_Z char.1 +:+ "_"
  end.
Definition mermaid_safe_label (text : string) : string := concat_str (map mermaid_char (chars text)).

Definition mermaid_header : string :=
  "%% Non-authoritative rendering of a zpkg/dependency-graph/v1 document." +:+ nl
  +:+ "%% Use the JSON, YAML, or TOML representation for interchange." +:+ nl
  +:+ "graph LR" +:+ nl.

Definition mermaid_label (text : string) : string :=
  "  " +:+ graph_node_id text +:+ "[" +:+ quotes +:+ mermaid_safe_label text +:+ quotes +:+ "]" +:+ nl.
Definition mermaid_edge (from to : string) : string :=
  "  " +:+ graph_node_id from +:+ " --> " +:+ graph_node_id to +:+ nl.

Definition render_mermaid (document : GraphDocument) : ApiResult string :=
  push_all mermaid_header
    (match document.(doc_graph) with
     | Declared package dependencies =>
         let root := identity_to_string package in
         mermaid_label root
         :: flat_map (λ d, [mermaid_label (dependency_label d); mermaid_edge root (dependency_label d)])
              dependencies
     | Resolved _ _ nodes edges _ _ _ =>
         map (λ n, mermaid_label (identity_to_string n.(node_id))) nodes
         ++ map (λ e, mermaid_edge (identity_to_string e.(edge_from)) (identity_to_string e.(edge_to))) edges
     end)%list.

(** ** Encoding and answering *)

Definition encode (document : GraphDocument) (format : GraphFormat) : ApiResult string :=
  ensure_graph_bounds document;;
  canonical ← map_err (λ _, from_anyhow) (canonical_document_bytes document);
  ensure_encoded_size (slen canonical);;
  encoded ← match format with
    | FJson => Ok canonical
    | FYaml => value ← ok_or from_anyhow (json_from_slice canonical); Ok (write_yaml 0 value)
    | FToml => value ← ok_or from_anyhow (json_from_slice canonical); write_toml value
    | FDot => render_dot document
    | FMermaid => render_mermaid document
    end;
  ensure_encoded_size (slen encoded);;
  mret encoded.

Definition graph_header_value (value : string) : ApiResult string :=
  ok_or from_anyhow (header_value_from_str value).

Definition etag_of (body : string) : string := quotes +:+ digest_hex body +:+ quotes.

(** The headers of the selected representation, without its content type. *)
Definition representation_headers (body graph_digest disposition : string) (authoritative : bool)
    (access : GraphAccess) : ApiResult RespHeaders :=
  etag ← graph_header_value (etag_of body);
  cache ← graph_header_value (cache_control access);
  vary ← graph_header_value (vary access);
  disposition ← graph_header_value disposition;
  length ← graph_header_value (dec_of_Z (slen body));
  digest ← graph_header_value graph_digest;
  mret (rh_insert DEPENDENCY_GRAPH_AUTHORITATIVE_HEADER (if authoritative then "true" else "false")
         (rh_insert DEPENDENCY_GRAPH_DIGEST_HEADER digest
           (rh_insert "content-length" length
             (rh_insert "content-disposition" disposition
               (rh_insert "vary" vary
                 (rh_insert "cache-control" cache
                   (rh_insert "etag" etag []))))))).

Definition attachment (stem extension : string) : string :=
  "attachment; filename=" +:+ quotes +:+ stem +:+ ".dependency-graph." +:+ extension +:+ quotes.

(** A 304 when the caller's validator matches, the bytes otherwise. *)
Definition answer (headers : HeaderMap) (body : string) (response_headers : RespHeaders)
    (media : string) : ApiResult GraphResponse :=
  if if_none_match_matches headers (etag_of body) then mret (not_modified_response response_headers)
  else
    media ← graph_header_value media;
    mret (mk_graph_response StatusCode.OK (rh_insert "content-type" media response_headers) (Some body)).

Definition respond (headers : HeaderMap) (format : GraphFormat) (document : GraphDocument)
    (filename_stem : string) (access : GraphAccess) : ApiResult GraphResponse :=
  body ← encode document format;
  ensure_encoded_size (slen body);;
  graph_digest ← ok_or from_anyhow document.(doc_digest);
  response_headers ← representation_headers body graph_digest
    (attachment filename_stem (extension format)) (is_authoritative format) access;
  answer headers body response_headers (media_type format).
End text.

(** ** Handlers *)

Section handlers.
Context `{ext : Externals} `{web : WebExternals} `{can : CanonicalReads} `{gext : GraphExternals}.

Definition get_declared_graph (st : AppState) (org_slug name ver : string) (view format : option string)
    (headers : HeaderMap) : M ApiErr GraphResponse :=
  lift (if bool_decide (view = Some "declared") then Ok tt
        else Err (bad_request "unsupported_view"
          "package-version dependency graphs are declared-view only; exact resolved graphs are addressed by resolution digest"));;
  format ← lift (resolve_format headers format);
  '(document, access) ← load_authorized_declared_document st headers org_slug name ver;
  lift (respond headers format document (filename_stem org_slug name ver) access).

Definition get_resolution_graph (st : AppState) (digest : string) (format : option string)
    (headers : HeaderMap) : M ApiErr GraphResponse :=
  lift (resolve_format headers format);;
  fail graph_not_found.
End handlers.
