(* ===== verification/ExportProtobuf.v ===== *)
(** * The Protocol Buffers export ([src/routes/graph_exports/protobuf.rs])

    The encoder, the names and codes the exports share, and a reader of the
    committed schema [src/proto/zpkg_dependency_graph_v1.proto], which recovers
    every document. Appending to the output vector is concatenation. *)

From S2P Require Export Graph TextFacts.

(** ** Codes and names shared by the exports ([graph_exports/mod.rs]) *)

Definition dependency_kind_code (kind : DependencyKind) : Z :=
  match kind with Runtime => 1 | Build => 2 | Development => 3 | Peer => 4 | Tooling => 5 end.
Definition dependency_kind_name (kind : DependencyKind) : string :=
  match kind with
  | Runtime => "runtime"
  | Build => "build"
  | Development => "development"
  | Peer => "peer"
  | Tooling => "tooling"
  end.
Definition completeness_code (completeness : Completeness) : Z :=
  match completeness with Complete => 1 | Projected => 2 end.
Definition completeness_name (completeness : Completeness) : string :=
  match completeness with Complete => "complete" | Projected => "projected" end.
Definition bool_name (value : bool) : string := if value then "true" else "false".

(** ** The encoder *)

(** [value as u8], as a one-byte buffer. *)
Definition byte (value : Z) : string := String (chr (Z.to_N (value mod 256))) "".

(** The loop divides by 128: the binary logarithm bounds its turns. *)
Fixpoint proto_varint_fuel (fuel : nat) (value : Z) : string :=
  match fuel with
  | O => ""
  | S fuel =>
      if 128 <=? value
      then byte (Z.lor (Z.land value 127) 128) +:+ proto_varint_fuel fuel (Z.shiftr value 7)
      else byte value
  end.
Definition proto_varint (value : Z) : string := proto_varint_fuel (S (Z.to_nat (Z.log2 value))) value.

Definition proto_message (field : Z) (value : string) : string :=
  proto_varint (Z.lor (Z.shiftl field 3) 2) +:+ proto_varint (slen value) +:+ value.
Definition proto_string (field : Z) (value : string) : string := proto_message field value.
Definition proto_u64 (field value : Z) : string :=
  proto_varint (Z.shiftl field 3) +:+ proto_varint value.
Definition proto_enum (field value : Z) : string := proto_u64 field value.
Definition proto_bool (field : Z) (value : bool) : string := if value then proto_u64 field 1 else "".

(** [if let Some(x) = o { f(x) }] and [for x in l { f(x) }], on a buffer. *)
Definition on_some {A} (f : A → string) (o : option A) : string :=
  match o with Some x => f x | None => "" end.
Definition each {A} (f : A → string) (l : list A) : string := foldr (λ x r, f x +:+ r) "" l.

Definition proto_identity (identity : PackageVersionIdentity) : string :=
  proto_string 1 identity.(registry_id_of) +:+ proto_string 2 identity.(id_org)
  +:+ proto_string 3 identity.(id_name) +:+ proto_string 4 identity.(id_version).

Definition proto_declared_dependency (dependency : DeclaredDependency) : string :=
  proto_string 1 dependency.(dep_registry_id) +:+ proto_string 2 dependency.(dep_org)
  +:+ proto_string 3 dependency.(dep_name) +:+ proto_string 4 dependency.(dep_requirement)
  +:+ proto_enum 5 (dependency_kind_code dependency.(dep_kind))
  +:+ proto_bool 6 dependency.(dep_optional) +:+ proto_bool 7 dependency.(dep_default_features)
  +:+ each (proto_string 8) dependency.(dep_features) +:+ on_some (proto_string 9) dependency.(dep_target).

Definition proto_resolved_node (node : ResolvedNode) : string :=
  proto_message 1 (proto_identity node.(node_id)) +:+ on_some (proto_string 2) node.(node_artifact_digest)
  +:+ each (proto_string 3) node.(node_features).

Definition proto_resolved_edge (edge : ResolvedEdge) : string :=
  proto_message 1 (proto_identity edge.(edge_from)) +:+ proto_message 2 (proto_identity edge.(edge_to))
  +:+ proto_enum 3 (dependency_kind_code edge.(edge_kind))
  +:+ on_some (proto_string 4) edge.(edge_requirement) +:+ on_some (proto_string 5) edge.(edge_target)
  +:+ proto_bool 6 edge.(edge_optional) +:+ each (proto_string 7) edge.(edge_features).

Definition proto_snapshot (snapshot : RegistrySnapshot) : string :=
  proto_string 1 snapshot.(snap_registry_id) +:+ proto_string 2 snapshot.(snap_checkpoint_digest).

Definition proto_provenance (provenance : Provenance) : string :=
  proto_string 1 provenance.(prov_resolver_version) +:+ proto_string 2 provenance.(prov_target)
  +:+ each (proto_string 3) provenance.(prov_enabled_features)
  +:+ each (λ s, proto_message 4 (proto_snapshot s)) provenance.(prov_registry_snapshots)
  +:+ proto_string 5 provenance.(prov_lock_digest).

Definition proto_projection (projection : Projection) : string :=
  on_some (proto_string 1) projection.(proj_target) +:+ each (proto_string 2) projection.(proj_features)
  +:+ each (λ k, proto_enum 3 (dependency_kind_code k)) projection.(proj_kinds)
  +:+ on_some (proto_u64 4) projection.(proj_max_depth).

Definition proto_graph (graph : GraphData) : string :=
  match graph with
  | Declared package dependencies =>
      proto_message 10 (proto_message 1 (proto_identity package)
        +:+ each (λ d, proto_message 2 (proto_declared_dependency d)) dependencies)
  | Resolved completeness roots nodes edges provenance parent_graph_digest projection =>
      proto_message 11 (proto_enum 1 (completeness_code completeness)
        +:+ each (λ r, proto_message 2 (proto_identity r)) roots
        +:+ each (λ n, proto_message 3 (proto_resolved_node n)) nodes
        +:+ each (λ e, proto_message 4 (proto_resolved_edge e)) edges
        +:+ proto_message 5 (proto_provenance provenance)
        +:+ on_some (proto_string 6) parent_graph_digest
        +:+ on_some (λ p, proto_message 7 (proto_projection p)) projection)
  end.

Definition encode_protobuf (document : GraphDocument) : string :=
  proto_string 1 document.(doc_schema) +:+ on_some (proto_string 2) document.(doc_digest)
  +:+ proto_graph document.(doc_graph).

(** ** The reader

    Base-128 varints, fields of the two wire types the schema needs, and one
    reader per message. A singular field takes its last occurrence and its
    default when there is none; a field with explicit presence is optional. *)

Inductive WireValue : Type := Varint (v : Z) | Bytes (b : string).
Definition Field : Type := Z * WireValue.

Fixpoint read_varint (s : string) : option (Z * string) :=
  match s with
  | "" => None
  | String c r =>
      if byte_of c <? 128 then Some (byte_of c, r)
      else '(v, r) ← read_varint r; Some (byte_of c - 128 + 128 * v, r)
  end.

(** The first [n] bytes and the rest. *)
Fixpoint split_bytes (n : nat) (s : string) : option (string * string) :=
  match n, s with
  | O, _ => Some ("", s)
  | S n, String c r => '(a, b) ← split_bytes n r; Some (String c a, b)
  | S _, "" => None
  end.

Definition read_field (s : string) : option (Field * string) :=
  '(key, s) ← read_varint s;
  '(v, s) ← read_varint s;
  if key mod 8 =? 0 then Some ((key / 8, Varint v), s)
  else if key mod 8 =? 2 then '(b, s) ← split_bytes (Z.to_nat v) s; Some ((key / 8, Bytes b), s)
  else None.

Fixpoint read_fields_fuel (fuel : nat) (s : string) : option (list Field) :=
  match s, fuel with
  | "", _ => Some []
  | _, O => None
  | _, S fuel => '(f, s) ← read_field s; fs ← read_fields_fuel fuel s; Some (f :: fs)
  end.
Definition read_fields (s : string) : option (list Field) := read_fields_fuel (String.length s) s.

Definition bytes_of (n : Z) (fs : list Field) : list string :=
  omap (λ f, match f with (k, Bytes b) => if k =? n then Some b else None | _ => None end) fs.
Definition varints_of (n : Z) (fs : list Field) : list Z :=
  omap (λ f, match f with (k, Varint v) => if k =? n then Some v else None | _ => None end) fs.
Definition string_field (n : Z) (fs : list Field) : string := default "" (last (bytes_of n fs)).
Definition varint_field (n : Z) (fs : list Field) : Z := default 0 (last (varints_of n fs)).
Definition bool_field (n : Z) (fs : list Field) : bool := negb (varint_field n fs =? 0).

Definition kind_of_code (code : Z) : option DependencyKind :=
  match code with
  | 1 => Some Runtime | 2 => Some Build | 3 => Some Development | 4 => Some Peer | 5 => Some Tooling
  | _ => None
  end.
Definition completeness_of_code (code : Z) : option Completeness :=
  match code with 1 => Some Complete | 2 => Some Projected | _ => None end.

Definition read_identity (s : string) : option PackageVersionIdentity :=
  fs ← read_fields s;
  Some (mk_identity (string_field 1 fs) (string_field 2 fs) (string_field 3 fs) (string_field 4 fs)).

Definition read_dependency (s : string) : option DeclaredDependency :=
  fs ← read_fields s;
  kind ← kind_of_code (varint_field 5 fs);
  Some (mk_dependency (string_field 1 fs) (string_field 2 fs) (string_field 3 fs) (string_field 4 fs)
          kind (bool_field 6 fs) (bool_field 7 fs) (bytes_of 8 fs) (last (bytes_of 9 fs))).

Definition read_node (s : string) : option ResolvedNode :=
  fs ← read_fields s;
  id ← read_identity (string_field 1 fs);
  Some (mk_node id (last (bytes_of 2 fs)) (bytes_of 3 fs)).

Definition read_edge (s : string) : option ResolvedEdge :=
  fs ← read_fields s;
  from ← read_identity (string_field 1 fs);
  to ← read_identity (string_field 2 fs);
  kind ← kind_of_code (varint_field 3 fs);
  Some (mk_edge from to kind (last (bytes_of 4 fs)) (last (bytes_of 5 fs)) (bool_field 6 fs) (bytes_of 7 fs)).

Definition read_snapshot (s : string) : option RegistrySnapshot :=
  fs ← read_fields s; Some (mk_snapshot (string_field 1 fs) (string_field 2 fs)).

Definition read_provenance (s : string) : option Provenance :=
  fs ← read_fields s;
  snapshots ← mapM read_snapshot (bytes_of 4 fs);
  Some (mk_provenance (string_field 1 fs) (string_field 2 fs) (bytes_of 3 fs) snapshots (string_field 5 fs)).

Definition read_projection (s : string) : option Projection :=
  fs ← read_fields s;
  kinds ← mapM kind_of_code (varints_of 3 fs);
  Some (mk_projection (last (bytes_of 1 fs)) (bytes_of 2 fs) kinds (last (varints_of 4 fs))).

Definition read_declared (s : string) : option GraphData :=
  fs ← read_fields s;
  package ← read_identity (string_field 1 fs);
  dependencies ← mapM read_dependency (bytes_of 2 fs);
  Some (Declared package dependencies).

Definition read_resolved (s : string) : option GraphData :=
  fs ← read_fields s;
  completeness ← completeness_of_code (varint_field 1 fs);
  roots ← mapM read_identity (bytes_of 2 fs);
  nodes ← mapM read_node (bytes_of 3 fs);
  edges ← mapM read_edge (bytes_of 4 fs);
  provenance ← read_provenance (string_field 5 fs);
  projection ← (match last (bytes_of 7 fs) with
                | Some p => Some <$> read_projection p
                | None => Some None
                end : option (option Projection));
  Some (Resolved completeness roots nodes edges provenance (last (bytes_of 6 fs)) projection).

Definition read_protobuf (s : string) : option GraphDocument :=
  fs ← read_fields s;
  graph ← match last (bytes_of 10 fs), last (bytes_of 11 fs) with
          | Some declared, None => read_declared declared
          | None, Some resolved => read_resolved resolved
          | _, _ => None
          end;
  let digest := string_field 2 fs in
  Some (mk_document (string_field 1 fs) graph (if is_empty digest then None else Some digest)).

(** Injectivity, without the simplification [injection] does. *)
Lemma Ok_inj {E A} (a b : A) : @Ok E A a = Ok b → a = b.
Proof. by injection 1. Qed.

(** ** Varints *)

#[local] Arguments proto_varint : simpl never.
#[local] Arguments Z.modulo : simpl never.
#[local] Arguments Z.div : simpl never.
#[local] Arguments Z.mul : simpl never.

Lemma lor_add a b : Z.land a b = 0 → Z.lor a b = a + b.
Proof. intros H. pose proof (Z.add_lor_land a b). lia. Qed.

Lemma low_bits_disjoint v k b : 0 ≤ k → b = 2 ^ k → Z.land (v mod b) b = 0.
Proof.
  intros Hk ->. apply Z.bits_inj'. intros n Hn. rewrite Z.land_spec, Z.bits_0, Z.pow2_bits_eqb by done.
  destruct (Z.eqb_spec k n) as [->|]; [|apply andb_false_r]. by rewrite Z.mod_pow2_bits_high by lia.
Qed.

Lemma continuation_byte v : 0 ≤ v → Z.lor (Z.land v 127) 128 = v mod 128 + 128.
Proof.
  intros H. change 127 with (Z.ones 7). rewrite Z.land_ones by lia. change (2 ^ 7) with 128.
  apply lor_add. by apply (low_bits_disjoint v 7).
Qed.

Lemma shifted_key k : Z.lor (Z.shiftl k 3) 2 = 8 * k + 2.
Proof.
  rewrite lor_add; [rewrite Z.shiftl_mul_pow2 by lia; lia|].
  apply Z.bits_inj'. intros n Hn. rewrite Z.land_spec, Z.bits_0. change 2 with (2 ^ 1).
  rewrite Z.pow2_bits_eqb by lia. destruct (Z.eqb_spec 1 n) as [<-|]; [|apply andb_false_r].
  by rewrite Z.shiftl_spec_low.
Qed.

Lemma byte_of_byte v : 0 ≤ v < 256 → ∃ c, byte v = String c "" ∧ byte_of c = v.
Proof.
  intros H. eexists. split; [reflexivity|]. rewrite byte_of_chr; rewrite Z.mod_small by lia; lia.
Qed.

Lemma read_varint_fuel fuel v r :
  (0 < fuel)%nat → 0 ≤ v < 128 ^ Z.of_nat fuel →
  read_varint (proto_varint_fuel fuel v +:+ r) = Some (v, r).
Proof.
  revert v. induction fuel as [|fuel IH]; intros v Hf H; [lia|].
  cbn [proto_varint_fuel]. destruct (Z.leb_spec 128 v).
  - rewrite continuation_byte by lia. pose proof (Z.mod_pos_bound v 128).
    destruct (byte_of_byte (v mod 128 + 128)) as (c & -> & Hc); [lia|].
    rewrite app_str_assoc. cbn [String.append read_varint]. rewrite Hc, (proj2 (Z.ltb_ge _ _)) by lia.
    rewrite Z.shiftr_div_pow2 by lia. change (2 ^ 7) with 128.
    destruct fuel as [|fuel]; [change (128 ^ Z.of_nat 1) with 128 in H; lia|].
    rewrite IH; [cbn; do 2 f_equal; pose proof (Z.div_mod v 128); lia|lia|].
    replace (Z.of_nat (S (S fuel))) with (Z.of_nat (S fuel) + 1) in H by lia.
    rewrite Z.pow_add_r in H by lia.
    split; [apply Z.div_pos; lia|]. apply Z.div_lt_upper_bound; lia.
  - destruct (byte_of_byte v) as (c & -> & Hc); [lia|]. cbn [String.append read_varint]. rewrite Hc.
    by rewrite (proj2 (Z.ltb_lt _ _)).
Qed.

Lemma varint_fuel_enough v : 0 ≤ v → v < 128 ^ Z.of_nat (S (Z.to_nat (Z.log2 v))).
Proof.
  intros H. destruct (Z.eq_dec v 0) as [->|]; [done|].
  pose proof (Z.log2_nonneg v). destruct (Z.log2_spec v) as [_ Hv]; [lia|].
  rewrite Nat2Z.inj_succ, Z2Nat.id by done.
  eapply Z.lt_le_trans; [done|]. apply Z.pow_le_mono_l. lia.
Qed.

Lemma read_proto_varint v r : 0 ≤ v → read_varint (proto_varint v +:+ r) = Some (v, r).
Proof. intros H. apply read_varint_fuel; [lia|]. split; [done|]. by apply varint_fuel_enough. Qed.

Lemma slen_byte v : slen (byte v) = 1.
Proof. done. Qed.

Lemma slen_varint_fuel fuel k v :
  (0 < k ≤ fuel)%nat → 0 ≤ v < 128 ^ Z.of_nat k →
  1 ≤ slen (proto_varint_fuel fuel v) ≤ Z.of_nat k.
Proof.
  revert k v. induction fuel as [|fuel IH]; intros k v Hk Hv; [lia|].
  cbn [proto_varint_fuel]. destruct (Z.leb_spec 128 v); [|rewrite slen_byte; lia].
  rewrite slen_app, slen_byte, Z.shiftr_div_pow2 by lia. change (2 ^ 7) with 128.
  destruct k as [|[|k]]; [lia|change (128 ^ Z.of_nat 1) with 128 in Hv; lia|].
  assert (1 ≤ slen (proto_varint_fuel fuel (v / 128)) ≤ Z.of_nat (S k)) as Hl; [|lia].
  apply IH; [lia|]. replace (Z.of_nat (S (S k))) with (Z.of_nat (S k) + 1) in Hv by lia.
  rewrite Z.pow_add_r in Hv by lia.
  split; [apply Z.div_pos; lia|]. apply Z.div_lt_upper_bound; lia.
Qed.

Lemma proto_varint_nonempty v : 1 ≤ slen (proto_varint v).
Proof.
  unfold proto_varint. cbn [proto_varint_fuel].
  destruct (128 <=? v); rewrite ?slen_app, slen_byte; [|lia].
  pose proof (slen_nonneg (proto_varint_fuel (Z.to_nat (Z.log2 v)) (Z.shiftr v 7))). lia.
Qed.

Lemma varint_fuel_irrelevant f1 f2 v :
  (0 < f1)%nat → (0 < f2)%nat → 0 ≤ v < 128 ^ Z.of_nat f1 → v < 128 ^ Z.of_nat f2 →
  proto_varint_fuel f1 v = proto_varint_fuel f2 v.
Proof.
  revert f2 v. induction f1 as [|f1 IH]; intros [|f2] v H1 H2 Hv Hv2; [lia..|].
  cbn [proto_varint_fuel]. destruct (Z.leb_spec 128 v); [|done]. f_equal.
  rewrite Z.shiftr_div_pow2 by lia. change (2 ^ 7) with 128.
  rewrite Nat2Z.inj_succ, Z.pow_succ_r in Hv, Hv2 by lia.
  assert (∀ f, v < 128 * 128 ^ Z.of_nat f → (0 < f)%nat) as Hpos.
  { intros [|f] Hf; [change (128 ^ Z.of_nat 0) with 1 in Hf; lia|lia]. }
  apply IH; [apply Hpos; lia|by apply Hpos|split; [apply Z.div_pos; lia|]|];
    apply Z.div_lt_upper_bound; lia.
Qed.

(** The varint loop ends after at most ten bytes on every [u64], and the
    bytes it pushes read back as the value, whatever follows them. *)
Theorem proto_varint_terminates fuel v r :
  0 ≤ v ≤ u64_max → (10 ≤ fuel)%nat →
  proto_varint_fuel fuel v = proto_varint v ∧
  1 ≤ slen (proto_varint_fuel fuel v) ≤ 10 ∧
  read_varint (proto_varint_fuel fuel v +:+ r) = Some (v, r).
Proof.
  intros Hv Hf. assert (v < 128 ^ Z.of_nat 10) as H10 by (unfold u64_max in Hv; lia).
  assert (v < 128 ^ Z.of_nat fuel) as Hfuel.
  { eapply Z.lt_le_trans; [done|]. apply Z.pow_le_mono_r; lia. }
  split; [|split].
  - unfold proto_varint. apply varint_fuel_irrelevant; [lia..|]. apply varint_fuel_enough. lia.
  - apply (slen_varint_fuel fuel 10); lia.
  - apply read_varint_fuel; lia.
Qed.

(** ** Fields *)

#[local] Arguments read_varint : simpl never.

Definition enc_field (f : Field) : string :=
  match f with (k, Varint v) => proto_u64 k v | (k, Bytes b) => proto_message k b end.
Definition wf_field (f : Field) : Prop :=
  0 ≤ f.1 ∧ match f.2 with Varint v => 0 ≤ v | Bytes _ => True end.

Lemma split_bytes_app a r : split_bytes (String.length a) (a +:+ r) = Some (a, r).
Proof. induction a as [|c a IH]; [by destruct r|]. cbn. by rewrite IH. Qed.

Lemma read_enc_field f r : wf_field f → read_field (enc_field f +:+ r) = Some (f, r).
Proof.
  destruct f as [k [v|b]]; intros [Hk Hv]; cbn in Hk, Hv; cbn [enc_field];
    unfold proto_u64, proto_message, read_field; rewrite ?shifted_key, !app_str_assoc.
  - rewrite Z.shiftl_mul_pow2 by lia. change (2 ^ 3) with 8.
    rewrite read_proto_varint by lia. cbn. rewrite read_proto_varint by done. cbn.
    by rewrite Z.mod_mul, Z.div_mul by lia.
  - rewrite read_proto_varint by lia. cbn. rewrite read_proto_varint by apply slen_nonneg. cbn.
    replace (8 * k + 2) with (2 + k * 8) by lia. rewrite Z.mod_add, Z.div_add by lia.
    change (2 mod 8) with 2. cbn [Z.eqb]. unfold slen. rewrite Nat2Z.id, split_bytes_app. cbn.
    done.
Qed.

Lemma read_fields_each fs fuel :
  Forall wf_field fs → (String.length (each enc_field fs) ≤ fuel)%nat →
  read_fields_fuel fuel (each enc_field fs) = Some fs.
Proof.
  intros H. revert fuel. induction H as [|f fs Hf Hfs IH]; intros fuel Hfuel; [by destruct fuel|].
  cbn [each foldr] in *. fold (each enc_field fs) in *.
  assert (1 ≤ slen (enc_field f)) as Hl.
  { destruct f as [k [v|b]]; cbn [enc_field]; unfold proto_u64, proto_message; rewrite slen_app;
      pose proof (proto_varint_nonempty (Z.shiftl k 3)); pose proof (proto_varint_nonempty (Z.lor (Z.shiftl k 3) 2));
      match goal with |- 1 ≤ _ + slen ?x => pose proof (slen_nonneg x) end; lia. }
  pose proof (slen_app (enc_field f) (each enc_field fs)) as Ha. unfold slen in *.
  destruct fuel as [|fuel]; [lia|]. cbn [read_fields_fuel].
  destruct (enc_field f +:+ each enc_field fs) eqn:E; [cbn in Ha; lia|]. rewrite <- E in *.
  rewrite read_enc_field by done. cbn. rewrite IH by lia. done.
Qed.

(** The text [s] is the encoding of the fields [fs]. *)
Definition denotes (s : string) (fs : list Field) : Prop := s = each enc_field fs ∧ Forall wf_field fs.

Lemma read_denotes s fs : denotes s fs → read_fields s = Some fs.
Proof. intros [-> H]. by apply read_fields_each. Qed.

Lemma each_app {A} (f : A → string) l k : each f (l ++ k) = each f l +:+ each f k.
Proof. induction l as [|x l IH]; [done|]. cbn. fold (each f (l ++ k)). by rewrite IH, app_str_assoc. Qed.

Lemma denotes_app s t fs gs : denotes s fs → denotes t gs → denotes (s +:+ t) (fs ++ gs).
Proof. intros [-> ?] [-> ?]. split; [by rewrite each_app|by apply Forall_app]. Qed.
Lemma denotes_nil : denotes "" [].
Proof. by split. Qed.
Lemma denotes_message k b : 0 ≤ k → denotes (proto_message k b) [(k, Bytes b)].
Proof. intros H. split; [cbn; by rewrite app_str_nil_r|]. by constructor. Qed.
Lemma denotes_u64 k v : 0 ≤ k → 0 ≤ v → denotes (proto_u64 k v) [(k, Varint v)].
Proof. intros H Hv. split; [cbn; by rewrite app_str_nil_r|]. by constructor. Qed.
Lemma denotes_each {A} (f : A → string) (g : A → Field) l :
  (∀ x, denotes (f x) [g x]) → denotes (each f l) (map g l).
Proof.
  intros H. induction l as [|x l IH]; [apply denotes_nil|]. cbn. fold (each f l).
  apply (denotes_app _ _ [g x]); done.
Qed.
Lemma kind_code_pos k : 0 ≤ dependency_kind_code k.
Proof. by destruct k. Qed.
Lemma completeness_code_pos c : 0 ≤ completeness_code c.
Proof. by destruct c. Qed.

Lemma denotes_messages {A} k (f : A → string) l :
  0 ≤ k → denotes (each (λ x, proto_message k (f x)) l) (map (λ x, (k, Bytes (f x))) l).
Proof. intros H. apply denotes_each. intros x. by apply denotes_message. Qed.
Lemma denotes_enums {A} k (f : A → Z) l :
  0 ≤ k → (∀ x, 0 ≤ f x) → denotes (each (λ x, proto_u64 k (f x)) l) (map (λ x, (k, Varint (f x))) l).
Proof. intros H Hf. apply denotes_each. intros x. by apply denotes_u64. Qed.

Create HintDb proto discriminated.
#[export] Hint Constants Opaque : proto.
#[export] Hint Resolve denotes_app denotes_nil denotes_message denotes_u64
  kind_code_pos completeness_code_pos : proto.
#[export] Hint Extern 1 (denotes (each _ _) _) => (apply denotes_messages || apply denotes_enums) : proto.
#[export] Hint Extern 1 (0 ≤ _) => lia : proto.

(** What a reader finds in the fields of a repeated field. *)
Lemma bytes_of_app n fs gs : bytes_of n (fs ++ gs) = (bytes_of n fs ++ bytes_of n gs)%list.
Proof. apply omap_app. Qed.
Lemma varints_of_app n fs gs : varints_of n (fs ++ gs) = (varints_of n fs ++ varints_of n gs)%list.
Proof. apply omap_app. Qed.
Lemma bytes_of_repeated {A} n m (f : A → string) l :
  bytes_of n (map (λ x, (m, Bytes (f x))) l) = if m =? n then map f l else [].
Proof.
  induction l as [|x l IH]; [by destruct (m =? n)|]. cbn. fold (bytes_of n (map (λ x, (m, Bytes (f x))) l)).
  rewrite IH. by destruct (m =? n).
Qed.
Lemma bytes_of_varints {A} n m (f : A → Z) l : bytes_of n (map (λ x, (m, Varint (f x))) l) = [].
Proof. induction l as [|x l IH]; [done|]. apply IH. Qed.
Lemma varints_of_repeated {A} n m (f : A → Z) l :
  varints_of n (map (λ x, (m, Varint (f x))) l) = if m =? n then map f l else [].
Proof.
  induction l as [|x l IH]; [by destruct (m =? n)|]. cbn.
  fold (varints_of n (map (λ x, (m, Varint (f x))) l)). rewrite IH. by destruct (m =? n).
Qed.
Lemma varints_of_bytes {A} n m (f : A → string) l : varints_of n (map (λ x, (m, Bytes (f x))) l) = [].
Proof. induction l as [|x l IH]; [done|]. apply IH. Qed.

Lemma bytes_of_cons n k b fs :
  bytes_of n ((k, Bytes b) :: fs) = ((if k =? n then [b] else []) ++ bytes_of n fs)%list.
Proof. cbn. by destruct (k =? n). Qed.
Lemma bytes_of_cons_varint n k v fs : bytes_of n ((k, Varint v) :: fs) = bytes_of n fs.
Proof. done. Qed.
Lemma varints_of_cons n k v fs :
  varints_of n ((k, Varint v) :: fs) = ((if k =? n then [v] else []) ++ varints_of n fs)%list.
Proof. cbn. by destruct (k =? n). Qed.
Lemma varints_of_cons_bytes n k b fs : varints_of n ((k, Bytes b) :: fs) = varints_of n fs.
Proof. done. Qed.
Lemma bytes_of_nil n : bytes_of n [] = [].
Proof. done. Qed.
Lemma varints_of_nil n : varints_of n [] = [].
Proof. done. Qed.

Create Rewrite HintDb proto.
#[export] Hint Rewrite @map_id @app_nil_r bytes_of_nil varints_of_nil bytes_of_cons bytes_of_cons_varint varints_of_cons
  varints_of_cons_bytes @bytes_of_app @varints_of_app @bytes_of_repeated @bytes_of_varints
  @varints_of_repeated @varints_of_bytes : proto.

Lemma mapM_map {A} (f : A → string) (g : string → option A) l :
  Forall (λ x, g (f x) = Some x) l → mapM g (map f l) = Some l.
Proof. induction 1 as [|x l Hx Hl IH]; [done|]. cbn. by rewrite Hx, IH. Qed.

Lemma mapM_codes l : mapM kind_of_code (map dependency_kind_code l) = Some l.
Proof. induction l as [|[] l IH]; [done|..]; cbn; by rewrite IH. Qed.

(** ** Messages

    Each message denotes its fields, and its reader recovers it. *)

(** Read a message whose parts are known, then look its fields up. *)
#[local] Arguments each : simpl never.
#[local] Arguments read_fields : simpl never.
#[local] Arguments read_identity : simpl never.
#[local] Arguments read_provenance : simpl never.
#[local] Arguments read_projection : simpl never.
#[local] Arguments proto_identity : simpl never.
#[local] Arguments proto_provenance : simpl never.
#[local] Arguments proto_projection : simpl never.
#[local] Arguments kind_of_code : simpl never.
#[local] Arguments completeness_of_code : simpl never.
#[local] Arguments mapM : simpl never.
#[local] Arguments bytes_of : simpl never.
#[local] Arguments varints_of : simpl never.
Ltac denote :=
  match goal with
  | |- context [read_fields ?s] =>
      erewrite (read_denotes s) by (unfold proto_string, proto_enum, proto_bool; eauto 20 with proto)
  end;
  cbn; unfold string_field, bool_field, varint_field; autorewrite with proto; cbn.

Lemma read_proto_identity i : read_identity (proto_identity i) = Some i.
Proof. destruct i. unfold read_identity, proto_identity. by denote. Qed.

Lemma kind_of_code_code k : kind_of_code (dependency_kind_code k) = Some k.
Proof. by destruct k. Qed.

Lemma read_proto_dependency d : read_dependency (proto_declared_dependency d) = Some d.
Proof.
  destruct d as [? ? ? ? k o df fts t]. unfold read_dependency, proto_declared_dependency.
  destruct o, df, t; cbn; denote; by rewrite kind_of_code_code.
Qed.

Lemma read_proto_node n : read_node (proto_resolved_node n) = Some n.
Proof.
  destruct n as [i [a|] fts]; unfold read_node, proto_resolved_node; cbn; denote;
    by rewrite read_proto_identity.
Qed.

Lemma read_proto_edge e : read_edge (proto_resolved_edge e) = Some e.
Proof.
  destruct e as [f t k r tg o fts]. unfold read_edge, proto_resolved_edge.
  destruct r, tg, o; cbn; denote; rewrite !read_proto_identity; cbn;
    by rewrite kind_of_code_code.
Qed.

Lemma read_proto_snapshot s : read_snapshot (proto_snapshot s) = Some s.
Proof. destruct s. unfold read_snapshot, proto_snapshot. by denote. Qed.

Lemma read_proto_provenance p : read_provenance (proto_provenance p) = Some p.
Proof.
  destruct p. unfold read_provenance, proto_provenance. cbn. denote.
  rewrite mapM_map by (apply Forall_forall; intros; apply read_proto_snapshot). done.
Qed.

Definition wf_projection (p : Projection) : Prop :=
  match p.(proj_max_depth) with Some d => 0 ≤ d ≤ u32_max | None => True end.

Lemma read_proto_projection p : wf_projection p → read_projection (proto_projection p) = Some p.
Proof.
  destruct p as [t fts ks [m|]]; intros H; cbn in H; unfold read_projection, proto_projection;
    destruct t; cbn; denote; by rewrite mapM_codes.
Qed.

(** A document as the service holds it: the depth of a projection is a [u32]
    and a digest is not empty. *)
Definition wf_document (d : GraphDocument) : Prop :=
  d.(doc_digest) ≠ Some "" ∧
  match d.(doc_graph) with
  | Resolved _ _ _ _ _ _ (Some p) => wf_projection p
  | _ => True
  end.

Lemma read_proto_declared p ds :
  read_declared (proto_message 1 (proto_identity p)
    +:+ each (λ d, proto_message 2 (proto_declared_dependency d)) ds) = Some (Declared p ds).
Proof.
  unfold read_declared. denote. rewrite read_proto_identity. cbn.
  by rewrite mapM_map by (apply Forall_forall; intros; apply read_proto_dependency).
Qed.

Lemma read_proto_resolved c roots nodes edges prov parent proj :
  match proj with Some p => wf_projection p | None => True end →
  read_resolved (proto_enum 1 (completeness_code c)
        +:+ each (λ r, proto_message 2 (proto_identity r)) roots
        +:+ each (λ n, proto_message 3 (proto_resolved_node n)) nodes
        +:+ each (λ e, proto_message 4 (proto_resolved_edge e)) edges
        +:+ proto_message 5 (proto_provenance prov)
        +:+ on_some (proto_string 6) parent
        +:+ on_some (λ p, proto_message 7 (proto_projection p)) proj)
  = Some (Resolved c roots nodes edges prov parent proj).
Proof.
  intros H. unfold read_resolved. destruct parent, proj; cbn; denote;
    (replace (completeness_of_code (completeness_code c)) with (Some c) by (by destruct c)); cbn;
    rewrite !mapM_map by (apply Forall_forall; auto using read_proto_identity, read_proto_node, read_proto_edge);
    cbn; rewrite read_proto_provenance; cbn; by rewrite ?read_proto_projection.
Qed.

(** C35: the Protocol Buffers export is lossless: a reader of the committed
    schema recovers from the encoded bytes of any document, declared or
    resolved, exactly that document. *)
Theorem protobuf_roundtrip d : wf_document d → read_protobuf (encode_protobuf d) = Some d.
Proof.
  destruct d as [schema [p ds|c roots nodes edges prov parent proj] digest]; intros [Hd Hg]; cbn in Hd, Hg;
    unfold read_protobuf, encode_protobuf, proto_graph; destruct digest as [[|a g]|];
    try done; cbn [doc_digest doc_schema doc_graph on_some];
    denote; rewrite ?read_proto_declared, ?read_proto_resolved by done; done.
Qed.
