(* ===== verification/ExportMessagePack.v ===== *)
(** * The MessagePack export ([src/routes/graph_exports/messagepack.rs])

    The encoder of a JSON value, and a reader of the format that recovers it.
    Pushing onto the output vector is concatenation. *)

From S2P Require Export ExportProtobuf GraphText.

(** ** The encoder *)

(** [Number::as_u64], [Number::as_i64]: an integer literal, which JSON writes
    without a plus sign or leading zeros; [-0] is a float. *)
Definition as_u64 (text : string) : option Z :=
  n ← parse_unsigned u64_max text; if dec_of_Z n =s text then Some n else None.
Definition as_i64 (text : string) : option Z :=
  n ← parse_i64 text; if dec_of_Z n =s text then Some n else None.

(** [to_be_bytes] of a [k]-byte integer, in two's complement. *)
Fixpoint be_bytes (k : nat) (value : Z) : string :=
  match k with
  | O => ""
  | S k => byte (value / 256 ^ Z.of_nat k) +:+ be_bytes k value
  end.

Definition messagepack_u64 (value : Z) : string :=
  if value <=? 127 then byte value
  else if value <=? 255 then byte 204 +:+ byte value
  else if value <=? 65535 then byte 205 +:+ be_bytes 2 value
  else if value <=? 4294967295 then byte 206 +:+ be_bytes 4 value
  else byte 207 +:+ be_bytes 8 value.

Definition messagepack_i64 (value : Z) : string :=
  if 0 <=? value then messagepack_u64 value
  else if -32 <=? value then byte value
  else if -128 <=? value then byte 208 +:+ byte value
  else if -32768 <=? value then byte 209 +:+ be_bytes 2 value
  else if -2147483648 <=? value then byte 210 +:+ be_bytes 4 value
  else byte 211 +:+ be_bytes 8 value.

Definition messagepack_string (value : string) : ApiResult string :=
  let len := slen value in
  if len <=? 31 then Ok (byte (Z.lor 160 len) +:+ value)
  else if len <=? 255 then Ok (byte 217 +:+ byte len +:+ value)
  else if len <=? 65535 then Ok (byte 218 +:+ be_bytes 2 len +:+ value)
  else if len <=? u32_max then Ok (byte 219 +:+ be_bytes 4 len +:+ value)
  else Err from_anyhow.

Definition messagepack_array_len (length : Z) : ApiResult string :=
  if length <=? 15 then Ok (byte (Z.lor 144 length))
  else if length <=? 65535 then Ok (byte 220 +:+ be_bytes 2 length)
  else if length <=? u32_max then Ok (byte 221 +:+ be_bytes 4 length)
  else Err from_anyhow.

Definition messagepack_map_len (length : Z) : ApiResult string :=
  if length <=? 15 then Ok (byte (Z.lor 128 length))
  else if length <=? 65535 then Ok (byte 222 +:+ be_bytes 2 length)
  else if length <=? u32_max then Ok (byte 223 +:+ be_bytes 4 length)
  else Err from_anyhow.

Fixpoint messagepack_value (value : json) : ApiResult string :=
  match value with
  | JNull => Ok (byte 192)
  | JBool false => Ok (byte 194)
  | JBool true => Ok (byte 195)
  | JNum number =>
      match as_u64 number with
      | Some value => Ok (messagepack_u64 value)
      | None => value ← ok_or from_anyhow (as_i64 number); Ok (messagepack_i64 value)
      end
  | JStr value => messagepack_string value
  | JArr items =>
      head ← messagepack_array_len (zlength items);
      body ← (fix elements (items : list json) : ApiResult string :=
        match items with
        | [] => Ok ""
        | item :: items => a ← messagepack_value item; b ← elements items; Ok (a +:+ b)
        end) items;
      Ok (head +:+ body)
  | JObj map =>
      head ← messagepack_map_len (zlength map);
      body ← (fix members (map : list (string * json)) : ApiResult string :=
        match map with
        | [] => Ok ""
        | (key, value) :: map =>
            k ← messagepack_string key; a ← messagepack_value value; b ← members map;
            Ok (k +:+ a +:+ b)
        end) map;
      Ok (head +:+ body)
  end.

Section encoder.
Context `{ext : Externals} `{web : WebExternals}.

Definition encode_messagepack (canonical : string) : ApiResult string :=
  value ← ok_or from_anyhow (json_from_slice canonical);
  messagepack_value value.
End encoder.

(** ** The reader *)

Fixpoint read_be (k : nat) (acc : Z) (s : string) : option (Z * string) :=
  match k, s with
  | O, _ => Some (acc, s)
  | S k, String c r => read_be k (256 * acc + byte_of c) r
  | S _, "" => None
  end.
(** The same, as a signed integer. *)
Definition read_signed (k : nat) (s : string) : option (Z * string) :=
  '(n, r) ← read_be k 0 s;
  Some (if 2 * n <? 256 ^ Z.of_nat k then n else n - 256 ^ Z.of_nat k, r).

Definition read_text (len : Z) (s : string) : option (string * string) :=
  split_bytes (Z.to_nat len) s.

(** A string, after its marker. *)
Definition read_string_after (m : Z) (r : string) : option (string * string) :=
  if (160 <=? m) && (m <? 192) then read_text (m - 160) r
  else match m with
  | 217 => '(n, r) ← read_be 1 0 r; read_text n r
  | 218 => '(n, r) ← read_be 2 0 r; read_text n r
  | 219 => '(n, r) ← read_be 4 0 r; read_text n r
  | _ => None
  end.
Definition read_string (s : string) : option (string * string) :=
  match s with String c r => read_string_after (byte_of c) r | "" => None end.

Definition number (o : option (Z * string)) : option (json * string) :=
  '(n, r) ← o; Some (JNum (dec_of_Z n), r).

Section reader.
Variable read : string → option (json * string).

Fixpoint read_items (n : nat) (s : string) : option (list json * string) :=
  match n with
  | O => Some ([], s)
  | S n => '(v, s) ← read s; '(l, s) ← read_items n s; Some (v :: l, s)
  end.

Fixpoint read_members (n : nat) (s : string) : option (list (string * json) * string) :=
  match n with
  | O => Some ([], s)
  | S n =>
      '(k, s) ← read_string s; '(v, s) ← read s; '(l, s) ← read_members n s; Some ((k, v) :: l, s)
  end.

Definition read_array (o : option (Z * string)) : option (json * string) :=
  '(n, s) ← o; '(l, s) ← read_items (Z.to_nat n) s; Some (JArr l, s).
Definition read_map (o : option (Z * string)) : option (json * string) :=
  '(n, s) ← o; '(l, s) ← read_members (Z.to_nat n) s; Some (JObj l, s).

(** A value, after its marker. *)
Definition read_after (m : Z) (r : string) : option (json * string) :=
  if m <? 128 then number (Some (m, r))
  else if m <? 144 then read_map (Some (m - 128, r))
  else if m <? 160 then read_array (Some (m - 144, r))
  else if m <? 192 then '(t, r) ← read_string_after m r; Some (JStr t, r)
  else if 224 <=? m then number (Some (m - 256, r))
  else match m with
  | 192 => Some (JNull, r)
  | 194 => Some (JBool false, r)
  | 195 => Some (JBool true, r)
  | 204 => number (read_be 1 0 r)
  | 205 => number (read_be 2 0 r)
  | 206 => number (read_be 4 0 r)
  | 207 => number (read_be 8 0 r)
  | 208 => number (read_signed 1 r)
  | 209 => number (read_signed 2 r)
  | 210 => number (read_signed 4 r)
  | 211 => number (read_signed 8 r)
  | 220 => read_array (read_be 2 0 r)
  | 221 => read_array (read_be 4 0 r)
  | 222 => read_map (read_be 2 0 r)
  | 223 => read_map (read_be 4 0 r)
  | _ => '(t, r) ← read_string_after m r; Some (JStr t, r)
  end.
End reader.

(** A value is shallower than its encoding is long. *)
Fixpoint read_value (fuel : nat) (s : string) : option (json * string) :=
  match fuel, s with
  | S fuel, String c r => read_after (read_value fuel) (byte_of c) r
  | _, _ => None
  end.
Definition read_messagepack (s : string) : option (json * string) := read_value (S (String.length s)) s.

(** ** Bytes *)

Lemma lor_high a b n k : a = b * 2 ^ k → 0 ≤ k → 0 ≤ n < 2 ^ k → Z.lor a n = a + n.
Proof.
  intros -> Hk Hn. apply lor_add. apply Z.bits_inj'. intros i Hi. rewrite Z.land_spec, Z.bits_0.
  destruct (Z.lt_ge_cases i k) as [H|H].
  - by rewrite Z.mul_pow2_bits_low.
  - destruct (Z.eq_dec n 0) as [->|]; [rewrite Z.bits_0; apply andb_false_r|].
    rewrite (Z.bits_above_log2 n); [apply andb_false_r|lia|].
    eapply Z.lt_le_trans; [|exact H]. apply Z.log2_lt_pow2; lia.
Qed.

Lemma byte_mod v : ∃ c, byte v = String c "" ∧ byte_of c = v mod 256.
Proof.
  eexists. split; [reflexivity|]. pose proof (Z.mod_pos_bound v 256). rewrite byte_of_chr; lia.
Qed.

Lemma read_be_bytes k acc v r :
  read_be k acc (be_bytes k v +:+ r) = Some (256 ^ Z.of_nat k * acc + v mod 256 ^ Z.of_nat k, r).
Proof.
  revert acc. induction k as [|k IH]; intros acc.
  - cbn [be_bytes String.append read_be]. change (256 ^ Z.of_nat 0) with 1. rewrite Z.mod_1_r.
    do 2 f_equal. lia.
  - cbn [be_bytes]. rewrite app_str_assoc. destruct (byte_mod (v / 256 ^ Z.of_nat k)) as (c & -> & Hc).
    cbn [String.append read_be]. rewrite IH, Hc, Nat2Z.inj_succ, Z.pow_succ_r by lia.
    rewrite (Z.mul_comm 256 (_ ^ _)), Z.rem_mul_r by lia. do 2 f_equal. lia.
Qed.

Lemma read_be_small k v r : 0 ≤ v < 256 ^ Z.of_nat k → read_be k 0 (be_bytes k v +:+ r) = Some (v, r).
Proof. intros H. rewrite read_be_bytes, Z.mod_small by done. do 2 f_equal. lia. Qed.

Lemma read_signed_small k v r :
  - 256 ^ Z.of_nat k ≤ 2 * v < 256 ^ Z.of_nat k → read_signed k (be_bytes k v +:+ r) = Some (v, r).
Proof.
  intros H. unfold read_signed. rewrite read_be_bytes. cbn. rewrite Z.mul_0_r, Z.add_0_l.
  destruct (Z.lt_ge_cases v 0).
  - replace (v mod 256 ^ Z.of_nat k) with (v + 256 ^ Z.of_nat k).
    + rewrite (proj2 (Z.ltb_ge _ _)) by lia. do 2 f_equal. lia.
    + apply (Z.mod_unique _ _ (-1)); lia.
  - rewrite Z.mod_small by lia. by rewrite (proj2 (Z.ltb_lt _ _)) by lia.
Qed.

Lemma byte_be v : byte v = be_bytes 1 v.
Proof. cbn [be_bytes]. change (256 ^ Z.of_nat 0) with 1. by rewrite Z.div_1_r. Qed.

Lemma slen_be k v : slen (be_bytes k v) = Z.of_nat k.
Proof. induction k as [|k IH]; [done|]. cbn [be_bytes]. rewrite slen_app, IH, slen_byte. lia. Qed.

(** Decide the comparisons of the goal by arithmetic. *)
Ltac compare_by_lia :=
  repeat match goal with
  | |- context [?a <? ?b] =>
      first [rewrite (proj2 (Z.ltb_lt a b)) by lia | rewrite (proj2 (Z.ltb_ge a b)) by lia]
  | |- context [?a <=? ?b] =>
      first [rewrite (proj2 (Z.leb_le a b)) by lia | rewrite (proj2 (Z.leb_gt a b)) by lia]
  end.

(** ** Scalars and lengths *)

Ltac case_leb :=
  match goal with |- context [if ?a <=? ?b then _ else _] => destruct (Z.leb_spec a b) end.

Lemma read_value_byte fuel m r :
  0 ≤ m < 256 → read_value (S fuel) (byte m +:+ r) = read_after (read_value fuel) m r.
Proof. intros H. destruct (byte_of_byte m H) as (c & -> & Hc). cbn [String.append read_value]. by rewrite Hc. Qed.

Lemma read_string_byte m r : 0 ≤ m < 256 → read_string (byte m +:+ r) = read_string_after m r.
Proof. intros H. destruct (byte_of_byte m H) as (c & -> & Hc). cbn [String.append read_string]. by rewrite Hc. Qed.

Lemma read_u64 fuel v r :
  0 ≤ v ≤ u64_max → read_value (S fuel) (messagepack_u64 v +:+ r) = Some (JNum (dec_of_Z v), r).
Proof.
  unfold u64_max. intros H. unfold messagepack_u64.
  destruct (Z.leb_spec v 127).
  { rewrite read_value_byte by lia. unfold read_after. by compare_by_lia. }
  rewrite (byte_be v).
  repeat case_leb; rewrite app_str_assoc, read_value_byte by lia;
    cbn -[read_be be_bytes]; by rewrite read_be_small by lia.
Qed.

Lemma read_i64 fuel v r :
  i64_min ≤ v ≤ i64_max → read_value (S fuel) (messagepack_i64 v +:+ r) = Some (JNum (dec_of_Z v), r).
Proof.
  unfold i64_min, i64_max. intros H. unfold messagepack_i64.
  destruct (Z.leb_spec 0 v); [apply read_u64; unfold u64_max; lia|].
  destruct (Z.leb_spec (-32) v).
  { replace (byte v) with (byte (v + 256)).
    - rewrite read_value_byte by lia. unfold read_after. compare_by_lia. by replace (v + 256 - 256) with v by lia.
    - unfold byte. rewrite <- Z.add_mod_idemp_r, Z.mod_same, Z.add_0_r by lia. done. }
  rewrite (byte_be v).
  repeat case_leb; rewrite app_str_assoc, read_value_byte by lia;
    cbn -[read_signed be_bytes]; by rewrite read_signed_small by lia.
Qed.

Lemma read_text_app a r : read_text (slen a) (a +:+ r) = Some (a, r).
Proof. unfold read_text, slen. rewrite Nat2Z.id. apply split_bytes_app. Qed.

Lemma slen_byte_app m s : slen (byte m +:+ s) = 1 + slen s.
Proof. by rewrite slen_app, slen_byte. Qed.

(** A string, its marker and length first. *)
Lemma read_enc_string v out :
  messagepack_string v = Ok out →
  slen out ≤ 5 + slen v ∧ 1 ≤ slen out ∧
  ∃ m tail, 160 ≤ m < 224 ∧ out = byte m +:+ tail ∧
    ∀ r, read_string_after m (tail +:+ r) = Some (v, r).
Proof.
  unfold messagepack_string. pose proof (slen_nonneg v).
  repeat case_leb; intros E; try discriminate E; apply Ok_inj in E as <-;
    rewrite ?(byte_be (slen v)), !slen_app, ?slen_be, ?slen_byte;
    (split; [lia|split; [lia|]]).
  - exists (160 + slen v), v. rewrite (lor_high 160 5 (slen v) 5) by lia. split; [lia|]. split; [done|].
    intros r. unfold read_string_after. compare_by_lia. cbn.
    replace (160 + slen v - 160) with (slen v) by lia. apply read_text_app.
  - exists 217. eexists. split; [lia|]. split; [reflexivity|]. intros r. cbn -[read_be be_bytes].
    rewrite app_str_assoc, read_be_small by lia. apply read_text_app.
  - exists 218. eexists. split; [lia|]. split; [reflexivity|]. intros r. cbn -[read_be be_bytes].
    rewrite app_str_assoc, read_be_small by lia. apply read_text_app.
  - exists 219. eexists. split; [lia|]. split; [reflexivity|]. intros r. cbn -[read_be be_bytes].
    rewrite app_str_assoc, read_be_small by (unfold u32_max in *; lia). apply read_text_app.
Qed.

Lemma messagepack_string_value v out fuel r :
  messagepack_string v = Ok out → read_value (S fuel) (out +:+ r) = Some (JStr v, r).
Proof.
  intros (_ & _ & m & tail & Hm & -> & Hr)%read_enc_string.
  rewrite app_str_assoc, read_value_byte by lia. unfold read_after.
  destruct (Z.lt_ge_cases m 192).
  - compare_by_lia. by rewrite Hr.
  - specialize (Hr r). unfold read_string_after in *.
    revert Hr. compare_by_lia. rewrite andb_false_r.
    destruct m as [|m|m]; try lia. repeat (destruct m as [m|m|]; try lia; try discriminate);
    by intros ->.
Qed.

Lemma messagepack_string_key v out r :
  messagepack_string v = Ok out → read_string (out +:+ r) = Some (v, r).
Proof.
  intros (_ & _ & m & tail & Hm & -> & Hr)%read_enc_string.
  rewrite app_str_assoc, read_string_byte by lia. apply Hr.
Qed.

Lemma messagepack_array_head n out fuel r :
  0 ≤ n → messagepack_array_len n = Ok out →
  1 ≤ slen out ∧ read_value (S fuel) (out +:+ r) = read_array (read_value fuel) (Some (n, r)).
Proof.
  unfold messagepack_array_len. intros Hn.
  repeat case_leb; intros E; try discriminate E; apply Ok_inj in E as <-;
    (split; [rewrite ?slen_app, ?slen_be, ?slen_byte; lia|]).
  - rewrite (lor_high 144 9 n 4) by lia. rewrite read_value_byte by lia. unfold read_after.
    compare_by_lia. by replace (144 + n - 144) with n by lia.
  - rewrite app_str_assoc, read_value_byte by lia. cbn -[read_be be_bytes read_array].
    by rewrite read_be_small by lia.
  - rewrite app_str_assoc, read_value_byte by lia. cbn -[read_be be_bytes read_array].
    by rewrite read_be_small by (unfold u32_max in *; lia).
Qed.

Lemma messagepack_map_head n out fuel r :
  0 ≤ n → messagepack_map_len n = Ok out →
  1 ≤ slen out ∧ read_value (S fuel) (out +:+ r) = read_map (read_value fuel) (Some (n, r)).
Proof.
  unfold messagepack_map_len. intros Hn.
  repeat case_leb; intros E; try discriminate E; apply Ok_inj in E as <-;
    (split; [rewrite ?slen_app, ?slen_be, ?slen_byte; lia|]).
  - rewrite (lor_high 128 8 n 4) by lia. rewrite read_value_byte by lia. unfold read_after.
    compare_by_lia. by replace (128 + n - 128) with n by lia.
  - rewrite app_str_assoc, read_value_byte by lia. cbn -[read_be be_bytes read_map].
    by rewrite read_be_small by lia.
  - rewrite app_str_assoc, read_value_byte by lia. cbn -[read_be be_bytes read_map].
    by rewrite read_be_small by (unfold u32_max in *; lia).
Qed.

(** ** Numbers *)

Lemma parse_digits_nonneg a t m : 0 ≤ a → parse_digits a t = Some m → 0 ≤ m.
Proof.
  revert a. induction t as [|c t IH]; intros a Ha; cbn; [by intros [= <-]|].
  destruct (is_ascii_digit c) eqn:Hc; [|done]. apply IH. unfold is_ascii_digit, in_range in Hc.
  bool_to_prop. lia.
Qed.

Lemma parse_unsigned_bound max s n : parse_unsigned max s = Some n → 0 ≤ n ≤ max.
Proof.
  unfold parse_unsigned. set (d := match s with String "+" r => r | _ => s end).
  destruct (is_empty d); [done|].
  destruct (parse_digits 0 d) as [m|] eqn:E; cbn; [|done].
  destruct (Z.leb_spec m max); [|done]. intros [= <-]. split; [|done]. by eapply parse_digits_nonneg.
Qed.

Lemma parse_i64_bound s n : parse_i64 s = Some n → i64_min ≤ n ≤ i64_max.
Proof.
  assert (∀ m, parse_unsigned i64_max m = Some n → i64_min ≤ n ≤ i64_max) as Hu.
  { intros m H%parse_unsigned_bound. unfold i64_min, i64_max in *. lia. }
  unfold parse_i64. destruct s as [|c r]; [apply Hu|].
  destruct c as [[] [] [] [] [] [] [] []]; try apply Hu.
  destruct (is_empty r); [done|]. destruct (parse_digits 0 r) as [m|] eqn:E; cbn; [|done].
  apply parse_digits_nonneg in E; [|done].
  destruct (Z.leb_spec i64_min (- m)); [|done]. intros [= <-]. unfold i64_max. lia.
Qed.

Lemma as_u64_spec t n : as_u64 t = Some n → 0 ≤ n ≤ u64_max ∧ dec_of_Z n = t.
Proof.
  unfold as_u64. destruct (parse_unsigned u64_max t) as [m|] eqn:E; cbn; [|done].
  destruct (dec_of_Z m =s t) eqn:Et; [|done]. intros [= <-]. bool_to_prop.
  split; [by eapply parse_unsigned_bound|done].
Qed.

Lemma as_i64_spec t n : as_i64 t = Some n → i64_min ≤ n ≤ i64_max ∧ dec_of_Z n = t.
Proof.
  unfold as_i64. destruct (parse_i64 t) as [m|] eqn:E; cbn; [|done].
  destruct (dec_of_Z m =s t) eqn:Et; [|done]. intros [= <-]. bool_to_prop.
  split; [by eapply parse_i64_bound|done].
Qed.

(** ** Round trip *)

Lemma slen_u64_pos v : 1 ≤ slen (messagepack_u64 v).
Proof. unfold messagepack_u64. repeat case_leb; rewrite ?slen_app, ?slen_be, ?slen_byte; lia. Qed.

Lemma slen_i64_pos v : 1 ≤ slen (messagepack_i64 v).
Proof.
  unfold messagepack_i64. destruct (0 <=? v); [apply slen_u64_pos|].
  repeat case_leb; rewrite ?slen_app, ?slen_be, ?slen_byte; lia.
Qed.

(** What the encoder promises of a value. *)
Definition encodes (v : json) : Prop :=
  ∀ out, messagepack_value v = Ok out →
    1 ≤ slen out ∧ ∀ fuel r, slen out ≤ Z.of_nat fuel → read_value fuel (out +:+ r) = Some (v, r).

Lemma encodes_scalar v out :
  (∀ fuel r, read_value (S fuel) (out +:+ r) = Some (v, r)) → 1 ≤ slen out →
  1 ≤ slen out ∧ ∀ fuel r, slen out ≤ Z.of_nat fuel → read_value fuel (out +:+ r) = Some (v, r).
Proof. intros H Hl. split; [done|]. intros [|fuel] r Hf; [lia|]. apply H. Qed.

Lemma encodes_num t : encodes (JNum t).
Proof.
  intros out. cbn. destruct (as_u64 t) as [n|] eqn:E.
  - intros H. apply Ok_inj in H as <-. apply as_u64_spec in E as [Hn <-].
    apply encodes_scalar; [|apply slen_u64_pos]. intros. by apply read_u64.
  - destruct (as_i64 t) as [n|] eqn:E'; cbn; [|done].
    intros H. apply Ok_inj in H as <-. apply as_i64_spec in E' as [Hn <-].
    apply encodes_scalar; [|apply slen_i64_pos]. intros. by apply read_i64.
Qed.

Lemma encodes_str s : encodes (JStr s).
Proof.
  intros out H. cbn in H. apply encodes_scalar.
  - intros. by apply messagepack_string_value.
  - by apply read_enc_string in H as (_ & ? & _).
Qed.

Lemma encodes_arr l : Forall encodes l → encodes (JArr l).
Proof.
  intros Hl out. cbn [messagepack_value].
  destruct (messagepack_array_len (zlength l)) as [head|] eqn:Eh; cbn; [|done].
  set (elements := fix elements (items : list json) : ApiResult string :=
        match items with
        | [] => Ok ""
        | item :: items => a ← messagepack_value item; b ← elements items; Ok (a +:+ b)
        end).
  assert (∀ body, elements l = Ok body → ∀ fuel r, slen body ≤ Z.of_nat fuel →
    read_items (read_value fuel) (length l) (body +:+ r) = Some (l, r)) as Hbody.
  { clear Eh. induction Hl as [|v l Hv Hl IH]; intros body; cbn.
    - intros H fuel r _. by apply Ok_inj in H as <-.
    - fold elements. destruct (messagepack_value v) as [a|] eqn:Ea; cbn; [|done].
      destruct (elements l) as [b|] eqn:Eb; cbn; [|done].
      intros H fuel r. apply Ok_inj in H as <-. rewrite slen_app. intros Hf.
      apply Hv in Ea as [Ha Hr]. pose proof (slen_nonneg b).
      rewrite app_str_assoc, Hr by lia. cbn. rewrite (IH b); [done|done|lia]. }
  destruct (elements l) as [body|] eqn:Eb; cbn; [|done].
  intros H. apply Ok_inj in H as <-.
  rewrite slen_app. pose proof (slen_nonneg body).
  assert (0 ≤ zlength l) as Hz by (unfold zlength; lia).
  destruct (messagepack_array_head _ _ 0 "" Hz Eh) as [Hh _].
  split; [lia|]. intros [|fuel] r Hf; [lia|].
  rewrite app_str_assoc. destruct (messagepack_array_head _ _ fuel (body +:+ r) Hz Eh) as [_ ->].
  unfold read_array. cbn. unfold zlength. rewrite Nat2Z.id, (Hbody body); [done|done|lia].
Qed.

Lemma encodes_obj m : Forall (λ e, encodes e.2) m → encodes (JObj m).
Proof.
  intros Hl out. cbn [messagepack_value].
  destruct (messagepack_map_len (zlength m)) as [head|] eqn:Eh; cbn; [|done].
  set (members := fix members (map : list (string * json)) : ApiResult string :=
        match map with
        | [] => Ok ""
        | (key, value) :: map =>
            k ← messagepack_string key; a ← messagepack_value value; b ← members map;
            Ok (k +:+ a +:+ b)
        end).
  assert (∀ body, members m = Ok body → ∀ fuel r, slen body ≤ Z.of_nat fuel →
    read_members (read_value fuel) (length m) (body +:+ r) = Some (m, r)) as Hbody.
  { clear Eh. induction Hl as [|[k v] m Hv Hl IH]; intros body; cbn.
    - intros H fuel r _. by apply Ok_inj in H as <-.
    - fold members. destruct (messagepack_string k) as [ks|] eqn:Ek; cbn; [|done].
      destruct (messagepack_value v) as [a|] eqn:Ea; cbn; [|done].
      destruct (members m) as [b|] eqn:Eb; cbn; [|done].
      intros H fuel r. apply Ok_inj in H as <-. rewrite !slen_app. intros Hf.
      apply Hv in Ea as [Ha Hr]. pose proof (slen_nonneg b). pose proof (slen_nonneg ks).
      rewrite !app_str_assoc, (messagepack_string_key _ _ _ Ek). cbn. rewrite Hr by lia. cbn.
      rewrite (IH b); [done|done|lia]. }
  destruct (members m) as [body|] eqn:Eb; cbn; [|done].
  intros H. apply Ok_inj in H as <-.
  rewrite slen_app. pose proof (slen_nonneg body).
  assert (0 ≤ zlength m) as Hz by (unfold zlength; lia).
  destruct (messagepack_map_head _ _ 0 "" Hz Eh) as [Hh _].
  split; [lia|]. intros [|fuel] r Hf; [lia|].
  rewrite app_str_assoc. destruct (messagepack_map_head _ _ fuel (body +:+ r) Hz Eh) as [_ ->].
  unfold read_map. cbn. unfold zlength. rewrite Nat2Z.id, (Hbody body); [done|done|lia].
Qed.

Lemma messagepack_encodes v : encodes v.
Proof.
  induction v as [|[]| | | |] using json_ind'.
  1-3: intros out H; cbn in H; apply Ok_inj in H as <-; by apply encodes_scalar.
  - apply encodes_num.
  - apply encodes_str.
  - by apply encodes_arr.
  - by apply encodes_obj.
Qed.

(** The MessagePack export is lossless: a value the encoder accepts is
    recovered, number texts and member order included, from its bytes,
    whatever follows them. *)
Theorem messagepack_roundtrip v out r :
  messagepack_value v = Ok out → read_messagepack (out +:+ r) = Some (v, r).
Proof.
  intros H. apply messagepack_encodes in H as [_ Hr]. apply Hr.
  pose proof (slen_app out r). pose proof (slen_nonneg r). unfold slen in *. lia.
Qed.
