(* ===== verification/ExportCsv.v ===== *)
(** * The CSV export ([src/routes/graph_exports/csv.rs])

    The table of nodes and edges, a reader of RFC 4180, and what a spreadsheet
    that opens the file finds in its cells. The functions of the source append
    to an output they are passed; here they return it. *)

From S2P Require Export ExportProtobuf GraphText.

(** ** Rows *)

Definition CSV_HEADER : list string :=
  ["record_type"; "view"; "graph_digest"; "from_registry"; "from_org"; "from_name"; "from_version";
   "to_registry"; "to_org"; "to_name"; "to_version"; "requirement"; "kind"; "optional";
   "default_features"; "target"; "features_json"; "artifact_digest"; "completeness"; "schema"].

Definition empty_identity : PackageVersionIdentity := mk_identity "" "" "" "".

Definition csv_row (record_type view graph_digest : string) (from to : option PackageVersionIdentity)
    (requirement kind : string) (optional default_features : option bool)
    (target features_json artifact_digest completeness schema : string) : list string :=
  let from := default empty_identity from in
  let to := default empty_identity to in
  [record_type; view; graph_digest;
   from.(registry_id_of); from.(id_org); from.(id_name); from.(id_version);
   to.(registry_id_of); to.(id_org); to.(id_name); to.(id_version);
   requirement; kind; default "" (bool_name <$> optional); default "" (bool_name <$> default_features);
   target; features_json; artifact_digest; completeness; schema].

Definition carriage_return : ascii := "013"%char.
Definition tab : ascii := "009"%char.
Definition comma : ascii := "044"%char.
Definition crlf : string := String carriage_return (String newline "").

(** ** Cells *)

Definition first_is (p : ascii → bool) (s : string) : bool :=
  match s with String c _ => p c | "" => false end.

(** A cell a spreadsheet would evaluate. *)
Definition spreadsheet_unsafe (value : string) : bool :=
  first_is (λ c, (c =c tab) || (c =c carriage_return) || (c =c newline)) value
  || first_is (λ c, (c =c "=") || (c =c "+") || (c =c "-") || (c =c "@")) (trim_start value).

Definition needs_quotes (value : string) : bool :=
  spreadsheet_unsafe value
  || negb (sall (λ c, negb ((c =c comma) || (c =c quote) || (c =c carriage_return) || (c =c newline))) value).

Fixpoint count_quotes (s : string) : Z :=
  match s with "" => 0 | String c r => (if c =c quote then 1 else 0) + count_quotes r end.
Fixpoint double_quotes (s : string) : string :=
  match s with
  | "" => ""
  | String c r => if c =c quote then String quote (String quote (double_quotes r)) else String c (double_quotes r)
  end.

Section csv.
Context `{gext : GraphExternals}.

Definition ensure_room (current additional : Z) : ApiResult unit :=
  length ← ok_or representation_too_large (checked_add usize_max current additional);
  reject_if (MAX_ENCODED_BYTES <? length) representation_too_large.

Definition push_bounded (output value : string) : ApiResult string :=
  ensure_room (slen output) (slen value);;
  mret (output +:+ value).

Definition csv_field (output value : string) : ApiResult string :=
  let unsafe := spreadsheet_unsafe value in
  let quoted := needs_quotes value in
  encoded_len ← ok_or representation_too_large
    (length ← checked_add usize_max (slen value) (count_quotes value);
     length ← checked_add usize_max length (if unsafe then 1 else 0);
     checked_add usize_max length (if quoted then 2 else 0));
  ensure_room (slen output) encoded_len;;
  mret (if quoted
        then output +:+ quotes +:+ (if unsafe then "'" else "") +:+ double_quotes value +:+ quotes
        else output +:+ value).

Fixpoint csv_fields (index : nat) (output : string) (fields : list string) : ApiResult string :=
  match fields with
  | [] => mret output
  | field :: fields =>
      output ← (if (0 <? index)%nat then push_bounded output "," else mret output);
      output ← csv_field output field;
      csv_fields (S index) output fields
  end.

Definition csv_record (output : string) (fields : list string) : ApiResult string :=
  output ← csv_fields 0 output fields;
  push_bounded output crlf.

Fixpoint csv_records (output : string) (rows : list (list string)) : ApiResult string :=
  match rows with
  | [] => mret output
  | row :: rows => output ← csv_record output row; csv_records output rows
  end.

(** [serde_json::to_string] of a list of strings. *)
Definition json_strings (l : list string) : string := "[" +:+ join "," (map json_string l) +:+ "]".

Definition csv_rows (document : GraphDocument) : list (list string) :=
  let digest := default "" document.(doc_digest) in
  let schema := document.(doc_schema) in
  match document.(doc_graph) with
  | Declared package dependencies =>
      csv_row "node" "declared" digest (Some package) None "" "" None None "" "[]" "" "" schema
      :: map (λ d, csv_row "edge" "declared" digest (Some package)
                     (Some (mk_identity d.(dep_registry_id) d.(dep_org) d.(dep_name) ""))
                     d.(dep_requirement) (dependency_kind_name d.(dep_kind)) (Some d.(dep_optional))
                     (Some d.(dep_default_features)) (default "" d.(dep_target))
                     (json_strings d.(dep_features)) "" "" schema) dependencies
  | Resolved completeness roots nodes edges _ _ _ =>
      let completeness := completeness_name completeness in
      map (λ r, csv_row "root" "resolved" digest (Some r) None "" "" None None "" "[]" "" completeness schema)
        roots
      ++ map (λ n, csv_row "node" "resolved" digest (Some n.(node_id)) None "" "" None None ""
                     (json_strings n.(node_features)) (default "" n.(node_artifact_digest)) completeness schema)
           nodes
      ++ map (λ e, csv_row "edge" "resolved" digest (Some e.(edge_from)) (Some e.(edge_to))
                     (default "" e.(edge_requirement)) (dependency_kind_name e.(edge_kind))
                     (Some e.(edge_optional)) None (default "" e.(edge_target))
                     (json_strings e.(edge_features)) "" completeness schema) edges
  end%list.

Definition encode_csv (document : GraphDocument) : ApiResult string :=
  csv_records "" (CSV_HEADER :: csv_rows document).
End csv.

(** ** A reader of RFC 4180

    Records end with CRLF; a quoted field doubles its quotes; a bare quote, CR
    or LF is an error. *)
Inductive CsvState : Type := FieldStart | Plain | Quoted | Closing | RecordEnd.

Fixpoint read_csv (st : CsvState) (field : string) (row : list string) (s : string)
    : option (list (list string)) :=
  match s with
  | "" => match st, row with FieldStart, [] => Some [] | _, _ => None end
  | String c s =>
      let continue :=
        if c =c comma then read_csv FieldStart "" (row ++ [field])%list s
        else if c =c carriage_return then read_csv RecordEnd "" (row ++ [field])%list s
        else None in
      let add st := read_csv st (field +:+ String c "") row s in
      match st with
      | FieldStart =>
          if c =c quote then read_csv Quoted "" row s
          else if (c =c comma) || (c =c carriage_return) then continue
          else if c =c newline then None else add Plain
      | Plain =>
          if (c =c comma) || (c =c carriage_return) then continue
          else if (c =c newline) || (c =c quote) then None else add Plain
      | Quoted => if c =c quote then read_csv Closing field row s else add Quoted
      | Closing => if c =c quote then add Quoted else continue
      | RecordEnd => if c =c newline then r ← read_csv FieldStart "" [] s; Some (row :: r) else None
      end
  end.

Definition read_table (s : string) : option (list (list string)) := read_csv FieldStart "" [] s.

(** ** What the table should say *)

(** The UTF-8 text of a character below U+10000. *)
Definition utf8_of (c : Z) : string :=
  let byte n := chr (Z.to_N n) in
  if c <? 128 then String (byte c) ""
  else if c <? 2048 then String (byte (192 + c / 64)) (String (byte (128 + c mod 64)) "")
  else String (byte (224 + c / 4096)) (String (byte (128 + c / 64 mod 64)) (String (byte (128 + c mod 64)) "")).

(** The characters with the Unicode property [White_Space]. *)
Definition WHITE_SPACE : list Z :=
  [9; 10; 11; 12; 13; 32; 133; 160; 5760; 8192; 8193; 8194; 8195; 8196; 8197; 8198; 8199; 8200; 8201; 8202;
   8232; 8233; 8239; 8287; 12288].

(** What a spreadsheet evaluates: a cell that begins with a tab or a line break,
    or whose first character after any white space is [=], [+], [-] or [@]. *)
Inductive formula : string → Prop :=
| formula_control c rest : c ∈ ["009"; "013"; "010"]%char → formula (String c rest)
| formula_sign blanks c rest :
    Forall (.∈ WHITE_SPACE) blanks → c ∈ ["="; "+"; "-"; "@"]%char →
    formula (concat_str (map utf8_of blanks) +:+ String c rest).

(** The cell that shows a value: the value, with an apostrophe in front where
    it would be evaluated. *)
Definition displayed (value cell : string) : Prop :=
  (¬ formula value ∧ cell = value) ∨ (formula value ∧ cell = String "'" value).

(** A record by the names of its columns; a column it does not name is empty. *)
Definition Named : Type := list (string * string).

Fixpoint column (name : string) (record : Named) : string :=
  match record with
  | [] => ""
  | (n, v) :: record => if n =s name then v else column name record
  end.

(** The [row] under the columns [header] is the record. *)
Definition shows (header : list string) (record : Named) (row : list string) : Prop :=
  Forall (.∈ header) record.*1 ∧ Forall2 (λ name cell, displayed (column name record) cell) header row.

Section records.
Context `{gext : GraphExternals} (document : GraphDocument).

Definition common (record_type view : string) : Named :=
  [("schema", document.(doc_schema)); ("graph_digest", default "" document.(doc_digest));
   ("view", view); ("record_type", record_type)].

Definition origin (p : PackageVersionIdentity) : Named :=
  [("from_name", p.(id_name)); ("from_version", p.(id_version)); ("from_org", p.(id_org));
   ("from_registry", p.(registry_id_of))].
Definition destination (p : PackageVersionIdentity) : Named :=
  [("to_name", p.(id_name)); ("to_version", p.(id_version)); ("to_org", p.(id_org));
   ("to_registry", p.(registry_id_of))].

Definition declared_edge (d : DeclaredDependency) : Named :=
  [("to_name", d.(dep_name)); ("to_org", d.(dep_org)); ("to_registry", d.(dep_registry_id));
   ("requirement", d.(dep_requirement)); ("kind", dependency_kind_name d.(dep_kind));
   ("optional", bool_name d.(dep_optional)); ("default_features", bool_name d.(dep_default_features));
   ("target", default "" d.(dep_target)); ("features_json", json_strings d.(dep_features))].

Definition resolved_node (n : ResolvedNode) : Named :=
  (origin n.(node_id) ++
   [("features_json", json_strings n.(node_features));
    ("artifact_digest", default "" n.(node_artifact_digest))])%list.

Definition resolved_edge (e : ResolvedEdge) : Named :=
  (origin e.(edge_from) ++ destination e.(edge_to) ++
   [("requirement", default "" e.(edge_requirement)); ("kind", dependency_kind_name e.(edge_kind));
    ("optional", bool_name e.(edge_optional)); ("target", default "" e.(edge_target));
    ("features_json", json_strings e.(edge_features))])%list.

(** One record for the package and each of its dependencies, or for each root,
    node and edge. *)
Definition graph_records : list Named :=
  match document.(doc_graph) with
  | Declared package dependencies =>
      (common "node" "declared" ++ origin package ++ [("features_json", "[]")])
      :: map (λ d, common "edge" "declared" ++ origin package ++ declared_edge d) dependencies
  | Resolved completeness roots nodes edges _ _ _ =>
      let common record_type := (common record_type "resolved" ++ [("completeness", completeness_name completeness)])%list in
      map (λ r, common "root" ++ origin r ++ [("features_json", "[]")]) roots
      ++ map (λ n, common "node" ++ resolved_node n) nodes
      ++ map (λ e, common "edge" ++ resolved_edge e) edges
  end%list.
End records.

(** ** Facts *)

(** The cell a reader sees for a value. *)
Definition neutral (value : string) : string :=
  if spreadsheet_unsafe value then String "'" value else value.

(** The text of a cell. *)
Definition cell (value : string) : string :=
  if needs_quotes value
  then quotes +:+ (if spreadsheet_unsafe value then "'" else "") +:+ double_quotes value +:+ quotes
  else value.

Lemma slen_double_quotes s : slen (double_quotes s) = slen s + count_quotes s.
Proof.
  induction s as [|c s IH]; [done|]. cbn [double_quotes count_quotes].
  destruct (c =c quote); rewrite !slen_cons, IH; lia.
Qed.

Lemma count_quotes_nonneg s : 0 ≤ count_quotes s.
Proof. induction s as [|c s IH]; [done|]. cbn. destruct (c =c quote); lia. Qed.

Section bounded.
Context `{gext : GraphExternals}.

Lemma ensure_room_Ok a b : ensure_room a b = Ok tt → a + b ≤ MAX_ENCODED_BYTES.
Proof.
  unfold ensure_room. destruct (checked_add usize_max a b) as [n|] eqn:E; [|done]. cbn.
  apply checked_add_Some in E as [-> _]. by destruct (Z.ltb_spec MAX_ENCODED_BYTES (a + b)).
Qed.

Lemma push_bounded_Ok o v out :
  push_bounded o v = Ok out → out = o +:+ v ∧ slen out ≤ MAX_ENCODED_BYTES.
Proof.
  unfold push_bounded. destruct (ensure_room (slen o) (slen v)) as [[]|] eqn:E; [|done].
  intros [= <-]. apply ensure_room_Ok in E. by rewrite slen_app.
Qed.

Lemma csv_field_Ok o v out :
  csv_field o v = Ok out → out = o +:+ cell v ∧ slen out ≤ MAX_ENCODED_BYTES.
Proof.
  unfold csv_field, cell. intros H.
  destruct (checked_add usize_max (slen v) (count_quotes v)) as [a|] eqn:Ea; [|done].
  cbn [mbind option_bind] in H.
  destruct (checked_add usize_max a _) as [b|] eqn:Eb; [|done]. cbn [mbind option_bind] in H.
  destruct (checked_add usize_max b _) as [d|] eqn:Ed; [|done].
  cbn [mbind option_bind ok_or result_mbind result_bind] in H.
  apply checked_add_Some in Ea as [-> _], Eb as [-> _], Ed as [-> _].
  destruct (ensure_room _ _) as [[]|] eqn:E; cbn [mbind result_mbind result_bind] in H; [|done]. apply ensure_room_Ok in E.
  apply Ok_inj in H as <-.
  assert (needs_quotes v = false → spreadsheet_unsafe v = false) as Hn.
  { unfold needs_quotes. by intros [? _]%orb_false_iff. }
  pose proof (count_quotes_nonneg v).
  destruct (needs_quotes v); [|rewrite (Hn eq_refl) in *; rewrite slen_app; split; [done|lia]].
  split; [done|]. rewrite !slen_app, slen_double_quotes. change (slen quotes) with 1.
  destruct (spreadsheet_unsafe v); cbn match in *; [change (slen "'") with 1|change (slen "") with 0]; lia.
Qed.

(** The text of a row and of a table. *)
Definition row_text (row : list string) : string := join "," (map cell row) +:+ crlf.

Lemma join_cells v l :
  join "," (map cell (v :: l)) = cell v +:+ each (λ v, "," +:+ cell v) l.
Proof.
  revert v. induction l as [|w l IH]; intros v; [cbn; by rewrite app_str_nil_r|].
  cbn [map] in *. rewrite join_cons by done. rewrite IH. unfold each at 2. cbn. by rewrite ?app_str_assoc.
Qed.

Lemma csv_fields_Ok i o row out :
  csv_fields i o row = Ok out →
  out = o +:+ match i with O => join "," (map cell row) | S _ => each (λ v, "," +:+ cell v) row end.
Proof.
  revert i o. induction row as [|v row IH]; intros i o H; cbn in H.
  - injection H as <-. by destruct i; cbn; rewrite app_str_nil_r.
  - destruct i as [|i]; cbn in H; inv_bind.
    + apply csv_field_Ok in E as [-> _]. apply IH in H as ->. by rewrite join_cells, !app_str_assoc.
    + apply push_bounded_Ok in E as [-> _]. apply csv_field_Ok in E0 as [-> _]. apply IH in H as ->.
      unfold each. cbn. by rewrite !app_str_assoc.
Qed.

Lemma csv_record_Ok o row out :
  csv_record o row = Ok out → out = o +:+ row_text row ∧ slen out ≤ MAX_ENCODED_BYTES.
Proof.
  unfold csv_record, row_text. intros H. inv_bind. apply csv_fields_Ok in E as ->.
  apply push_bounded_Ok in H as [-> ?]. split; [by rewrite !app_str_assoc|done].
Qed.

Lemma csv_records_Ok o rows out :
  csv_records o rows = Ok out →
  out = o +:+ each row_text rows ∧ (rows ≠ [] → slen out ≤ MAX_ENCODED_BYTES).
Proof.
  revert o. induction rows as [|row rows IH]; intros o H; cbn in H.
  - injection H as <-. by rewrite app_str_nil_r.
  - inv_bind. apply csv_record_Ok in E as [-> Hl]. pose proof H as H'. apply IH in H as [-> Hr].
    split; [unfold each; cbn; by rewrite app_str_assoc|]. intros _.
    destruct rows; [|by apply Hr]. by cbn in *; rewrite app_str_nil_r.
Qed.
End bounded.

(** ** Reading a table back *)

Lemma read_plain v f row s :
  sall (λ c, negb ((c =c comma) || (c =c quote) || (c =c carriage_return) || (c =c newline))) v = true →
  read_csv Plain f row (v +:+ s) = read_csv Plain (f +:+ v) row s.
Proof.
  revert f. induction v as [|c v IH]; intros f; [by rewrite app_str_nil_r|].
  cbn [sall String.append read_csv]. intros [Hc H]%andb_true_iff. apply negb_true_iff in Hc.
  destruct (c =c comma) eqn:E1, (c =c carriage_return) eqn:E2, (c =c newline) eqn:E3, (c =c quote) eqn:E4;
    try done. cbn. rewrite IH by done. by rewrite app_str_assoc.
Qed.

Lemma read_quoted v f row s :
  read_csv Quoted f row (double_quotes v +:+ s) = read_csv Quoted (f +:+ v) row s.
Proof.
  revert f. induction v as [|c v IH]; intros f; [by rewrite app_str_nil_r|].
  cbn [double_quotes]. destruct (c =c quote) eqn:E.
  - apply Ascii.eqb_eq in E as ->. cbn. rewrite IH, app_str_assoc. done.
  - cbn. rewrite E, IH, app_str_assoc. done.
Qed.

(** A cell, then what ends it: a comma or the end of the record. *)
Lemma read_cell v row c s :
  c = comma ∨ c = carriage_return →
  read_csv FieldStart "" row (cell v +:+ String c s)
  = read_csv (if c =c comma then FieldStart else RecordEnd) "" (row ++ [neutral v])%list s.
Proof.
  intros Hc. unfold cell, neutral. destruct (needs_quotes v) eqn:En.
  - rewrite !app_str_assoc. unfold quotes at 1. cbn [String.append].
    assert (∀ f, read_csv Quoted f row (double_quotes v +:+ quotes +:+ String c s)
      = read_csv (if c =c comma then FieldStart else RecordEnd) "" (row ++ [f +:+ v])%list s) as Hq.
    { intros f. rewrite read_quoted. by destruct Hc as [-> | ->]. }
    cbn [read_csv]. rewrite (Ascii.eqb_refl quote).
    destruct (spreadsheet_unsafe v); cbn [String.append]; [|by rewrite (Hq "")].
    etrans; [|exact (Hq "'")]. done.
  - unfold needs_quotes in En. apply orb_false_iff in En as [-> En]. apply negb_false_iff in En.
    destruct v as [|a v]; [by destruct Hc as [-> | ->]|].
    cbn [sall] in En. apply andb_true_iff in En as [Ha En]. apply negb_true_iff in Ha. cbn [String.append read_csv].
    destruct (a =c comma) eqn:E1, (a =c carriage_return) eqn:E2, (a =c newline) eqn:E3, (a =c quote) eqn:E4;
      try done. cbn [orb]. rewrite read_plain by done. by destruct Hc as [-> | ->].
Qed.

Lemma read_cells cs : ∀ row v s,
  read_csv FieldStart "" row (cell v +:+ each (λ v, "," +:+ cell v) cs +:+ crlf +:+ s)
  = r ← read_csv FieldStart "" [] s; Some ((row ++ map neutral (v :: cs))%list :: r).
Proof.
  induction cs as [|w cs IH]; intros row v s.
  - cbn [each foldr String.append]. unfold crlf. cbn [String.append].
    rewrite read_cell by (by right). done.
  - unfold each. cbn [foldr]. fold (each (λ v, "," +:+ cell v) cs).
    rewrite !app_str_assoc. cbn [String.append]. change (String "," ?x) with (String comma x).
    rewrite read_cell by (by left). rewrite (Ascii.eqb_refl comma), IH. by rewrite <- app_assoc.
Qed.

Lemma read_row row s :
  row ≠ [] → read_table (row_text row +:+ s) = r ← read_table s; Some (map neutral row :: r).
Proof.
  destruct row as [|v row]; [done|]. intros _. unfold read_table, row_text.
  rewrite join_cells, !app_str_assoc. apply read_cells.
Qed.

Lemma read_rows rows :
  Forall (λ row, row ≠ []) rows → read_table (each row_text rows) = Some (map (map neutral) rows).
Proof.
  induction 1 as [|row rows Hr Hrs IH]; [done|]. unfold each. cbn [foldr]. fold (each row_text rows).
  by rewrite read_row, IH.
Qed.

(** ** Formulas *)

Lemma eat_blank b r : b ∈ WHITE_SPACE → eat_ws (utf8_of b +:+ r) = Some r.
Proof. intros H. repeat (apply elem_of_cons in H as [->|H]; [reflexivity|]). by apply elem_of_nil in H. Qed.

Lemma byte_is c n : byte_of c = n → 0 ≤ n < 256 → c = chr (Z.to_N n).
Proof. intros <- H. apply byte_of_inj. rewrite byte_of_chr; lia. Qed.


(** Enumerate the byte [x] from [lo] on. *)
Ltac each_byte :=
  repeat match goal with
  | H : ?lo ≤ byte_of ?x, H' : byte_of ?x ≤ ?hi |- _ =>
      let E := fresh in
      destruct (Z.eq_dec (byte_of x) lo) as [E|E];
      [clear H H'|let l := eval cbv in (lo + 1) in assert (l ≤ byte_of x) by lia; clear H E; try lia]
  end.
Ltac name_bytes := repeat match goal with H : byte_of ?c = ?n |- _ => apply byte_is in H; [subst c|lia] end.
Ltac some_blank :=
  match goal with |- ∃ b, b ∈ ?l ∧ _ =>
    let l := eval cbv in l in
    let rec go l := match l with ?b :: ?l => first [exists b; split; [apply (bool_decide_unpack _); by vm_compute|reflexivity] | go l] end in
    go l
  end.

Lemma eat_ws_blank s r : eat_ws s = Some r → ∃ b, b ∈ WHITE_SPACE ∧ s = utf8_of b +:+ r.
Proof.
  destruct s as [|a s]; [done|]. cbn [eat_ws]. unfold ws_ascii, in_range.
  intros H. repeat (split_case; try discriminate); simplify_eq.
  all: repeat first [progress bool_to_prop
    | match goal with H : (_ || _)%bool = true |- _ => apply orb_true_iff in H as [H|H] end].
  all: each_byte; name_bytes; some_blank.
Qed.

Lemma length_app_str a b : String.length (a +:+ b) = (String.length a + String.length b)%nat.
Proof. induction a as [|c a IH]; [done|]. cbn. by rewrite IH. Qed.

Lemma utf8_of_nonempty b : utf8_of b ≠ "".
Proof. unfold utf8_of. by repeat split_case. Qed.

Lemma trim_fuel_blanks blanks n t :
  Forall (.∈ WHITE_SPACE) blanks → eat_ws t = None → (length blanks ≤ n)%nat →
  trim_start_fuel eat_ws n (concat_str (map utf8_of blanks) +:+ t) = t.
Proof.
  intros Hb Ht. revert n. induction Hb as [|b blanks Hb _ IH]; intros n Hn.
  - destruct n; cbn; [done|by rewrite Ht].
  - destruct n as [|n]; [cbn in Hn; lia|]. cbn [map concat_str foldr]. rewrite app_str_assoc. cbn [trim_start_fuel].
    rewrite eat_blank by done. apply IH. cbn in Hn. lia.
Qed.

Lemma length_blanks blanks : (length blanks ≤ String.length (concat_str (map utf8_of blanks)))%nat.
Proof.
  unfold concat_str. induction blanks as [|b blanks IH]; [done|]. cbn [map foldr]. rewrite length_app_str.
  pose proof (utf8_of_nonempty b). destruct (utf8_of b); [done|]. cbn [length String.length]. lia.
Qed.

(** White space is what [trim_start] removes. *)
Lemma trim_start_app blanks t :
  Forall (.∈ WHITE_SPACE) blanks → eat_ws t = None → trim_start (concat_str (map utf8_of blanks) +:+ t) = t.
Proof.
  intros Hb Ht. apply trim_fuel_blanks; [done..|]. rewrite length_app_str. pose proof (length_blanks blanks). lia.
Qed.

Lemma trim_start_blanks s :
  ∃ blanks, Forall (.∈ WHITE_SPACE) blanks ∧ s = concat_str (map utf8_of blanks) +:+ trim_start s.
Proof.
  unfold trim_start. generalize (String.length s) as n. intros n. revert s. induction n as [|n IH]; intros s; cbn.
  { by exists []. }
  destruct (eat_ws s) as [r|] eqn:E; [|by exists []].
  apply eat_ws_blank in E as (b & Hb & ->). destruct (IH r) as (bs & Hbs & Hr). exists (b :: bs).
  split; [by constructor|]. cbn [map concat_str foldr]. rewrite app_str_assoc. by rewrite Hr at 1.
Qed.

(** The classifier of the code. *)
Lemma formula_iff v : formula v ↔ spreadsheet_unsafe v = true.
Proof.
  unfold spreadsheet_unsafe. split.
  - intros [c rest Hc|blanks c rest Hb Hc]; apply orb_true_iff.
    + left. repeat (apply elem_of_cons in Hc as [->|Hc]; [done|]). by apply elem_of_nil in Hc.
    + right. rewrite trim_start_app; [|done|]; repeat (apply elem_of_cons in Hc as [->|Hc]; [done|]); by apply elem_of_nil in Hc.
  - intros [H|H]%orb_true_iff.
    + destruct v as [|c v]; [done|]. cbn in H. apply formula_control.
      repeat (apply orb_true_iff in H as [H|H]); apply Ascii.eqb_eq in H as ->; set_solver.
    + destruct (trim_start_blanks v) as (blanks & Hb & E). destruct (trim_start v) as [|c t]; [done|]. cbn in H.
      rewrite E. apply formula_sign; [done|].
      repeat (apply orb_true_iff in H as [H|H]); apply Ascii.eqb_eq in H as ->; set_solver.
Qed.

Lemma neutral_inert v : ¬ formula (neutral v).
Proof. rewrite formula_iff. unfold neutral. destruct (spreadsheet_unsafe v) eqn:E; [done|by rewrite E]. Qed.

Lemma neutral_displayed v : displayed v (neutral v).
Proof.
  unfold displayed. rewrite formula_iff. unfold neutral. destruct (spreadsheet_unsafe v); [by right|left]. by split.
Qed.

(** ** The table *)

Section table.
Context `{gext : GraphExternals}.

(** A row is the record whose columns are its fields. *)
Lemma row_shows record row :
  Forall (.∈ CSV_HEADER) record.*1 → map (λ name, column name record) CSV_HEADER = row →
  shows CSV_HEADER record (map neutral row).
Proof.
  intros Hn <-. split; [done|]. rewrite map_map. apply Forall2_fmap_r, Forall_Forall2_diag, Forall_forall.
  intros name _. apply neutral_displayed.
Qed.

Ltac row := apply row_shows; [repeat constructor; apply (bool_decide_unpack _); by vm_compute|reflexivity].

Lemma rows_show document :
  Forall2 (shows CSV_HEADER) (graph_records document) (map (map neutral) (csv_rows document)).
Proof.
  unfold graph_records, csv_rows. destruct (doc_graph document) as [p ds|completeness roots nodes edges ? ? ?].
  - cbn [map]. constructor; [row|]. fold (@map (list string) (list string)). rewrite map_map.
    apply Forall2_fmap, Forall_Forall2_diag, Forall_forall. intros d _. row.
  - rewrite !map_app, !map_map.
    repeat apply Forall2_app; apply Forall2_fmap, Forall_Forall2_diag, Forall_forall; intros x _; row.
Qed.

Lemma csv_rows_nonempty document : Forall (λ row, row ≠ []) (csv_rows document).
Proof.
  unfold csv_rows. destruct (doc_graph document); rewrite ?Forall_app, ?Forall_cons, ?Forall_fmap;
    repeat split; try apply Forall_forall; done.
Qed.
End table.

(** C39: the CSV export is a well-formed RFC 4180 table within the size limit.
    Its reader finds a header of twenty distinct column names and, in order, one
    record for the package and each of its dependencies, or for each root, node
    and edge: under each column's name is the value the document has for it,
    empty where it has none, with an apostrophe in front exactly when a
    spreadsheet would evaluate it. No cell of the table is evaluated: none
    begins with a tab or a line break, and none has one of [=], [+], [-] and [@]
    as its first character after white space. *)
Theorem csv_export_reads_back `{gext : GraphExternals} document out :
  encode_csv document = Ok out →
  slen out ≤ MAX_ENCODED_BYTES ∧
  ∃ header rows,
    read_table out = Some (header :: rows) ∧
    length header = 20%nat ∧ NoDup header ∧
    Forall2 (shows header) (graph_records document) rows ∧
    Forall (Forall (λ cell, ¬ formula cell)) (header :: rows).
Proof.
  intros [-> Hl]%csv_records_Ok. cbn [String.append] in *. split; [by apply Hl|].
  exists CSV_HEADER, (map (map neutral) (csv_rows document)). split_and!.
  - rewrite read_rows; [done|]. constructor; [done|apply csv_rows_nonempty].
  - done.
  - apply (bool_decide_unpack _). by vm_compute.
  - apply rows_show.
  - change (CSV_HEADER :: map (map neutral) (csv_rows document))
      with (map (map neutral) (CSV_HEADER :: csv_rows document)).
    apply Forall_fmap, Forall_forall. intros row _. apply Forall_fmap, Forall_forall. intros v _. apply neutral_inert.
Qed.
