(* ===== verification/ExportXml.v ===== *)
(** * The XML export ([src/routes/graph_exports/xml.rs])

    The writer with its bounded output, and the reading of an escaped text. *)

From S2P Require Export ExportProtobuf GraphText.

Section xml.
Context `{gext : GraphExternals}.

(** ** The bounded output ([XmlOutput])

    A writer takes the text so far and returns it extended. *)
Definition Writer : Type := string → ApiResult string.

Definition push_str (value : string) : Writer := λ output,
  length ← ok_or representation_too_large (checked_add usize_max (slen output) (slen value));
  reject_if (MAX_ENCODED_BYTES <? length) representation_too_large;;
  mret (output +:+ value).

(** One writer after the other, and a list of writers in order. *)
Definition andw (a b : Writer) : Writer := λ output, output ← a output; b output.
Fixpoint allw (ws : list Writer) : Writer :=
  match ws with [] => λ output, mret output | w :: ws => andw w (allw ws) end.
Definition optw {A} (f : A → Writer) (o : option A) : Writer :=
  match o with Some x => f x | None => allw [] end.

(** ** Text *)

Definition graph_not_representable : ApiErr :=
  mk_api_err StatusCode.UNPROCESSABLE_ENTITY "graph_not_representable"
    "dependency graph contains a character XML 1.0 cannot represent".

Definition within (lo hi code : Z) : bool := (lo <=? code) && (code <=? hi).

Definition is_xml_10_character (code : Z) : bool :=
  (code =? 9) || (code =? 10) || (code =? 13)
  || within 32 55295 code || within 57344 65533 code || within 65536 1114111 code.

(** What is pushed for a character. *)
Definition xml_char (attribute : bool) (char : Z * string) : string :=
  match char.1 with
  | 38 => "&amp;"
  | 60 => "&lt;"
  | 62 => "&gt;"
  | 34 => if attribute then "&quot;" else char.2
  | 39 => if attribute then "&apos;" else char.2
  | 9 => if attribute then "&#9;" else char.2
  | 10 => if attribute then "&#10;" else char.2
  | 13 => "&#13;"
  | _ => char.2
  end.

Fixpoint xml_chars (attribute : bool) (value : list (Z * string)) : Writer :=
  match value with
  | [] => λ output, mret output
  | char :: value =>
      if negb (is_xml_10_character char.1) then λ _, Err graph_not_representable
      else andw (push_str (xml_char attribute char)) (xml_chars attribute value)
  end.
Definition xml_escaped (value : string) (attribute : bool) : Writer := xml_chars attribute (chars value).

Definition xml_attribute (name value : string) : Writer :=
  allw [push_str (" " +:+ name +:+ "=" +:+ quotes); xml_escaped value true; push_str quotes].
Definition xml_text (value : string) : Writer := xml_escaped value false.

(** ** Elements *)

Definition line (s : string) : string := s +:+ nl.

Definition xml_identity_attributes (identity : PackageVersionIdentity) : Writer :=
  allw [xml_attribute "registry-id" identity.(registry_id_of); xml_attribute "org" identity.(id_org);
        xml_attribute "name" identity.(id_name); xml_attribute "version" identity.(id_version)].

Definition xml_identity (tag : string) (identity : PackageVersionIdentity) : Writer :=
  allw [push_str ("<" +:+ tag); xml_identity_attributes identity; push_str (line " />")].

Definition xml_features (features : list string) (spaces : nat) : Writer :=
  let indent := srepeat spaces " " in
  allw ([push_str (line (indent +:+ "<features>"))]
        ++ map (λ feature, allw [push_str (indent +:+ "  <feature>"); xml_text feature;
                                 push_str (line "</feature>")]) features
        ++ [push_str (line (indent +:+ "</features>"))])%list.

(** The features of an element, when there are any: what opens, and what ends
    the element either way. *)
Definition xml_feature_block (features : list string) (close : string) : Writer :=
  match features with
  | [] => push_str (line " />")
  | _ => allw [push_str (line ">"); xml_features features 6; push_str (line close)]
  end.
Definition xml_some_features (features : list string) (spaces : nat) : Writer :=
  match features with [] => allw [] | _ => xml_features features spaces end.

Definition xml_dependency (d : DeclaredDependency) : Writer :=
  allw [push_str "    <dependency";
        xml_attribute "registry-id" d.(dep_registry_id); xml_attribute "org" d.(dep_org);
        xml_attribute "name" d.(dep_name); xml_attribute "requirement" d.(dep_requirement);
        xml_attribute "kind" (dependency_kind_name d.(dep_kind));
        xml_attribute "optional" (bool_name d.(dep_optional));
        xml_attribute "default-features" (bool_name d.(dep_default_features));
        optw (xml_attribute "target") d.(dep_target);
        xml_feature_block d.(dep_features) "    </dependency>"].

Definition xml_node (n : ResolvedNode) : Writer :=
  allw [push_str "    <node"; xml_identity_attributes n.(node_id);
        optw (xml_attribute "artifact-digest") n.(node_artifact_digest);
        xml_feature_block n.(node_features) "    </node>"].

Definition xml_edge (e : ResolvedEdge) : Writer :=
  allw [push_str "    <edge"; xml_attribute "kind" (dependency_kind_name e.(edge_kind));
        xml_attribute "optional" (bool_name e.(edge_optional));
        optw (xml_attribute "requirement") e.(edge_requirement);
        optw (xml_attribute "target") e.(edge_target);
        push_str (line ">" +:+ "      "); xml_identity "from" e.(edge_from);
        push_str "      "; xml_identity "to" e.(edge_to);
        xml_some_features e.(edge_features) 6; push_str (line "    </edge>")].

Definition xml_provenance (p : Provenance) : Writer :=
  allw ([push_str "<provenance"; xml_attribute "resolver-version" p.(prov_resolver_version);
         xml_attribute "target" p.(prov_target); xml_attribute "lock-digest" p.(prov_lock_digest);
         push_str (line ">"); xml_some_features p.(prov_enabled_features) 4;
         push_str (line "    <registry-snapshots>")]
        ++ map (λ s, allw [push_str "      <registry-snapshot";
                           xml_attribute "registry-id" s.(snap_registry_id);
                           xml_attribute "checkpoint-digest" s.(snap_checkpoint_digest);
                           push_str (line " />")]) p.(prov_registry_snapshots)
        ++ [push_str (line "    </registry-snapshots>" +:+ line "  </provenance>")])%list.

Definition xml_projection (p : Projection) : Writer :=
  allw [push_str "<projection"; optw (xml_attribute "target") p.(proj_target);
        optw (λ d, xml_attribute "max-depth" (dec_of_Z d)) p.(proj_max_depth);
        match p.(proj_features), p.(proj_kinds) with
        | [], [] => push_str (line " />")
        | features, kinds =>
            allw [push_str (line ">"); xml_some_features features 4;
                  match kinds with
                  | [] => allw []
                  | _ => allw ([push_str (line "    <kinds>")]
                               ++ map (λ k, push_str (line ("      <kind>" +:+ dependency_kind_name k
                                                            +:+ "</kind>"))) kinds
                               ++ [push_str (line "    </kinds>")])
                  end;
                  push_str (line "  </projection>")]
        end].

Definition xml_graph (graph : GraphData) : Writer :=
  match graph with
  | Declared package dependencies =>
      allw ([xml_attribute "view" "declared"; push_str (line ">" +:+ "  "); xml_identity "package" package;
             push_str (line ("  <dependencies count=" +:+ quotes +:+ dec_of_Z (zlength dependencies)
                             +:+ quotes +:+ ">"))]
            ++ map xml_dependency dependencies
            ++ [push_str (line "  </dependencies>" +:+ line "</dependency-graph>")])
  | Resolved completeness roots nodes edges provenance parent projection =>
      allw ([xml_attribute "view" "resolved"; xml_attribute "completeness" (completeness_name completeness);
             push_str (line ">" +:+ line "  <roots>")]
            ++ map (λ r, allw [push_str "    "; xml_identity "root" r]) roots
            ++ [push_str (line "  </roots>" +:+ line "  <nodes>")]
            ++ map xml_node nodes
            ++ [push_str (line "  </nodes>" +:+ line "  <edges>")]
            ++ map xml_edge edges
            ++ [push_str (line "  </edges>" +:+ "  "); xml_provenance provenance;
                optw (λ d, allw [push_str "  <parent-graph"; xml_attribute "digest" d; push_str (line " />")])
                  parent;
                optw (λ p, allw [push_str "  "; xml_projection p]) projection;
                push_str (line "</dependency-graph>")])
  end%list.

Definition encode_xml (document : GraphDocument) : ApiResult string :=
  allw [push_str (line ("<?xml version=" +:+ quotes +:+ "1.0" +:+ quotes +:+ " encoding=" +:+ quotes +:+ "UTF-8"
                        +:+ quotes +:+ "?>"));
        push_str "<dependency-graph"; xml_attribute "schema" document.(doc_schema);
        optw (xml_attribute "graph-digest") document.(doc_digest);
        xml_graph document.(doc_graph)] "".
End xml.

(** ** Reading an escaped text *)

Definition entities : list (string * ascii) :=
  [("&amp;", "&"%char); ("&lt;", "<"%char); ("&gt;", ">"%char); ("&quot;", quote); ("&apos;", "'"%char);
   ("&#9;", "009"%char); ("&#10;", "010"%char); ("&#13;", "013"%char)].

Fixpoint read_entity (l : list (string * ascii)) (s : string) : option (ascii * string) :=
  match l with
  | [] => None
  | (name, c) :: l =>
      match strip_prefix name s with Some r => Some (c, r) | None => read_entity l s end
  end.

Fixpoint unescape_fuel (fuel : nat) (s : string) : option string :=
  match fuel, s with
  | _, "" => Some ""
  | O, _ => None
  | S fuel, String c r =>
      if c =c "&" then '(c, r) ← read_entity entities s; u ← unescape_fuel fuel r; Some (String c u)
      else u ← unescape_fuel fuel r; Some (String c u)
  end.
Definition unescape (s : string) : option string := unescape_fuel (String.length s) s.

(** What may not appear in the text of an element, and of an attribute: XML
    processors read markup, or normalize line ends and white space, there. *)
Definition markup (attribute : bool) (c : ascii) : bool :=
  (c =c "<") || (c =c ">") || (c =c "013")
  || attribute && ((c =c quote) || (c =c "'") || (c =c "009") || (c =c "010")).

(** *** Characters *)

(** A character is an ASCII or stray byte and its code, or starts with a byte
    that is not ASCII, goes on with continuation bytes, and is not ASCII. *)
Definition char_ok (char : Z * string) : Prop :=
  (∃ a, char = (byte_of a, String a ""))
  ∨ (∃ a t, char.2 = String a t ∧ 128 ≤ char.1 ∧ 192 ≤ byte_of a ∧ sall is_continuation t = true).

Lemma next_char_spec s code bytes rest :
  next_char s = Some (code, bytes, rest) → s = bytes +:+ rest ∧ char_ok (code, bytes).
Proof.
  assert (∀ a r, Some (byte_of a, String a "", r) = Some (code, bytes, rest) →
    String a r = bytes +:+ rest ∧ char_ok (code, bytes)) as Hsingle.
  { intros a r [= <- <- <-]. split; [done|]. left. by eexists. }
  assert (∀ a t r v single, (single = Some (code, bytes, rest) → String a (t +:+ r) = bytes +:+ rest ∧ char_ok (code, bytes)) →
    192 ≤ byte_of a → sall is_continuation t = true →
    (if v <? 128 then single else Some (v, String a t, r)) = Some (code, bytes, rest) →
    String a (t +:+ r) = bytes +:+ rest ∧ char_ok (code, bytes)) as Hmulti.
  { intros a t r v single Hs Ha Ht. destruct (Z.ltb_spec v 128); [done|]. intros [= <- <- <-].
    split; [done|]. right. by exists a, t. }
  destruct s as [|a [|b r]]; cbn [next_char]; [done|by apply Hsingle|].
  destruct (byte_of a <? 192) eqn:Ea; cbn [orb]; [by apply Hsingle|].
  destruct (is_continuation b) eqn:Eb; cbn [negb]; [|by apply Hsingle].
  bool_to_prop. destruct (byte_of a <? 224).
  { apply (Hmulti a (String b "")); [by apply Hsingle|done|by cbn; rewrite Eb]. }
  destruct r as [|c r]; [by apply Hsingle|].
  destruct (is_continuation c) eqn:Ec; cbn [negb]; [|by apply Hsingle].
  destruct (byte_of a <? 240).
  { apply (Hmulti a (String b (String c ""))); [by apply Hsingle|done|by cbn; rewrite Eb, Ec]. }
  destruct r as [|d r]; [by apply Hsingle|].
  destruct (is_continuation d) eqn:Ed; cbn [negb]; [|by apply Hsingle].
  apply (Hmulti a (String b (String c (String d "")))); [by apply Hsingle|done|].
  by cbn; rewrite Eb, Ec, Ed.
Qed.

Lemma next_char_cons a r : ∃ code b rest, next_char (String a r) = Some (code, b, rest).
Proof.
  destruct (next_char (String a r)) as [[[code b] rest]|] eqn:E; [by eauto|]. exfalso.
  cbn in E. by repeat case_match.
Qed.

Lemma concat_chars_fuel fuel s :
  (String.length s ≤ fuel)%nat → concat_str (map snd (chars_fuel fuel s)) = s.
Proof.
  revert s. induction fuel as [|fuel IH]; intros s H; [by destruct s; cbn in *; [|lia]|].
  destruct s as [|a r]; [done|]. cbn [chars_fuel].
  destruct (next_char_cons a r) as (code & b & rest & E). rewrite E. cbn.
  destruct (next_char_spec _ _ _ _ E) as [Hs Hb]. fold (concat_str (map snd (chars_fuel fuel rest))).
  rewrite IH; [done|].
  assert (1 ≤ slen b).
  { destruct Hb as [(x & [= -> ->])|(x & t & Hx & _)]; [done|]. cbn in Hx. rewrite Hx, slen_cons.
    pose proof (slen_nonneg t). lia. }
  pose proof (slen_app b rest) as Hl. rewrite <- Hs in Hl. unfold slen in *. cbn in *. lia.
Qed.

Lemma concat_chars s : concat_str (map snd (chars s)) = s.
Proof. by apply concat_chars_fuel. Qed.

Lemma chars_ok s : Forall char_ok (chars s).
Proof.
  unfold chars. generalize (String.length s) as fuel. intros fuel. revert s.
  induction fuel as [|fuel IH]; intros s; [constructor|]. cbn.
  destruct (next_char s) as [[[code b] rest]|] eqn:E; [|constructor].
  constructor; [by apply next_char_spec in E as [_ ?]|apply IH].
Qed.

(** *** Escaping *)

(** A byte an unescaped character may hold. *)
Definition inert (attribute : bool) (c : ascii) : bool := negb (c =c "&") && negb (markup attribute c).

Lemma high_byte_inert attribute c : 128 ≤ byte_of c → inert attribute c = true.
Proof.
  intros H. assert (negb (128 <=? byte_of c) || inert attribute c = true) as Hc.
  { destruct attribute; revert c H; intros c _; revert c; apply byte_forall; vm_compute; reflexivity. }
  by rewrite (proj2 (Z.leb_le _ _)) in Hc by done.
Qed.

Lemma xml_char_high attribute code b : 128 ≤ code → xml_char attribute (code, b) = b.
Proof.
  intros H. unfold xml_char. cbn [fst snd]. destruct code as [|p|p]; [lia| |lia].
  by repeat (destruct p as [p|p|]; try lia; try reflexivity).
Qed.

(** A character is pushed as an entity that stands for it, or as it is. *)
Lemma xml_char_cases attribute char :
  char_ok char →
  (∃ e c, In (e, c) entities ∧ xml_char attribute char = e ∧ char.2 = String c "")
  ∨ (xml_char attribute char = char.2 ∧ sall (inert attribute) char.2 = true).
Proof.
  intros [[a ->]|(a & t & E & Hc & Ha & Ht)].
  - destruct attribute, a as [[] [] [] [] [] [] [] []];
      (right; split; reflexivity) || (left; do 2 eexists; split; [|split; reflexivity]; cbn; tauto).
  - right. destruct char as [code b]. cbn [fst snd] in *. rewrite xml_char_high by done.
    split; [done|]. rewrite E. cbn. rewrite high_byte_inert by lia. cbn.
    revert Ht. apply sall_impl. intros c Hcc. apply high_byte_inert.
    unfold is_continuation, in_range in Hcc. bool_to_prop. lia.
Qed.

Lemma unescape_plain attribute fuel t r u :
  sall (inert attribute) t = true → (String.length (t +:+ r) ≤ fuel)%nat →
  (∀ fuel, (String.length r ≤ fuel)%nat → unescape_fuel fuel r = Some u) →
  unescape_fuel fuel (t +:+ r) = Some (t +:+ u).
Proof.
  revert fuel. induction t as [|c t IH]; intros fuel Ht Hl Hr; [by apply Hr|].
  cbn [String.append String.length sall] in *. apply andb_true_iff in Ht as [Hc Ht].
  destruct fuel as [|fuel]; [lia|]. unfold inert in Hc. apply andb_true_iff in Hc as [Hc _].
  cbn [unescape_fuel]. rewrite (proj1 (negb_true_iff _) Hc). rewrite IH by (done || lia). done.
Qed.

Lemma read_entities e c r : In (e, c) entities → read_entity entities (e +:+ r) = Some (c, r).
Proof. by intros [[= <- <-]|[[= <- <-]|[[= <- <-]|[[= <- <-]|[[= <- <-]|[[= <- <-]|[[= <- <-]|[[= <- <-]|[]]]]]]]]]. Qed.

Lemma entity_form e c : In (e, c) entities → ∃ t, e = String "&" t ∧ sall (λ c, negb (markup true c)) e = true.
Proof.
  by intros [[= <- <-]|[[= <- <-]|[[= <- <-]|[[= <- <-]|[[= <- <-]|[[= <- <-]|[[= <- <-]|[[= <- <-]|[]]]]]]]]];
    eexists.
Qed.

Definition escaped (attribute : bool) (l : list (Z * string)) : string :=
  concat_str (map (xml_char attribute) l).

Lemma unescape_escaped attribute l fuel :
  Forall char_ok l → (String.length (escaped attribute l) ≤ fuel)%nat →
  unescape_fuel fuel (escaped attribute l) = Some (concat_str (map snd l)).
Proof.
  intros H. revert fuel. induction H as [|char l Hc Hl IH]; intros fuel Hf; [by destruct fuel|].
  cbn [escaped concat_str map foldr] in *. fold (escaped attribute l) in *. fold (concat_str (map snd l)).
  destruct (xml_char_cases attribute char Hc) as [(e & c & He & Hx & Hb)|[Hx Hb]]; rewrite Hx in *.
  - rewrite Hb. pose proof (read_entities e c (escaped attribute l) He) as Hr.
    destruct (entity_form e c He) as (t & -> & _).
    cbn [String.append String.length] in *. destruct fuel as [|fuel]; [lia|]. cbn [unescape_fuel].
    rewrite (Ascii.eqb_refl "&"), Hr. cbn.
    rewrite IH; [done|]. pose proof (slen_app t (escaped attribute l)). unfold slen in *. lia.
  - by eapply unescape_plain.
Qed.

Lemma escaped_no_markup attribute l :
  Forall char_ok l → sall (λ c, negb (markup attribute c)) (escaped attribute l) = true.
Proof.
  induction 1 as [|char l Hc Hl IH]; [done|]. cbn [escaped concat_str map foldr].
  fold (escaped attribute l). rewrite sall_app, IH, andb_true_r.
  destruct (xml_char_cases attribute char Hc) as [(e & c & He & -> & _)|[-> Hb]].
  - destruct (entity_form e c He) as (_ & _ & Hm). revert Hm. apply sall_impl. intros a Ha.
    destruct attribute; [done|]. unfold markup in *. apply negb_true_iff in Ha.
    apply orb_false_iff in Ha as [Ha _]. by rewrite Ha.
  - revert Hb. apply sall_impl. unfold inert. by intros a [_ ?]%andb_true_iff.
Qed.

Section escaping.
Context `{gext : GraphExternals}.

Lemma push_str_Ok v o out : push_str v o = Ok out → out = o +:+ v ∧ slen out ≤ MAX_ENCODED_BYTES.
Proof.
  unfold push_str. destruct (checked_add usize_max (slen o) (slen v)) as [n|] eqn:E; [|done]. cbn.
  apply checked_add_Some in E as [-> _]. destruct (Z.ltb_spec MAX_ENCODED_BYTES (slen o + slen v)); [done|].
  cbn. intros H'. apply Ok_inj in H' as <-. by rewrite slen_app.
Qed.

Lemma push_str_Err v o e : push_str v o = Err e → e = representation_too_large.
Proof.
  unfold push_str. destruct (checked_add usize_max (slen o) (slen v)); cbn; [|by intros [= <-]].
  destruct (MAX_ENCODED_BYTES <? _); cbn; by intros [= <-].
Qed.

Lemma xml_chars_Ok attribute l o out :
  xml_chars attribute l o = Ok out →
  out = o +:+ escaped attribute l ∧ (l ≠ [] → slen out ≤ MAX_ENCODED_BYTES) ∧
  Forall (λ c, is_xml_10_character c.1 = true) l.
Proof.
  revert o. induction l as [|char l IH]; intros o; cbn [xml_chars].
  - intros H. apply Ok_inj in H as <-. by rewrite app_str_nil_r.
  - destruct (is_xml_10_character char.1) eqn:Ec; cbn [negb]; [|done]. unfold andw.
    destruct (push_str (xml_char attribute char) o) as [o'|] eqn:E; cbn; [|done].
    apply push_str_Ok in E as [-> Hl]. intros H. pose proof H as H'.
    apply IH in H as (-> & Hb & Hf). split; [|split; [|by constructor]].
    + cbn [escaped concat_str map foldr]. by rewrite app_str_assoc.
    + intros _. destruct l; [|by apply Hb]. by rewrite app_str_nil_r.
Qed.

(** Escaping loses nothing and injects nothing: what the XML export writes
    for a text or an attribute value stays within the size limit, unescapes to
    that value, and holds no byte of markup, no quote in an attribute and no
    white space a processor would normalize; the value then holds only
    characters of XML 1.0. *)
Theorem xml_escaped_lossless value attribute o out :
  xml_escaped value attribute o = Ok out →
  ∃ text, out = o +:+ text ∧ unescape text = Some value ∧
    sall (λ c, negb (markup attribute c)) text = true ∧
    Forall (λ c, is_xml_10_character c.1 = true) (chars value) ∧
    (value ≠ "" → slen out ≤ MAX_ENCODED_BYTES).
Proof.
  intros (-> & Hl & Hc)%xml_chars_Ok. exists (escaped attribute (chars value)).
  split; [done|]. split; [|split; [apply escaped_no_markup, chars_ok|split; [done|]]].
  - unfold unescape. rewrite unescape_escaped by (apply chars_ok || done). by rewrite concat_chars.
  - intros Hv. apply Hl. intros Hn. apply Hv. by rewrite <- (concat_chars value), Hn.
Qed.

(** A value is refused as not representable only for a character that XML 1.0
    cannot represent. *)
Lemma xml_escaped_Err value attribute o e :
  xml_escaped value attribute o = Err e →
  e = representation_too_large
  ∨ e = graph_not_representable ∧ Exists (λ c, is_xml_10_character c.1 = false) (chars value).
Proof.
  unfold xml_escaped. generalize (chars value) as l. intros l. revert o.
  induction l as [|char l IH]; intros o; cbn [xml_chars]; [done|].
  destruct (is_xml_10_character char.1) eqn:Ec; cbn [negb].
  - unfold andw. destruct (push_str (xml_char attribute char) o) as [o'|e'] eqn:E; cbn.
    + intros H. destruct (IH _ H) as [->|[-> Hx]]; [by left|right]. split; [done|by right].
    + apply push_str_Err in E as ->. intros [= <-]. by left.
  - intros [= <-]. right. split; [done|by left].
Qed.
End escaping.
