(* ===== verification/GraphExports.v ===== *)
(** * Export representations of a graph ([src/routes/graph_exports/mod.rs])

    The handler that serves a declared graph as JSON5, XML, CSV, MessagePack or
    Protocol Buffers: who accepts what, and the encoding of each format. *)

From S2P Require Export ExportMessagePack ExportCsv ExportXml.

Inductive ExportFormat : Type := XJson5 | XXml | XCsv | XMessagePack | XProtobuf.
#[export] Instance export_format_eq_dec : EqDecision ExportFormat.
Proof. solve_decision. Defined.

(** The interface crate's part. *)
Class ExportExternals := {
  export_parse_name : string → option ExportFormat;
  export_media_type : ExportFormat → string;
  export_extension : ExportFormat → string;
  export_is_authoritative : ExportFormat → bool;
  verify_digest : GraphDocument → result string unit;
}.

(** ** Negotiation

    The module has its own copies of the helpers of [graph.rs], with the same
    text. *)
Definition accept_match : string → string → option (Z * Z) := canonical_accept_match.
Definition parse_quality : string → option Z := parse_accept_quality.
Definition export_if_none_match_matches : HeaderMap → string → bool := if_none_match_matches.
Definition export_filename_stem : string → string → string → string := filename_stem.
Definition export_representation_too_large : ApiErr := representation_too_large.

Definition export_not_acceptable : ApiErr :=
  unsupported_format "requested export format is not acceptable".

(** The loop over the values of [Accept]. *)
Fixpoint scan_export_accept (registered : string) (values : list (option string))
    (saw_nonempty_value : bool) (selected : option (Z * Z)) : ApiResult (bool * option (Z * Z)) :=
  match values with
  | [] => mret (saw_nonempty_value, selected)
  | value :: values =>
      value ← ok_or export_not_acceptable value;
      if is_empty (trim value) then scan_export_accept registered values saw_nonempty_value selected
      else scan_export_accept registered values true
             (fold_left (λ selected entry, better selected (accept_match entry registered))
                (split "," value) selected)
  end.

Section exports.
Context `{ext : Externals} `{web : WebExternals} `{can : CanonicalReads} `{gext : GraphExternals}.
Context `{xext : ExportExternals}.

Definition ensure_acceptable (headers : HeaderMap) (format : ExportFormat) : ApiResult unit :=
  scanned ← scan_export_accept (export_media_type format) (headers "accept") false None;
  if negb (fst (A := bool) scanned)
     || match snd scanned with Some (_, quality) => 0 <? quality | None => false end
  then Ok tt else Err export_not_acceptable.

(** ** Encoding *)

Definition json5_prefix (digest : string) : string :=
  "// zpkg/dependency-graph/v1 — lossless JSON5 projection" +:+ nl
  +:+ "// graph_digest: " +:+ digest +:+ nl
  +:+ "// Comments may be removed; the remaining value is canonical JSON." +:+ nl.

Definition encode_json5 (document : GraphDocument) (canonical : string) : ApiResult string :=
  let prefix := json5_prefix (default "missing" document.(doc_digest)) in
  encoded_len ← ok_or representation_too_large
    (length ← checked_add usize_max (slen prefix) (slen canonical); checked_add usize_max length 1);
  ensure_encoded_size encoded_len;;
  mret (prefix +:+ canonical +:+ nl).

Definition export_encode (document : GraphDocument) (format : ExportFormat) : ApiResult string :=
  ensure_graph_bounds document;;
  map_err (λ _, from_anyhow) (verify_digest document);;
  canonical ← map_err (λ _, from_anyhow) (canonical_document_bytes document);
  ensure_encoded_size (slen canonical);;
  encoded ← match format with
    | XJson5 => encode_json5 document canonical
    | XXml => encode_xml document
    | XCsv => encode_csv document
    | XMessagePack => encode_messagepack canonical
    | XProtobuf => Ok (encode_protobuf document)
    end;
  ensure_encoded_size (slen encoded);;
  mret encoded.

Definition export_respond (headers : HeaderMap) (format : ExportFormat) (document : GraphDocument)
    (filename_stem : string) (access : GraphAccess) : ApiResult GraphResponse :=
  body ← export_encode document format;
  ensure_encoded_size (slen body);;
  graph_digest ← ok_or from_anyhow document.(doc_digest);
  response_headers ← representation_headers body graph_digest
    (attachment filename_stem (export_extension format)) (export_is_authoritative format) access;
  answer headers body response_headers (export_media_type format).

Definition get_declared_graph_export (st : AppState) (org_slug name ver format_name : string)
    (headers : HeaderMap) : M ApiErr GraphResponse :=
  format ← lift (ok_or (unsupported_format
      ("unsupported dependency graph export format `" +:+ format_name +:+ "`"))
    (export_parse_name format_name));
  lift (ensure_acceptable headers format);;
  '(document, access) ← load_authorized_declared_document st headers org_slug name ver;
  lift (export_respond headers format document (export_filename_stem org_slug name ver) access).
End exports.
