(* ===== verification/GraphFacts.v ===== *)
(** * Theorems about the dependency-graph reads

    Who may read a graph, which representation is chosen, and what the
    conditional response promises. *)

From S2P Require Export GraphExports AuthFacts.

(** ** Authorization *)

Section authorization.
Context `{ext : Externals} `{web : WebExternals} `{can : CanonicalReads} `{gext : GraphExternals}.

Lemma concealed_Ok {E A} (m : M E A) w a w' : concealed m w = (Ok a, w') → m w = (Ok a, w').
Proof. unfold concealed. intros (x & H & Hx)%with_err_inv. destruct x; [|done]. by injection Hx as ->. Qed.
Lemma concealed_Err {E A} (m : M E A) w e w' : concealed m w = (Err e, w') → e = graph_not_found.
Proof. unfold concealed. intros (x & H & Hx)%with_err_inv. destruct x; [done|]. by injection Hx as ->. Qed.

(** The two ways into a package that is not public: a live registry token of
    the organization, at the moments the code looks ... *)
Definition token_member (headers : HeaderMap) (slug : string) : Prop :=
  ∃ token org w0 w1 w2,
    require_token headers w0 = (Ok token, w1) ∧ find_org slug w1 = (Ok org, w2) ∧
    token.(tok_org_id) = Some org.(org_id).

(** ... or a delegated account whose user has a role in the organization or in
    the project that owns the package. *)
Definition account_member (st : AppState) (headers : HeaderMap) (package : CanonicalPackage)
    (org : CanonicalOrg) : Prop :=
  ∃ account user t w0 w1,
    require_account st headers w0 = (Ok account, w1) ∧
    user_by_subject t account.(session).(realm) account.(session).(subject) = Ok (Some user) ∧
    ((∃ t role, org_role_for_user t org.(co_id) user = Ok (Some role))
     ∨ ∃ t role project, package.(cp_project_id) = Some project ∧
         project_role_for_user t project user = Ok (Some role)).

Lemma is_some_Some {A} (o : option A) : is_some o = true → ∃ a, o = Some a.
Proof. destruct o; [eauto|done]. Qed.

(** A read of the canonical plane, its failure concealed. *)
Lemma concealed_orm {A} (f : nat → result OrmError A) w r w' :
  concealed (orm f) w = (r, w') → r = Err graph_not_found ∨ ∃ a, r = Ok a ∧ f (tick w) = Ok a.
Proof.
  destruct r as [a|e]; [|intros H%concealed_Err; by left; subst].
  intros H%concealed_Ok. right. exists a. split; [done|]. by apply orm_inv in H as (<- & _).
Qed.

(** C11: only the public may be read anonymously, and nothing is learned from a
    refusal: with the canonical context configured, a package is readable
    publicly only when it is public, privately only when it is internal or
    private and the caller is a member by token or by account; every refusal,
    whatever failed (a missing or invalid credential, another tenant's, an
    outage, an unknown visibility), is the same 404. *)
Theorem declared_graph_authorization st headers slug package org w r w' :
  registry_read st = true →
  authorize_declared_graph st headers slug package org w = (r, w') →
  match r with
  | Ok AccessPublic => package.(cp_visibility) = "public" ∧ w' = w
  | Ok AccessPrivate =>
      (package.(cp_visibility) = "internal" ∨ package.(cp_visibility) = "private") ∧
      is_some (bearer_token headers) = true ∧
      (token_member headers slug ∨ account_member st headers package org)
  | Err e => e = graph_not_found ∧ package.(cp_visibility) ≠ "public"
  end.
Proof.
  intros Hst H. unfold authorize_declared_graph in H. rewrite Hst in H. cbn [negb] in H.
  assert ((requires_graph_authorization (cp_visibility package) = Ok false ∧ cp_visibility package = "public")
    ∨ (requires_graph_authorization (cp_visibility package) = Ok true ∧
       (cp_visibility package = "internal" ∨ cp_visibility package = "private"))
    ∨ (requires_graph_authorization (cp_visibility package) = Err graph_not_found ∧
       cp_visibility package ≠ "public")) as Hreq.
  { unfold requires_graph_authorization. generalize (cp_visibility package) as s. intros s.
    destruct (String.eqb_spec s "public") as [->|]; [by left|].
    destruct (String.eqb_spec s "internal") as [->|]; [right; left; by auto|].
    destruct (String.eqb_spec s "private") as [->|]; [right; left; by auto|].
    right; right. split; [|done]. by repeat (case_match; try done). }
  M_step H; apply lift_inv in R as [R ->].
  { destruct Hreq as [[E _]|[[E _]|[E ?]]]; rewrite E in R; [done..|]. by injection R as ->. }
  destruct Hreq as [[E Hv]|[[E Hv]|[E _]]]; rewrite E in R; [| |done]; injection R as ->; cbn [negb] in H.
  { apply mret_inv in H as [-> ->]. done. }
  assert (cp_visibility package ≠ "public") as Hnp by (by destruct Hv as [-> | ->]).
  destruct (is_some (bearer_token headers)) eqn:Eb; cbn [negb] in H; [|by apply fail_inv in H as [-> ->]].
  M_step H; [by apply attempt_inv in R as (? & [=] & _)|].
  apply attempt_inv in R as (token & [= ->] & Rtok). destruct token as [token|e].
  - M_step H; [by apply concealed_Err in R as ->|]. apply concealed_Ok in R.
    case_bool_decide as Ho; [apply mret_inv in H as [-> ->]|by apply fail_inv in H as [-> ->]].
    split; [done|]. split; [done|]. left. by exists token, a, w, w0, w1.
  - M_step H; [by apply concealed_Err in R as ->|]. apply concealed_Ok in R.
    M_step H; destruct (concealed_orm _ _ _ _ R0) as [[=]|(found & [= ->] & Hf)]; [by subst|].
    M_step H; apply lift_inv in R1 as [R1 ->]; destruct found as [user|]; cbn in R1;
      [done|by injection R1 as ->| |done]. injection R1 as ->.
    M_step H; destruct (concealed_orm _ _ _ _ R1) as [[=]|(role & [= ->] & Hr)]; [by subst|].
    destruct (is_some role) eqn:Er.
    { apply mret_inv in H as [-> ->]. apply is_some_Some in Er as [rl ->].
      split; [done|]. split; [done|]. right. do 5 eexists. split; [exact R|]. split; [exact Hf|]. left. by do 2 eexists. }
    destruct (cp_project_id package) as [project|] eqn:Ep; [|by apply fail_inv in H as [-> ->]].
    M_step H; destruct (concealed_orm _ _ _ _ R2) as [[=]|(prole & [= ->] & Hp)]; [by subst|].
    destruct (is_some prole) eqn:Erp; [apply mret_inv in H as [-> ->]|by apply fail_inv in H as [-> ->]].
    apply is_some_Some in Erp as [rl ->].
    split; [done|]. split; [done|]. right. do 5 eexists. split; [exact R|]. split; [exact Hf|].
    right. by do 3 eexists.
Qed.
End authorization.

(** ** Negotiation *)

(** Of two matches of a format, the more specific counts, and of equally
    specific ones the one of higher quality. *)
Definition weaker (a b : Z * Z) : Prop := a.1 < b.1 ∨ a.1 = b.1 ∧ a.2 ≤ b.2.

Lemma better_spec {A} (m : A → option (Z * Z)) l cur r :
  fold_left (λ cur e, better cur (m e)) l cur = r →
  (∀ x, (cur = Some x ∨ ∃ e, In e l ∧ m e = Some x) → ∃ y, r = Some y ∧ weaker x y) ∧
  (∀ y, r = Some y → cur = Some y ∨ ∃ e, In e l ∧ m e = Some y).
Proof.
  assert (∀ x, weaker x x) as Hrefl by (intros x; right; lia).
  assert (∀ x y z, weaker x y → weaker y z → weaker x z) as Htrans by (unfold weaker; lia).
  revert cur. induction l as [|a l IH]; intros cur <-; cbn.
  - split; [|by intros; left]. intros x [->|(e & [] & _)]. eauto.
  - assert (∀ x, cur = Some x ∨ m a = Some x → ∃ y, better cur (m a) = Some y ∧ weaker x y) as Hb.
    { intros x Hx. unfold better. destruct (m a) as [[s q]|], cur as [[cs cq]|]; destruct Hx as [[=]|[=]]; subst; eauto.
      - destruct ((cs <? s) || ((s =? cs) && (cq <? q))) eqn:E; eexists; split; eauto. unfold weaker. cbn.
        apply orb_true_iff in E as [E|E]; bool_to_prop; lia.
      - destruct ((cs <? s) || ((s =? cs) && (cq <? q))) eqn:E; eexists; split; eauto. unfold weaker. cbn.
        apply orb_false_iff in E as [E1 E]. apply andb_false_iff in E. bool_to_prop.
        destruct E as [E|E]; bool_to_prop; lia. }
    destruct (IH (better cur (m a)) eq_refl) as [H1 H2]. split.
    + intros x [Hx|(e & [<-|He] & Hx)]; [| |apply H1; eauto].
      * destruct (Hb x (or_introl Hx)) as (y & Hy & Hxy). destruct (H1 y (or_introl Hy)) as (z & ? & ?).
        exists z. split; [done|by eapply (Htrans x y)].
      * destruct (Hb x (or_intror Hx)) as (y & Hy & Hxy). destruct (H1 y (or_introl Hy)) as (z & ? & ?).
        exists z. split; [done|by eapply (Htrans x y)].
    + intros y Hy. destruct (H2 y Hy) as [Hc|(e & He & Hm)]; [|eauto 6].
      unfold better in Hc. destruct (m a) as [[s q]|] eqn:Em, cur as [[cs cq]|]; try (by left);
        [|by right; exists a; rewrite Em; eauto].
      destruct ((cs <? s) || _); [right; exists a; rewrite Em; eauto|by left].
Qed.

Section negotiation.
Context `{gext : GraphExternals}.

(** The media ranges of the [Accept] headers, if they are text. *)
Definition accept_entries (headers : HeaderMap) : option (list string) :=
  flat_map media_ranges <$> mapM id (headers "accept").

(** The caller accepts a format with a quality: that of its strongest match. *)
Definition acceptable (entries : list string) (f : GraphFormat) (q : Z) : Prop :=
  0 < q ∧ ∃ e s, In e entries ∧ canonical_accept_match e (media_type f) = Some (s, q) ∧
    ∀ e' x, In e' entries → canonical_accept_match e' (media_type f) = Some x → weaker x (s, q).

Definition rank (f : GraphFormat) : Z :=
  match f with FJson => 0 | FYaml => 1 | FToml => 2 | FDot => 3 | FMermaid => 4 end.

(** The format to answer with: of the acceptable ones the first of the highest
    quality. *)
Definition preferred (entries : list string) (f : GraphFormat) : Prop :=
  ∃ q, acceptable entries f q ∧
    ∀ g q', acceptable entries g q' → q' < q ∨ q' = q ∧ rank f ≤ rank g.

(** What a request asks for. *)
Definition selects (headers : HeaderMap) (query : option string) (f : GraphFormat) : Prop :=
  ∃ entries, accept_entries headers = Some entries ∧
    match query with
    | Some v => parse_format_name v = Some f ∧ (entries ≠ [] → ∃ q, acceptable entries f q)
    | None => if decide (entries = []) then f = FJson else preferred entries f
    end.

Definition best (entries : list string) (f : GraphFormat) : option (Z * Z) :=
  fold_left (λ cur e, better cur (canonical_accept_match e (media_type f))) entries None.

Lemma best_acceptable entries f q :
  acceptable entries f q ↔ 0 < q ∧ ∃ s, best entries f = Some (s, q).
Proof.
  unfold acceptable. destruct (better_spec (λ e, canonical_accept_match e (media_type f)) entries None
    (best entries f) eq_refl) as [H1 H2]. split.
  - intros (Hq & e & s & He & Hm & Hmax). split; [done|].
    destruct (H1 (s, q)) as ([s' q'] & Hb & Hw); [by eauto|].
    destruct (H2 _ Hb) as [[=]|(e' & He' & Hm')]. specialize (Hmax _ _ He' Hm').
    unfold weaker in *. cbn in *. exists s. rewrite Hb. do 2 f_equal; lia.
  - intros (Hq & s & Hb). split; [done|]. destruct (H2 _ Hb) as [[=]|(e & He & Hm)].
    exists e, s. split; [done|]. split; [done|]. intros e' x He' Hx.
    destruct (H1 x) as (y & Hy & Hw); [by eauto|]. rewrite Hb in Hy. by injection Hy as <-.
Qed.

Lemma update_selected_map e (g : GraphFormat → option (Z * Z)) :
  update_selected e (map g all_formats)
  = map (λ f, better (g f) (canonical_accept_match e (media_type f))) all_formats.
Proof. done. Qed.

Lemma update_all entries g :
  fold_left (λ selected entry, update_selected entry selected) entries (map g all_formats)
  = map (λ f, fold_left (λ cur e, better cur (canonical_accept_match e (media_type f))) entries (g f)) all_formats.
Proof.
  revert g. induction entries as [|e entries IH]; intros g; [done|]. cbn [fold_left].
  by rewrite update_selected_map, IH.
Qed.

Lemma scan_accept_spec values saw g :
  scan_accept values saw (map g all_formats)
  = match mapM id values with
    | None => Err no_acceptable
    | Some vs =>
        let entries := flat_map media_ranges vs in
        Ok (saw || negb (bool_decide (entries = [])),
            map (λ f, fold_left (λ cur e, better cur (canonical_accept_match e (media_type f))) entries (g f))
              all_formats)
    end.
Proof.
  revert saw g. induction values as [|[v|] values IH]; intros saw g; [cbn; by rewrite orb_false_r| |done].
  cbn [scan_accept ok_or mbind result_mbind result_bind]. rewrite update_all, IH. cbn.
  destruct (mapM id values) as [vs|]; cbn; [|done]. f_equal. f_equal.
  - rewrite <- orb_assoc. f_equal. rewrite <- negb_andb. f_equal.
    destruct (media_ranges v), (flat_map media_ranges vs); done.
  - by rewrite !fold_left_app.
Qed.

#[local] Arguments best : simpl never.

(** The formats the caller accepts, each with its quality. *)
Lemma positive_qualities entries g q :
  In (g, q) (omap positive_quality (zip all_formats (map (best entries) all_formats)))
  ↔ acceptable entries g q.
Proof.
  rewrite best_acceptable, <- list_elem_of_In, list_elem_of_omap. split.
  - intros ([f o] & Hin & Hp). unfold positive_quality in Hp. cbn in Hp.
    destruct o as [[s q']|]; cbn in Hp; [|done]. destruct (Z.ltb_spec 0 q') as [Hq|]; [|done].
    injection Hp as -> ->. split; [done|]. exists s. cbn in Hin.
    rewrite !elem_of_cons, elem_of_nil in Hin. by destruct Hin as [[= -> ->]|[[= -> ->]|[[= -> ->]|[[= -> ->]|[[= -> ->]|[]]]]]].
  - intros (Hq & s & Hb). exists (g, Some (s, q)). unfold positive_quality. cbn [snd fst mbind option_bind].
    rewrite (proj2 (Z.ltb_lt _ _)) by done. split; [|done].
    cbn. rewrite !elem_of_cons, elem_of_nil. destruct g; rewrite <- Hb; tauto.
Qed.

(** The first of the highest quality, by position. *)
Lemma prefer_spec l cur f q :
  StronglySorted (λ a b, rank a.1 < rank b.1) l →
  (∀ c, cur = Some c → Forall (λ b : GraphFormat * Z, rank c.1 < rank b.1) l) →
  fold_left prefer l cur = Some (f, q) →
  (cur = Some (f, q) ∨ In (f, q) l) ∧
  ∀ g q', cur = Some (g, q') ∨ In (g, q') l → q' < q ∨ q' = q ∧ rank f ≤ rank g.
Proof.
  intros Hl. revert cur. induction Hl as [|[h qh] l Hl IH Hh]; intros cur Hc; cbn.
  - intros ->. split; [by left|]. intros g q' [[= <- <-]|[]]. right. lia.
  - intros Hf. assert (∀ c, prefer cur (h, qh) = Some c → Forall (λ b : GraphFormat * Z, rank c.1 < rank b.1) l) as Hp.
    { intros c. unfold prefer. destruct cur as [c'|]; [|by intros [= <-]].
      specialize (Hc _ eq_refl). apply Forall_cons_1 in Hc as [_ Hc]. destruct (_ <=? _); by intros [= <-]. }
    destruct (IH _ Hp Hf) as [H1 H2]. clear IH. unfold prefer in H1, H2. destruct cur as [[c qc]|].
    + specialize (Hc _ eq_refl). apply Forall_cons_1 in Hc as [Hc _]. cbn in *.
      destruct (Z.leb_spec qh qc) as [Hq|Hq]; (split; [destruct H1 as [[= <- <-]|H1]; auto|]); intros g q' Hg.
      * destruct Hg as [Hg|[[= <- <-]|Hg]]; [by eauto| |by eauto].
        destruct (H2 c qc) as [?|[? ?]]; [by left|lia|lia].
      * destruct Hg as [[= <- <-]|[Hg|Hg]]; [|by rewrite Hg in H2; eauto|by eauto].
        destruct (H2 h qh) as [?|[? ?]]; [by left|lia|lia].
    + split; [destruct H1 as [[= <- <-]|H1]; auto|]. intros g q' [[=]|[Hg|Hg]]; [rewrite Hg in H2; eauto|eauto].
Qed.

Lemma positive_format e p : positive_quality e = Some p → p.1 = e.1.
Proof.
  unfold positive_quality. destruct e as [f [[s q]|]]; cbn; [|done]. destruct (0 <? q); [|done].
  by intros [= <-].
Qed.

Lemma positive_sorted entries :
  StronglySorted (λ a b : GraphFormat * Z, rank a.1 < rank b.1)
    (omap positive_quality (zip all_formats (map (best entries) all_formats))).
Proof.
  assert (StronglySorted (λ a b : GraphFormat * option (Z * Z), rank a.1 < rank b.1)
    (zip all_formats (map (best entries) all_formats))) as H.
  { cbn. repeat (constructor; [|repeat (constructor; [cbn; lia|]); by constructor]). constructor. }
  induction H as [|e l Hl IH He]; [constructor|]. cbn.
  destruct (positive_quality e) as [p|] eqn:Ep; [|done]. constructor; [done|].
  apply Forall_forall. intros q (e' & He' & Hq)%list_elem_of_omap.
  rewrite (positive_format _ _ Ep), (positive_format _ _ Hq).
  rewrite Forall_forall in He. by apply He.
Qed.

Lemma parse_accept_unfold headers :
  parse_accept headers =
  match accept_entries headers with
  | None => Err no_acceptable
  | Some entries =>
      Ok (if bool_decide (entries = []) then None
          else Some (omap positive_quality (zip all_formats (map (best entries) all_formats))))
  end.
Proof.
  unfold parse_accept, accept_entries.
  change (replicate 5 None) with (map (λ _ : GraphFormat, None : option (Z * Z)) all_formats).
  rewrite scan_accept_spec. destruct (mapM id (headers "accept")) as [vs|]; cbn [fmap option_fmap option_map]; [|done].
  cbn [mbind result_mbind result_bind fst snd orb]. by destruct (bool_decide _).
Qed.

Lemma rank_inj f g : rank f = rank g → f = g.
Proof. by destruct f, g. Qed.

Lemma preferred_unique entries f g : preferred entries f → preferred entries g → f = g.
Proof.
  intros (q & Hf & Hq) (q' & Hg & Hq'). apply rank_inj.
  destruct (Hq _ _ Hg), (Hq' _ _ Hf); lia.
Qed.

Lemma preferred_fold entries f :
  preferred entries f ↔
  fst <$> fold_left prefer (omap positive_quality (zip all_formats (map (best entries) all_formats))) None
  = Some f.
Proof.
  set (l := omap _ _). assert (∀ h, fst <$> fold_left prefer l None = Some h → preferred entries h) as Hs.
  { intros h Hh. destruct (fold_left prefer l None) as [[h' q]|] eqn:E; [|done]. injection Hh as ->.
    apply prefer_spec in E as [[[=]|Hin] Hmax]; [|apply positive_sorted|done].
    exists q. split; [by apply positive_qualities|]. intros g q' Hg. apply Hmax. right.
    by apply positive_qualities. }
  split; [|apply Hs]. intros Hf. pose proof Hf as (q & Hacc & _).
  destruct (fst <$> fold_left prefer l None) as [h|] eqn:E.
  - f_equal. by apply (preferred_unique entries); [apply Hs|].
  - exfalso. apply positive_qualities in Hacc. fold l in Hacc.
    assert (∀ k c, fold_left prefer k c = None → c = None ∧ k = []) as Hn.
    { clear. induction k as [|a k IH]; intros c Hk; [done|]. destruct (IH _ Hk) as [Hc _].
      unfold prefer in Hc. destruct c; [by destruct (_ <=? _)|done]. }
    destruct (fold_left prefer l None) as [?|] eqn:El; [done|]. apply Hn in El as [_ ->]. done.
Qed.

(** Content negotiation answers with the format the request selects, and
    only then: the query's, which an [Accept] that names ranges must not
    contradict; without a query the acceptable format of the highest quality,
    the canonical one first, where a format's quality is that of its most
    specific match; and JSON when the request says nothing. Otherwise it is
    refused with 406. *)
Theorem resolve_format_spec headers query :
  (∀ f, resolve_format headers query = Ok f ↔ selects headers query f) ∧
  (∀ e, resolve_format headers query = Err e → e.(status) = StatusCode.NOT_ACCEPTABLE).
Proof.
  unfold resolve_format, selects. rewrite parse_accept_unfold.
  destruct (accept_entries headers) as [entries|].
  2:{ split; [|destruct query as [v|]; [destruct (parse_format_name v)|]; by intros e [= <-]].
      intros f. split; [|by intros (? & [=] & _)].
      destruct query as [v|]; [destruct (parse_format_name v)|]; done. }
  set (l := omap _ _). destruct query as [v|].
  - destruct (parse_format_name v) as [g|]; cbn [ok_or mbind result_mbind result_bind].
    2:{ split; [intros f; split; [done|by intros (? & _ & [=] & _)]|by intros e [= <-]]. }
    case_bool_decide as He.
    { split; [|done]. intros f. split; [intros [= ->]; by exists entries|].
      by intros (? & _ & [= ->] & _). }
    destruct (existsb _ l) eqn:Ex.
    + split; [|done]. intros f. split; [|by intros (? & _ & [= ->] & _)]. intros [= ->].
      exists entries. split; [done|]. split; [done|]. intros _.
      apply existsb_exists in Ex as ([h q] & Hin & Hh). bool_to_prop. cbn in Hh. subst h.
      exists q. by apply positive_qualities.
    + split; [|by intros e [= <-]]. intros f. split; [done|].
      intros (? & [= <-] & [= ->] & Hq). destruct (Hq He) as [q Ha]. apply positive_qualities in Ha.
      assert (existsb (λ entry : GraphFormat * Z, bool_decide (entry.1 = f)) l = true) as Ht; [|congruence].
      apply existsb_exists. exists (f, q). split; [done|]. by apply bool_decide_eq_true.
  - cbn [mbind result_mbind result_bind]. case_bool_decide as He.
    { split; [|done]. intros f. split.
      - intros [= <-]. exists entries. split; [done|]. by rewrite decide_True.
      - intros (? & [= <-] & Hf). rewrite decide_True in Hf by done. by subst. }
    split.
    + intros f. split.
      * intros H. exists entries. split; [done|]. rewrite decide_False by done.
        apply preferred_fold. fold l. by destruct (fst <$> _); [injection H as ->|].
      * intros (? & [= <-] & Hf). rewrite decide_False in Hf by done. apply preferred_fold in Hf.
        fold l in Hf. by rewrite Hf.
    + intros e. destruct (fst <$> _); [done|]. by intros [= <-].
Qed.
End negotiation.

(** ** Conditional responses *)

Section responses.
Context `{ext : Externals} `{web : WebExternals} `{gext : GraphExternals} `{xext : ExportExternals}.

(** A header value holds the text it was made from, and the header names the
    interface crate chose are not those of HTTP. *)
Definition header_laws : Prop :=
  let names := ["etag"; "cache-control"; "vary"; "content-disposition"; "content-length"; "content-type"] in
  (∀ v v', header_value_from_str v = Some v' → v' = v) ∧
  (DEPENDENCY_GRAPH_DIGEST_HEADER ∉ names) ∧ (DEPENDENCY_GRAPH_AUTHORITATIVE_HEADER ∉ names) ∧
  DEPENDENCY_GRAPH_DIGEST_HEADER ≠ DEPENDENCY_GRAPH_AUTHORITATIVE_HEADER.

(** An answer for the bytes [body] of a document with a digest. *)
Definition answers (headers : HeaderMap) (access : GraphAccess) (media digest : string)
    (authoritative : bool) (body : string) (resp : GraphResponse) : Prop :=
  let get := rh_get resp.(gr_headers) in
  get "etag" = Some (etag_of body) ∧ get "cache-control" = Some (cache_control access) ∧
  get "vary" = Some (vary access) ∧ get "content-length" = Some (dec_of_Z (slen body)) ∧
  get DEPENDENCY_GRAPH_DIGEST_HEADER = Some digest ∧
  get DEPENDENCY_GRAPH_AUTHORITATIVE_HEADER = Some (if authoritative then "true" else "false") ∧
  (if if_none_match_matches headers (etag_of body)
   then resp.(gr_status) = StatusCode.NOT_MODIFIED ∧ resp.(gr_body) = None ∧ get "content-type" = None
   else resp.(gr_status) = StatusCode.OK ∧ resp.(gr_body) = Some body ∧ get "content-type" = Some media).

Lemma graph_header_value_Ok v v' : header_laws → graph_header_value v = Ok v' → v' = v.
Proof.
  intros [Hv _]. unfold graph_header_value. destruct (header_value_from_str v) as [x|] eqn:E; cbn; [|done].
  intros [= <-]. by apply Hv.
Qed.

Ltac header_ne := first [done | tauto | apply not_eq_sym; tauto].

Lemma answer_spec headers body digest disposition authoritative access media hs resp :
  header_laws →
  representation_headers body digest disposition authoritative access = Ok hs →
  answer headers body hs media = Ok resp →
  answers headers access media digest authoritative body resp.
Proof.
  intros Hlaws Hh Hr. pose proof Hlaws as (_ & Hd & Ha & Hne). rewrite !not_elem_of_cons in Hd, Ha.
  unfold representation_headers in Hh. inv_bind.
  repeat match goal with H : graph_header_value _ = Ok _ |- _ => apply graph_header_value_Ok in H; [subst|done] end.
  unfold answer in Hr. unfold answers. cbn zeta.
  destruct (if_none_match_matches headers (etag_of body)).
  - injection Hr as <-. cbn [gr_headers gr_status gr_body not_modified_response].
    repeat split; repeat (rewrite rh_get_insert_ne by header_ne);
      try apply rh_get_insert_eq; done.
  - inv_bind. apply graph_header_value_Ok in E as ->; [|done]. cbn [gr_headers gr_status gr_body].
    repeat split; repeat (rewrite rh_get_insert_ne by header_ne);
      try apply rh_get_insert_eq; done.
Qed.

(** A successful graph answer is the requested representation of the whole
    document or a bodyless 304: the bytes are its encoding, within the size
    limit; the validator is their digest, the length theirs, the digest header
    the document's own; a caller whose validator matches gets 304 and the same
    headers; and a private graph is neither stored nor shared by caches. *)
Theorem graph_response_spec headers document stem access :
  header_laws →
  (∀ format resp, respond headers format document stem access = Ok resp →
     ∃ body digest, GraphText.encode document format = Ok body ∧ slen body ≤ MAX_ENCODED_BYTES ∧
       document.(doc_digest) = Some digest ∧
       answers headers access (media_type format) digest (is_authoritative format) body resp) ∧
  (∀ format resp, export_respond headers format document stem access = Ok resp →
     ∃ body digest, export_encode document format = Ok body ∧ slen body ≤ MAX_ENCODED_BYTES ∧
       document.(doc_digest) = Some digest ∧
       answers headers access (export_media_type format) digest (export_is_authoritative format) body resp).
Proof.
  intros Hn. assert (∀ n, ensure_encoded_size n = Ok tt → n ≤ MAX_ENCODED_BYTES) as Hsize.
  { intros n. unfold ensure_encoded_size. destruct (Z.ltb_spec MAX_ENCODED_BYTES n); [done|lia]. }
  split; intros format resp H; [unfold respond in H|unfold export_respond in H]; inv_bind;
    repeat match goal with u : unit |- _ => destruct u end;
    (do 2 eexists; split; [reflexivity|]; split; [by apply Hsize|]; split; [reflexivity|]);
    by eapply answer_spec.
Qed.
End responses.

(** ** Untrusted text in labels and names *)

Definition filename_output (c : ascii) : bool := filename_byte c || (c =c "_").

Lemma hex_upper_digits fuel n acc :
  0 ≤ n → sall mermaid_byte acc = true → sall mermaid_byte (hex_upper_aux fuel n acc) = true.
Proof.
  assert (∀ d, 0 ≤ d < 16 → mermaid_byte (hex_upper_digit d) = true) as Hd.
  { intros [|p|p] H; [done| |lia]. by repeat (destruct p as [p|p|]; try done; try lia). }
  revert n acc. induction fuel as [|fuel IH]; intros n acc Hn Hacc; cbn [hex_upper_aux]; [done|].
  pose proof (Z.mod_pos_bound n 16).
  assert (sall mermaid_byte (String (hex_upper_digit (n mod 16)) acc) = true) as Hc.
  { cbn [sall]. by rewrite Hd, Hacc by lia. }
  destruct (n <? 16); [done|]. apply IH; [|done]. apply Z.div_pos; lia.
Qed.

(** Untrusted metadata stays inside its label and its file name: a Mermaid
    label holds only letters, digits and the punctuation the rendering keeps
    (no quote, bracket, backslash or line break), a suggested file name only
    letters, digits, dots, dashes, pluses and underscores. *)
Theorem labels_inert text org name version :
  sall mermaid_byte (mermaid_safe_label text) = true ∧
  sall filename_output (filename_stem org name version) = true.
Proof.
  split.
  - unfold mermaid_safe_label. assert (Forall (λ c, 0 ≤ c.1) (chars text)) as Hpos.
    { eapply Forall_impl; [apply chars_ok|]. intros [code b] [[a [= -> ->]]|(a & t & _ & Hc & _)]; cbn in *; [|lia].
      apply byte_of_bounds. }
    induction Hpos as [|[code b] l Hc Hl IH]; [done|]. cbn. fold (concat_str (map mermaid_char l)).
    rewrite sall_app, IH, andb_true_r. unfold mermaid_char. cbn [fst snd] in *.
    assert (sall mermaid_byte ("_u" +:+ hex_upper_of_Z code +:+ "_") = true) as Hu.
    { rewrite !sall_app. change (sall mermaid_byte "_u") with true. change (sall mermaid_byte "_") with true.
      rewrite andb_true_r. by apply hex_upper_digits. }
    destruct b as [|a [|a2 b]]; [done| |done]. destruct (mermaid_byte a) eqn:Ea; [|done]. cbn. by rewrite Ea.
  - assert (∀ s, sall filename_output (filename_part s) = true) as Hp.
    { induction s as [|c s IH]; [done|]. cbn. destruct (is_continuation c); [done|]. cbn. rewrite IH, andb_true_r.
      unfold filename_output. destruct (filename_byte c) eqn:E; [by rewrite E|done]. }
    unfold filename_stem. rewrite !sall_app, !Hp. done.
Qed.
