(* ===== verification/Orgs.v ===== *)
(** * Namespace claiming ([src/routes/orgs.rs]) *)

From S2P Require Export Routes Transactions.

Class OrgExternals := {
  (** [zed_interfaces::manifest::is_slug] *)
  is_slug : string → bool;
  (** [get_database_backend() == Postgres]; SQLite serves the tests *)
  is_postgres : bool;
  (** PostgreSQL's [hashtext] *)
  hashtext : string → Z;
  (** whether fiducia grants a token's lock to the call at an instant *)
  fiducia_grants : nat → uuid → bool;
}.

Record ClaimOrgResponse := mk_claim_response {
  co_slug : string;
  co_created : bool;
}.

(** [created_by_token = id]. *)
Definition claimed_by (token : uuid) (d : Db) : list OrgRow :=
  List.filter (λ r, bool_decide (r.(org_created_by_token) = Some token)) d.(orgs).

Section orgs.
Context `{ext : Externals} `{aext : AuditExternals} `{oext : OrgExternals}.

(** The outer lock is advisory: [None] is the answer to every failure. *)
Definition fiducia_org_claim_guard (st : AppState) (token_id : uuid) : M ApiErr bool :=
  if st.(fiducia) then λ w, (Ok (fiducia_grants w.(tick) token_id), bump w) else mret false.

(** The release runs on another thread and its failure is only logged. *)
Definition release_fiducia_guard (guard : bool) : M ApiErr unit :=
  if guard then λ w, (Ok tt, bump w) else mret tt.

Definition org_taken (slug : string) : ApiErr :=
  conflict "org_taken" ("org `" +:+ slug +:+ "` is already claimed").

Definition org_quota_exceeded (claimed limit : Z) : ApiErr :=
  mk_api_err StatusCode.FORBIDDEN "org_quota_exceeded"
    ("this token has already claimed " +:+ dec_of_Z claimed +:+ " orgs (limit " +:+ dec_of_Z limit
     +:+ "); contact the registry operator").

(** The advisory lock of a token's claims. *)
Definition claim_lock (token_id : uuid) : Z := hashtext ("zed-api:org-claim:" +:+ uuid_display token_id).

(** The squatting quota, of tokens that are scoped to an organization. *)
Definition claim_quota (st : AppState) (token : TokenRow) : Script unit :=
  if is_some token.(tok_org_id)
  then
    claimed ← statement (read (λ d, Z.of_nat (length (claimed_by token.(tok_id) d))));
    if st.(max_orgs_per_token) <=? claimed
    then refuse (org_quota_exceeded claimed st.(max_orgs_per_token))
    else mret tt
  else mret tt.

Definition claim_insert (token : TokenRow) (slug : string) : Script uuid :=
  '(new_org_id, t) ← fresh;
  insert ← try_statement (insert_org (mk_org new_org_id slug t (Some token.(tok_id))));
  match insert with
  | Ok _ => mret new_org_id
  | Err UniqueConstraintViolation => refuse (org_taken slug)
  | Err DbOther => refuse from_db_err
  end.

(** The transaction of a claim, statement by statement. *)
Definition claim_critical (st : AppState) (token : TokenRow) (slug : string) : Script uuid :=
  (if is_postgres then advisory_lock (claim_lock token.(tok_id)) else mret tt);;
  claim_quota st token;;
  claim_insert token slug.

Definition claim_org_serialized (st : AppState) (token : TokenRow) (slug : string)
    : M ApiErr ClaimOrgResponse :=
  new_org_id ← with_txn (λ _, from_db_err) (run_script (claim_critical st token slug));
  record new_org_id token OrgClaim slug None;;
  mret (mk_claim_response slug true).

Definition claim_org (st : AppState) (headers : HeaderMap) (slug : string) : M ApiErr ClaimOrgResponse :=
  token ← require_token headers;
  if negb (is_slug slug)
  then fail (bad_request "invalid_slug" "org slugs are lowercase letters, digits, and hyphens")
  else
    existing ← db_q (on_db (read (find_org_by_slug slug)));
    match existing with
    | Some existing =>
        if bool_decide (token.(tok_org_id) = Some existing.(org_id))
        then mret (mk_claim_response slug false)
        else fail (org_taken slug)
    | None =>
        guard ← fiducia_org_claim_guard st token.(tok_id);
        outcome ← attempt (claim_org_serialized st token slug);
        release_fiducia_guard guard;;
        lift outcome
    end.
End orgs.
