(* ===== verification/Packages.v ===== *)
(** * Package metadata, yanking and signed indexes

    [src/routes/packages.rs], [src/routes/yank.rs] and
    [src/routes/mirrors.rs]. *)

From S2P Require Export Keys.

(** ** Documents *)

Record PackageMetadata := mk_package_metadata {
  pm_org : string;
  pm_name : string;
  pm_description : option string;
  pm_vcs : string;
  pm_repo_url : string;
  pm_version_scheme : string;
  pm_latest : option string;
  pm_tags : list string;
  pm_versions : list string;
  pm_mirrors : json;
  pm_signing_keys : list PublisherKey;
}.

Record YankResponse := mk_yank_response {
  yr_org : string;
  yr_name : string;
  yr_version : string;
  yr_yanked : bool;
}.

Record MirrorBootstrap := mk_bootstrap {
  mb_generated_at : string;
  mb_registry_url : string;
  mb_mirrors : list json;
}.

Record IndexAttestation := mk_index_attestation {
  ia_org : string;
  ia_name : string;
  ia_sequence : Z;
  ia_versions : list (string * bool);
  ia_mirrors : json;
}.

Record SignedIndex := mk_signed_index {
  si_schema : string;
  si_payload : IndexAttestation;
  si_signatures : list DetachedSignature;
}.

(** The interface crate's part. *)
Class PackageExternals := {
  (** [VcsKind]'s [FromStr] or its default, and
      [VersionScheme::from_str_lenient], as their names *)
  vcs_or_default : string → string;
  scheme_lenient : string → string;
  SIGNED_INDEX_SCHEMA_V1 : string;
  signed_index_from_value : json → option SignedIndex;
  signed_index_to_value : SignedIndex → result string json;
  index_validate : SignedIndex → result string unit;
  index_preimage : SignedIndex → result string string;
}.

(** ** Statements *)

Definition with_yanked (yanked : bool) (r : VersionRow) : VersionRow :=
  mk_version r.(ver_id) r.(ver_package_id) r.(ver_version) r.(ver_sha256) r.(ver_size) r.(ver_format)
    r.(ver_vcs_tag) r.(ver_vcs_commit) r.(ver_artifact_key) yanked r.(ver_published_at) r.(ver_mirrors)
    r.(ver_signatures).

(** [update] of the [yanked] column of one row, returning the row. *)
Definition update_yanked (id : uuid) (yanked : bool) (d : Db) : result DbErr (VersionRow * Db) :=
  match List.find (λ r, (r.(ver_id) =? id)%N) d.(versions) with
  | Some row =>
      Ok (with_yanked yanked row,
          set_versions (map (λ r, if (r.(ver_id) =? id)%N then with_yanked yanked r else r)) d)
  | None => Err DbOther
  end.

Definition with_index (stored : json) (sequence : Z) (r : PackageRow) : PackageRow :=
  mk_package r.(pkg_id) r.(pkg_org_id) r.(pkg_name) r.(pkg_description) r.(pkg_vcs)
    r.(pkg_repo_url) r.(pkg_version_scheme) r.(pkg_tags) r.(pkg_created_at) sequence (Some stored).

(** [update] of the [signed_index] and [index_sequence] columns of one row. *)
Definition update_index (id : uuid) (stored : json) (sequence : Z) (d : Db) : result DbErr (unit * Db) :=
  if existsb (λ r, (r.(pkg_id) =? id)%N) d.(packages)
  then Ok (tt, set_packages (map (λ r, if (r.(pkg_id) =? id)%N then with_index stored sequence r else r)) d)
  else Err DbOther.

(** [max_by_key]: the last of the maxima. *)
Definition newest (rows : list VersionRow) : option VersionRow :=
  fold_left (λ best r, match best with
                       | Some b => if r.(ver_published_at) <? b.(ver_published_at) then Some b else Some r
                       | None => Some r
                       end) rows None.

(** [position]: the index of the first equal candidate, [usize::MAX] without
    one. *)
Fixpoint position_aux (i : Z) (x : string) (l : list string) : Z :=
  match l with
  | [] => usize_max
  | y :: l => if y =s x then i else position_aux (i + 1) x l
  end.
Definition position : string → list string → Z := position_aux 0.

Section packages.
Context `{ext : Externals} `{web : WebExternals} `{sgn : SigningExternals} `{aext : AuditExternals}
  `{reg : RegistryExternals} `{pext : PackageExternals}.

(** The mirror set the newest publish declared. *)
Definition advertised_mirrors (rows : list VersionRow) : json :=
  default default_set (row ← newest rows; decode_mirrors row.(ver_mirrors)).

(** ** Reads *)

Definition get_package (org_slug name : string) : M ApiErr PackageMetadata :=
  org_row ← find_org org_slug;
  pkg ← find_package org_row name;
  rows ← db_q (on_db (read (versions_of pkg.(pkg_id))));
  let versions := visible_versions_desc rows in
  let tags := tags_of pkg in
  signing_keys ← attempt (load_keys org_row.(org_id));
  mret {|
    pm_org := org_slug;
    pm_name := name;
    pm_description := pkg.(pkg_description);
    pm_vcs := vcs_or_default pkg.(pkg_vcs);
    pm_repo_url := pkg.(pkg_repo_url);
    pm_version_scheme := scheme_lenient pkg.(pkg_version_scheme);
    pm_latest := head versions;
    pm_tags := tags;
    pm_versions := versions;
    pm_mirrors := advertised_mirrors rows;
    pm_signing_keys := match signing_keys with Ok l => l | Err _ => [] end |}.

Definition find_version (pkg : PackageRow) (ver : string) : M ApiErr VersionRow :=
  row ← db_q (on_db (read (find_version_row pkg.(pkg_id) ver)));
  lift (ok_or (not_found "version") row).

Definition get_version (st : AppState) (org_slug name ver : string) : M ApiErr VersionMetadata :=
  org_row ← find_org org_slug;
  pkg ← find_package org_row name;
  row ← find_version pkg ver;
  mret (version_metadata st org_slug name row).

(** [get_mirrors] and [get_bootstrap] have the same body. *)
Definition get_mirrors (st : AppState) : M ApiErr MirrorBootstrap :=
  t ← now;
  mret (mk_bootstrap (rfc3339 t) st.(public_base_url) st.(mirrors)).
Definition get_bootstrap (st : AppState) : M ApiErr MirrorBootstrap := get_mirrors st.

(** The index the server assembles: every version, in the order of precedence,
    under the stored sequence, unsigned. *)
Definition assembled_index (org_slug name : string) (pkg : PackageRow) (rows : list VersionRow)
    : SignedIndex :=
  let ordered := sort_desc (map ver_version rows) in
  let versions := order_by_asc (λ entry : string * bool, position entry.1 ordered)
                    (map (λ row, (row.(ver_version), row.(ver_yanked))) rows) in
  mk_signed_index SIGNED_INDEX_SCHEMA_V1
    (mk_index_attestation org_slug name (wrap_u64 (Z.max 1 pkg.(pkg_index_sequence))) versions
       (advertised_mirrors rows)) [].

Definition get_signed_index (org_slug name : string) : M ApiErr SignedIndex :=
  org_row ← find_org org_slug;
  pkg ← find_package org_row name;
  match stored ← pkg.(pkg_signed_index); signed_index_from_value stored with
  | Some document => mret document
  | None =>
      rows ← db_q (on_db (read (versions_of pkg.(pkg_id))));
      mret (assembled_index org_slug name pkg rows)
  end.

(** ** Mutations *)

Definition yank (org_slug name ver : string) (headers : HeaderMap) (yanked : bool) : M ApiErr YankResponse :=
  token ← require_token headers;
  org_row ← find_org org_slug;
  lift (authorize_publish token.(tok_org_id) (RoleImpl.parse token.(tok_role)) org_row.(org_id));;
  pkg ← find_package org_row name;
  row ← find_version pkg ver;
  updated ← db_q (on_db (update_yanked row.(ver_id) yanked));
  record org_row.(org_id) token (if updated.(ver_yanked) then Yank else Unyank)
    (org_slug +:+ "/" +:+ name +:+ "@" +:+ ver) None;;
  mret (mk_yank_response org_slug name ver updated.(ver_yanked)).

(** The checks on an uploaded index. *)
Definition check_index (org_slug name : string) (pkg : PackageRow) (keys : list PublisherKey)
    (document : SignedIndex) : ApiResult json :=
  preimage ← map_err (λ e, bad_request "invalid_index" ("cannot reconstruct the signed payload: " +:+ e))
    (index_preimage document);
  map_err (λ e, bad_request "signature_invalid" ("no enrolled key verifies this index: " +:+ e))
    (verify_any preimage document.(si_signatures) keys);;
  let sequence := document.(si_payload).(ia_sequence) in
  reject_if (sequence <? wrap_u64 (Z.max 0 pkg.(pkg_index_sequence)))
    (conflict "index_rollback" ("index sequence " +:+ dec_of_Z sequence +:+ " is older than the stored "
       +:+ dec_of_Z pkg.(pkg_index_sequence)));;
  map_err (λ e, bad_request "invalid_index" ("signed index is not encodable: " +:+ e))
    (signed_index_to_value document).

Definition put_signed_index (org_slug name : string) (headers : HeaderMap) (document : SignedIndex)
    : M ApiErr SignedIndex :=
  token ← require_token headers;
  org_row ← find_org org_slug;
  lift (authorize_publish token.(tok_org_id) (RoleImpl.parse token.(tok_role)) org_row.(org_id));;
  pkg ← find_package org_row name;
  lift (reject_if (negb (document.(si_payload).(ia_org) =s org_slug)
                   || negb (document.(si_payload).(ia_name) =s name))
    (bad_request "index_identity_mismatch"
       "the signed index names a different package than the route does"));;
  lift (map_err (λ e, bad_request "invalid_index" ("invalid signed index: " +:+ e))
    (index_validate document));;
  keys ← load_keys org_row.(org_id);
  encoded ← lift (check_index org_slug name pkg keys document);
  db_q (on_db (update_index pkg.(pkg_id) encoded (wrap_i64 document.(si_payload).(ia_sequence))));;
  mret document.
End packages.
