(* ===== verification/RegistryFacts.v ===== *)
(** * Theorems about the registry handlers

    Claiming a namespace, yanking a version and uploading a signed index, each
    between the background steps of other writers. *)

From S2P Require Export Orgs Packages PublishFacts.

(** ** Observations

    A step that at most lets the commits of others become visible. *)
Section observations.
Context `{ext : Externals} `{web : WebExternals} `{sgn : SigningExternals} `{aext : AuditExternals}.

Definition sees (w w' : World) : Prop :=
  txn w' = txn w ∧ objects w' = objects w ∧ background (db w) (db w').

#[export] Instance sees_preorder : PreOrder sees.
Proof.
  split; [intros w; repeat split; reflexivity|]. intros a b c (T1 & O1 & B1) (T2 & O2 & B2).
  repeat split; [congruence..|by etrans].
Qed.

Lemma sees_read {A} (f : Db → A) w r w' :
  on_db (read f) w = (r, w') → sees w w' ∧ (r = Ok (f (db w')) ∨ r = Err DbOther).
Proof.
  intros (_ & Ho & Ht & Hd & Hr)%on_db_read_inv. split; [|done]. repeat split; [done..|].
  rewrite Hd. apply background_others.
Qed.

Lemma sees_db_q {A} (f : Db → A) w r w' :
  db_q (on_db (read f)) w = (r, w') → sees w w' ∧ (r = Ok (f (db w')) ∨ r = Err from_db_err).
Proof.
  unfold db_q. intros (x & H & ->)%with_err_inv. apply sees_read in H as [Hs [-> | ->]]; auto.
Qed.

Lemma require_token_sees headers w r w' :
  require_token headers w = (r, w') →
  sees w w' ∧ ∀ row, r = Ok row → token_verdict headers (others_db (tick w) (db w)) (utc_now (S (tick w))) = Ok row.
Proof.
  intros (Ho & Ht & Hd & Hr)%require_token_run. split; [repeat split; [done..|]|].
  - destruct Hd as [-> | ->]; [done|apply background_others].
  - intros row ->. by destruct Hr as [<-|[[=] _]].
Qed.

(** A row looked up by a handler: found in the tables at that moment. *)
Lemma found_sees {A} (f : Db → option A) e w r w' :
  (x ← db_q (on_db (read f)); lift (ok_or e x)) w = (r, w') →
  sees w w' ∧ (∀ a, r = Ok a → f (db w') = Some a).
Proof.
  intros H. M_step H; apply sees_db_q in R as [Hs Hr]; [split; [done|]; by destruct Hr as [|[= ->]]|].
  destruct Hr as [[= ->]|]; [|done]. apply lift_inv in H as [-> ->]. split; [done|].
  intros b. destruct (f (db w0)); [|done]. by intros [= ->].
Qed.

Lemma find_org_sees slug w r w' :
  find_org slug w = (r, w') → sees w w' ∧ (∀ o, r = Ok o → find_org_by_slug slug (db w') = Some o).
Proof. apply found_sees. Qed.
Lemma find_package_sees o name w r w' :
  find_package o name w = (r, w') →
  sees w w' ∧ (∀ p, r = Ok p → find_package_by_name o.(org_id) name (db w') = Some p).
Proof. apply found_sees. Qed.
Lemma find_version_sees pkg v w r w' :
  find_version pkg v w = (r, w') →
  sees w w' ∧ (∀ x, r = Ok x → find_version_row pkg.(pkg_id) v (db w') = Some x).
Proof. apply found_sees. Qed.
Lemma load_keys_sees org w r w' :
  load_keys org w = (r, w') → sees w w' ∧ (∀ l, r = Ok l → l = stored_keys org (db w')).
Proof.
  intros H. unfold load_keys in H. apply sees_db_q in H as [Hs Hr]. split; [done|].
  intros l ->. by destruct Hr as [[= ->]|].
Qed.

(** The audit entry of a mutation. *)
Lemma record_sees org token action subject detail w r w' :
  record org token action subject detail w = (r, w') → txn w = None →
  txn w' = None ∧ objects w' = objects w ∧ background (db w) (db w').
Proof.
  intros H Ht. pose proof (record_background _ _ _ _ _ _ _ _ H Ht) as [? ?].
  split_and!; [done| |done]. by apply (record_objects _ _ _ _ _ _ _ _ H).
Qed.

(** One statement that commits by itself: the others' commits, then at most
    that statement. *)
Lemma on_db_step {A} (f : Db → result DbErr (A * Db)) w r w' :
  db_q (on_db f) w = (r, w') →
  txn w' = txn w ∧ objects w' = objects w ∧
  ((∃ d a, background (db w) d ∧ f d = Ok (a, db w') ∧ (r = Ok a ∨ ∃ e, r = Err e))
   ∨ (background (db w) (db w') ∧ ∃ e, r = Err e)).
Proof.
  unfold db_q. intros (x & H & ->)%with_err_inv. pose proof (background_others (tick w) (db w)) as Hb.
  apply on_db_inv in H as (_ & Ho & Ht & H). split; [done|]. split; [done|].
  destruct H as [(a & d' & Hf & -> & <-)|(e & -> & Hd & _)].
  - left. exists (others_db (tick w) (db w)), a. by eauto.
  - destruct Hd as [Hd|(_ & a & Hf)].
    + right. rewrite Hd. split; [done|]. by eexists.
    + left. exists (others_db (tick w) (db w)), a. split; [done|]. split; [done|]. right. by eexists.
Qed.
End observations.

(** ** Yanking *)

Section yank.
Context `{ext : Externals} `{web : WebExternals} `{sgn : SigningExternals} `{aext : AuditExternals}
  `{reg : RegistryExternals} `{pext : PackageExternals}.

(** Somewhere on the way from [d], as the other writers went on. *)
Definition seen (d : Db) (P : Db → Prop) : Prop := ∃ d', background d d' ∧ P d'.

Lemma seen_now (d d' : Db) (P : Db → Prop) : background d d' → P d' → seen d P.
Proof. intros H HP. by exists d'. Qed.

(** The authority and the row of a mutation of a published version. *)
Definition may_change (d : Db) (headers : HeaderMap) (org_slug name : string) (token : TokenRow)
    (org : OrgRow) (pkg : PackageRow) : Prop :=
  seen d (λ d, ∃ t, token_verdict headers d t = Ok token) ∧ may_publish token org.(org_id) ∧
  seen d (λ d, find_org_by_slug org_slug d = Some org) ∧
  seen d (λ d, find_package_by_name org.(org_id) name d = Some pkg).

Lemma authorize_publish_Ok token org :
  authorize_publish (tok_org_id token) (RoleImpl.parse (tok_role token)) org = Ok tt → may_publish token org.
Proof.
  unfold authorize_publish, may_publish. destruct (tok_org_id token) as [scope|]; [|by left].
  destruct (scope =? org)%N eqn:E; [|done]. apply N.eqb_eq in E as ->. cbn [negb].
  intros H. right. split; [done|]. unfold RoleImpl.parse in H.
  destruct (tok_role token =s "owner") eqn:E1; [left; by apply String.eqb_eq|].
  destruct (tok_role token =s "publisher") eqn:E2; [right; by apply String.eqb_eq|].
  by destruct (tok_role token =s "reader").
Qed.

(** The common beginning of the two handlers. *)
Lemma authority_sees {A} headers org_slug name (k : TokenRow → OrgRow → PackageRow → M ApiErr A) w r w' :
  (token ← require_token headers;
   org_row ← find_org org_slug;
   lift (authorize_publish token.(tok_org_id) (RoleImpl.parse token.(tok_role)) org_row.(org_id));;
   pkg ← find_package org_row name;
   k token org_row pkg) w = (r, w') →
  (sees w w' ∧ ∃ e, r = Err e) ∨
  ∃ token org pkg w1, sees w w1 ∧ may_change (db w) headers org_slug name token org pkg ∧
    k token org pkg w1 = (r, w').
Proof.
  intros H. M_step H; apply require_token_sees in R as [S1 Hv]; [left; by eauto|].
  M_step H; apply find_org_sees in R as [S2 Ho]; [left; split; [by etrans|by eauto]|].
  M_step H; apply lift_inv in R as [Hauth ->]; [left; split; [by etrans|by eauto]|].
  destruct a1. symmetry in Hauth. apply authorize_publish_Ok in Hauth.
  M_step H; apply find_package_sees in R as [S3 Hp];
    [left; split; [etrans; [|exact S3]; by etrans|by eauto]|].
  assert (sees w w2) as S by (etrans; [|exact S3]; by etrans).
  right. exists a, a0, a1, w2. split; [done|]. split; [|done].
  assert (background (db w) (db w1)) as B by (by etrans; [apply S1|apply S2]).
  split; [|split; [done|split]].
  - eapply seen_now; [apply (background_others (tick w))|]. eexists. by apply Hv.
  - eapply seen_now; [exact B|]. by apply Ho.
  - eapply seen_now; [apply S|]. by apply Hp.
Qed.

Lemma yank_run org_slug name ver headers yanked w r w' :
  txn w = None → yank org_slug name ver headers yanked w = (r, w') →
  txn w' = None ∧ objects w' = objects w ∧
  ((background (db w) (db w') ∧ ∃ e, r = Err e)
   ∨ ∃ token org pkg row updated d d',
       may_change (db w) headers org_slug name token org pkg ∧
       seen (db w) (λ d, find_version_row pkg.(pkg_id) ver d = Some row) ∧
       background (db w) d ∧ update_yanked row.(ver_id) yanked d = Ok (updated, d') ∧
       background d' (db w') ∧
       ∀ resp, r = Ok resp → resp = mk_yank_response org_slug name ver yanked).
Proof.
  intros Ht H. unfold yank in H.
  apply authority_sees in H as [[S He]|(token & org & pkg & w1 & S & Hm & H)].
  { destruct S as (T & O & B). split; [congruence|]. split; [done|]. by left. }
  M_step H; apply find_version_sees in R as [S2 Hr].
  { assert (sees w w') as (T & O & B) by (by etrans). split; [congruence|]. split; [done|]. left. by eauto. }
  assert (sees w w0) as (T & O & B) by (by etrans).
  M_step H; apply on_db_step in R as (T2 & O2 & R).
  - split; [congruence|]. split; [congruence|]. destruct R as [(d & x & Bd & Hu & _)|[Bd _]].
    + right. exists token, org, pkg, a, x, d, (db w'). split; [done|].
      split; [eapply seen_now; [exact B|by apply Hr]|]. split; [by etrans|]. by split; [|split].
    + left. split; [by etrans|by eauto].
  - destruct R as [(d & x & Bd & Hu & [[= ->]|[? [=]]])|[_ [? [=]]]].
    assert (ver_yanked x = yanked) as Hy.
    { unfold update_yanked in Hu. destruct (List.find _ _); [|done]. by injection Hu as <- _. }
    M_step H; (destruct (record_sees _ _ _ _ _ _ _ _ R) as (T3 & O3 & B3); [congruence|]).
    + split; [done|]. split; [congruence|]. right. exists token, org, pkg, a, x, d, (db w2).
      split; [done|]. split; [eapply seen_now; [exact B|by apply Hr]|]. split; [by etrans|]. by split; [|split].
    + apply mret_inv in H as [-> ->]. split; [done|]. split; [congruence|].
      right. exists token, org, pkg, a, x, d, (db w2).
      split; [done|]. split; [eapply seen_now; [exact B|by apply Hr]|]. split; [by etrans|].
      split; [done|]. split; [done|]. intros resp [= <-]. by rewrite Hy.
Qed.

(** C19: yanking flips one flag, with authority. Whatever the database and
    concurrent writers do, a request to yank or restore either fails and
    changes nothing, or it was made by a live token that may publish in the
    organization, and between background steps there is exactly one step: the
    [yanked] flag of the version the route names takes the requested value,
    which a success reports. The object store is never touched. *)
Theorem yank_spec org_slug name ver headers yanked w r w' :
  txn w = None → yank org_slug name ver headers yanked w = (r, w') →
  txn w' = None ∧ objects w' = objects w ∧
  ((background (db w) (db w') ∧ ∃ e, r = Err e)
   ∨ ∃ token org pkg row updated d d',
       may_change (db w) headers org_slug name token org pkg ∧
       seen (db w) (λ d, find_version_row pkg.(pkg_id) ver d = Some row) ∧
       background (db w) d ∧ update_yanked row.(ver_id) yanked d = Ok (updated, d') ∧
       background d' (db w') ∧
       ∀ resp, r = Ok resp → resp = mk_yank_response org_slug name ver yanked).
Proof. apply yank_run. Qed.
End yank.

(** ** Uploading a signed index *)

Section signed_index.
Context `{ext : Externals} `{web : WebExternals} `{sgn : SigningExternals} `{aext : AuditExternals}
  `{reg : RegistryExternals} `{pext : PackageExternals}.

Lemma check_index_Ok org_slug name pkg keys document encoded :
  check_index org_slug name pkg keys document = Ok encoded →
  (∃ preimage k, index_preimage document = Ok preimage ∧
     verify_any preimage document.(si_signatures) keys = Ok k) ∧
  wrap_u64 (Z.max 0 pkg.(pkg_index_sequence)) ≤ document.(si_payload).(ia_sequence).
Proof.
  unfold check_index. destruct (index_preimage document) as [pre|]; cbn; [|done].
  destruct (verify_any pre (si_signatures document) keys) as [k|] eqn:Ev; cbn; [|done].
  destruct (_ <? _) eqn:Es; cbn; [done|]. bool_to_prop. intros _. split; [by exists pre, k|done].
Qed.

(** The one step an upload may take, from tables [d] that the tables [d0] at its
    start have become. *)
Definition index_step (d0 : Db) (org_slug name : string) (headers : HeaderMap) (document : SignedIndex)
    (d d' : Db) : Prop :=
  ∃ token org pkg keys encoded,
    may_change d0 headers org_slug name token org pkg ∧
    document.(si_payload).(ia_org) = org_slug ∧ document.(si_payload).(ia_name) = name ∧
    seen d0 (λ d, keys = stored_keys org.(org_id) d) ∧
    (∃ preimage k, index_preimage document = Ok preimage ∧
       verify_any preimage document.(si_signatures) keys = Ok k) ∧
    wrap_u64 (Z.max 0 pkg.(pkg_index_sequence)) ≤ document.(si_payload).(ia_sequence) ∧
    update_index pkg.(pkg_id) encoded (wrap_i64 document.(si_payload).(ia_sequence)) d = Ok (tt, d').

Lemma put_signed_index_run org_slug name headers document w r w' :
  put_signed_index org_slug name headers document w = (r, w') →
  txn w' = txn w ∧ objects w' = objects w ∧
  ((background (db w) (db w') ∧ ∃ e, r = Err e)
   ∨ ∃ d, background (db w) d ∧ index_step (db w) org_slug name headers document d (db w') ∧
       ∀ resp, r = Ok resp → resp = document).
Proof.
  intros H. unfold put_signed_index in H.
  assert (∀ v e, sees w v → r = Err e → w' = v → txn w' = txn w ∧ objects w' = objects w ∧
    ((background (db w) (db w') ∧ ∃ e, r = Err e)
     ∨ ∃ d, background (db w) d ∧ index_step (db w) org_slug name headers document d (db w') ∧
       ∀ resp, r = Ok resp → resp = document)) as Hfail.
  { intros v e (T & O & B) -> ->. split; [done|]. split; [done|]. left. by eauto. }
  apply authority_sees in H as [[S [e He]]|(token & org & pkg & w1 & S & Hm & H)]; [by eapply Hfail|].
  M_step H; apply lift_inv in R as [Hid ->]; [by eapply Hfail|].
  M_step H; apply lift_inv in R as [Hval ->]; [by eapply Hfail|].
  M_step H; apply load_keys_sees in R as [S2 Hk]; [eapply Hfail; [by etrans|done..]|].
  assert (sees w w0) as S0 by (by etrans). pose proof S0 as (T & O & B).
  M_step H; apply lift_inv in R as [Hc ->]; [by eapply Hfail|].
  destruct (negb _ || negb _) eqn:Eid; [done|]. apply orb_false_iff in Eid as [E1 E2]. bool_to_prop.
  symmetry in Hc. apply check_index_Ok in Hc as [Hver Hseq].
  assert (∀ d, update_index (pkg_id pkg) a2 (wrap_i64 (ia_sequence (si_payload document))) d = Ok (tt, db w') →
    index_step (db w) org_slug name headers document d (db w')) as Hstep.
  { intros d Hu. exists token, org, pkg, a1, a2. split; [done|]. split; [done|]. split; [done|].
    split; [eapply seen_now; [exact B|by apply Hk]|]. by split; [|split]. }
  M_step H; apply on_db_step in R as (T2 & O2 & R); [|apply mret_inv in H as [-> ->]];
    (split; [congruence|]); (split; [congruence|]).
  - destruct R as [(d & [] & Bd & Hu & _)|[Bd _]]; [right|left; split; [by etrans|by eauto]].
    exists d. split; [by etrans|]. by split; [apply Hstep|].
  - destruct R as [(d & [] & Bd & Hu & _)|[_ [? [=]]]]. right.
    exists d. split; [by etrans|]. split; [by apply Hstep|]. by intros resp [= <-].
Qed.

(** An index is stored only when a key of the organization signed it. Whatever
    the database and concurrent writers do, an upload either fails and changes
    nothing, or it was made by a live token that may publish in the
    organization, names the package of the route, verifies under a key enrolled
    in the organization, has a sequence no lower than the one the handler read,
    and after background steps there is exactly one step: the package's index
    and sequence are replaced. *)
Theorem put_signed_index_spec org_slug name headers document w r w' :
  put_signed_index org_slug name headers document w = (r, w') →
  txn w' = txn w ∧ objects w' = objects w ∧
  ((background (db w) (db w') ∧ ∃ e, r = Err e)
   ∨ ∃ d, background (db w) d ∧ index_step (db w) org_slug name headers document d (db w') ∧
       ∀ resp, r = Ok resp → resp = document).
Proof. apply put_signed_index_run. Qed.
End signed_index.

(** ** Claiming a namespace *)

Section claim.
Context `{ext : Externals} `{web : WebExternals} `{aext : AuditExternals} `{oext : OrgExternals}.

(** A script that only reads so far. *)
Lemma run_read {A B} (g : Db → B) (k : result DbErr B → Script A) w r w' d :
  txn w = Some d → run_script (Run (read g) k) w = (r, w') →
  ∃ x w1 d1, db w1 = db w ∧ objects w1 = objects w ∧ background d d1 ∧ txn w1 = Some d1 ∧
    run_script (k x) w1 = (r, w').
Proof.
  intros Ht H. cbn [run_script] in H. M_step H; [by apply attempt_inv in R as (? & [=] & _)|].
  apply attempt_inv in R as (x & [= ->] & R).
  apply (in_txn_rc_step _ _ _ _ _ Ht) in R as (D & O & d0 & d1 & B1 & T & Hd & _).
  exists x, w0, d1. split; [done|]. split; [done|]. split; [|done].
  destruct Hd as [->|(a & _ & [= _ <-])]; done.
Qed.

(** What the transaction of a claim comes to: nothing, or one insertion. *)
Definition claimed (token : TokenRow) (slug : string) (d : Db) (w : World) (r : ApiResult uuid) (w' : World) : Prop :=
  db w' = db w ∧ objects w' = objects w ∧
  ∀ id, r = Ok id → ∃ t d0 d', background d d0 ∧
    insert_org (mk_org id slug t (Some token.(tok_id))) d0 = Ok (tt, d') ∧ txn w' = Some d'.

Lemma claimed_from token slug d d1 w w1 r w' :
  db w1 = db w → objects w1 = objects w → background d d1 →
  claimed token slug d1 w1 r w' → claimed token slug d w r w'.
Proof.
  intros D O B (D1 & O1 & H). split; [congruence|]. split; [congruence|]. intros id Hid.
  destruct (H id Hid) as (t & d0 & d' & B0 & Hi & Ht). exists t, d0, d'. split; [by etrans|done].
Qed.

Lemma claimed_err token slug d w e w' :
  db w' = db w → objects w' = objects w → claimed token slug d w (Err e) w'.
Proof. by intros. Qed.

Lemma claim_insert_run token slug w r w' d :
  txn w = Some d → run_script (claim_insert token slug) w = (r, w') → claimed token slug d w r w'.
Proof.
  intros Ht H. unfold claim_insert in H. cbn [mbind script_mbind script_bind fresh run_script] in H.
  M_step H; apply uuid_v4_inv in R as ([=] & _ & O1 & D1 & T1).
  M_step H; apply now_inv in R as ([=] & _ & O2 & D2 & T2).
  cbn [try_statement script_bind run_script] in H.
  M_step H; [by apply attempt_inv in R as (? & [=] & _)|].
  apply attempt_inv in R as (x & [= ->] & R).
  apply (in_txn_rc_step _ _ _ _ d) in R as (D3 & O3 & d0 & d1 & B & T3 & _ & Hx); [|congruence].
  destruct x as [[]|[]]; apply lift_inv in H as [-> ->]; [|apply claimed_err; congruence..].
  split; [congruence|]. split; [congruence|]. intros id [= <-]. exists a0, d0, d1. subst. by split; [|split; [by apply Hx|]].
Qed.

Lemma claim_quota_run {A} st token (s : Script A) w r w' d :
  txn w = Some d → run_script (claim_quota st token;; s) w = (r, w') →
  ∃ w1 d1, db w1 = db w ∧ objects w1 = objects w ∧ background d d1 ∧ txn w1 = Some d1 ∧
    ((∃ e, r = Err e ∧ w' = w1) ∨ run_script s w1 = (r, w')).
Proof.
  intros Ht H. unfold claim_quota in H. destruct (is_some (tok_org_id token)); [|exists w, d; by split_and!; [..|right]].
  apply (run_read _ _ _ _ _ d Ht) in H as (x & w1 & d1 & D & O & B & T & H). exists w1, d1. do 4 (split; [done|]).
  destruct x as [n|e]; cbn in H; [|apply lift_inv in H as [-> ->]; by eauto].
  destruct (_ <=? n); cbn in H; [apply lift_inv in H as [-> ->]; by eauto|by right].
Qed.

Lemma claim_critical_run st token slug w r w' d :
  txn w = Some d → run_script (claim_critical st token slug) w = (r, w') → claimed token slug d w r w'.
Proof.
  intros Ht H. unfold claim_critical in H.
  assert (∀ w1 d1, txn w1 = Some d1 → run_script (claim_quota st token;; claim_insert token slug) w1 = (r, w') →
    claimed token slug d1 w1 r w') as Hrest.
  { intros w1 d1 T1 H1. apply (claim_quota_run _ _ _ _ _ _ _ T1) in H1 as (w2 & d2 & D & O & B & T2 & H2).
    eapply claimed_from; [exact D|exact O|exact B|].
    destruct H2 as [(e & -> & ->)|H2]; [by apply claimed_err|by apply claim_insert_run]. }
  destruct is_postgres; [|by apply Hrest].
  apply (run_read _ _ _ _ _ d Ht) in H as (x & w1 & d1 & D & O & B & T & H).
  eapply claimed_from; [exact D|exact O|exact B|].
  destruct x as [[]|e]; cbn in H; [by apply Hrest|apply lift_inv in H as [-> ->]; by apply claimed_err].
Qed.

(** The one step a claim may take. *)
Definition claim_step (headers : HeaderMap) (slug : string) (d0 d d' : Db) : Prop :=
  ∃ token id t, seen d0 (λ d, ∃ t, token_verdict headers d t = Ok token) ∧ is_slug slug = true ∧
    seen d0 (λ d, find_org_by_slug slug d = None) ∧
    insert_org (mk_org id slug t (Some token.(tok_id))) d = Ok (tt, d').

Definition anything (d d' : Db) : Prop := True.
#[local] Instance anything_preorder : PreOrder anything.
Proof. by split. Qed.

Lemma script_txn {A} (s : Script A) : respects (txn_rel anything) (run_script s).
Proof. induction s; cbn [run_script]; respects_tac; try (apply in_txn_rc_rel; done || typeclasses eauto); auto. Qed.

Lemma claim_serialized_run st token slug w r w' :
  txn w = None → claim_org_serialized st token slug w = (r, w') →
  txn w' = None ∧ objects w' = objects w ∧
  ((background (db w) (db w') ∧ ∃ e, r = Err e) ∨
   ∃ id t d d', background (db w) d ∧ insert_org (mk_org id slug t (Some token.(tok_id))) d = Ok (tt, d') ∧
     background d' (db w') ∧ ∀ resp, r = Ok resp → resp = mk_claim_response slug true).
Proof.
  intros Ht H. unfold claim_org_serialized in H. set (s := claim_critical st token slug) in *.
  assert (∀ (v : ApiResult uuid) v', with_txn (λ _, from_db_err) (run_script s) w = (v, v') →
    txn v' = None ∧ objects v' = objects w) as Hq.
  { intros v v' Hv. split; [by apply (with_txn_rel anything (λ _ _, I) _ _ (script_txn s) _ _ _ Hv)|].
    revert Hv. enough (respects objects_quiet (with_txn (λ _ : DbErr, from_db_err) (run_script s))) as Hr
      by (intros Hv; by apply (Hr _ _ _ Hv)). unfold with_txn. respects_tac. }
  pose proof (background_others (tick w) (db w)) as Hb.
  M_step H; destruct (Hq _ _ R) as [T O]; apply with_txn_inv in R.
  - split; [done|]. split; [done|].
    destruct R as [[-> _]|(w1 & x & w2 & T1 & D1 & Hc & R)]; [left; by eauto|].
    apply (claim_critical_run _ _ _ _ _ _ _ T1) in Hc as (D2 & _ & Hi).
    destruct R as [(id & -> & Hd & _)|(e' & -> & _ & ->)]; [|left; rewrite D2, D1; by eauto].
    destruct (Hi id eq_refl) as (t & d0 & d' & B0 & Hins & T2).
    destruct Hd as [Hd|Hd]; [left; rewrite Hd, D2, D1; by eauto|].
    rewrite T2 in Hd. injection Hd as Hd.
    right. exists id, t, d0, d'. split; [by etrans|]. split; [done|]. rewrite Hd. by split.
  - destruct R as [[_ Hno]|(w1 & x & w2 & T1 & D1 & Hc & R)]; [by exfalso; eapply Hno|].
    apply (claim_critical_run _ _ _ _ _ _ _ T1) in Hc as (D2 & _ & Hi).
    destruct R as [(id & -> & _ & Hok)|(e' & _ & [=] & _)].
    destruct (Hok a eq_refl) as [-> Hd].
    destruct (Hi id eq_refl) as (t & d0 & d' & B0 & Hins & T2). rewrite T2 in Hd. injection Hd as ->.
    M_step H; (destruct (record_sees _ _ _ _ _ _ _ _ R) as (T3 & O3 & B3); [done|]).
    + split; [done|]. split; [congruence|]. right. exists id, t, d0, (db w0). split; [by etrans|]. by repeat split.
    + apply mret_inv in H as [-> ->]. split; [done|]. split; [congruence|]. right.
      exists id, t, d0, (db w0). split; [by etrans|]. repeat split; try done. by intros resp [= <-].
Qed.

Lemma release_run guard w r w' :
  release_fiducia_guard guard w = (r, w') →
  r = Ok tt ∧ db w' = db w ∧ objects w' = objects w ∧ txn w' = txn w.
Proof. unfold release_fiducia_guard. by destruct guard; intros [= <- <-]. Qed.

Lemma claim_org_run st headers slug w r w' :
  txn w = None → claim_org st headers slug w = (r, w') →
  txn w' = None ∧ objects w' = objects w ∧
  ((background (db w) (db w') ∧
    ∀ resp, r = Ok resp → resp = mk_claim_response slug false ∧
      ∃ token org, seen (db w) (λ d, ∃ t, token_verdict headers d t = Ok token) ∧
        find_org_by_slug slug (db w') = Some org ∧ token.(tok_org_id) = Some org.(org_id)) ∨
   ∃ d d', background (db w) d ∧ claim_step headers slug (db w) d d' ∧ background d' (db w') ∧
     ∀ resp, r = Ok resp → resp = mk_claim_response slug true).
Proof.
  intros Ht H. unfold claim_org in H.
  M_step H; apply require_token_sees in R as [S1 Hv].
  { destruct S1 as (T & O & B). split; [congruence|]. split; [done|]. left. by split. }
  pose proof S1 as (T1 & O1 & B1). specialize (Hv _ eq_refl).
  assert (seen (db w) (λ d, ∃ t, token_verdict headers d t = Ok a)) as Hlive
    by (eapply seen_now; [apply (background_others (tick w))|eauto]).
  destruct (is_slug slug) eqn:Eslug; cbn [negb] in H.
  2:{ apply fail_inv in H as [-> ->]. split; [congruence|]. split; [done|]. left. by split. }
  M_step H; apply sees_db_q in R as [S2 Hf].
  { assert (sees w w') as (T & O & B) by (by etrans). split; [congruence|]. split; [done|]. left. by split. }
  destruct Hf as [[= ->]|[=]]. assert (sees w w1) as S by (by etrans). pose proof S as (T2 & O2 & B2).
  destruct (find_org_by_slug slug (db w1)) as [org|] eqn:Ef.
  - case_bool_decide as Eo; [apply mret_inv in H as [-> ->]|apply fail_inv in H as [-> ->]];
      (split; [congruence|]); (split; [done|]); left; (split; [done|]); [|done].
    intros resp [= <-]. split; [done|]. by exists a, org.
  - assert (∀ (m : M ApiErr bool) v x v', m = fiducia_org_claim_guard st (tok_id a) → m v = (x, v') →
      db v' = db v ∧ objects v' = objects v ∧ txn v' = txn v) as Hg.
    { intros m v x v' ->. unfold fiducia_org_claim_guard. by destruct (fiducia st); intros [= _ <-]. }
    M_step H; apply (Hg _ _ _ _ eq_refl) in R as (D3 & O3 & T3).
    { split; [congruence|]. split; [congruence|]. left. rewrite D3. by split. }
    M_step H; [by apply attempt_inv in R as (? & [=] & _)|].
    apply attempt_inv in R as (x & [= ->] & R). apply claim_serialized_run in R as (T4 & O4 & R); [|congruence].
    assert (db w' = db w3 ∧ objects w' = objects w3 ∧ txn w' = txn w3 ∧ r = x) as (D5 & O5 & T5 & ->).
    { M_step H; apply release_run in R0 as ([=] & ? & ? & ?). by apply lift_inv in H as [-> ->]. }
    rewrite D5, O5, T5. split; [done|]. split; [congruence|]. rewrite D3 in R.
    destruct R as [[B3 [e ->]]|(id & t & d & d' & B3 & Hi & B4 & Hr)].
    + left. split; [by etrans|done].
    + right. exists d, d'. split; [by etrans|]. split; [|by split].
      exists a, id, t. repeat split; try done. by eapply seen_now.
Qed.

(** *** What claims maintain *)

Lemma insert_org_inv row d d' :
  insert_org row d = Ok (tt, d') →
  orgs d' = (orgs d ++ [row])%list ∧ (row.(org_slug) ∉ (org_slug <$> orgs d)) ∧ audits d' = audits d ∧
  packages d' = packages d ∧ versions d' = versions d ∧ tokens d' = tokens d ∧ keys d' = keys d.
Proof.
  unfold insert_org. destruct (existsb _ _) eqn:E; [done|]. intros [= <-]. cbn. split; [done|].
  split; [|done]. intros (r & Hr & Hin)%list_elem_of_fmap. apply not_true_iff_false in E.
  apply E, existsb_exists. exists r. split; [by apply list_elem_of_In|]. rewrite Hr, String.eqb_refl.
  apply orb_true_r.
Qed.

(** No namespace is lost or rewritten, and none gets a second owner. *)
Definition namespaces_kept (d d' : Db) : Prop :=
  (∀ o, o ∈ orgs d → o ∈ orgs d') ∧ (NoDup (org_slug <$> orgs d) → NoDup (org_slug <$> orgs d')).

#[export] Instance namespaces_preorder : PreOrder namespaces_kept.
Proof. split; [by split|]. intros a b c [H1 U1] [H2 U2]. split; auto. Qed.

Lemma insert_org_kept row d d' : insert_org row d = Ok (tt, d') → namespaces_kept d d'.
Proof.
  intros (Ho & Hf & _)%insert_org_inv. split.
  - intros o Hin. rewrite Ho. apply elem_of_app. by left.
  - intros Hn. rewrite Ho, fmap_app. apply NoDup_app. split; [done|]. split; [|apply NoDup_singleton].
    by intros x Hx ->%list_elem_of_singleton.
Qed.

(** C17: a namespace has one owner. Whatever concurrent claims and database faults
    do, a claim never removes, rewrites or duplicates a namespace, and when it
    reports one as created, the slug is well formed and the namespace exists,
    made by the caller's token; when it reports one as already claimed, the
    organization the tables hold under that slug is the one the caller's token
    is scoped to. *)
Theorem claim_org_exclusive st headers slug w r w' :
  (∀ t d, namespaces_kept d (others_db t d)) →
  txn w = None → claim_org st headers slug w = (r, w') →
  namespaces_kept (db w) (db w') ∧
  ∀ resp, r = Ok resp → resp.(co_slug) = slug ∧
    ∃ token org, seen (db w) (λ d, ∃ t, token_verdict headers d t = Ok token) ∧
      if (resp.(co_created) : bool)
      then is_slug slug = true ∧ org ∈ orgs (db w') ∧ org.(org_slug) = slug ∧
        org.(org_created_by_token) = Some token.(tok_id)
      else find_org_by_slug slug (db w') = Some org ∧ token.(tok_org_id) = Some org.(org_id).
Proof.
  intros rely Ht H. assert (∀ d d', background d d' → namespaces_kept d d') as Hbg
    by (apply background_ind_rel; [typeclasses eauto|exact rely|by split]).
  apply claim_org_run in H as (_ & _ & H); [|done].
  destruct H as [[B Hr]|(d & d' & B1 & Hs & B2 & Hr)].
  - split; [by apply Hbg|]. intros resp Hx. destruct (Hr _ Hx) as (-> & token & org & Hl & Hf & He).
    split; [done|]. by exists token, org.
  - destruct Hs as (token & id & t & Hl & Hsl & _ & Hi). split.
    + etrans; [by apply Hbg|]. etrans; [by eapply insert_org_kept|by apply Hbg].
    + intros resp Hx. rewrite (Hr _ Hx). split; [done|].
      exists token, (mk_org id slug t (Some token.(tok_id))). split; [done|]. cbn.
      split; [done|]. split; [|by split]. apply (Hbg _ _ B2). apply insert_org_inv in Hi as (-> & _).
      apply elem_of_app. right. by apply list_elem_of_singleton.
Qed.
End claim.
