(* ===== verification/ClaimPool.v ===== *)
(** * Concurrent claims ([src/routes/orgs.rs])

    Any number of claims at once, in any number of replicas: the transactions of
    [Orgs], statement by statement under READ COMMITTED, with PostgreSQL's
    advisory locks between them. What makes the count of a token's claims and
    the insertion one critical section is the lock, and nothing else here. *)

From S2P Require Export RegistryFacts.

(** What a successful statement writes. *)
Definition effect {B} (f : Db → result DbErr (B * Db)) (d : Db) : option Db :=
  match f d with Ok (_, d') => Some d' | Err _ => None end.

Definition replay (writes : list (Db → option Db)) (d : Db) : option Db :=
  foldl (λ view f, view ≫= f) (Some d) writes.

(** An open transaction: the claim it is for, what its statements wrote, and
    what is left of its script. *)
Record Claim := mk_claim {
  cl_token : TokenRow;
  cl_slug : string;
  cl_writes : list (Db → option Db);
  cl_script : Script uuid;
}.

Definition continue (c : Claim) (writes : list (Db → option Db)) (s : Script uuid) : Claim :=
  mk_claim c.(cl_token) c.(cl_slug) (c.(cl_writes) ++ writes)%list s.

(** The tables as committed, the open transactions, and who holds which lock. *)
Record Pool := mk_pool {
  committed : Db;
  running : gmap nat Claim;
  held : gmap Z nat;
}.

(** The next statement is answered: it sees what is committed and what its own
    transaction wrote. *)
Definition answer_statement (d : Db) (c : Claim) : option Claim :=
  match c.(cl_script) with
  | Run f k =>
      view ← replay c.(cl_writes) d;
      Some match f view with
           | Ok (b, _) => continue c [effect f] (k (Ok b))
           | Err e => continue c [] (k (Err e))
           end
  | _ => None
  end.

(** The connection fails instead. *)
Definition lose_statement (c : Claim) : option Claim :=
  match c.(cl_script) with
  | Lock _ k => Some (continue c [] (k (Err DbOther)))
  | Run _ k => Some (continue c [] (k (Err DbOther)))
  | _ => None
  end.

Definition release (i : nat) : gmap Z nat → gmap Z nat := filter (λ e, e.2 ≠ i).

Section pool.
Context `{ext : Externals} `{oext : OrgExternals}.
Variable st : AppState.
(** The tokens that claims authenticate with. *)
Variable may_claim : TokenRow → Prop.

(** PostgreSQL makes the second inserter of a slug wait for the first; here it
    finds the row no later than at its commit, which then does not happen. *)
Inductive pool_step (p : Pool) : Pool → Prop :=
| claim_begins i token slug :
    p.(running) !! i = None → may_claim token →
    pool_step p (mk_pool p.(committed) (<[i := mk_claim token slug [] (claim_critical st token slug)]> p.(running)) p.(held))
| claim_locks i c n k :
    p.(running) !! i = Some c → c.(cl_script) = Lock n k →
    p.(held) !! n = None ∨ p.(held) !! n = Some i →
    pool_step p (mk_pool p.(committed) (<[i := continue c [] (k (Ok tt))]> p.(running)) (<[n := i]> p.(held)))
| claim_sends i c c' :
    p.(running) !! i = Some c → answer_statement p.(committed) c = Some c' →
    pool_step p (mk_pool p.(committed) (<[i := c']> p.(running)) p.(held))
| claim_loses i c c' :
    p.(running) !! i = Some c → lose_statement c = Some c' →
    pool_step p (mk_pool p.(committed) (<[i := c']> p.(running)) p.(held))
| claim_draws i c k id t :
    p.(running) !! i = Some c → c.(cl_script) = Draw k →
    pool_step p (mk_pool p.(committed) (<[i := continue c [] (k id t)]> p.(running)) p.(held))
| claim_commits i c id d :
    p.(running) !! i = Some c → c.(cl_script) = Finish (Ok id) → replay c.(cl_writes) p.(committed) = Some d →
    pool_step p (mk_pool d (delete i p.(running)) (release i p.(held)))
  (** a refusal, a crash, a commit that fails: the transaction rolls back *)
| claim_ends i c :
    p.(running) !! i = Some c →
    pool_step p (mk_pool p.(committed) (delete i p.(running)) (release i p.(held)))
  (** any other request: claims alone make namespaces *)
| others_commit d :
    (∀ t, claimed_by t d = claimed_by t p.(committed)) →
    pool_step p (mk_pool d p.(running) p.(held)).

(** A schedule: whose turn it is, and what happens. *)
Inductive Turn : Type :=
| Begins (i : nat) (token : TokenRow) (slug : string)
| Locks (i : nat)
| Answered (i : nat)
| Draws (i : nat) (id : uuid) (t : instant)
| Commits (i : nat)
| Ends (i : nat).

(** [None] when it cannot happen now: the lock is held, another statement is
    next. *)
Definition take_turn (turn : Turn) (p : Pool) : option Pool :=
  match turn with
  | Begins i token slug =>
      if is_some (p.(running) !! i) then None
      else Some (mk_pool p.(committed) (<[i := mk_claim token slug [] (claim_critical st token slug)]> p.(running)) p.(held))
  | Locks i =>
      c ← p.(running) !! i;
      match c.(cl_script) with
      | Lock n k =>
          if bool_decide (p.(held) !! n = None ∨ p.(held) !! n = Some i)
          then Some (mk_pool p.(committed) (<[i := continue c [] (k (Ok tt))]> p.(running)) (<[n := i]> p.(held)))
          else None
      | _ => None
      end
  | Answered i =>
      c ← p.(running) !! i;
      c' ← answer_statement p.(committed) c;
      Some (mk_pool p.(committed) (<[i := c']> p.(running)) p.(held))
  | Draws i id t =>
      c ← p.(running) !! i;
      match c.(cl_script) with
      | Draw k => Some (mk_pool p.(committed) (<[i := continue c [] (k id t)]> p.(running)) p.(held))
      | _ => None
      end
  | Commits i =>
      c ← p.(running) !! i;
      match c.(cl_script) with
      | Finish (Ok _) =>
          d ← replay c.(cl_writes) p.(committed);
          Some (mk_pool d (delete i p.(running)) (release i p.(held)))
      | _ => None
      end
  | Ends i => _ ← p.(running) !! i; Some (mk_pool p.(committed) (delete i p.(running)) (release i p.(held)))
  end.

Fixpoint take_turns (turns : list Turn) (p : Pool) : option Pool :=
  match turns with
  | [] => Some p
  | turn :: turns => p ← take_turn turn p; take_turns turns p
  end.

Definition may_begin (turn : Turn) : Prop :=
  match turn with Begins _ token _ => may_claim token | _ => True end.

Lemma take_turn_sound turn p p' : may_begin turn → take_turn turn p = Some p' → pool_step p p'.
Proof.
  intros Hm. destruct turn as [i token slug|i|i|i id t|i|i]; cbn;
    destruct (running p !! i) as [c|] eqn:Hi; cbn; try done.
  - intros [= <-]. by apply claim_begins.
  - destruct (cl_script c) as [|n k| |] eqn:Es; try done. case_bool_decide as Hn; [|done].
    intros [= <-]. by eapply claim_locks.
  - destruct (answer_statement _ c) as [c'|] eqn:Ha; [|done]. intros [= <-]. by eapply claim_sends.
  - destruct (cl_script c) as [| | |k] eqn:Es; try done. intros [= <-]. by eapply claim_draws.
  - destruct (cl_script c) as [[id|]| | |] eqn:Es; try done. destruct (replay _ _) as [d|] eqn:Hr; [|done].
    intros [= <-]. by eapply claim_commits.
  - intros [= <-]. by eapply claim_ends.
Qed.

Lemma take_turns_sound turns p p' :
  Forall may_begin turns → take_turns turns p = Some p' → rtc pool_step p p'.
Proof.
  revert p. induction turns as [|turn turns IH]; intros p; [by intros _ [= ->]|].
  intros [Hm Hms]%Forall_cons. cbn. destruct (take_turn turn p) as [q|] eqn:E; [|done]. intros H.
  eapply rtc_l; [by apply take_turn_sound in E|by apply IH].
Qed.

Definition claims (token : uuid) (d : Db) : Z := Z.of_nat (length (claimed_by token d)).

(** ** What a claim knows at each point of its transaction *)

Inductive Point : Type := Start | Locked | Counted | Refused.

Definition only_read (writes : list (Db → option Db)) : Prop := ∀ d, replay writes d = Some d.

Inductive at_point (token : TokenRow) (slug : string) : Point → list (Db → option Db) → Script uuid → Prop :=
| at_start : at_point token slug Start [] (claim_critical st token slug)
| at_locked l : only_read l → at_point token slug Locked l (claim_quota st token;; claim_insert token slug)
| at_counted l : only_read l → at_point token slug Counted l (claim_insert token slug)
| at_drawn l k id t :
    only_read l → claim_insert token slug = Draw k → at_point token slug Counted l (k id t)
| at_inserted l id row :
    row.(org_created_by_token) = Some token.(tok_id) → (∀ d, replay l d = effect (insert_org row) d) →
    at_point token slug Counted l (Finish (Ok id))
| at_refused l e : at_point token slug Refused l (Finish (Err e)).

Lemma replay_app l l' d : replay (l ++ l') d = replay l d ≫= replay l'.
Proof.
  unfold replay. rewrite foldl_app. destruct (foldl _ (Some d) l) as [d1|]; [done|]. cbn.
  by induction l' as [|f l' IH].
Qed.

Lemma only_read_snoc {B} l (g : Db → B) : only_read l → only_read (l ++ [effect (read g)]).
Proof. intros H d. by rewrite replay_app, H. Qed.

Lemma insert_org_claims row d d' t :
  effect (insert_org row) d = Some d' →
  claims t d' = claims t d + if bool_decide (row.(org_created_by_token) = Some t) then 1 else 0.
Proof.
  unfold effect. destruct (insert_org row d) as [[[] d1]|] eqn:E; [|done]. intros [= ->].
  apply insert_org_inv in E as (Ho & _). unfold claims, claimed_by.
  rewrite Ho, List.filter_app, length_app. cbn. case_bool_decide; cbn; lia.
Qed.

End pool.

#[local] Arguments replay : simpl never.
#[local] Arguments effect : simpl never.

(** ** Each point is followed by the next *)

Section points.
Context `{ext : Externals} `{oext : OrgExternals} (st : AppState) (token : TokenRow) (slug : string).
Hypothesis postgres : is_postgres = true.

Lemma locked_next p l n k :
  at_point st token slug p l (Lock n k) →
  p = Start ∧ n = claim_lock token.(tok_id) ∧ at_point st token slug Locked (l ++ []) (k (Ok tt)).
Proof.
  intros H. inversion H as [E|l' Hl E|l' Hl E|l' k' id t Hl Hk E| |]; subst.
  - unfold claim_critical in *. rewrite postgres in *. injection H0 as <- <-. split; [done|]. split; [done|]. by apply at_locked.
  - unfold claim_quota in *. by destruct (is_some _).
  - unfold claim_insert in *. injection Hk as <-. done.
Qed.

Lemma drawn_next p l k id t :
  at_point st token slug p l (Draw k) →
  (p = Counted ∨ p = Locked ∧ token.(tok_org_id) = None) ∧ at_point st token slug Counted (l ++ []) (k id t).
Proof.
  rewrite app_nil_r. intros H. inversion H as [E|l' Hl E|l' Hl E|l' k' id' t' Hl Hk E| |]; subst.
  - unfold claim_critical in *. by rewrite postgres in *.
  - unfold claim_quota in *. destruct (tok_org_id token); [done|]. split; [by right|].
    match goal with H : _ = Draw k |- _ => exact (at_drawn st token slug l k id t Hl H) end.
  - split; [by left|]. exact (at_drawn _ _ _ l _ id t Hl eq_refl).
  - unfold claim_insert in *. injection Hk as <-. done.
Qed.

Lemma quota_answer l d c' :
  only_read l → is_some token.(tok_org_id) = true →
  answer_statement d (mk_claim token slug l (claim_quota st token;; claim_insert token slug)) = Some c' →
  at_point st token slug Refused c'.(cl_writes) c'.(cl_script) ∨
  at_point st token slug Counted c'.(cl_writes) c'.(cl_script) ∧ claims token.(tok_id) d < st.(max_orgs_per_token).
Proof.
  intros Hl Hs. unfold claim_quota. rewrite Hs. unfold answer_statement. cbn [cl_script cl_writes script_bind mbind script_mbind statement].
  rewrite (Hl d). cbn. intros [= <-]. cbn.
  destruct (Z.leb_spec (max_orgs_per_token st) (claims (tok_id token) d)) as [Hq|Hq]; unfold claims in Hq.
  - rewrite (proj2 (Z.leb_le _ _) Hq). left. apply at_refused.
  - rewrite (proj2 (Z.leb_gt _ _) Hq). right. split; [|done]. by apply at_counted, only_read_snoc.
Qed.

Lemma insert_answer l k id t d c' :
  only_read l → claim_insert token slug = Draw k →
  answer_statement d (mk_claim token slug l (k id t)) = Some c' →
  at_point st token slug Refused c'.(cl_writes) c'.(cl_script) ∨
  at_point st token slug Counted c'.(cl_writes) c'.(cl_script).
Proof.
  intros Hl [= <-]. unfold answer_statement. cbn. rewrite (Hl d). cbn. intros [= <-].
  destruct (insert_org _ d) as [[[] d']|[]]; cbn; [right|left; apply at_refused..].
  eapply at_inserted; [|intros e; rewrite replay_app, (Hl e); done]. done.
Qed.

Lemma answered_next p l s d c' :
  at_point st token slug p l s → answer_statement d (mk_claim token slug l s) = Some c' →
  at_point st token slug Refused c'.(cl_writes) c'.(cl_script) ∨
  at_point st token slug Counted c'.(cl_writes) c'.(cl_script) ∧
    (p = Counted ∨ p = Locked ∧ claims token.(tok_id) d < st.(max_orgs_per_token)).
Proof.
  intros H Hs. inversion H as [E|l' Hl E|l' Hl E|l' k id t Hl Hk E| |]; subst; try done.
  - unfold claim_critical in Hs. by rewrite postgres in Hs.
  - destruct (is_some (tok_org_id token)) eqn:Eo; [|unfold claim_quota in Hs; by rewrite Eo in Hs].
    destruct (quota_answer l d c' Hl Eo Hs) as [?|[? ?]]; [by left|right; by eauto].
  - destruct (insert_answer l k id t d c' Hl Hk Hs) as [?|?]; [by left|right; by eauto].
Qed.

Lemma lost_next p l s c' :
  at_point st token slug p l s → lose_statement (mk_claim token slug l s) = Some c' →
  at_point st token slug Refused c'.(cl_writes) c'.(cl_script).
Proof.
  intros H Hs. inversion H as [E|l' Hl E|l' Hl E|l' k id t Hl Hk E| |]; subst; try done.
  - unfold claim_critical in Hs. rewrite postgres in Hs. injection Hs as <-. apply at_refused.
  - unfold claim_quota in Hs. destruct (is_some _); [injection Hs as <-; apply at_refused|done].
  - injection Hk as <-. injection Hs as <-. apply at_refused.
Qed.

Lemma committed_next p l id d d' t :
  at_point st token slug p l (Finish (Ok id)) → replay l d = Some d' →
  p = Counted ∧ claims t d' = claims t d + if bool_decide (token.(tok_id) = t) then 1 else 0.
Proof.
  intros H Hr. inversion H as [E|l' Hl E|l' Hl E|l' k id' t' Hl Hk E|l' id' row Hrow Hw|]; subst.
  - unfold claim_critical in *. by rewrite postgres in *.
  - unfold claim_quota in *. by destruct (is_some _).
  - injection Hk as <-. done.
  - split; [done|]. rewrite Hw in Hr. rewrite (insert_org_claims _ _ _ t Hr), Hrow.
    do 2 case_bool_decide; congruence || lia.
Qed.
End points.

(** ** The quota *)

Section quota.
Context `{ext : Externals} `{oext : OrgExternals} (st : AppState) (may_claim : TokenRow → Prop) (t : uuid).
Hypothesis postgres : is_postgres = true.
Hypothesis scoped : ∀ token, may_claim token → token.(tok_id) = t → is_some token.(tok_org_id) = true.

(** What each claim knows while the others run: from the lock on, the lock is
    its own; from the count on, the token may have one namespace more. *)
Definition knows (p : Pool) (i : nat) (c : Claim) : Prop :=
  ∃ point, at_point st c.(cl_token) c.(cl_slug) point c.(cl_writes) c.(cl_script) ∧
    (c.(cl_token).(tok_id) = t →
     is_some c.(cl_token).(tok_org_id) = true ∧
     (point = Locked ∨ point = Counted → p.(held) !! claim_lock t = Some i) ∧
     (point = Counted → claims t p.(committed) < st.(max_orgs_per_token))).

Record within_quota (bound : Z) (p : Pool) : Prop := {
  wq_knows i c : p.(running) !! i = Some c → knows p i c;
  wq_claims : claims t p.(committed) ≤ Z.max bound st.(max_orgs_per_token);
}.

(** A step of claim [i] that commits nothing and takes no lock from another. *)
Lemma knows_insert p i c held' bound :
  within_quota bound p →
  (∀ j, j ≠ i → p.(held) !! claim_lock t = Some j → held' !! claim_lock t = Some j) →
  knows (mk_pool p.(committed) (<[i := c]> p.(running)) held') i c →
  within_quota bound (mk_pool p.(committed) (<[i := c]> p.(running)) held').
Proof.
  intros [Hk Hc] Hheld Hi. split; [|done]. cbn. intros j c0 Hj.
  destruct (decide (j = i)) as [->|Hne]; [rewrite lookup_insert_eq in Hj; by injection Hj as <-|].
  rewrite lookup_insert_ne in Hj by done. destruct (Hk j c0 Hj) as (pt & Hpt & Hrest).
  exists pt. split; [done|]. intros Ht. destruct (Hrest Ht) as (Hs & Hl & Hn). split; [done|]. split; [|done].
  intros Hp. by apply Hheld, Hl.
Qed.

(** The end of claim [i]. *)
Lemma knows_delete p i d bound :
  within_quota bound p → claims t d ≤ Z.max bound st.(max_orgs_per_token) →
  claims t d ≤ claims t p.(committed) ∨ p.(held) !! claim_lock t = Some i →
  within_quota bound (mk_pool d (delete i p.(running)) (release i p.(held))).
Proof.
  intros [Hk _] Hd Hown. split; [|done]. cbn. intros j c Hj.
  apply lookup_delete_Some in Hj as [Hne Hj]. destruct (Hk j c Hj) as (pt & Hpt & Hrest).
  exists pt. split; [done|]. intros Ht. destruct (Hrest Ht) as (Hs & Hl & Hn). split; [done|]. split.
  - intros Hp. cbn. apply map_lookup_filter_Some. split; [by apply Hl|]. cbn. congruence.
  - intros ->. cbn. destruct Hown as [Hle|Hi]; [specialize (Hn eq_refl); lia|].
    rewrite (Hl ltac:(by right)) in Hi. congruence.
Qed.
(** The steps that leave the tables and the locks alone. *)
Lemma statement_kept p i c c' bound :
  within_quota bound p → p.(running) !! i = Some c → c'.(cl_token) = c.(cl_token) → c'.(cl_slug) = c.(cl_slug) →
  (∀ pt, at_point st c.(cl_token) c.(cl_slug) pt c.(cl_writes) c.(cl_script) →
     at_point st c.(cl_token) c.(cl_slug) Refused c'.(cl_writes) c'.(cl_script) ∨
     at_point st c.(cl_token) c.(cl_slug) Counted c'.(cl_writes) c'.(cl_script) ∧
       (pt = Counted ∨ pt = Locked ∧
          (is_some c.(cl_token).(tok_org_id) = true →
             claims c.(cl_token).(tok_id) p.(committed) < st.(max_orgs_per_token)))) →
  within_quota bound (mk_pool p.(committed) (<[i := c']> p.(running)) p.(held)).
Proof.
  intros Hp Hi Et Es Hnext. apply knows_insert; [done|done|].
  destruct (wq_knows _ _ Hp i c Hi) as (pt & Hpt & Hrest). unfold knows. rewrite Et, Es.
  destruct (Hnext pt Hpt) as [Hr|[Hr Hc]].
  - exists Refused. split; [done|]. intros Ht. destruct (Hrest Ht) as (? & _). split; [done|]. by split; [intros [[=]|[=]]|].
  - exists Counted. split; [done|]. intros Ht. destruct (Hrest Ht) as (Hs & Hl & Hn). split; [done|].
    split; intros _; [apply Hl; destruct Hc as [->|[-> _]]; auto|].
    destruct Hc as [->|[_ Hc]]; [by apply Hn|]. cbn. rewrite <- Ht. by apply Hc.
Qed.

Lemma within_quota_step bound p p' :
  within_quota bound p → pool_step st may_claim p p' → within_quota bound p'.
Proof.
  intros Hp Hs. destruct Hs as [i token slug Hi Hm|i c n k Hi Es Hn|i c c' Hi Ha|i c c' Hi Ha|i c k id u Hi Es
    |i c id d Hi Es Hr|i c Hi|d Hd].
  - apply knows_insert; [done|done|]. exists Start. split; [apply at_start|]. intros Ht.
    split; [by apply scoped|]. by split; [intros [[=]|[=]]|].
  - destruct (wq_knows _ _ Hp i c Hi) as (pt & Hpt & Hrest). rewrite Es in Hpt.
    apply (locked_next _ _ _ postgres) in Hpt as (-> & -> & Hpt). apply knows_insert; [done| |].
    + intros j Hj Hh. destruct (decide (claim_lock (tok_id (cl_token c)) = claim_lock t)) as [E|E].
      * rewrite E in Hn. destruct Hn as [Hn|Hn]; congruence.
      * by rewrite lookup_insert_ne.
    + exists Locked. split; [done|]. intros Ht. destruct (Hrest Ht) as (Hs & _). split; [done|]. cbn in *.
      rewrite Ht. split; [|done]. intros _. apply lookup_insert_eq.
  - apply (statement_kept p i c); [done|done|..].
    1,2: unfold answer_statement in Ha; destruct (cl_script c); try done; destruct (replay _ _); [|done];
      injection Ha as <-; by destruct (f _) as [[]|].
    intros pt Hpt. destruct c as [token slug l s]. apply (answered_next _ _ _ postgres _ _ _ _ _ Hpt) in Ha.
    destruct Ha as [?|[? [?|[? ?]]]]; [by left|right; by eauto..].
  - apply (statement_kept p i c); [done|done|..].
    1,2: unfold lose_statement in Ha; destruct (cl_script c); try done; by injection Ha as <-.
    intros pt Hpt. left. destruct c as [token slug l s]. by apply (lost_next _ _ _ postgres _ _ _ _ Hpt).
  - apply (statement_kept p i c); [done..|]. intros pt Hpt. right. rewrite Es in Hpt.
    apply (drawn_next _ _ _ postgres _ _ _ id u) in Hpt as [Hp' Hpt]. split; [done|].
    destruct Hp' as [->|[-> Ho]]; [by left|right]. split; [done|]. by rewrite Ho.
  - destruct (wq_knows _ _ Hp i c Hi) as (pt & Hpt & Hrest). rewrite Es in Hpt.
    destruct (committed_next _ _ _ postgres _ _ _ _ _ t Hpt Hr) as [-> Hd].
    pose proof (wq_claims _ _ Hp). case_bool_decide as Ht.
    + destruct (Hrest Ht) as (_ & Hl & Hn). specialize (Hn eq_refl). apply knows_delete; [done|lia|right; auto].
    + apply knows_delete; [done|lia|left; lia].
  - apply knows_delete; [done|apply (wq_claims _ _ Hp)|by left].
  - assert (claims t d = claims t p.(committed)) as Ec by (unfold claims; by rewrite Hd).
    destruct Hp as [Hk Hc]. split; [|cbn; lia]. intros i c Hi. destruct (Hk i c Hi) as (pt & Hpt & Hrest).
    exists pt. split; [done|]. intros Ht. destruct (Hrest Ht) as (Hs & Hl & Hn). split; [done|]. split; [done|].
    intros Hp. specialize (Hn Hp). cbn. lia.
Qed.

(** C18: the squatting quota holds under concurrency. However many claims run at
    once, in whatever order their statements are answered, their locks granted
    and their connections lost, a token that is scoped to an organization never
    owns more namespaces than the limit, or than it owned before. *)
Theorem claim_org_quota p p' :
  p.(running) = ∅ → rtc (pool_step st may_claim) p p' →
  claims t p'.(committed) ≤ Z.max (claims t p.(committed)) st.(max_orgs_per_token).
Proof.
  intros He Hrun. enough (within_quota (claims t p.(committed)) p') as H by apply H.
  assert (within_quota (claims t p.(committed)) p) as H0.
  { split; [|lia]. intros i c Hi. by rewrite He, lookup_empty in Hi. }
  revert H0. generalize (claims t p.(committed)). intros bound. clear He.
  induction Hrun as [p|p q r Hpq _ IH]; [done|]. intros H. apply IH. by eapply within_quota_step.
Qed.
End quota.
