(* ===== verification/Registry.v ===== *)
(** * The registry as a state machine

    The requests that change the legacy tables (claim, publish, yank, key
    submission, index upload), a history of them with other writers in between,
    and the invariant of the tables every history maintains. *)

From S2P Require Export RegistryFacts.

(** ** Well-formed tables *)

Definition package_key (p : PackageRow) : uuid * string := (p.(pkg_org_id), p.(pkg_name)).
Definition key_key (k : KeyRow) : uuid * string := (k.(key_org_id), k.(key_key_id)).

(** Names are unique where they name, and references resolve. *)
Record well_formed (d : Db) : Prop := mk_well_formed {
  wf_slugs : NoDup (org_slug <$> orgs d);
  wf_package_ids : NoDup (pkg_id <$> packages d);
  wf_package_names : NoDup (package_key <$> packages d);
  wf_versions : NoDup (version_slot <$> versions d);
  wf_version_ids : NoDup (ver_id <$> versions d);
  wf_key_ids : NoDup (key_row_id <$> keys d);
  wf_key_names : NoDup (key_key <$> keys d);
  wf_package_org : ∀ p, p ∈ packages d → p.(pkg_org_id) ∈ (org_id <$> orgs d);
  wf_version_package : ∀ v, v ∈ versions d → v.(ver_package_id) ∈ (pkg_id <$> packages d);
}.

(** Package rows keep their identity. *)
Definition packages_kept (d d' : Db) : Prop :=
  ∀ p, p ∈ packages d → ∃ p', p' ∈ packages d' ∧ p'.(pkg_id) = p.(pkg_id) ∧
    p'.(pkg_org_id) = p.(pkg_org_id) ∧ p'.(pkg_name) = p.(pkg_name) ∧ p'.(pkg_created_at) = p.(pkg_created_at).

#[export] Instance packages_kept_preorder : PreOrder packages_kept.
Proof.
  split; [intros d p Hp; by exists p|]. intros a b c H1 H2 p Hp.
  destruct (H1 p Hp) as (p1 & Hp1 & ? & ? & ? & ?). destruct (H2 p1 Hp1) as (p2 & Hp2 & ? & ? & ? & ?).
  exists p2. split; [done|]. repeat split; congruence.
Qed.

(** What a well-behaved writer does to the tables: it keeps every namespace,
    package, version and key, and the tables well-formed. *)
Definition evolves (d d' : Db) : Prop :=
  namespaces_kept d d' ∧ packages_kept d d' ∧ versions_kept d d' ∧ material_kept d d' ∧
  (well_formed d → well_formed d').

#[export] Instance evolves_preorder : PreOrder evolves.
Proof.
  split; [intros d; repeat (split; [reflexivity|]); done|]. intros a b c (N1 & P1 & V1 & K1 & W1) (N2 & P2 & V2 & K2 & W2).
  split; [by etrans|]. split; [by etrans|]. split; [by etrans|]. split; [by etrans|]. auto.
Qed.

(** *** Steps on one table *)

Lemma evolves_audits f d : evolves d (set_audits f d).
Proof.
  split; [by split|]. split; [intros p Hp; by exists p|]. split; [split; [intros v Hv; by exists v|done]|].
  split; [intros k Hk; by exists k|]. by intros [].
Qed.

(** A map that keeps a projection keeps its values. *)
Lemma fmap_kept {A B} (g : A → B) (f : A → A) l : (∀ x, g (f x) = g x) → g <$> map f l = g <$> l.
Proof. intros H. induction l as [|x l IH]; [done|]. cbn. by rewrite H, IH. Qed.

Lemma elem_of_map {A} (f : A → A) (l : list A) y : y ∈ map f l ↔ ∃ x, y = f x ∧ x ∈ l.
Proof. apply list_elem_of_fmap. Qed.

Lemma same_slot v w : same_facts v w → version_slot w = version_slot v.
Proof. unfold same_facts. intros H. by rewrite H. Qed.
Lemma same_id v w : same_facts v w → w.(ver_id) = v.(ver_id).
Proof. unfold same_facts. intros H. by rewrite H. Qed.
Lemma same_package v w : same_facts v w → w.(ver_package_id) = v.(ver_package_id).
Proof. unfold same_facts. intros H. by rewrite H. Qed.

(** Rewriting version rows, all but their facts left alone. *)
Lemma evolves_versions f d :
  (∀ v, same_facts v (f v)) → evolves d (set_versions (map f) d).
Proof.
  intros Hf. assert (∀ A (g : VersionRow → A), (∀ v w, same_facts v w → g w = g v) →
    g <$> map f (versions d) = g <$> versions d) as Hg by (intros A g H; apply fmap_kept; auto).
  assert (version_slot <$> map f (versions d) = version_slot <$> versions d) as Hslot
    by (apply Hg, same_slot).
  split; [by split|]. split; [intros p Hp; by exists p|]. split; [split|split].
  - intros v Hv. exists (f v). split; [|done]. cbn. apply elem_of_map. by exists v.
  - cbn. by rewrite Hslot.
  - intros k Hk. by exists k.
  - intros []. split; try done; cbn; [by rewrite Hslot| |].
    + rewrite Hg; [done|]. apply same_id.
    + intros v (x & -> & Hx)%elem_of_map. rewrite (same_package x) by done. by apply wf_version_package0.
Qed.

(** Rewriting package rows, their identity left alone. *)
Lemma evolves_packages f d :
  (∀ p, pkg_id (f p) = pkg_id p ∧ pkg_org_id (f p) = pkg_org_id p ∧ pkg_name (f p) = pkg_name p ∧
    pkg_created_at (f p) = pkg_created_at p) →
  evolves d (set_packages (map f) d).
Proof.
  intros Hf. assert (∀ A (g : PackageRow → A), (∀ p, g (f p) = g p) →
    g <$> map f (packages d) = g <$> packages d) as Hg by (intros A g H; by apply fmap_kept).
  assert (pkg_id <$> map f (packages d) = pkg_id <$> packages d) as Hid by (apply Hg; apply Hf).
  assert (package_key <$> map f (packages d) = package_key <$> packages d) as Hkey.
  { apply Hg. intros p. unfold package_key. by destruct (Hf p) as (_ & -> & -> & _). }
  split; [by split|]. split; [|split; [split; [intros v Hv; by exists v|done]|split; [intros k Hk; by exists k|]]].
  - intros p Hp. exists (f p). split; [cbn; apply elem_of_map; by exists p|]. apply Hf.
  - intros []. split; try done; cbn; [by rewrite Hid|by rewrite Hkey| |by rewrite Hid].
    intros p (x & -> & Hx)%elem_of_map. destruct (Hf x) as (_ & -> & _). by apply wf_package_org0.
Qed.

(** A new row in a table without its keys. *)
Lemma NoDup_snoc {A B} (g : A → B) (l : list A) x :
  NoDup (g <$> l) → (g x ∉ (g <$> l)) → NoDup (g <$> (l ++ [x])%list).
Proof.
  intros Hl Hx. rewrite fmap_app. apply NoDup_app. split; [done|]. split; [|apply NoDup_singleton].
  by intros y Hy ->%list_elem_of_singleton.
Qed.

Lemma elem_of_snoc {A} (l : list A) x y : y ∈ (l ++ [x])%list ↔ y ∈ l ∨ y = x.
Proof. rewrite elem_of_app, list_elem_of_singleton. done. Qed.

(** No row of a table matches a test that its keys decide. *)
Lemma existsb_fresh {A B} (test : A → bool) (g : A → B) (l : list A) x :
  existsb test l = false → (∀ y, g y = g x → test y = true) → (g x ∉ (g <$> l)).
Proof.
  intros H Ht (y & Hy & Hin)%list_elem_of_fmap. apply not_true_iff_false in H. apply H, existsb_exists.
  exists y. split; [by apply list_elem_of_In|]. by apply Ht.
Qed.

Lemma evolves_insert_org row d d' : insert_org row d = Ok (tt, d') → evolves d d'.
Proof.
  intros H. pose proof (insert_org_kept _ _ _ H) as Hk. pose proof (insert_org_inv _ _ _ H) as (Ho & _ & _ & Hp & Hv & _ & Hke).
  split; [done|]. unfold packages_kept, versions_kept, material_kept. rewrite Hp, Hv, Hke.
  split; [intros p Hp'; by exists p|]. split; [split; [intros v Hv'; by exists v|done]|].
  split; [intros k Hk'; by exists k|]. intros []. split; rewrite ?Hp, ?Hv, ?Hke; try done; [by apply Hk|].
  intros p Hin. rewrite Ho, fmap_app. apply elem_of_app. left. by apply wf_package_org0.
Qed.

Lemma evolves_insert_key row d d' : insert_key row d = Ok (tt, d') → evolves d d'.
Proof.
  intros H. pose proof (insert_key_kept _ _ _ _ H) as Hk. unfold insert_key in H.
  destruct (existsb _ _) eqn:E; [done|]. injection H as <-.
  split; [by split|]. split; [intros p Hp; by exists p|]. split; [split; [intros v Hv; by exists v|done]|].
  split; [done|]. intros []. split; try done; cbn; apply NoDup_snoc; try done.
  - eapply existsb_fresh; [exact E|]. intros y Hy. cbn. by rewrite Hy, N.eqb_refl.
  - eapply existsb_fresh; [exact E|]. unfold key_key. intros y [= H1 H2]. cbn. rewrite H1, H2.
    by rewrite N.eqb_refl, String.eqb_refl, orb_true_r.
Qed.

Lemma evolves_update_key id st reason d d' : update_key id st reason d = Ok (tt, d') → evolves d d'.
Proof.
  intros H. pose proof (update_key_kept _ _ _ _ _ _ H) as Hk. unfold update_key in H.
  destruct (existsb _ _); [|done]. injection H as <-.
  split; [by split|]. split; [intros p Hp; by exists p|]. split; [split; [intros v Hv; by exists v|done]|].
  split; [done|]. intros []. split; try done; cbn; rewrite fmap_kept; try done;
    intros k; by destruct (_ =? _)%N.
Qed.

(** *** The statements of the handlers *)

Lemma evolves_update_yanked id yanked d row d' : update_yanked id yanked d = Ok (row, d') → evolves d d'.
Proof.
  unfold update_yanked. destruct (List.find _ _); [|done]. intros [= _ <-].
  apply evolves_versions. intros r. destruct (_ =? _)%N; by destruct r.
Qed.

Lemma evolves_update_index id stored n d d' : update_index id stored n d = Ok (tt, d') → evolves d d'.
Proof.
  unfold update_index. destruct (existsb _ _); [|done]. intros [= <-].
  apply evolves_packages. intros p. by destruct (_ =? _)%N.
Qed.

Lemma evolves_update_sequence id n d d' : update_sequence id n d = Ok (tt, d') → evolves d d'.
Proof.
  unfold update_sequence. destruct (existsb _ _); [|done]. intros [= <-].
  apply evolves_packages. intros p. by destruct (_ =? _)%N.
Qed.

Lemma evolves_insert_package row d :
  existsb (λ r, (pkg_org_id r =? pkg_org_id row)%N && (pkg_name r =s pkg_name row)) (packages d) = false →
  existsb (λ r, (pkg_id r =? pkg_id row)%N) (packages d) = false →
  row.(pkg_org_id) ∈ (org_id <$> orgs d) → evolves d (set_packages (λ l, l ++ [row])%list d).
Proof.
  intros E1 E2 Ho. split; [by split|]. split; [|split; [split; [intros v Hv; by exists v|done]|split; [intros k Hk; by exists k|]]].
  - intros p Hp. exists p. split; [cbn; apply elem_of_snoc; by left|done].
  - intros []. split; try done; cbn.
    + apply NoDup_snoc; [done|]. eapply existsb_fresh; [exact E2|]. intros y Hy. cbn. by rewrite Hy, N.eqb_refl.
    + apply NoDup_snoc; [done|]. eapply existsb_fresh; [exact E1|]. unfold package_key. intros y [= H1 H2]. cbn.
      by rewrite H1, H2, N.eqb_refl, String.eqb_refl.
    + intros p [Hp| ->]%elem_of_snoc; [by apply wf_package_org0|done].
    + intros v Hv. rewrite fmap_app. apply elem_of_app. left. by apply wf_version_package0.
Qed.

Lemma evolves_upsert row d d' :
  row.(pkg_org_id) ∈ (org_id <$> orgs d) → upsert_row row d = Ok (tt, d') → evolves d d'.
Proof.
  intros Ho. unfold upsert_row. destruct (existsb _ _) eqn:E1; [intros [= <-]; apply evolves_packages|].
  - intros p. by destruct (_ && _).
  - destruct (existsb (λ r, (pkg_id r =? pkg_id row)%N) _) eqn:E2; [done|]. intros [= <-].
    by apply evolves_insert_package.
Qed.

Lemma evolves_insert_version row d d' :
  row.(ver_package_id) ∈ (pkg_id <$> packages d) → insert_version row d = Ok (tt, d') → evolves d d'.
Proof.
  intros Hp H. pose proof (insert_version_inv _ _ _ H) as (Hv & _ & Hfresh). unfold insert_version in H.
  destruct (existsb _ _) eqn:E; [done|]. injection H as <-. cbn in Hv.
  split; [by split|]. split; [intros p Hp'; by exists p|]. split; [|split; [intros k Hk; by exists k|]].
  - split; [|intros Hn; by apply NoDup_snoc]. intros v Hin. exists v. split; [cbn; apply elem_of_snoc; by left|done].
  - intros []. split; try done; cbn.
    + by apply NoDup_snoc.
    + apply NoDup_snoc; [done|]. eapply existsb_fresh; [exact E|]. intros y Hy. cbn. by rewrite Hy, N.eqb_refl.
    + intros v [Hin| ->]%elem_of_snoc; [by apply wf_version_package0|done].
Qed.

Lemma evolves_orgs d d' x : evolves d d' → x ∈ (org_id <$> orgs d) → x ∈ (org_id <$> orgs d').
Proof.
  intros ([Ho _] & _) (o & -> & Hin)%list_elem_of_fmap. apply list_elem_of_fmap. exists o. auto.
Qed.

Section statements.
Context `{ext : Externals} `{web : WebExternals} `{ver : VerifyExternals} `{sto : StoreExternals}
  `{sgn : SigningExternals} `{aext : AuditExternals} `{pub : PublishExternals}.

Lemma evolves_recorded org_row name v meta sha len key t mirrors sigs d d' :
  org_row.(org_id) ∈ (org_id <$> orgs d) →
  recorded org_row name v meta sha len key t mirrors sigs d d' → evolves d d'.
Proof.
  intros Ho (id & pkg & d1 & (i & u & d2 & row & Hup & Hf & Hseq & ->) & Hins).
  etrans; [eapply evolves_upsert; [|exact Hup]; exact Ho|]. etrans; [exact (evolves_update_sequence _ _ _ _ Hseq)|].
  eapply evolves_insert_version; [|exact Hins]. cbn. unfold update_sequence in Hseq.
  destruct (existsb _ _); [|done]. injection Hseq as <-. cbn. rewrite fmap_kept by (intros p; by destruct (_ =? _)%N).
  apply List.find_some in Hf as [Hin _]. apply list_elem_of_fmap. exists row.
  split; [done|]. by apply list_elem_of_In.
Qed.
End statements.

(** ** Requests *)

Section requests.
Context `{ext : Externals} `{web : WebExternals} `{vext : VerifyExternals} `{sto : StoreExternals}
  `{sgn : SigningExternals} `{aext : AuditExternals} `{pub : PublishExternals} `{reg : RegistryExternals}
  `{oext : OrgExternals} `{pext : PackageExternals}.

(** The requests that change the tables, with the payloads their handlers
    receive. *)
Inductive Request : Type :=
| ClaimOrg (headers : HeaderMap) (slug : string)
| PublishVersion (org name ver : string) (headers : HeaderMap) (parts : list Part)
| YankVersion (org name ver : string) (headers : HeaderMap) (yanked : bool)
| PutKeys (org : string) (headers : HeaderMap) (request : list PublisherKey)
| PutIndex (org name : string) (headers : HeaderMap) (document : SignedIndex).

(** What a request leaves; the answer is the caller's. *)
Definition serve (st : AppState) (request : Request) (w : World) : World :=
  match request with
  | ClaimOrg headers slug => (claim_org st headers slug w).2
  | PublishVersion org name ver headers parts => (publish st org name ver headers parts w).2
  | YankVersion org name ver headers yanked => (yank org name ver headers yanked w).2
  | PutKeys org headers request => (put_keys org headers request w).2
  | PutIndex org name headers document => (put_signed_index org name headers document w).2
  end.

(** One state to the next: a request is served, or other writers commit. *)
Inductive step (st : AppState) : World → World → Prop :=
| step_serve request w : step st w (serve st request w)
| step_others w : step st w (set_db (others_db w.(tick) w.(db)) (bump w)).

Hypothesis rely : ∀ t d, evolves d (others_db t d).

Lemma background_evolves d d' : background d d' → evolves d d'.
Proof. apply background_ind_rel; [typeclasses eauto|exact rely|exact evolves_audits]. Qed.

Lemma prepare_org st slug name v headers parts w w' x :
  txn w = None → prepare st slug name v headers parts w = (Ok x, w') →
  x.1.1.1.1.1.2.(org_id) ∈ (org_id <$> orgs (db w')).
Proof.
  intros Ht H. unfold prepare in H. M_step H. apply require_token_sees in R as [(T1 & _ & _) _].
  M_step H. apply sees_db_q in R as [(T2 & _ & _) Hr].
  M_step H. apply lift_inv in R as [Hf ->]. destruct Hr as [[= ->]|]; [|done].
  destruct (find_org_by_slug slug (db w1)) as [o|] eqn:Eo; [|done]. injection Hf as ->.
  assert (o.(org_id) ∈ (org_id <$> orgs (db w1))) as Ho.
  { apply List.find_some in Eo as [Hin _]. apply list_elem_of_fmap. exists o. split; [done|]. by apply list_elem_of_In. }
  assert (∀ k : M ApiErr (TokenRow * OrgRow * PublishMeta * string * instant * json * json),
    respects (db_rel background) k → k w1 = (Ok x, w') → o.(org_id) ∈ (org_id <$> orgs (db w'))) as Hk.
  { intros k Hb Hr. eapply evolves_orgs; [|exact Ho]. apply background_evolves. apply (Hb _ _ _ Hr). congruence. }
  assert (x.1.1.1.1.1.2 = o) as ->; [|revert H; apply Hk; unfold db_q; respects_tac].
  M_step H. M_step H. destruct a1 as [meta artifact]. do 7 (M_step H). by apply mret_inv in H as [[= ->] _].
Qed.

Lemma write_out_evolves st slug name v headers x w r w' :
  txn w = None → x.1.1.1.1.1.2.(org_id) ∈ (org_id <$> orgs (db w)) →
  write_out st slug name v headers x w = (r, w') → txn w' = None ∧ evolves (db w) (db w').
Proof.
  destruct x as [[[[[[token org_row] meta] artifact] t] mirrors] sigs]. cbn [fst snd]. intros Ht Ho H.
  unfold write_out in H.
  M_step H; apply with_err_inv in R as (y & R & Hy); pose proof (quiet_put_verified _ _ _ _ _ _ _ _ R) as [D0 T0].
  { rewrite D0. split; [congruence|done]. }
  M_step H; apply attempt_inv in R0 as (z & Hz & R0); [done|].
  pose proof (quiet_put_public_aliases _ _ _ _ _ _ _ _ R0) as [D1 T1].
  assert (∀ q u, record_version st org_row slug name v meta (digest_hex artifact) (wrap_i64 (slen artifact))
    (artifact_key (digest_hex artifact) (meta_format meta)) (user_agent_of headers) t mirrors sigs w1 = (q, u) →
    txn u = None ∧ evolves (db w) (db u)) as Hrec.
  { intros q u Hq. apply record_version_run in Hq as [Tq Hq]; [|congruence]. split; [done|].
    rewrite <- D0, <- D1. destruct Hq as [[Hb _]|(d & Hb & Hr)]; [by apply background_evolves|].
    etrans; [by apply background_evolves|]. eapply evolves_recorded; [|exact Hr].
    eapply evolves_orgs; [by apply background_evolves|]. by rewrite D1, D0. }
  M_step H; apply Hrec in R1 as [Tq Hq]; [done|].
  destruct (finish_background _ _ _ _ _ _ _ _ _ _ _ _ _ _ H Tq) as [T2 B2]. split; [done|].
  etrans; [exact Hq|]. by apply background_evolves.
Qed.

Lemma publish_evolves st slug name v headers parts :
  respects (db_rel evolves) (publish st slug name v headers parts).
Proof.
  intros w r w' H Ht. rewrite publish_split in H. M_step H.
  - destruct (prepare_background _ _ _ _ _ _ _ _ _ R Ht). split; [done|]. by apply background_evolves.
  - destruct (prepare_background _ _ _ _ _ _ _ _ _ R Ht) as [T B]. apply prepare_org in R as Ho; [|done].
    destruct (write_out_evolves _ _ _ _ _ _ _ _ _ T Ho H) as [T2 E2]. split; [done|].
    etrans; [|exact E2]. by apply background_evolves.
Qed.

Lemma put_keys_evolves org headers request : respects (db_rel evolves) (put_keys org headers request).
Proof.
  unfold put_keys, find_org, load_keys, db_q.
  respects_tac; try (apply require_token_rel; [typeclasses eauto|exact rely]);
    try (apply on_db_read_rel; [typeclasses eauto|exact rely]).
  apply with_txn_rel; [typeclasses eauto|exact rely|].
  induction request as [|k l IH]; cbn [write_keys]; unfold db_q; respects_tac; try exact IH;
    apply in_txn_rc_rel; try typeclasses eauto; try exact rely; intros d [] d';
    [apply evolves_update_key|apply evolves_insert_key].
Qed.

Lemma yank_evolves org name v headers yanked : respects (db_rel evolves) (yank org name v headers yanked).
Proof.
  intros w r w' H Ht. apply yank_run in H as (T & _ & H); [|done]. split; [done|].
  destruct H as [[B _]|(token & o & pkg & row & updated & d & d' & _ & _ & B & Hu & B' & _)].
  - by apply background_evolves.
  - etrans; [by apply background_evolves|]. etrans; [by eapply evolves_update_yanked|by apply background_evolves].
Qed.

Lemma put_signed_index_evolves org name headers document :
  respects (db_rel evolves) (put_signed_index org name headers document).
Proof.
  intros w r w' H Ht. apply put_signed_index_run in H as (T & _ & H). split; [congruence|].
  destruct H as [[B _]|(d & B & (token & o & pkg & ks & e & Hs) & _)]; [by apply background_evolves|].
  etrans; [by apply background_evolves|]. eapply evolves_update_index. apply Hs.
Qed.

Lemma claim_org_evolves st headers slug : respects (db_rel evolves) (claim_org st headers slug).
Proof.
  intros w r w' H Ht. apply claim_org_run in H as (T & _ & H); [|done]. split; [done|].
  destruct H as [[B _]|(d & d' & B & (token & id & t & _ & _ & _ & Hi) & B' & _)].
  - by apply background_evolves.
  - etrans; [by apply background_evolves|]. etrans; [by eapply evolves_insert_org|by apply background_evolves].
Qed.

Lemma serve_evolves st request w :
  txn w = None → txn (serve st request w) = None ∧ evolves (db w) (db (serve st request w)).
Proof.
  intros Ht. destruct request; cbn [serve].
  - by apply (claim_org_evolves st headers slug w _ _ (surjective_pairing _)).
  - by apply (publish_evolves st org name ver headers parts w _ _ (surjective_pairing _)).
  - by apply (yank_evolves org name ver headers yanked w _ _ (surjective_pairing _)).
  - by apply (put_keys_evolves org headers request w _ _ (surjective_pairing _)).
  - by apply (put_signed_index_evolves org name headers document w _ _ (surjective_pairing _)).
Qed.

Lemma steps_evolve st w w' :
  rtc (step st) w w' → txn w = None → txn w' = None ∧ evolves (db w) (db w').
Proof.
  intros H. induction H as [w|w w1 w2 Hs _ IH]; [done|]. intros Ht.
  assert (txn w1 = None ∧ evolves (db w) (db w1)) as [T1 E1].
  { destruct Hs; [by apply serve_evolves|]. split; [done|]. apply rely. }
  destruct (IH T1) as [T2 E2]. split; [done|by etrans].
Qed.

(** C2: the tables stay well-formed through every history. Any sequence of
    claims, publications, yanks, key submissions and index uploads, each under
    whatever database faults, with other writers that themselves keep to
    [evolves] before, between and during them, takes well-formed tables to
    well-formed tables: names stay unique per table and every package and
    version keeps an owner. Nothing is lost on the way: a namespace stays as it
    is, a package keeps its identity, organization, name and creation time, a
    version what it was published with, a key its enrolled material. *)
Theorem registry_stays_well_formed st w w' :
  rtc (step st) w w' → txn w = None → well_formed (db w) →
  txn w' = None ∧ well_formed (db w') ∧
  namespaces_kept (db w) (db w') ∧ packages_kept (db w) (db w') ∧
  versions_kept (db w) (db w') ∧ material_kept (db w) (db w').
Proof.
  intros H Ht Hw. destruct (steps_evolve _ _ _ H Ht) as [T (N & P & V & K & W)]. auto 7.
Qed.
End requests.
