(* ===== verification/Catalog.v ===== *)
(** * Listing and searching packages

    [src/routes/list.rs] and [src/routes/search.rs]: the tag filter, the
    escaping of LIKE patterns, the two handlers, and what they answer. *)

From S2P Require Export RegistryFacts GraphText.

(** The order of rows a query does not order: the database's choice, at each
    instant. *)
Class CatalogExternals := { row_order : nat → list PackageRow → list PackageRow }.

(** ** Filters *)

Definition parse_tag_filter (raw : option string) : list string :=
  match raw with
  | Some s => List.filter (λ t, negb (is_empty t)) (map trim (split "," s))
  | None => []
  end.

Definition mem_str (x : string) (l : list string) : bool := existsb (λ y, y =s x) l.

Definition has_all_tags (have want : list string) : bool := forallb (λ w, mem_str w have) want.

(** [str::replace] of a character. *)
Fixpoint sreplace (c : ascii) (by_ : string) (s : string) : string :=
  match s with
  | "" => ""
  | String x r => (if x =c c then by_ else String x "") +:+ sreplace c by_ r
  end.

Definition backslash : ascii := "092"%char.
Definition percent : ascii := "037"%char.
Definition underscore : ascii := "095"%char.
Definition escaping (c : ascii) : string := String backslash (String c "").

Definition escape_like (q : string) : string :=
  sreplace underscore (escaping underscore)
    (sreplace percent (escaping percent) (sreplace backslash (escaping backslash) q)).

Definition contains_escaped (q : string) : string :=
  String percent (escape_like q +:+ String percent "").

(** [LIKE .. ESCAPE '\'] of SQL: a percent sign stands for any text, an
    underscore for one character, and an escaped character for itself. *)
Fixpoint like (pattern s : string) {struct pattern} : bool :=
  match pattern with
  | "" => is_empty s
  | String c pattern' =>
      if c =c percent then
        (fix somewhere s := like pattern' s || match s with "" => false | String _ r => somewhere r end) s
      else if c =c underscore then
        match next_char s with Some (_, _, r) => like pattern' r | None => false end
      else if c =c backslash then
        match pattern', s with
        | String e pattern'', String x r => (e =c x) && like pattern'' r
        | _, _ => false
        end
      else match s with
           | String x r => (c =c x) && like pattern' r
           | "" => false
           end
  end.

(** [column LIKE pattern], where NULL does not match. *)
Definition column_like (pattern : string) (column : option string) : bool :=
  match column with Some s => like pattern s | None => false end.

Definition name_or_description_like (q : string) (p : PackageRow) : bool :=
  like (contains_escaped q) p.(pkg_name) || column_like (contains_escaped q) p.(pkg_description).

(** ** Queries *)

(** [find_also_related(org::Entity)]: a left join. *)
Definition with_org (d : Db) (p : PackageRow) : PackageRow * option OrgRow :=
  (p, List.find (λ o, (o.(org_id) =? p.(pkg_org_id))%N) d.(orgs)).

(** One query, with the instant its unspecified order depends on. *)
Definition query {A} `{ext : Externals} (f : nat → Db → A) : M DbErr A := λ w,
  on_db (read (f w.(tick))) w.

Record PackageSummary := mk_summary {
  ps_org : string;
  ps_name : string;
  ps_description : option string;
  ps_latest : option string;
  ps_tags : list string;
}.

Record SearchResponse := mk_search { sr_query : string; sr_items : list PackageSummary }.
Record PackageListResponse := mk_list { pl_items : list PackageSummary; pl_total : Z }.

Record ListParams := mk_list_params { lp_tags : option string; lp_limit : Z; lp_offset : Z }.
Definition default_limit : Z := 50.
Definition SCAN_CAP : Z := 2000.

Section catalog.
Context `{ext : Externals} `{reg : RegistryExternals} `{cat : CatalogExternals}.

Definition summary (pkg : PackageRow) (org_row : OrgRow) (versions : list VersionRow) : PackageSummary :=
  mk_summary org_row.(org_slug) pkg.(pkg_name) pkg.(pkg_description) (latest_visible_version versions)
    (tags_of pkg).

(** ** Search *)

Definition search_rows (q : string) (t : nat) (d : Db) : list (PackageRow * option OrgRow) :=
  take 50 (map (with_org d) (List.filter (name_or_description_like q) (row_order t d.(packages)))).

(** The loop over the rows. *)
Fixpoint search_items (want_tags : list string) (rows : list (PackageRow * option OrgRow))
    : M ApiErr (list PackageSummary) :=
  match rows with
  | [] => mret []
  | (pkg, None) :: rows => search_items want_tags rows
  | (pkg, Some org_row) :: rows =>
      if negb (has_all_tags (tags_of pkg) want_tags) then search_items want_tags rows
      else
        versions ← db_q (on_db (read (versions_of pkg.(pkg_id))));
        items ← search_items want_tags rows;
        mret (summary pkg org_row versions :: items)
  end.

Definition search (q : string) (tags : option string) : M ApiErr SearchResponse :=
  rows ← db_q (query (search_rows q));
  items ← search_items (parse_tag_filter tags) rows;
  mret (mk_search q items).

(** ** List *)

(** [order_by_desc(created_at)]; rows of one instant in any order. *)
Definition newest_first (t : nat) (d : Db) : list (PackageRow * option OrgRow) :=
  map (with_org d) (order_by_desc pkg_created_at (row_order t d.(packages))).

(** [summaries]: the rows without an organization are skipped. *)
Fixpoint summaries (rows : list (PackageRow * option OrgRow)) : M ApiErr (list PackageSummary) :=
  match rows with
  | [] => mret []
  | (pkg, None) :: rows => summaries rows
  | (pkg, Some org_row) :: rows =>
      versions ← db_q (on_db (read (versions_of pkg.(pkg_id))));
      items ← summaries rows;
      mret (summary pkg org_row versions :: items)
  end.

Definition page {A} (offset limit : Z) (l : list A) : list A :=
  take (Z.to_nat limit) (drop (Z.to_nat offset) l).

Definition list_packages (params : ListParams) : M ApiErr PackageListResponse :=
  let limit := clamp 1 200 params.(lp_limit) in
  let want := parse_tag_filter params.(lp_tags) in
  match want with
  | [] =>
      total ← db_q (on_db (read (λ d, zlength d.(packages))));
      rows ← db_q (query (λ t d, page params.(lp_offset) limit (newest_first t d)));
      items ← summaries rows;
      mret (mk_list items total)
  | _ =>
      rows ← db_q (query (λ t d, take (Z.to_nat SCAN_CAP) (newest_first t d)));
      let matched := List.filter (λ row : PackageRow * option OrgRow, has_all_tags (tags_of row.1) want) rows in
      items ← summaries (page params.(lp_offset) limit matched);
      mret (mk_list items (zlength matched))
  end.
End catalog.

(** ** Patterns match literally *)

(** What [escape_like] makes of a character. *)
Definition escaped_char (c : ascii) : string :=
  if (c =c backslash) || (c =c percent) || (c =c underscore) then escaping c else String c "".

Lemma sreplace_app c t a b : sreplace c t (a +:+ b) = sreplace c t a +:+ sreplace c t b.
Proof. induction a as [|x a IH]; [done|]. cbn. by rewrite IH, app_str_assoc. Qed.

Lemma escape_like_cons c q : escape_like (String c q) = escaped_char c +:+ escape_like q.
Proof.
  unfold escape_like. cbn [sreplace]. rewrite !sreplace_app. f_equal. unfold escaped_char, escaping.
  destruct (Ascii.eqb_spec c backslash) as [->|H1]; [done|].
  destruct (Ascii.eqb_spec c percent) as [->|H2]; [done|].
  destruct (Ascii.eqb_spec c underscore) as [->|H3]; [done|].
  apply Ascii.eqb_neq in H1, H2, H3. cbn. rewrite H2. cbn. by rewrite H3.
Qed.

(** An escaped text matches itself, then the rest of the pattern the rest. *)
Lemma like_escaped q p s :
  like (escape_like q +:+ p) s = match strip_prefix q s with Some r => like p r | None => false end.
Proof.
  revert s. induction q as [|c q IH]; intros s; [done|].
  rewrite escape_like_cons, app_str_assoc. unfold escaped_char.
  destruct (c =c backslash) eqn:E1, (c =c percent) eqn:E2, (c =c underscore) eqn:E3; cbn;
    rewrite ?E1, ?E2, ?E3; destruct s as [|x s]; cbn; try done;
    try (rewrite IH; by destruct (c =c x)).
Qed.

Lemma like_percent p s : like (String percent p) s = (like p s || match s with "" => false | String _ r => like (String percent p) r end)%bool.
Proof. by destruct s. Qed.

Lemma like_anything s : like (String percent "") s = true.
Proof. induction s as [|c s IH]; [done|]. by rewrite like_percent, IH, orb_true_r. Qed.

(** A name or description is found by a query exactly when it contains it. *)
Lemma like_contains q s : like (contains_escaped q) s = contains_str q s.
Proof.
  unfold contains_escaped. induction s as [|c s IH]; rewrite like_percent, like_escaped; cbn [contains_str].
  - unfold starts_with. destruct (strip_prefix q "") as [r|]; [by rewrite like_anything|done].
  - rewrite IH. unfold starts_with. destruct (strip_prefix q (String c s)) as [r|]; [by rewrite like_anything|done].
Qed.

(** ** What the handlers answer *)

Section answers.
Context `{ext : Externals} `{web : WebExternals} `{reg : RegistryExternals} `{cat : CatalogExternals}.

(** The package is found by name or description, and carries the tags. *)
Definition found_by (q : string) (want : list string) (p : PackageRow) : Prop :=
  (contains_str q p.(pkg_name) = true ∨ ∃ s, p.(pkg_description) = Some s ∧ contains_str q s = true) ∧
  ∀ tag, tag ∈ want → tag ∈ tags_of p.

Lemma matches_spec q p :
  name_or_description_like q p = true ↔
  contains_str q p.(pkg_name) = true ∨ ∃ s, p.(pkg_description) = Some s ∧ contains_str q s = true.
Proof.
  unfold name_or_description_like, column_like. rewrite orb_true_iff, like_contains.
  destruct (pkg_description p) as [s|]; [rewrite like_contains; naive_solver|naive_solver].
Qed.

Lemma has_all_tags_spec have want : has_all_tags have want = true ↔ ∀ tag, tag ∈ want → tag ∈ have.
Proof.
  unfold has_all_tags. rewrite forallb_forall. split; intros H tag Ht.
  - apply list_elem_of_In, H, existsb_exists in Ht as (y & Hy & ->%String.eqb_eq). by apply list_elem_of_In.
  - apply existsb_exists. exists tag. rewrite String.eqb_refl. split; [|done].
    by apply list_elem_of_In, H, list_elem_of_In.
Qed.

Lemma query_sees {A} (f : nat → Db → A) w r w' :
  db_q (query f) w = (r, w') → sees w w' ∧ (r = Ok (f (tick w) (db w')) ∨ r = Err from_db_err).
Proof. intros H. by apply sees_db_q. Qed.

(** One summary of a row, its newest version read at some moment. *)
Definition summarizes (d : Db) (row : PackageRow * option OrgRow) (item : PackageSummary) : Prop :=
  ∃ o, row.2 = Some o ∧ seen d (λ d, item = summary row.1 o (versions_of row.1.(pkg_id) d)).

Lemma seen_mono d d' (P : Db → Prop) : background d d' → seen d' P → seen d P.
Proof. intros H (d1 & H1 & HP). exists d1. split; [by etrans|done]. Qed.

Lemma summaries_run rows w r w' :
  summaries rows w = (r, w') →
  sees w w' ∧ ∀ items, r = Ok items →
    Forall2 (summarizes (db w)) (List.filter (λ row : PackageRow * option OrgRow, is_some row.2) rows) items.
Proof.
  revert w r w'. induction rows as [|[pkg [o|]] rows IH]; intros w r w' H; cbn [summaries] in H.
  - apply mret_inv in H as [-> ->]. split; [done|]. intros items [= <-]. constructor.
  - M_step H; apply sees_db_q in R as [S1 Hr]; [done|]. destruct Hr as [[= ->]|]; [|done].
    M_step H; apply IH in R as [S2 Hi]; [split; [by etrans|done]|].
    apply mret_inv in H as [-> ->]. split; [by etrans|]. intros items [= <-].
    cbn [List.filter is_some snd]. constructor.
    + exists o. split; [done|]. eapply seen_now; [apply S1|done].
    + specialize (Hi _ eq_refl). eapply Forall2_impl; [exact Hi|]. intros row item (o' & ? & Hs).
      exists o'. split; [done|]. eapply seen_mono; [apply S1|done].
  - apply IH in H as [S Hi]. by split.
Qed.

Lemma search_items_summaries want rows w :
  search_items want rows w
  = summaries (List.filter (λ row : PackageRow * option OrgRow, has_all_tags (tags_of row.1) want) rows) w.
Proof.
  revert w. induction rows as [|[pkg [o|]] rows IH]; intros w; [done|..]; cbn [search_items List.filter fst].
  - destruct (has_all_tags (tags_of pkg) want); cbn [negb summaries]; [|apply IH].
    unfold mbind, M_bind. destruct (db_q _ w) as [[a|e] w1]; [|done]. by rewrite IH.
  - destruct (has_all_tags (tags_of pkg) want); cbn [summaries]; apply IH.
Qed.

(** C26: search finds what it is asked for, literally. Every package a search
    returns contains the query, wildcard characters included, in its name or
    description and carries every tag asked for, under its organization's name;
    at most fifty are returned, and unless more than fifty packages contain the
    query, every one of them with the tags and an organization is. *)
Theorem search_spec q tags w resp w' :
  (∀ t l, row_order t l ≡ₚ l) →
  search q tags w = (Ok resp, w') →
  resp.(sr_query) = q ∧ ∃ d rows,
    background (db w) d ∧ Forall2 (summarizes d) rows resp.(sr_items) ∧ (length rows ≤ 50)%nat ∧
    (∀ row, row ∈ rows → row.1 ∈ packages d ∧ found_by q (parse_tag_filter tags) row.1 ∧ row = with_org d row.1) ∧
    ((length (List.filter (name_or_description_like q) (packages d)) ≤ 50)%nat →
     ∀ p, p ∈ packages d → found_by q (parse_tag_filter tags) p → is_some (with_org d p).2 = true →
       with_org d p ∈ rows).
Proof.
  intros Horder H. unfold search in H.
  M_step H. apply query_sees in R as [S1 [[= ->]|]]; [|done].
  M_step H. rewrite search_items_summaries in R. apply summaries_run in R as [S2 Hi].
  apply mret_inv in H as [[= ->] ->]. split; [done|]. cbn [sr_items].
  exists (db w0). eexists. split; [apply S1|]. split; [by apply Hi|].
  set (want := parse_tag_filter tags). set (d := db w0).
  assert (∀ row, row ∈ search_rows q (tick w) d → row.1 ∈ packages d ∧ name_or_description_like q row.1 = true ∧
    row = with_org d row.1) as Hrow.
  { intros row Hin. unfold search_rows in Hin. apply elem_of_take in Hin as (i & Hin & _).
    apply list_elem_of_lookup_2, list_elem_of_fmap in Hin as (p & -> & Hin).
    apply list_elem_of_In, filter_In in Hin as [Hin Hp]. split; [|by split].
    apply list_elem_of_In in Hin. by rewrite Horder in Hin. }
  split; [|split].
  - etrans; [apply filter_length_le|]. etrans; [apply filter_length_le|].
    unfold search_rows. rewrite length_take. lia.
  - intros row [[Hin Ht]%filter_In Ho]%list_elem_of_In%filter_In. apply list_elem_of_In in Hin.
    destruct (Hrow row Hin) as (Hp & Hm & He). split; [done|]. split; [|done].
    split; [by apply matches_spec|by apply has_all_tags_spec].
  - intros Hlen p Hp [Hf Ht] Ho. apply list_elem_of_In, filter_In. split; [|done].
    apply filter_In. split; [|by apply has_all_tags_spec]. apply list_elem_of_In.
    unfold search_rows. rewrite take_ge.
    + apply list_elem_of_fmap. exists p. split; [done|]. apply list_elem_of_In, filter_In.
      split; [|by apply matches_spec]. apply list_elem_of_In. by rewrite Horder.
    + rewrite length_map. etrans; [|exact Hlen]. apply Nat.eq_le_incl, Permutation_length.
      apply filter_perm, Horder.
Qed.

(** *** Pages *)

(** What the pages of a listing are pages of. *)
Definition listing (want : list string) (t : nat) (d : Db) : list (PackageRow * option OrgRow) :=
  match want with
  | [] => newest_first t d
  | _ => List.filter (λ row, has_all_tags (tags_of row.1) want) (take (Z.to_nat SCAN_CAP) (newest_first t d))
  end.

Lemma zlength_map {A B} (f : A → B) (l : list A) : zlength (map f l) = zlength l.
Proof. unfold zlength. by rewrite length_map. Qed.

(** The answer to one request: the total, and a page, each as some moment had
    it. *)
Lemma list_packages_run params w resp w' :
  list_packages params w = (Ok resp, w') →
  (∀ t l, row_order t l ≡ₚ l) →
  let want := parse_tag_filter params.(lp_tags) in
  ∃ t d t0 d0, background (db w) d ∧ background (db w) d0 ∧
    resp.(pl_total) = zlength (listing want t0 d0) ∧
    Forall2 (summarizes d)
      (List.filter (λ row : PackageRow * option OrgRow, is_some row.2)
        (page params.(lp_offset) (clamp 1 200 params.(lp_limit)) (listing want t d))) resp.(pl_items).
Proof.
  intros H Horder. cbn zeta. unfold list_packages in H. cbn zeta in H.
  destruct (parse_tag_filter (lp_tags params)) as [|tag want].
  - M_step H. apply sees_db_q in R as [S1 [[= ->]|]]; [|done].
    M_step H. apply query_sees in R as [S2 [[= ->]|]]; [|done].
    M_step H. apply summaries_run in R as [S3 Hi]. apply mret_inv in H as [[= ->] ->].
    exists (tick w0), (db w1), 0%nat, (db w0). split; [by etrans; [apply S1|apply S2]|]. split; [apply S1|].
    split; [|by apply Hi]. cbn [pl_total listing]. unfold newest_first. rewrite zlength_map.
    unfold zlength. f_equal. apply Permutation_length. rewrite order_by_desc_perm. symmetry. apply Horder.
  - M_step H. apply query_sees in R as [S1 [[= ->]|]]; [|done].
    M_step H. apply summaries_run in R as [S2 Hi]. apply mret_inv in H as [[= ->] ->].
    exists (tick w), (db w0), (tick w), (db w0). split; [apply S1|]. split; [apply S1|]. split; [done|]. by apply Hi.
Qed.

Lemma pages_cover {A} (l : Z) (L : list A) n :
  0 ≤ l → concat (map (λ k, page (Z.of_nat k * l) l L) (seq 0 n)) = take (n * Z.to_nat l) L.
Proof.
  intros Hl. induction n as [|n IH]; [done|].
  rewrite seq_S, map_app, concat_app, IH. cbn [map concat plus]. rewrite app_nil_r.
  unfold page. rewrite Z2Nat.inj_mul, Nat2Z.id by lia.
  rewrite <- (take_drop (n * Z.to_nat l) (take (S n * Z.to_nat l) L)), take_take, skipn_firstn_comm.
  f_equal; f_equal; lia.
Qed.

Definition row_name (row : PackageRow * option OrgRow) : option (string * string) :=
  o ← row.2; Some (o.(org_slug), row.1.(pkg_name)).

Lemma summarized_names d rows items :
  Forall2 (summarizes d) (List.filter (λ row : PackageRow * option OrgRow, is_some row.2) rows) items →
  map (λ i, (i.(ps_org), i.(ps_name))) items = omap row_name rows.
Proof.
  revert items. induction rows as [|[p [o|]] rows IH]; intros items H; cbn in *.
  - by apply Forall2_nil_inv_l in H as ->.
  - apply Forall2_cons_inv_l in H as (i & l & (o' & [= <-] & (d1 & _ & ->)) & H2 & ->). cbn. f_equal. by apply IH.
  - by apply IH.
Qed.

(** Writers that leave packages and organizations alone. *)
Definition same_catalog (d d' : Db) : Prop := packages d' = packages d ∧ orgs d' = orgs d.
#[local] Instance same_catalog_preorder : PreOrder same_catalog.
Proof. split; [done|]. intros a b c [H1 H2] [H3 H4]. split; congruence. Qed.

Lemma listing_same want t d d' : same_catalog d d' → listing want t d' = listing want t d.
Proof.
  intros [Hp Ho]. assert (newest_first t d' = newest_first t d) as Hn; [|by destruct want; cbn; rewrite Hn].
  unfold newest_first, with_org. by rewrite Hp, Ho.
Qed.

(** A listing can be read page by page. On a catalog nobody changes, requests
    for consecutive pages answer, all together and in order, every package with
    an organization that carries the tags exactly once, newest first, and each
    reports the length of the whole listing as the total. With a tag filter the
    listing is cut to the newest two thousand packages before the tags are
    looked at. *)
Theorem list_pages_cover d tags limit resps n t0 :
  (∀ t d, same_catalog d (others_db t d)) → (∀ t l, row_order t l = row_order t0 l) → (∀ t l, row_order t l ≡ₚ l) →
  let l := clamp 1 200 limit in
  let whole := listing (parse_tag_filter tags) t0 d in
  (∀ k, (k < n)%nat → ∃ w w', db w = d ∧
     list_packages (mk_list_params tags limit (Z.of_nat k * l)) w = (Ok (resps k), w')) →
  zlength whole ≤ Z.of_nat n * l →
  map (λ i, (i.(ps_org), i.(ps_name))) (concat (map (λ k, pl_items (resps k)) (seq 0 n))) = omap row_name whole ∧
  ∀ k, (k < n)%nat → (resps k).(pl_total) = zlength whole.
Proof.
  intros rely Hstable Horder l whole Hk Hn.
  assert (∀ d', background d d' → same_catalog d d') as Hbg
    by (apply background_ind_rel; [typeclasses eauto|exact rely|done]).
  assert (∀ t d', background d d' → listing (parse_tag_filter tags) t d' = whole) as Hlist.
  { intros t d' Hb. rewrite (listing_same _ _ _ _ (Hbg _ Hb)). unfold whole.
    assert (newest_first t d = newest_first t0 d) as Hnf by (unfold newest_first; by rewrite Hstable).
    by destruct (parse_tag_filter tags); cbn; rewrite Hnf. }
  assert (∀ k, (k < n)%nat → (resps k).(pl_total) = zlength whole ∧
    map (λ i, (i.(ps_org), i.(ps_name))) (resps k).(pl_items) = omap row_name (page (Z.of_nat k * l) l whole)) as Hpage.
  { intros k Hlt. destruct (Hk k Hlt) as (w & w' & <- & H). apply list_packages_run in H as H'; [|done].
    destruct H' as (t & d1 & t1 & d2 & B1 & B2 & Ht & Hi). cbn [lp_tags lp_limit lp_offset] in *.
    rewrite Hlist in Ht by done. split; [done|].
    rewrite Hlist in Hi by done. by apply summarized_names in Hi. }
  split; [|intros k Hlt; by apply Hpage].
  assert (0 ≤ l) as Hl by (unfold l, clamp; lia).
  rewrite <- (take_ge whole (n * Z.to_nat l)).
  2:{ unfold zlength in Hn. apply Nat2Z.inj_le. rewrite Nat2Z.inj_mul, Z2Nat.id; lia. }
  rewrite <- pages_cover by done. clear Hk Hn Hlist. induction n as [|n IH]; [done|].
  rewrite seq_S, !map_app, !concat_app, map_app, omap_app. cbn [plus map concat].
  rewrite !app_nil_r, (proj2 (Hpage n ltac:(lia))). f_equal. apply IH. intros k Hlt. apply Hpage. lia.
Qed.
End answers.
