(* ===== verification/AuditRoutes.v ===== *)
(** * Reading the audit trail ([src/routes/audit.rs]) *)

From S2P Require Export RegistryFacts AuditFacts.

Class AuditRouteExternals := {
  (** [AuditAction::parse] *)
  action_parse : string → option AuditAction;
}.

Definition DEFAULT_LIMIT : Z := 100.
Definition MAX_LIMIT : Z := 1000.
Definition MAX_VERIFY_ROWS : Z := 50000.

Record AuditQuery := mk_audit_query {
  aq_limit : option Z;
  aq_action : option string;
  aq_before : option Z;
}.

Record AuditEntry := mk_entry {
  ae_at : string;
  ae_action_kind : option AuditAction;
  ae_action : string;
  ae_subject : string;
  ae_actor_token_name : string;
  ae_actor_role : string;
  ae_detail : option string;
  ae_seq : Z;
  ae_entry_hash : string;
  ae_prev_hash : option string;
}.

Record AuditLogResponse := mk_log { al_org : string; al_entries : list AuditEntry }.

Record AuditIntegrityResponse := mk_integrity {
  ai_org : string;
  ai_intact : bool;
  ai_entries_checked : Z;
  ai_first_bad_seq : option Z;
  ai_problem : option string;
  ai_head_hash : option string;
}.

(** The rows of a query's filters. *)
Definition audit_selected (org : uuid) (action : option string) (before : option Z) (d : Db) : list AuditRow :=
  List.filter (λ r, match before with Some b => r.(aud_seq) <? b | None => true end)
    (List.filter (λ r, match action with Some a => r.(aud_action) =s a | None => true end) (org_rows org d)).

(** [order_by_desc(Seq)], ties by [order_by_desc(At)]. *)
Definition latest_first (rows : list AuditRow) : list AuditRow :=
  order_by_desc aud_seq (order_by_desc aud_at rows).

Definition audit_limit (query : AuditQuery) : Z := clamp 1 MAX_LIMIT (default DEFAULT_LIMIT query.(aq_limit)).

Definition audit_page (org : uuid) (query : AuditQuery) (d : Db) : list AuditRow :=
  take (Z.to_nat (audit_limit query))
    (latest_first (audit_selected org query.(aq_action) query.(aq_before) d)).

Section audit_routes.
Context `{ext : Externals} `{aext : AuditExternals} `{arx : AuditRouteExternals}.

Definition to_entry (r : AuditRow) : AuditEntry :=
  mk_entry (rfc3339 r.(aud_at)) (action_parse r.(aud_action)) r.(aud_action) r.(aud_subject)
    r.(aud_actor_token_name) r.(aud_actor_role) r.(aud_detail) (wrap_u64 (Z.max 0 r.(aud_seq)))
    r.(aud_entry_hash) r.(aud_prev_hash).

Definition check_action (query : AuditQuery) : ApiResult unit :=
  match query.(aq_action) with
  | Some action =>
      reject_if (negb (is_some (action_parse action)))
        (bad_request "invalid_action"
          ("unknown action `" +:+ action +:+ "`; expected publish, yank, unyank, or org_claim"))
  | None => Ok tt
  end.

Definition get_audit_log (org_slug : string) (query : AuditQuery) (headers : HeaderMap)
    : M ApiErr AuditLogResponse :=
  token ← require_token headers;
  org_row ← find_org org_slug;
  lift (authorize_manage token.(tok_org_id) (RoleImpl.parse token.(tok_role)) org_row.(org_id));;
  lift (check_action query);;
  rows ← db_q (on_db (read (audit_page org_row.(org_id) query)));
  mret (mk_log org_slug (map to_entry rows)).

Definition integrity_response (org_slug : string) (report : ChainReport) : AuditIntegrityResponse :=
  mk_integrity org_slug report.(intact) report.(entries_checked)
    ((λ s, wrap_u64 (Z.max 0 s)) <$> report.(first_bad_seq))
    (problem_as_str <$> report.(chain_problem)) report.(head_hash).

Definition verified_rows (org : uuid) (d : Db) : list AuditRow :=
  take (Z.to_nat MAX_VERIFY_ROWS) (order_by_asc aud_seq (org_rows org d)).

Definition verify_audit_log (org_slug : string) (headers : HeaderMap) : M ApiErr AuditIntegrityResponse :=
  token ← require_token headers;
  org_row ← find_org org_slug;
  lift (authorize_manage token.(tok_org_id) (RoleImpl.parse token.(tok_role)) org_row.(org_id));;
  rows ← db_q (on_db (read (verified_rows org_row.(org_id))));
  mret (integrity_response org_slug (verify_chain rows)).
End audit_routes.

(** ** Ordering *)

Section desc.
Context {A : Type} (key : A → Z).

Definition decreasing (l : list A) : Prop := StronglySorted (λ a b, key b < key a) l.

#[local] Instance decreasing_antisymm : AntiSymm (=) (λ a b, key b < key a).
Proof. intros a b H1 H2. lia. Qed.

Lemma decreasing_unique l l' : decreasing l → decreasing l' → l ≡ₚ l' → l = l'.
Proof. apply StronglySorted_unique. typeclasses eauto. Qed.

(** Rows with distinct keys, ordered by them. *)
Lemma order_by_desc_decreasing l : NoDup (key <$> l) → decreasing (order_by_desc key l).
Proof.
  induction l as [|x l IH]; [constructor|]. cbn. intros [Hx Hl]%NoDup_cons. specialize (IH Hl).
  assert (∀ y, y ∈ order_by_desc key l → key y ≠ key x) as Hne.
  { intros y Hy Heq. apply Hx. rewrite order_by_desc_perm in Hy. rewrite <- Heq. by apply list_elem_of_fmap_2. }
  fold (order_by_desc key l) in *. induction IH as [|y r Hr IH2 Hy]; cbn; [by repeat constructor|].
  assert (key y ≠ key x) as Hyx by (apply Hne; left).
  destruct (Z.leb_spec (key y) (key x)).
  - constructor; [by constructor|]. constructor; [lia|]. eapply Forall_impl; [exact Hy|]. cbn. lia.
  - constructor; [apply IH2; intros z Hz; apply Hne; by right|].
    apply Forall_forall. intros z Hz. rewrite insert_desc_perm in Hz.
    apply elem_of_cons in Hz as [->|Hz]; [done|]. rewrite Forall_forall in Hy. by apply Hy.
Qed.

(** Below a row's key come exactly the rows after it. *)
Lemma decreasing_below l k x :
  decreasing l → l !! k = Some x → List.filter (λ y, key y <? key x) l = drop (S k) l.
Proof.
  intros Hl. revert k. induction Hl as [|y r Hr IH Hy]; [done|]. intros [|k] Hk; cbn in *.
  - injection Hk as ->. rewrite Z.ltb_irrefl, drop_0. apply List.forallb_filter_id.
    apply forallb_Forall. eapply Forall_impl; [exact Hy|]. intros z Hz. by apply Z.ltb_lt.
  - assert (key x < key y) as Hlt.
    { rewrite Forall_forall in Hy. apply Hy. by eapply list_elem_of_lookup_2. }
    rewrite (proj2 (Z.ltb_ge _ _)) by lia. by apply IH.
Qed.
End desc.

Lemma NoDup_filter_key {A} (key : A → Z) (f : A → bool) l : NoDup (key <$> l) → NoDup (key <$> List.filter f l).
Proof.
  induction l as [|x l IH]; [done|]. cbn. intros [Hx Hl]%NoDup_cons. destruct (f x); [|by apply IH].
  cbn. apply NoDup_cons. split; [|by apply IH]. intros (y & Hy & Hin)%list_elem_of_fmap. apply Hx.
  rewrite Hy. apply list_elem_of_fmap_2. apply list_elem_of_In in Hin as Hin'.
  apply list_elem_of_In. by apply filter_In in Hin' as [? _].
Qed.

Lemma latest_first_perm rows : latest_first rows ≡ₚ rows.
Proof. unfold latest_first. by rewrite !order_by_desc_perm. Qed.

Lemma latest_first_decreasing rows : NoDup (aud_seq <$> rows) → decreasing aud_seq (latest_first rows).
Proof. intros H. apply order_by_desc_decreasing. by rewrite order_by_desc_perm. Qed.

(** The trail can be read page by page, backwards. In a log with distinct
    positions, a page that starts before the position of some entry of the
    listing continues exactly where that entry ends it, for every filter by
    action and every page size; the listing holds exactly the organization's
    entries with that action, the latest first. *)
Theorem audit_pages_continue org limit action d :
  NoDup (aud_seq <$> org_rows org d) →
  let whole := latest_first (audit_selected org action None d) in
  let page before := audit_page org (mk_audit_query limit action before) d in
  let size := Z.to_nat (audit_limit (mk_audit_query limit action None)) in
  decreasing aud_seq whole ∧
  (∀ r, r ∈ whole ↔ r ∈ org_rows org d ∧ ∀ a, action = Some a → r.(aud_action) = a) ∧
  (0 < size ≤ 1000)%nat ∧ page None = take size whole ∧
  ∀ k r, whole !! k = Some r → page (Some r.(aud_seq)) = take size (drop (S k) whole).
Proof.
  intros Hd whole page size.
  assert (NoDup (aud_seq <$> audit_selected org action None d)) as Hn by (by do 2 apply NoDup_filter_key).
  assert (decreasing aud_seq whole) as Hw by (by apply latest_first_decreasing).
  split; [done|]. split; [|split; [|split; [done|]]].
  - intros r. unfold whole. rewrite latest_first_perm. unfold audit_selected.
    rewrite list_elem_of_In, !filter_In, <- list_elem_of_In.
    split.
    + intros [[H1 H2] _]. split; [done|]. intros a ->. by apply String.eqb_eq.
    + intros [H1 H2]. split; [|done]. split; [done|]. destruct action as [a|]; [|done].
      apply String.eqb_eq. by apply H2.
  - unfold size, audit_limit, clamp, MAX_LIMIT. lia.
  - intros k r Hk. unfold page, audit_page. cbn [aq_limit aq_action aq_before]. f_equal.
    rewrite <- (decreasing_below aud_seq whole k r Hw Hk).
    apply (decreasing_unique aud_seq).
    + apply latest_first_decreasing. by do 2 apply NoDup_filter_key.
    + assert (∀ f (l : list AuditRow), decreasing aud_seq l → decreasing aud_seq (List.filter f l)) as Hs.
      { intros f l. induction 1 as [|x l Hl IH Hx]; cbn; [constructor|]. destruct (f x); [|done].
        constructor; [done|]. apply Forall_forall. intros y [Hy _]%list_elem_of_In%filter_In.
        rewrite Forall_forall in Hx. by apply Hx, list_elem_of_In. }
      by apply Hs.
    + rewrite latest_first_perm. unfold whole. rewrite (filter_perm _ _ _ (latest_first_perm _)).
      unfold audit_selected. apply filter_perm. by rewrite List.filter_true.
Qed.

(** ** The handlers *)

Section read_facts.
Context `{ext : Externals} `{web : WebExternals} `{aext : AuditExternals} `{arx : AuditRouteExternals}.

(** Who may read: a live token that manages the organization of the route. *)
Definition manages (d : Db) (headers : HeaderMap) (org_slug : string) (token : TokenRow) (org : OrgRow) : Prop :=
  seen d (λ d, ∃ t, token_verdict headers d t = Ok token) ∧
  seen d (λ d, find_org_by_slug org_slug d = Some org) ∧ may_manage token org.(org_id).

Lemma authorize_manage_Ok token org :
  authorize_manage (tok_org_id token) (RoleImpl.parse (tok_role token)) org = Ok tt ↔ may_manage token org.
Proof. apply (authorize_publish_cases token org). Qed.

(** The common beginning of the handlers of the organization's owners. *)
Lemma manager_sees {A} headers org_slug (k : TokenRow → OrgRow → M ApiErr A) w r w' :
  (token ← require_token headers;
   org_row ← find_org org_slug;
   lift (authorize_manage token.(tok_org_id) (RoleImpl.parse token.(tok_role)) org_row.(org_id));;
   k token org_row) w = (r, w') →
  (sees w w' ∧ ∃ e, r = Err e) ∨
  ∃ token org w1, sees w w1 ∧ manages (db w) headers org_slug token org ∧ k token org w1 = (r, w').
Proof.
  intros H. M_step H; apply require_token_sees in R as [S1 Hv]; [left; by eauto|].
  M_step H; apply find_org_sees in R as [S2 Ho]; [left; split; [by etrans|by eauto]|].
  M_step H; apply lift_inv in R as [Hauth ->]; [left; split; [by etrans|by eauto]|].
  destruct a1. symmetry in Hauth. apply authorize_manage_Ok in Hauth.
  assert (sees w w1) as S by (by etrans).
  right. exists a, a0, w1. split; [done|]. split; [|done]. split; [|split; [|done]].
  - eapply seen_now; [apply (background_others (tick w))|]. eexists. by apply Hv.
  - eapply seen_now; [apply S|]. by apply Ho.
Qed.

(** Only the organization's owners read its audit trail, and reading
    changes nothing. A request for the log or for its verification touches
    neither tables nor store, whatever it answers; a log answer is one page, of
    the requested filters, of the organization of the route, for a live token
    that manages it, and an action nobody records is refused instead of
    ignored. *)
Theorem audit_log_owner_only org_slug query headers w r w' :
  get_audit_log org_slug query headers w = (r, w') →
  txn w' = txn w ∧ objects w' = objects w ∧ background (db w) (db w') ∧
  ∀ resp, r = Ok resp →
    resp.(al_org) = org_slug ∧
    (∀ a, query.(aq_action) = Some a → is_some (action_parse a) = true) ∧
    ∃ token org, manages (db w) headers org_slug token org ∧
      seen (db w) (λ d, resp.(al_entries) = map to_entry (audit_page org.(org_id) query d)).
Proof.
  intros H. unfold get_audit_log in H.
  apply manager_sees in H as [[(T & O & B) [e ->]]|(token & org & w1 & S1 & Hm & H)]; [by split_and!|].
  M_step H; apply lift_inv in R as [Hc ->]; [destruct S1 as (T & O & B); by split_and!|].
  M_step H; apply sees_db_q in R as [S2 Hr];
    (assert (sees w w') as (T & O & B) by (try apply mret_inv in H as [_ ->]; by etrans));
    (split; [done|]); (split; [done|]); (split; [done|]); [done|].
  destruct Hr as [[= ->]|]; [|done]. apply mret_inv in H as [-> ->]. intros resp [= <-]. split; [done|].
  split.
  - intros x Hx. unfold check_action in Hc. rewrite Hx in Hc.
    by destruct (is_some (action_parse x)).
  - exists token, org. split; [done|]. by eapply seen_now.
Qed.

Lemma chain_ok_prefix prev want l1 l2 : chain_ok prev want (l1 ++ l2) → chain_ok prev want l1.
Proof. intros H. by apply chain_ok_app in H as [? _]. Qed.

(** The oldest rows of a well-formed log verify. *)
Lemma verified_rows_intact bound org d :
  org_log_wf bound (org_rows org d) → (verify_chain (verified_rows org d)).(intact) = true.
Proof.
  intros [Hi _ Hc _]. apply verify_chain_intact. unfold verified_rows.
  rewrite order_by_asc_increasing by done.
  rewrite <- (take_drop (Z.to_nat MAX_VERIFY_ROWS) (org_rows org d)), List.filter_app in Hc.
  by eapply chain_ok_prefix.
Qed.

(** C29: what a verification answer means. It is given to the organization's
    owners only, changes nothing, and reports [intact] exactly when the first
    fifty thousand entries, by position, form a chain; so a log written by
    [record] alone verifies, and a log that was broken there does not. *)
Theorem verify_audit_log_spec org_slug headers w r w' :
  verify_audit_log org_slug headers w = (r, w') →
  txn w' = txn w ∧ objects w' = objects w ∧ background (db w) (db w') ∧
  ∀ resp, r = Ok resp →
    resp.(ai_org) = org_slug ∧
    ∃ token org d, manages (db w) headers org_slug token org ∧ background (db w) d ∧
      (resp.(ai_intact) = true ↔ chain_ok "" None (List.filter is_chained (verified_rows org.(org_id) d))) ∧
      (∀ bound, org_log_wf bound (org_rows org.(org_id) d) → resp.(ai_intact) = true) ∧
      resp.(ai_entries_checked) ≤ MAX_VERIFY_ROWS.
Proof.
  intros H. unfold verify_audit_log in H.
  apply manager_sees in H as [[(T & O & B) [e ->]]|(token & org & w1 & S1 & Hm & H)]; [by split_and!|].
  M_step H; apply sees_db_q in R as [S2 Hr];
    (assert (sees w w') as (T & O & B) by (try apply mret_inv in H as [_ ->]; by etrans));
    (split; [done|]); (split; [done|]); (split; [done|]); [done|].
  destruct Hr as [[= ->]|]; [|done]. apply mret_inv in H as [-> ->]. intros resp [= <-]. split; [done|].
  exists token, org, (db w0). split; [done|]. split; [done|]. cbn [ai_intact ai_entries_checked integrity_response].
  split; [apply verify_chain_intact|]. split; [intros bound; apply verified_rows_intact|].
  assert (Z.of_nat (length (List.filter is_chained (verified_rows (org_id org) (db w0)))) ≤ MAX_VERIFY_ROWS) as Hl.
  { etrans; [apply Nat2Z.inj_le, filter_length_le|]. unfold verified_rows. rewrite length_take.
    unfold MAX_VERIFY_ROWS. lia. }
  destruct (verify_chain_cases (verified_rows (org_id org) (db w0)))
    as [[_ ->]|[_ (good & bad & rest & Hg & _ & _ & -> & _)]]; [done|].
  rewrite Hg, length_app in Hl. lia.
Qed.
End read_facts.
