(* ===== verification/Files.v ===== *)
(** * Serving one file out of an archive ([src/files.rs])

    The budget on inflated bytes, the search for an entry, the cap on its size,
    and the headers of a served file. The decompressor, the tar and the zip
    reader are other crates: the model takes them as what they do on their
    reader, read by read. *)

From S2P Require Export Routes.

(** ** Input and output *)

(** An [io::Error]: its text, and those of its causes, each with whether it is
    an [io::Error] itself. *)
Record IoError := mk_io_error {
  io_display : string;
  io_causes : list (bool * string);
}.

Inductive ExtractError : Type :=
| TooLarge
| InflationBudgetExceeded
| Archive (e : string).

Inductive ArtifactFormat : Type := TarGz | Zip.

(** An entry's contents, as its reader delivers them to successive requests: the
    end, a failure, a chunk, or first a read of at most [buf_len] bytes of the
    reader below. *)
Inductive Body : Type :=
| BodyEnd
| BodyFail (e : IoError)
| BodyChunk (chunk : string) (next : Body)
| BodyRead (buf_len : Z) (k : result IoError string → Body).

(** What the tar crate does with its reader, entry by entry. *)
Inductive Tar : Type :=
| TarEnd
| TarFail (e : IoError)
| TarRead (buf_len : Z) (k : result IoError string → Tar)
| TarEntry (path : result IoError string) (size : Z) (body : Body) (next : Tar).

Inductive ZipError : Type := FileNotFound | ZipOther (text : string).

Class FilesExternals := {
  ARCHIVE_ROOT : string;
  (** [GzDecoder] and its [Read::read] into a buffer of the given length *)
  Gz : Type;
  gz_new : string → Gz;
  gz_read : Gz → Z → result IoError string * Gz;
  (** [tar::Archive], from [entries] on *)
  tar_archive : Tar;
  (** [ZipArchive::new] with [by_name]: the declared size, the contents, and
      where in the archive they start *)
  zip_by_name : string → string → result ZipError (Z * Body * string);
  (** the variant with an extension *)
  format_of_extension : string → ArtifactFormat;
}.

(** ** Limits *)

Definition IMMUTABLE_CACHE : string := "public, max-age=31536000, immutable".
Definition MAX_SERVED_FILE_BYTES : Z := 25 * 1024 * 1024.
Definition DEFAULT_MAX_INFLATED_BYTES : Z := 512 * 1024 * 1024.

(** [flag] is the value of [ZED_MAX_INFLATED_BYTES], where it is set. *)
Definition max_inflated_bytes (flag : option string) : Z :=
  default DEFAULT_MAX_INFLATED_BYTES
    (v ← flag; n ← parse_unsigned u64_max v; if 0 <? n then Some n else None).

Definition INFLATION_BUDGET_MSG : string := "zed: archive exceeded the decompression budget".

Definition is_budget_error (err : IoError) : bool :=
  existsb (λ cause : bool * string, cause.1 && contains_str INFLATION_BUDGET_MSG cause.2)
    ((true, err.(io_display)) :: err.(io_causes))
  || contains_str INFLATION_BUDGET_MSG err.(io_display).

Definition map_tar_err (err : IoError) : ExtractError :=
  if contains_str INFLATION_BUDGET_MSG err.(io_display) then InflationBudgetExceeded
  else if is_budget_error err then InflationBudgetExceeded
  else Archive err.(io_display).

(** ** Readers *)

Section read_capped.
Context {R : Type} (read : R → Z → result IoError string * R).

(** [io::copy] from [reader.take(limit)]. *)
Fixpoint copy_take (body : Body) (limit : Z) (buf : string) (r : R) : result ExtractError string * R :=
  if limit <=? 0 then (Ok buf, r)
  else
    match body with
    | BodyEnd => (Ok buf, r)
    | BodyFail e => (Err (map_tar_err e), r)
    | BodyChunk chunk next =>
        if is_empty chunk then (Ok buf, r)
        else
          let got := substring 0 (Z.to_nat limit) chunk in
          copy_take next (limit - slen got) (buf +:+ got) r
    | BodyRead buf_len k => let '(x, r) := read r buf_len in copy_take (k x) limit buf r
    end.

Definition read_capped (body : Body) (r : R) : result ExtractError string * R :=
  match copy_take body (MAX_SERVED_FILE_BYTES + 1) "" r with
  | (Ok buf, r) =>
      if MAX_SERVED_FILE_BYTES <? slen buf then (Err TooLarge, r) else (Ok buf, r)
  | (Err e, r) => (Err e, r)
  end.
End read_capped.

(** [Cursor] over what is left of a buffer. *)
Definition cursor_read (rest : string) (buf_len : Z) : result IoError string * string :=
  let n := Z.to_nat buf_len in
  (Ok (substring 0 n rest), substring n (String.length rest) rest).

Section files.
Context `{fil : FilesExternals}.

Record BudgetReader := mk_budget { inner : Gz; remaining : Z }.

Definition budget_read (self : BudgetReader) (buf_len : Z) : result IoError string * BudgetReader :=
  if self.(remaining) =? 0 then (Err (mk_io_error INFLATION_BUDGET_MSG []), self)
  else
    let want := Z.min buf_len self.(remaining) in
    match gz_read self.(inner) want with
    | (Ok s, g) => (Ok s, mk_budget g (self.(remaining) - slen s))
    | (Err e, g) => (Err e, mk_budget g self.(remaining))
    end.

(** The loop over the entries. *)
Fixpoint find_entry (want : string) (tar : Tar) (r : BudgetReader)
    : result ExtractError (option string) * BudgetReader :=
  match tar with
  | TarEnd => (Ok None, r)
  | TarFail e => (Err (map_tar_err e), r)
  | TarRead buf_len k => let '(x, r) := budget_read r buf_len in find_entry want (k x) r
  | TarEntry path size body next =>
      match path with
      | Err e => (Err (map_tar_err e), r)
      | Ok path =>
          if path =s want then
            if MAX_SERVED_FILE_BYTES <? size then (Err TooLarge, r)
            else match read_capped budget_read body r with
                 | (Ok file, r) => (Ok (Some file), r)
                 | (Err e, r) => (Err e, r)
                 end
          else find_entry want next r
      end
  end.

Definition archive_reader (archive : string) (flag : option string) : BudgetReader :=
  mk_budget (gz_new archive) (saturating_add u64_max (max_inflated_bytes flag) 1).

Definition extract_file (flag : option string) (archive : string) (format : ArtifactFormat) (rel_path : string)
    : result ExtractError (option string) :=
  let want := ARCHIVE_ROOT +:+ "/" +:+ rel_path in
  match format with
  | TarGz => (find_entry want tar_archive (archive_reader archive flag)).1
  | Zip =>
      match zip_by_name archive want with
      | Err FileNotFound => Ok None
      | Err (ZipOther e) => Err (Archive e)
      | Ok (size, body, data) =>
          if MAX_SERVED_FILE_BYTES <? size then Err TooLarge
          else file ← (read_capped cursor_read body data).1; Ok (Some file)
      end
  end.

(** [From<ExtractError> for ApiErr]. *)
Definition from_extract_error (flag : option string) (err : ExtractError) : ApiErr :=
  match err with
  | TooLarge => mk_api_err StatusCode.PAYLOAD_TOO_LARGE "file_too_large"
      ("files larger than " +:+ dec_of_Z MAX_SERVED_FILE_BYTES
       +:+ " bytes are not served individually; download the artifact instead")
  | InflationBudgetExceeded => mk_api_err StatusCode.PAYLOAD_TOO_LARGE "archive_too_large"
      ("this artifact inflates past the " +:+ dec_of_Z (max_inflated_bytes flag)
       +:+ " byte decompression budget; download the artifact instead of requesting files from it")
  | Archive _ => from_anyhow
  end.
End files.

(** ** Content types *)

(** [path.rsplit('.').next()]: what follows the last dot, or everything. *)
Definition extension_of (path : string) : string :=
  match rsplit_once "." path with Some (_, e) => e | None => path end.

Definition mime_for (path : string) : string :=
  match extension_of path with
  | "css" => "text/css; charset=utf-8"
  | "js" | "mjs" | "cjs" => "text/javascript; charset=utf-8"
  | "json" | "map" => "application/json"
  | "html" | "htm" => "text/html; charset=utf-8"
  | "svg" => "image/svg+xml"
  | "png" => "image/png"
  | "jpg" | "jpeg" => "image/jpeg"
  | "gif" => "image/gif"
  | "wasm" => "application/wasm"
  | "toml" => "application/toml"
  | "md" | "txt" => "text/plain; charset=utf-8"
  | "woff2" => "font/woff2"
  | _ => "application/octet-stream"
  end.

Definition is_active_content (mime : string) : bool :=
  let base := trim (default mime (head (split ";" mime))) in
  (base =s "text/html") || (base =s "image/svg+xml") || (base =s "application/xhtml+xml")
  || contains_str "javascript" base.

Definition served_mime (path : string) : string :=
  let guessed := mime_for path in
  if is_active_content guessed then "text/plain; charset=utf-8" else guessed.

Definition served_file_headers (path : string) : RespHeaders :=
  [("content-type", served_mime path); ("cache-control", IMMUTABLE_CACHE);
   ("content-disposition", "inline"); ("content-security-policy", "sandbox")].

(** ** Theorems *)

(** No served file is active content: whatever the path, the content type
    sent is none a browser executes in the registry's origin, and the response
    is sandboxed. *)
Theorem served_files_inert path :
  is_active_content (served_mime path) = false ∧
  rh_get (served_file_headers path) "content-type" = Some (served_mime path) ∧
  rh_get (served_file_headers path) "content-security-policy" = Some "sandbox".
Proof.
  split; [|done]. unfold served_mime. destruct (is_active_content (mime_for path)) eqn:E; [by vm_compute|done].
Qed.

Lemma slen_substring_le n s : slen (substring 0 n s) ≤ Z.of_nat n.
Proof.
  unfold slen. apply Nat2Z.inj_le. revert n. induction s as [|c s IH]; intros [|n]; cbn; try lia.
  specialize (IH n). lia.
Qed.

Lemma copy_take_length {R} (read : R → Z → result IoError string * R) body limit buf r out r' :
  0 ≤ limit → copy_take read body limit buf r = (Ok out, r') → slen out ≤ slen buf + limit.
Proof.
  revert limit buf r. induction body as [|e|chunk next IH|n k IH]; intros limit buf r Hl; cbn;
    (destruct (Z.leb_spec limit 0); [intros [= <- <-]; lia|]).
  - intros [= <- <-]. lia.
  - done.
  - destruct (is_empty chunk); [intros [= <- <-]; lia|].
    pose proof (slen_substring_le (Z.to_nat limit) chunk) as Hs. intros H'.
    apply IH in H'; [rewrite slen_app in H'; lia|lia].
  - destruct (read r n) as [y r1]. by apply IH.
Qed.

Lemma read_capped_length {R} (read : R → Z → result IoError string * R) body r out r' :
  read_capped read body r = (Ok out, r') → slen out ≤ MAX_SERVED_FILE_BYTES.
Proof.
  unfold read_capped. destruct (copy_take _ _ _ _ _) as [[buf|e] r1]; [|done].
  destruct (Z.ltb_spec MAX_SERVED_FILE_BYTES (slen buf)); [done|]. by intros [= <- <-].
Qed.

Lemma find_entry_cap `{fil : FilesExternals} want tar r file r' :
  find_entry want tar r = (Ok (Some file), r') → slen file ≤ MAX_SERVED_FILE_BYTES.
Proof.
  revert r. induction tar as [|e|n k IH|path size body next IH]; intros r; cbn; try done.
  - destruct (budget_read r n) as [y r1]. by apply IH.
  - destruct path as [path|e]; [|done]. destruct (path =s want); [|by apply IH].
    destruct (_ <? size); [done|]. destruct (read_capped budget_read body r) as [[f|e] r1] eqn:E; [|done].
    intros [= <- <-]. by eapply read_capped_length.
Qed.

(** A file that is served has at most 25 MiB. *)
Lemma extract_file_cap `{fil : FilesExternals} flag archive format rel_path file :
  extract_file flag archive format rel_path = Ok (Some file) → slen file ≤ MAX_SERVED_FILE_BYTES.
Proof.
  unfold extract_file. destruct format.
  - destruct (find_entry _ _ _) as [x r'] eqn:E. cbn. intros ->. by eapply find_entry_cap.
  - destruct (zip_by_name _ _) as [[[size body] data]|[|e]]; [|done..].
    destruct (_ <? size); [done|]. destruct (read_capped _ _ _) as [[y|e] r1] eqn:Ez; cbn; [|done].
    intros [= <-]. by eapply read_capped_length.
Qed.

Section bounded.
Context `{fil : FilesExternals}.

(** [Read]: never more than the buffer holds. *)
Hypothesis gz_contract : ∀ g n s g', gz_read g n = (Ok s, g') → slen s ≤ Z.max 0 n.

(** The decompressor was asked until it had inflated [out]. *)
Inductive inflated : Gz → string → Gz → Prop :=
| inflated_nothing g : inflated g "" g
| inflated_more g n s g' out g'' :
    gz_read g n = (Ok s, g') → inflated g' out g'' → inflated g (s +:+ out) g''
| inflated_failed g n e g' out g'' :
    gz_read g n = (Err e, g') → inflated g' out g'' → inflated g out g''.

Lemma inflated_trans g a g' b g'' : inflated g a g' → inflated g' b g'' → inflated g (a +:+ b) g''.
Proof.
  intros H1 H2. induction H1 as [g|g n s g1 out g2 Hr _ IH|g n e g1 out g2 Hr _ IH]; [done|..].
  - rewrite app_str_assoc. eapply inflated_more; [exact Hr|by apply IH].
  - eapply inflated_failed; [exact Hr|by apply IH].
Qed.

(** What a use of the reader took out of the budget. *)
Definition spent (r r' : BudgetReader) : Prop :=
  ∃ out, inflated r.(inner) out r'.(inner) ∧ slen out + r'.(remaining) = r.(remaining) ∧ 0 ≤ r'.(remaining).

Lemma spent_refl r : 0 ≤ r.(remaining) → spent r r.
Proof. intros H. exists "". split; [constructor|]. by split. Qed.

Lemma spent_trans a b c : spent a b → spent b c → spent a c.
Proof.
  intros (o1 & I1 & E1 & _) (o2 & I2 & E2 & P2). exists (o1 +:+ o2).
  split; [by eapply inflated_trans|]. rewrite slen_app. split; [lia|done].
Qed.

Lemma budget_read_spent r n x r' : 0 ≤ r.(remaining) → budget_read r n = (x, r') → spent r r'.
Proof.
  unfold budget_read. intros H. destruct (Z.eqb_spec (remaining r) 0) as [E|E].
  - intros [= <- <-]. by apply spent_refl.
  - destruct (gz_read (inner r) (Z.min n (remaining r))) as [[s|e] g] eqn:Hr; intros [= <- <-].
    + apply gz_contract in Hr as Hl. exists s. cbn. split; [|lia].
      rewrite <- (app_str_nil_r s). eapply inflated_more; [exact Hr|constructor].
    + exists "". cbn. split; [eapply inflated_failed; [exact Hr|constructor]|by split].
Qed.

Lemma spent_nonneg r r' : spent r r' → 0 ≤ r'.(remaining).
Proof. by intros (? & _ & _ & ?). Qed.

Lemma copy_take_spent body limit buf r x r' :
  0 ≤ r.(remaining) → copy_take budget_read body limit buf r = (x, r') → spent r r'.
Proof.
  revert limit buf r. induction body as [|e|chunk next IH|n k IH]; intros limit buf r Hr; cbn;
    (destruct (limit <=? 0); [intros [= <- <-]; by apply spent_refl|]).
  - intros [= <- <-]. by apply spent_refl.
  - intros [= <- <-]. by apply spent_refl.
  - destruct (is_empty chunk); [intros [= <- <-]; by apply spent_refl|]. by apply IH.
  - destruct (budget_read r n) as [y r1] eqn:E. apply budget_read_spent in E; [|done].
    intros H. eapply spent_trans; [exact E|]. eapply IH; [by eapply spent_nonneg|exact H].
Qed.

Lemma read_capped_spent body r x r' :
  0 ≤ r.(remaining) → read_capped budget_read body r = (x, r') → spent r r'.
Proof.
  intros Hr. unfold read_capped. destruct (copy_take _ _ _ _ _) as [[buf|e] r1] eqn:E;
    apply copy_take_spent in E; try done; [destruct (_ <? _)|]; by intros [= <- <-].
Qed.

Lemma find_entry_spent want tar r x r' :
  0 ≤ r.(remaining) → find_entry want tar r = (x, r') → spent r r'.
Proof.
  revert r. induction tar as [|e|n k IH|path size body next IH]; intros r Hr; cbn;
    try (intros [= <- <-]; by apply spent_refl).
  - destruct (budget_read r n) as [y r1] eqn:E. apply budget_read_spent in E; [|done].
    intros H. eapply spent_trans; [exact E|]. eapply IH; [by eapply spent_nonneg|exact H].
  - destruct path as [path|e]; [|intros [= <- <-]; by apply spent_refl].
    destruct (path =s want); [|by apply IH].
    destruct (_ <? size); [intros [= <- <-]; by apply spent_refl|].
    destruct (read_capped budget_read body r) as [[file|e] r1] eqn:E; intros [= <- <-];
      by apply read_capped_spent in E.
Qed.

Lemma max_inflated_range flag : 0 < max_inflated_bytes flag ≤ u64_max.
Proof.
  unfold max_inflated_bytes, DEFAULT_MAX_INFLATED_BYTES. destruct flag as [v|]; [|by vm_compute]. cbn.
  unfold parse_unsigned. destruct (is_empty _); [by vm_compute|]. destruct (parse_digits 0 _) as [n|]; cbn; [|by vm_compute].
  destruct (Z.leb_spec n u64_max); cbn; [|by vm_compute]. destruct (Z.ltb_spec 0 n); cbn; [by split|by vm_compute].
Qed.

(** C24: a decompression bomb costs no more than the budget. Whatever the archive
    decompresses to, and however the tar reader asks for it, looking one file
    up inflates at most the configured number of bytes and one, and a file that
    is served has at most 25 MiB, whatever size its header declares. *)
Theorem extract_file_bounded flag archive format rel_path :
  (∀ file, extract_file flag archive format rel_path = Ok (Some file) → slen file ≤ MAX_SERVED_FILE_BYTES) ∧
  ∃ r' out,
    find_entry (ARCHIVE_ROOT +:+ "/" +:+ rel_path) tar_archive (archive_reader archive flag)
      = (extract_file flag archive TarGz rel_path, r') ∧
    inflated (gz_new archive) out r'.(inner) ∧ slen out ≤ max_inflated_bytes flag + 1.
Proof.
  pose proof (max_inflated_range flag) as [Hp Hm].
  assert (0 ≤ (archive_reader archive flag).(remaining)) as Hr by (cbn; unfold saturating_add, u64_max; lia).
  unfold extract_file at 2. destruct (find_entry (ARCHIVE_ROOT +:+ "/" +:+ rel_path) tar_archive (archive_reader archive flag)) as [x r'] eqn:E.
  destruct (find_entry_spent _ _ _ _ _ Hr E) as (out & Hi & Hs & H0). split.
  - intros file. apply extract_file_cap.
  - exists r', out. split; [done|]. split; [done|]. cbn in Hs. unfold saturating_add in Hs. lia.
Qed.

(** The reader's own stop is reported as such, not as a corrupt archive. *)
Lemma budget_stop_reported r n :
  r.(remaining) = 0 → ∃ e, (budget_read r n).1 = Err e ∧ map_tar_err e = InflationBudgetExceeded.
Proof. intros H. unfold budget_read. rewrite H. eexists. split; [done|by vm_compute]. Qed.
End bounded.
