(* ===== verification/Artifacts.v ===== *)
(** * Serving artifacts and files ([src/routes/artifacts.rs]) *)

From S2P Require Export Files Canonical Packages RegistryFacts.

Definition IMMUTABLE : string := "public, max-age=31536000, immutable".

(** A response with the bytes of its body; a streamed file is what its handle
    reads. *)
Record ArtifactResponse := mk_artifact_response {
  ar_status : Z;
  ar_headers : RespHeaders;
  ar_body : string;
}.

Definition artifact_requires_private_authorization (packages : list CanonicalPackage) : bool :=
  negb (bool_decide (packages = [])) && forallb (λ p, negb (p.(cp_visibility) =s "public")) packages.

Section artifacts.
Context `{ext : Externals} `{web : WebExternals} `{sto : StoreExternals} `{sgn : SigningExternals}
  `{aext : AuditExternals} `{pub : PublishExternals} `{reg : RegistryExternals} `{pext : PackageExternals}
  `{can : CanonicalReads} `{fil : FilesExternals}.

Definition orm_q {A} (m : M OrmError A) : M ApiErr A := with_err map_orm_error m.

(** The loop over the packages that reference the artifact. *)
Fixpoint member_of_any (packages : list CanonicalPackage) (user : uuid) : M ApiErr unit :=
  match packages with
  | [] => fail (not_found "artifact")
  | package :: packages =>
      org_role ← orm_q (orm (λ t, org_role_for_user t package.(cp_org_id) user));
      if is_some org_role then mret tt
      else
        match package.(cp_project_id) with
        | Some project_id =>
            project_role ← orm_q (orm (λ t, project_role_for_user t project_id user));
            if is_some project_role then mret tt else member_of_any packages user
        | None => member_of_any packages user
        end
  end.

Definition authorize_artifact_read (st : AppState) (headers : HeaderMap) (sha256 : string) : M ApiErr unit :=
  if negb st.(registry_read)
  then fail (service_unavailable "registry_data_plane_unavailable"
               "canonical registry read context is not configured")
  else
    packages ← orm_q (orm (λ t, packages_for_artifact_sha256 t sha256));
    if negb (artifact_requires_private_authorization packages) then mret tt
    else
      reader ← require_package_reader st headers;
      user ← orm_q (orm (λ t, user_by_subject t reader.(reader_session).(realm)
                                reader.(reader_session).(subject)));
      match user with
      | None => fail (not_found "artifact")
      | Some user => member_of_any packages user
      end.

Definition find_by_sha256 (sha256 : string) (d : Db) : option VersionRow :=
  List.find (λ r, r.(ver_sha256) =s sha256) d.(versions).

Definition artifact_headers (format : string) (len : Z) : RespHeaders :=
  [("content-type", content_type_of (artifact_format format)); ("cache-control", IMMUTABLE);
   ("content-length", dec_of_Z len)].

Definition artifact_response (format : string) (d : Download) : ArtifactResponse :=
  match d with
  | Redirect url => mk_artifact_response 302 [("location", url)] ""
  | Bytes bytes => mk_artifact_response StatusCode.OK (artifact_headers format (slen bytes)) bytes
  | File file len => mk_artifact_response StatusCode.OK (artifact_headers format len) file
  end.

Definition get_artifact (st : AppState) (headers : HeaderMap) (sha256 : string) : M ApiErr ArtifactResponse :=
  authorize_artifact_read st headers sha256;;
  found ← db_q (on_db (read (find_by_sha256 sha256)));
  row ← lift (ok_or (not_found "artifact") found);
  d ← any_q (download st.(store) row.(ver_artifact_key));
  mret (artifact_response row.(ver_format) d).

(** [flag] is the value of [ZED_MAX_INFLATED_BYTES]; the extraction runs on the
    blocking pool, where [join_error] says whether its task died. *)
Definition get_file (st : AppState) (flag : option string) (join_error : bool) (org_slug name ver path : string)
    : M ApiErr ArtifactResponse :=
  org_row ← find_org org_slug;
  pkg ← find_package org_row name;
  row ← find_version pkg ver;
  archive ← any_q (get_bytes st.(store) row.(ver_artifact_key));
  let format := format_of_extension (artifact_format row.(ver_format)) in
  lift (reject_if join_error from_anyhow);;
  found ← lift (map_err (from_extract_error flag) (extract_file flag archive format path));
  file ← lift (ok_or (not_found "file") found);
  mret (mk_artifact_response StatusCode.OK (served_file_headers path) file).
End artifacts.

(** ** Who may read an artifact *)

Section access.
Context `{ext : Externals} `{web : WebExternals} `{sto : StoreExternals} `{sgn : SigningExternals}
  `{aext : AuditExternals} `{pub : PublishExternals} `{reg : RegistryExternals} `{pext : PackageExternals}
  `{can : CanonicalReads} `{fil : FilesExternals}.

(** The bytes are public: no canonical package references them, or a public one
    does. *)
Definition public_bytes (packages : list CanonicalPackage) : Prop :=
  packages = [] ∨ ∃ p, p ∈ packages ∧ p.(cp_visibility) = "public".

Lemma requires_private_spec packages :
  artifact_requires_private_authorization packages = false ↔ public_bytes packages.
Proof.
  unfold artifact_requires_private_authorization, public_bytes.
  destruct packages as [|p l]; [naive_solver|]. rewrite bool_decide_false by done. cbn [negb andb].
  assert (∀ l, forallb (λ p, negb (p.(cp_visibility) =s "public")) l
    = negb (existsb (λ p, p.(cp_visibility) =s "public") l)) as ->
    by (clear; induction l as [|q l IH]; [done|]; cbn; by rewrite IH, negb_orb).
  rewrite negb_false_iff, existsb_exists. split.
  - intros (q & Hq%list_elem_of_In & He%String.eqb_eq). right. by exists q.
  - intros [[=]|(q & Hq & He)]. exists q. split; [by apply list_elem_of_In|]. by apply String.eqb_eq.
Qed.

(** The user has a role in the organization or the project of one of them. *)
Definition member (packages : list CanonicalPackage) (user : uuid) : Prop :=
  ∃ p, p ∈ packages ∧
    ((∃ t role, org_role_for_user t p.(cp_org_id) user = Ok (Some role)) ∨
     ∃ t role project, p.(cp_project_id) = Some project ∧ project_role_for_user t project user = Ok (Some role)).

Lemma orm_q_inv {A} (f : nat → result OrmError A) w r w' :
  orm_q (orm f) w = (r, w') →
  (db w' = db w ∧ objects w' = objects w) ∧ r = map_err map_orm_error (f (tick w)).
Proof. intros (x & H & ->)%with_err_inv. apply orm_inv in H as (-> & _ & ? & ? & _). by repeat split. Qed.

Definition still (w w' : World) : Prop := db w' = db w ∧ objects w' = objects w.
#[export] Instance still_preorder : PreOrder still.
Proof. split; [done|]. intros a b c [D1 O1] [D2 O2]. split; congruence. Qed.

Lemma member_of_any_run packages user w r w' :
  member_of_any packages user w = (r, w') → still w w' ∧ (r = Ok tt → member packages user).
Proof.
  revert w. induction packages as [|p l IH]; intros w H; cbn [member_of_any] in H.
  - apply fail_inv in H as [-> ->]. by split.
  - assert (∀ w, member_of_any l user w = (r, w') → still w w' ∧ (r = Ok tt → member (p :: l) user)) as IH'.
    { intros v Hv. apply IH in Hv as [S Hm]. split; [done|]. intros Hr.
      destruct (Hm Hr) as (q & Hq & Hx). exists q. split; [by right|done]. }
    M_step H; apply orm_q_inv in R as [S1 Hr]; [by split|].
    destruct a as [role|]; cbn [is_some] in H.
    { apply mret_inv in H as [-> ->]. split; [done|]. intros _. exists p. split; [by left|]. left.
      destruct (org_role_for_user _ _ _) eqn:E; [|done]. injection Hr as Hr. subst. eauto. }
    destruct (cp_project_id p) as [project|] eqn:Ep.
    + M_step H; apply orm_q_inv in R as [S2 Hp]; [split; [by etrans|done]|].
      destruct a as [role|]; cbn [is_some] in H.
      * apply mret_inv in H as [-> ->]. split; [by etrans|]. intros _. exists p. split; [by left|]. right.
        destruct (project_role_for_user _ _ _) eqn:E; [|done]. injection Hp as Hp. subst. eauto 10.
      * apply IH' in H as [S3 Hm]. split; [|done]. etrans; [exact S1|]. by etrans.
    + apply IH' in H as [S3 Hm]. split; [by etrans|done].
Qed.

(** The reader is one the delegated token names. *)
Definition reads_as (st : AppState) (headers : HeaderMap) (user : uuid) : Prop :=
  ∃ w0 w1 reader t, require_package_reader st headers w0 = (Ok reader, w1) ∧
    user_by_subject t reader.(reader_session).(realm) reader.(reader_session).(subject) = Ok (Some user).

Lemma reader_still st headers w r w' : require_package_reader st headers w = (r, w') → still w w'.
Proof.
  intros H. apply (require_identity_run package_reader_from_introspection) in H as (D & O & _); [done|].
  apply reader_refuses.
Qed.

Lemma authorize_artifact_run st headers sha w r w' :
  authorize_artifact_read st headers sha w = (r, w') →
  still w w' ∧
  (r = Ok tt → ∃ packages t, packages_for_artifact_sha256 t sha = Ok packages ∧
     (public_bytes packages ∨ ∃ user, reads_as st headers user ∧ member packages user)).
Proof.
  intros H. unfold authorize_artifact_read in H. destruct (registry_read st); cbn [negb] in H.
  2:{ apply fail_inv in H as [-> ->]. by split. }
  M_step H; apply orm_q_inv in R as [S1 Hp]; [by split|].
  destruct (packages_for_artifact_sha256 _ _) as [packages|] eqn:Ep; [|done]. injection Hp as ->.
  destruct (artifact_requires_private_authorization packages) eqn:Ea; cbn [negb] in H.
  2:{ apply mret_inv in H as [-> ->]. split; [done|]. intros _.
      exists packages, (tick w). split; [done|]. left. by apply requires_private_spec. }
  M_step H; pose proof (reader_still _ _ _ _ _ R) as S2; [split; [by etrans|done]|].
  M_step H; apply orm_q_inv in R0 as [S3 Hu]; [split; [etrans; [exact S1|]; by etrans|done]|].
  assert (still w w2) as S by (etrans; [exact S1|]; by etrans).
  destruct (user_by_subject _ _ _) as [found|] eqn:Eu; [|done]. injection Hu as ->.
  destruct found as [user|]; [|apply fail_inv in H as [-> ->]; by split].
  apply member_of_any_run in H as [S4 Hm]. split; [by etrans|]. intros Hr.
  exists packages, (tick w). split; [done|]. right. exists user. split; [|by apply Hm].
  exists w0, w1, a, (tick w1). by split.
Qed.

(** What a download is a download of. *)
Lemma download_reads `{laws : !StoreLaws} store key w d w' :
  download store key w = (Ok d, w') →
  match d with
  | Redirect url => ∃ bucket t, store = S3 bucket ∧ s3_presign t key IMMUTABLE_CACHE_CONTROL = Ok url
  | Bytes b => ∃ x, objects w' !! place store key = Some x ∧ b = o_bytes x
  | File b len => ∃ x, objects w' !! place store key = Some x ∧ b = o_bytes x ∧ len = slen b
  end.
Proof.
  intros H. unfold download, memory_get, io in H. destruct store as [max|dir|bucket]; cbn [place].
  - M_step H. M_step R. injection R0 as <- <-. apply lift_inv in R as [Hx ->]. apply mret_inv in H as [[= ->] ->].
    destruct (others_objects _ _ !! key) as [x|] eqn:Ex; [|done]. injection Hx as ->. eauto.
  - M_step H. apply mret_inv in H as [[= ->] ->]. apply with_err_inv in R as (y & R & Hy).
    destruct y as [c|]; [|done]. injection Hy as ->.
    apply on_objects_inv in R as (_ & _ & _ & [(z & o & Ho & [= <-] & Hw)|(? & [=] & _)]).
    destruct (others_objects _ _ !! _) as [x|] eqn:Ez; [|done]. injection Ho as Hb Ho. subst. rewrite Hw. eauto.
  - M_step H. apply mret_inv in H as [[= ->] ->]. injection R as Hu _. eauto.
Qed.

Lemma keeps_download `{laws : !StoreLaws} store key : respects keeps (download store key).
Proof. unfold download, memory_get, io. respects_tac. Qed.
End access.

(** ** What is served *)

(** Writers that publish nothing. *)
Definition no_new_versions (d d' : Db) : Prop :=
  ∀ v, v ∈ versions d' → ∃ v0, v0 ∈ versions d ∧ same_facts v0 v.

#[export] Instance no_new_versions_preorder : PreOrder no_new_versions.
Proof.
  split; [intros d v Hv; by exists v|]. intros a b c H1 H2 v Hv.
  destruct (H2 v Hv) as (v1 & Hv1 & S1). destruct (H1 v1 Hv1) as (v0 & Hv0 & S0). exists v0. split; [done|by etrans].
Qed.

Section served.
Context `{laws : StoreLaws} `{web : WebExternals} `{sgn : SigningExternals}
  `{aext : AuditExternals} `{pub : PublishExternals} `{reg : RegistryExternals} `{pext : PackageExternals}
  `{can : CanonicalReads} `{fil : FilesExternals}.
Hypothesis rely : ∀ t d, no_new_versions d (others_db t d).

Lemma background_no_new d d' : background d d' → no_new_versions d d'.
Proof. apply background_ind_rel; [typeclasses eauto|exact rely|intros f e v Hv; by exists v]. Qed.

Lemma backed_later st v v0 w w' :
  same_facts v0 v → keeps w w' → backed st v0 w → backed st v w'.
Proof.
  intros Hs Hk Hb. apply (backed_same _ _ _ _ Hs) in Hb as (Hst & x & Hx & Hd). split; [done|].
  exists x. split; [by apply Hk|done].
Qed.

(** C9: a download is authorized and genuine. When every version row points at
    its stored bytes (which [publish] maintains: [publish_rows_backed]), nobody
    else publishes during the request, and a request for an artifact succeeds,
    then the bytes are public, or the caller is a delegated reader with a role
    in an organization or a project they are published in; and the response is
    either exactly bytes with the requested digest, immutable, or a redirect to
    a key of the bucket under which such bytes are stored. *)
Theorem get_artifact_genuine st headers sha w resp w' :
  (∀ v, v ∈ versions (db w) → backed st v w) →
  get_artifact st headers sha w = (Ok resp, w') →
  (∃ packages t, packages_for_artifact_sha256 t sha = Ok packages ∧
     (public_bytes packages ∨ ∃ user, reads_as st headers user ∧ member packages user)) ∧
  (resp.(ar_status) = 200 ∧ digest_hex resp.(ar_body) = sha ∧
     rh_get resp.(ar_headers) "cache-control" = Some IMMUTABLE ∧
     rh_get resp.(ar_headers) "content-length" = Some (dec_of_Z (slen resp.(ar_body)))
   ∨ resp.(ar_status) = 302 ∧ ∃ bucket t key url x, st.(store) = S3 bucket ∧
       s3_presign t key IMMUTABLE_CACHE_CONTROL = Ok url ∧ rh_get resp.(ar_headers) "location" = Some url ∧
       objects w !! key = Some x ∧ digest_hex x.(o_bytes) = sha).
Proof.
  intros Hb H. unfold get_artifact in H.
  M_step H. destruct a as []. apply authorize_artifact_run in R as [[D1 O1] Hauth].
  split; [by apply Hauth|].
  M_step H. apply sees_db_q in R as [(T2 & O2 & B2) Hr]. destruct Hr as [[= ->]|]; [|done].
  M_step H. apply lift_inv in R as [Hf ->].
  destruct (find_by_sha256 sha (db w1)) as [row|] eqn:Erow; [|done]. injection Hf as ->.
  unfold find_by_sha256 in Erow. apply List.find_some in Erow as [Hin Hsha]. bool_to_prop.
  apply list_elem_of_In in Hin. rewrite D1 in B2. destruct (background_no_new _ _ B2 row Hin) as (v0 & Hv0 & Hs).
  M_step H. apply mret_inv in H as [[= ->] ->].
  apply with_err_inv in R as (y & R & Hy). destruct y as [d|]; [|done]. injection Hy as ->.
  assert (keeps w w2) as Hk.
  { assert (keeps w w1) as K1 by (intros k x _ Hx; by rewrite O2, O1). etrans; [exact K1|].
    by eapply keeps_download. }
  destruct (backed_later st row v0 w w2 Hs Hk (Hb _ Hv0)) as (_ & x & Hx & Hd & _).
  apply download_reads in R. destruct d as [url|b|b len].
  - right. split; [done|]. destruct R as (bucket & t & Es & Hu).
    destruct (backed_later st row v0 w w Hs ltac:(done) (Hb _ Hv0)) as (_ & z & Hz & Hdz & _).
    rewrite Es in Hz. cbn [place] in Hz. exists bucket, t, row.(ver_artifact_key), url, z.
    repeat split; try done. by rewrite Hdz.
  - left. destruct R as (z & Hz & ->). rewrite Hx in Hz. injection Hz as ->.
    cbn [ar_status ar_body ar_headers artifact_response]. rewrite Hd. by repeat split.
  - left. destruct R as (z & Hz & -> & ->). rewrite Hx in Hz. injection Hz as ->.
    cbn [ar_status ar_body ar_headers artifact_response]. rewrite Hd. by repeat split.
Qed.

(** C25: a served file comes out of the published archive: when every version
    row points at its stored bytes and nobody else publishes meanwhile, a file is the entry of the path in bytes with the recorded
    digest, at most 25 MiB, with the neutral headers. *)
Theorem get_file_genuine st flag join_error org_slug name ver path w resp w' :
  (∀ v, v ∈ versions (db w) → backed st v w) →
  get_file st flag join_error org_slug name ver path w = (Ok resp, w') →
  ∃ org pkg row archive,
    seen (db w) (λ d, find_org_by_slug org_slug d = Some org) ∧
    seen (db w) (λ d, find_package_by_name org.(org_id) name d = Some pkg) ∧
    seen (db w) (λ d, find_version_row pkg.(pkg_id) ver d = Some row) ∧ digest_hex archive = row.(ver_sha256) ∧
    extract_file flag archive (format_of_extension (artifact_format row.(ver_format))) path
      = Ok (Some resp.(ar_body)) ∧
    slen archive ≤ MAX_BUFFERED_ARTIFACT_BYTES ∧ slen resp.(ar_body) ≤ MAX_SERVED_FILE_BYTES ∧
    resp.(ar_headers) = served_file_headers path.
Proof.
  intros Hb H. unfold get_file in H.
  M_step H. apply find_org_sees in R as [S1 Ho]. M_step H. apply find_package_sees in R as [S2 Hp].
  M_step H. apply find_version_sees in R as [S3 Hr]. specialize (Hr _ eq_refl).
  assert (sees w w2) as (T & O & B) by (etrans; [exact S1|]; by etrans).
  M_step H. apply with_err_inv in R as (y & R & Hy). destruct y as [archive|]; [|done]. injection Hy as ->.
  M_step H. apply lift_inv in R0 as [_ ->]. M_step H. apply lift_inv in R0 as [Hx ->].
  M_step H. apply lift_inv in R0 as [Hf ->]. apply mret_inv in H as [[= ->] ->].
  destruct (extract_file _ _ _ _) as [found|] eqn:Ee; [|done]. injection Hx as ->.
  destruct found as [file|]; [|done]. injection Hf as ->.
  assert (no_new_versions (db w) (db w2)) as Hn by (by apply background_no_new).
  exists a, a0, a1, archive. split; [eapply seen_now; [apply S1|by apply Ho]|].
  assert (sees w w1) as (_ & _ & B1) by (by etrans). split; [eapply seen_now; [exact B1|by apply Hp]|].
  split; [eapply seen_now; [exact B|exact Hr]|].
  assert (a1 ∈ versions (db w2)) as Hin.
  { unfold find_version_row in Hr. apply List.find_some in Hr as [Hr _]. by apply list_elem_of_In. }
  destruct (Hn a1 Hin) as (v0 & Hv0 & Hs). pose proof (Hb v0 Hv0) as Hb0.
  assert (keeps w w3) as Hk.
  { assert (keeps w w2) as K2 by (intros k x _ Hk; by rewrite O). etrans; [exact K2|].
    assert (respects keeps (get_bytes st.(store) a1.(ver_artifact_key))) as Hq
      by (unfold get_bytes, memory_get, io; respects_tac). by eapply Hq. }
  destruct (backed_later st a1 v0 w w3 Hs Hk Hb0) as (Hst & x & Hx & Hd & _).
  apply get_bytes_reads in R as (Hlen & z & Hz & ->); [|done]. rewrite Hx in Hz. injection Hz as <-.
  split; [done|]. split; [done|]. split; [done|]. split; [by eapply extract_file_cap|done].
Qed.
End served.

(** ** What is served to whom *)

Section disagree.
Context `{laws : StoreLaws} {calm : CalmStore} `{web : WebExternals} `{sgn : SigningExternals}
  `{aext : AuditExternals} `{pub : PublishExternals} `{reg : RegistryExternals} `{pext : PackageExternals}
  `{can : CanonicalReads} `{fil : FilesExternals}.
(** The database answers, and nobody else writes. *)
Hypothesis calm_db : ∀ t, db_outcome t = Done.
Hypothesis alone : ∀ t d, others_db t d = d.

Lemma calm_read {A} (f : Db → A) w :
  ∃ w', db_q (on_db (read f)) w = (Ok (f (db w)), w') ∧ db w' = db w ∧ objects w' = objects w.
Proof. unfold db_q, with_err, on_db, read. rewrite calm_db, alone. by eexists. Qed.

(** A lookup that finds its row. *)
Lemma calm_find {A} (f : Db → option A) e a w :
  f (db w) = Some a →
  ∃ w', (row ← db_q (on_db (read f)); lift (ok_or e row)) w = (Ok a, w') ∧ db w' = db w ∧ objects w' = objects w.
Proof.
  intros Hf. destruct (calm_read f w) as (w' & H & Hd). exists w'. split; [|done].
  unfold mbind, M_bind. rewrite H, Hf. done.
Qed.

(** Without a bearer token, bytes no package makes public are refused. *)
Lemma anonymous_refused st headers sha w :
  bearer_token headers = None → st.(registry_read) = true →
  (∀ t, ∃ packages, packages_for_artifact_sha256 t sha = Ok packages ∧ ¬ public_bytes packages) →
  ∃ e w', get_artifact st headers sha w = (Err e, w') ∧ status e = 401.
Proof.
  intros Hb Hr Hp. destruct (Hp (tick w)) as (packages & Hk & Hn). rewrite <- requires_private_spec in Hn.
  destruct (artifact_requires_private_authorization packages) eqn:Ea; [|done].
  unfold get_artifact, authorize_artifact_read, require_package_reader, orm_q, orm, with_err, mbind, M_bind, lift.
  rewrite Hr. cbn. rewrite Hk. cbn. rewrite Ea. cbn. rewrite Hb. cbn. by do 2 eexists.
Qed.

(** C38: the routes disagree on who may read the same bytes. Whenever a
    published version's bytes are referenced by canonical packages of which none
    is public, the whole artifact is refused to a caller without a token; yet a
    file of it is served, to anyone: the file's route takes no credentials at
    all. Here the process runs without faults and alone, the canonical read
    plane answers, and the bytes are stored and fit the buffer. *)
Theorem private_files_served_anonymously st headers flag org_slug name ver path org pkg row x file w :
  find_org_by_slug org_slug (db w) = Some org →
  find_package_by_name org.(org_id) name (db w) = Some pkg →
  find_version_row pkg.(pkg_id) ver (db w) = Some row →
  objects w !! place st.(store) row.(ver_artifact_key) = Some x →
  slen x.(o_bytes) ≤ MAX_BUFFERED_ARTIFACT_BYTES →
  extract_file flag x.(o_bytes) (format_of_extension (artifact_format row.(ver_format))) path = Ok (Some file) →
  st.(registry_read) = true →
  (∀ t, ∃ packages, packages_for_artifact_sha256 t row.(ver_sha256) = Ok packages ∧ ¬ public_bytes packages) →
  bearer_token headers = None →
  (∃ e w', get_artifact st headers row.(ver_sha256) w = (Err e, w') ∧ status e = 401) ∧
  (∃ w', get_file st flag false org_slug name ver path w
    = (Ok (mk_artifact_response 200 (served_file_headers path) file), w')).
Proof.
  intros Ho Hp Hv Hx Hmax He Hr Hc Hb. split; [by apply anonymous_refused|].
  destruct (calm_find (find_org_by_slug org_slug) (not_found "org") org w Ho) as (w1 & H1 & D1 & O1).
  rewrite <- D1 in Hp.
  destruct (calm_find (find_package_by_name (org_id org) name) (not_found "package") pkg w1 Hp) as (w2 & H2 & D2 & O2).
  rewrite <- D1, <- D2 in Hv.
  destruct (calm_find (find_version_row (pkg_id pkg) ver) (not_found "version") row w2 Hv) as (w3 & H3 & D3 & O3).
  rewrite <- O1, <- O2, <- O3 in Hx. destruct (calm_get_bytes _ _ _ w3 Hx Hmax) as (w4 & H4).
  exists w4. unfold get_file, find_org, find_package, find_version, any_q, with_err.
  unfold mbind at 1, M_bind at 1. rewrite H1. unfold mbind at 1, M_bind at 1. rewrite H2.
  unfold mbind at 1, M_bind at 1. rewrite H3. unfold mbind, M_bind, lift. rewrite H4. cbn. rewrite He. done.
Qed.
End disagree.
