(* ===== verification/StorageRoutes.v ===== *)
(** * The storage console's routes ([src/routes/storage.rs]) *)

From S2P Require Export Artifacts.

Class StorageRouteExternals := {
  (** [zed_interfaces::manifest::is_sha256_hex] *)
  is_sha256_hex : string → bool;
  (** [to_rfc3339_opts(Secs, true)] *)
  rfc3339_secs : instant → string;
  (** [try_get_by::<i64>] of the columns of the rollup, by what the driver gives
      for the database's type of a count, a sum and a maximum *)
  count_column : Z → option Z;
  sum_column : Z → option Z;
  max_column : Z → option Z;
}.

Section storage_routes.
Context `{ext : Externals} `{web : WebExternals} `{sto : StoreExternals} `{sgn : SigningExternals}
  `{aext : AuditExternals} `{reg : RegistryExternals} `{srx : StorageRouteExternals}.

Definition observed_at_now {E} : M E string := t ← now; mret (rfc3339_secs t).

(** [SELECT DISTINCT sha256, size FROM version]. *)
Definition distinct_artifacts (d : Db) : list (string * Z) :=
  remove_dups (map (λ v, (v.(ver_sha256), v.(ver_size))) d.(versions)).

Definition sum_sizes (l : list (string * Z)) : Z := foldr (λ e n, e.2 + n) 0 l.
(** [COALESCE(MAX(size), 0)]. *)
Definition max_size (l : list (string * Z)) : Z :=
  default 0 (foldr (λ e m, Some (match m with Some m => Z.max e.2 m | None => e.2 end)) None l).

Definition usage_of (l : list (string * Z)) : StorageUsage :=
  mk_usage (Z.max 0 (default 0 (count_column (zlength l))))
    (Z.max 0 (default 0 (sum_column (sum_sizes l))))
    (Z.max 0 (default 0 (max_column (max_size l)))).

Definition usage_from_registry : M DbErr StorageUsage :=
  l ← on_db (read distinct_artifacts);
  mret (usage_of l).

Definition status (st : AppState) (limits : StorageLimits) (headers : HeaderMap) : M ApiErr StorageStatus :=
  require_token headers;;
  health ← probe st.(store);
  usage ← attempt usage_from_registry;
  at_ ← observed_at_now;
  mret (StorageStatus_new st.(storage_backend) health
    (match usage with Ok usage => usage | Err _ => usage_default end) limits at_).

Definition artifact (st : AppState) (sha256 : string) (headers : HeaderMap) : M ApiErr StorageObjectReport :=
  require_token headers;;
  lift (reject_if (negb (is_sha256_hex sha256))
    (bad_request "invalid_digest" "artifact digest must be 64 lowercase hex characters"));;
  found ← db_q (on_db (read (find_by_sha256 sha256)));
  row ← lift (ok_or (not_found "artifact") found);
  head ← with_err (λ error, service_unavailable "storage_unavailable" (redact_backend_error error))
           (object_head st.(store) row.(ver_artifact_key));
  at_ ← observed_at_now;
  mret (object_report row.(ver_artifact_key) row.(ver_sha256) (wrap_u64 (Z.max 0 row.(ver_size))) head at_).
End storage_routes.

(** ** Facts *)

Section facts.
Context `{ext : Externals} `{web : WebExternals} `{sto : StoreExternals} `{sgn : SigningExternals}
  `{aext : AuditExternals} `{reg : RegistryExternals} `{srx : StorageRouteExternals}.

(** A byte-identical artifact is counted once, whatever is published under it. *)
Lemma distinct_artifacts_once d v :
  v ∈ versions d →
  NoDup (distinct_artifacts d) ∧ (v.(ver_sha256), v.(ver_size)) ∈ distinct_artifacts d ∧
  distinct_artifacts (set_versions (λ l, v :: l) d) = distinct_artifacts d.
Proof.
  intros Hv. assert ((v.(ver_sha256), v.(ver_size)) ∈ map (λ v, (v.(ver_sha256), v.(ver_size))) (versions d)) as Hin.
  { apply list_elem_of_fmap. by exists v. }
  unfold distinct_artifacts. split; [apply NoDup_remove_dups|]. split; [by apply elem_of_remove_dups|].
  cbn [versions set_versions map remove_dups]. by destruct (decide_rel _ _ _).
Qed.

(** A report is of the registry's own row, to a live token, and never a verdict
    about a store that did not answer. *)
Lemma artifact_report_run st sha headers w r w' :
  artifact st sha headers w = (r, w') →
  (∀ report, r = Ok report →
     ∃ token row head t, seen (db w) (λ d, ∃ t, token_verdict headers d t = Ok token) ∧
       is_sha256_hex sha = true ∧ seen (db w) (λ d, row ∈ versions d) ∧ row.(ver_sha256) = sha ∧
       report = object_report row.(ver_artifact_key) sha (wrap_u64 (Z.max 0 row.(ver_size))) head t).
Proof.
  intros H report ->. unfold artifact in H.
  M_step H. apply require_token_sees in R as [S1 Hv]. specialize (Hv _ eq_refl).
  M_step H. apply lift_inv in R as [Hh ->]. destruct (is_sha256_hex sha) eqn:Esha; [|done].
  M_step H. apply sees_db_q in R as [S2 [[= ->]|]]; [|done].
  M_step H. apply lift_inv in R as [Hf ->]. destruct (find_by_sha256 sha (db w1)) as [row|] eqn:Er; [|done].
  injection Hf as ->. apply List.find_some in Er as [Hin Hsha]. bool_to_prop. apply list_elem_of_In in Hin.
  M_step H. M_step H. apply mret_inv in H as [[= ->] _]. rewrite Hsha.
  exists a, row, a1, a2. split; [eapply seen_now; [apply (background_others (tick w))|eauto]|].
  split; [done|]. split; [|by split]. eapply seen_now; [|exact Hin]. by etrans; [apply S1|apply S2].
Qed.
End facts.
