(* ===== verification/Float64.v ===== *)
(** * Double-precision arithmetic

    The finite doubles as rationals, and the rounding of IEEE 754 [binary64]:
    to nearest, ties to even, down to the subnormal grid. What overflows in
    [f64] is a large rational here; the uses cap it at once. *)

From Stdlib Require Export QArith Qround Qpower Lqa.
From S2P Require Export Prelude.

#[global] Open Scope Z_scope.

(** ** Powers of two and logarithms *)

Definition pow2 (e : Z) : Q := Qpower 2 e.

Lemma pow2_pos e : (0 < pow2 e)%Q.
Proof. apply Qpower_0_lt. reflexivity. Qed.

Lemma pow2_plus a b : (pow2 (a + b) == pow2 a * pow2 b)%Q.
Proof. apply Qpower_plus. discriminate. Qed.

Lemma pow2_Z n : 0 ≤ n → (pow2 n == inject_Z (2 ^ n))%Q.
Proof. intros H. unfold pow2. change 2%Q with (inject_Z 2). symmetry. by apply Zpower_Qpower. Qed.

Lemma pow2_mono a b : a ≤ b → (pow2 a <= pow2 b)%Q.
Proof. intros H. apply Qpower_le_compat_l; [done|discriminate]. Qed.

(** The exponent of a positive rational's leading bit. *)
Definition ilog2 (x : Q) : Z :=
  let k := Z.log2 (Qnum x) - Z.log2 (Zpos (Qden x)) in
  if Qle_bool (pow2 k) x then k else k - 1.

Lemma Q_as_ratio x : (x * inject_Z (Zpos (Qden x)) == inject_Z (Qnum x))%Q.
Proof. destruct x as [n d]. unfold Qeq, inject_Z. cbn. lia. Qed.

Lemma ilog2_spec x : (0 < x)%Q → (pow2 (ilog2 x) <= x)%Q ∧ (x < pow2 (ilog2 x + 1))%Q.
Proof.
  intros Hx. assert (0 < Qnum x) as Hn by (destruct x; unfold Qlt in Hx; cbn in *; lia).
  set (a := Z.log2 (Qnum x)). set (b := Z.log2 (Zpos (Qden x))).
  destruct (Z.log2_spec (Qnum x) Hn) as [L1 U1]. destruct (Z.log2_spec (Zpos (Qden x)) eq_refl) as [L2 U2].
  fold a in L1, U1. fold b in L2, U2. pose proof (Z.log2_nonneg (Qnum x)) as Ha. pose proof (Z.log2_nonneg (Zpos (Qden x))) as Hb.
  fold a in Ha. fold b in Hb.
  rewrite Zle_Qle, <- pow2_Z in L1, L2 by done. rewrite Zlt_Qlt, <- pow2_Z in U1, U2 by lia.
  pose proof (Q_as_ratio x) as Hr. set (n := inject_Z (Qnum x)) in *. set (d := inject_Z (Zpos (Qden x))) in *.
  replace (Z.succ a) with (a + 1) in U1 by lia. replace (Z.succ b) with (b + 1) in U2 by lia.
  rewrite pow2_plus in U1, U2. change (pow2 1) with 2%Q in *.
  pose proof (pow2_pos a) as Pa. pose proof (pow2_pos b) as Pb.
  assert (pow2 a == pow2 (a - b) * pow2 b)%Q as Hab by (rewrite <- pow2_plus; replace (a - b + b) with a by lia; reflexivity).
  pose proof (pow2_pos (a - b)) as Pab. unfold ilog2. fold a b.
  destruct (Qle_bool (pow2 (a - b)) x) eqn:E.
  - apply Qle_bool_iff in E. split; [done|]. rewrite pow2_plus. change (pow2 1) with 2%Q. nra.
  - assert (x < pow2 (a - b))%Q as Hlt by (apply Qnot_le_lt; intros Hc; apply Qle_bool_iff in Hc; congruence).
    replace (a - b - 1 + 1) with (a - b) by lia. split; [|done].
    replace (a - b - 1) with (a - b + -1) by lia. rewrite pow2_plus. change (pow2 (-1)) with (1 # 2)%Q. nra.
Qed.

Lemma pow2_lt_inv a b : (pow2 a < pow2 b)%Q → a < b.
Proof. intros H. by apply (Qpower_lt_compat_l_inv 2). Qed.

Lemma ilog2_mono x y : (0 < x)%Q → (x <= y)%Q → ilog2 x ≤ ilog2 y.
Proof.
  intros Hx Hxy. destruct (ilog2_spec x Hx) as [L _]. destruct (ilog2_spec y ltac:(lra)) as [_ U].
  assert (ilog2 x < ilog2 y + 1); [|lia]. apply pow2_lt_inv. lra.
Qed.

(** ** Rounding to an integer *)

Definition round_half_even (x : Q) : Z :=
  let f := Qfloor x in
  let r := (x - inject_Z f)%Q in
  match Qcompare r (1 # 2) with
  | Lt => f
  | Gt => f + 1
  | Eq => if Z.even f then f else f + 1
  end.

Lemma floor_bounds x : (inject_Z (Qfloor x) <= x)%Q ∧ (x < inject_Z (Qfloor x) + 1)%Q.
Proof.
  split; [apply Qfloor_le|]. pose proof (Qlt_floor x) as H. by rewrite inject_Z_plus in H.
Qed.

Lemma round_half_even_bounds x :
  (inject_Z (round_half_even x) <= x + (1 # 2))%Q ∧ (x - (1 # 2) <= inject_Z (round_half_even x))%Q.
Proof.
  destruct (floor_bounds x) as [L U]. unfold round_half_even.
  destruct (Qcompare_spec (x - inject_Z (Qfloor x)) (1 # 2)) as [E|E|E];
    [destruct (Z.even _)|..]; rewrite ?inject_Z_plus; change (inject_Z 1) with 1%Q; split; lra.
Qed.

Lemma round_half_even_mono x y : (x <= y)%Q → round_half_even x ≤ round_half_even y.
Proof.
  intros H. destruct (floor_bounds x) as [Lx Ux]. destruct (floor_bounds y) as [Ly Uy].
  assert (Qfloor x ≤ Qfloor y) as Hf by (by apply Qfloor_resp_le).
  unfold round_half_even. destruct (Z.eq_dec (Qfloor x) (Qfloor y)) as [E|E].
  - rewrite <- E in *.
    destruct (Qcompare_spec (x - inject_Z (Qfloor x)) (1 # 2)), (Qcompare_spec (y - inject_Z (Qfloor x)) (1 # 2));
      destruct (Z.even (Qfloor x)); try lia; exfalso; lra.
  - destruct (Qcompare _ _), (Qcompare _ _); destruct (Z.even (Qfloor x)), (Z.even (Qfloor y)); lia.
Qed.

Lemma round_half_even_Z n : round_half_even (inject_Z n) = n.
Proof.
  unfold round_half_even. rewrite Qfloor_Z.
  destruct (Qcompare_spec (inject_Z n - inject_Z n) (1 # 2)); [exfalso; lra|done|exfalso; lra].
Qed.

#[export] Instance round_half_even_proper : Proper (Qeq ==> eq) round_half_even.
Proof. intros x y H. apply Z.le_antisymm; apply round_half_even_mono; lra. Qed.

(** ** Rounding to a double *)

Definition min_exponent : Z := -1074.
Definition exponent (x : Q) : Z := Z.max min_exponent (ilog2 x - 52).

Definition round_positive (x : Q) : Q := (inject_Z (round_half_even (x * pow2 (- exponent x))) * pow2 (exponent x))%Q.

Definition rnd (x : Q) : Q :=
  match Qcompare x 0 with
  | Eq => 0
  | Gt => round_positive x
  | Lt => - round_positive (- x)
  end.

Lemma pow2_inverse e : (pow2 e * pow2 (- e) == 1)%Q.
Proof. rewrite <- pow2_plus. replace (e + - e) with 0 by lia. reflexivity. Qed.

Lemma rnd_zero x : (x == 0)%Q → rnd x = 0%Q.
Proof. intros H. unfold rnd. by destruct (Qcompare_spec x 0); [|exfalso; lra..]. Qed.

Lemma rnd_positive x : (0 < x)%Q → rnd x = round_positive x.
Proof. intros H. unfold rnd. by destruct (Qcompare_spec x 0); [exfalso; lra..|]. Qed.

(** A positive number and its double are at the same place of the grid. *)
Lemma scaled x e : (x == x * pow2 (- e) * pow2 e)%Q.
Proof. rewrite <- Qmult_assoc, (Qmult_comm (pow2 (- e))), pow2_inverse. lra. Qed.

Lemma round_positive_error x :
  (0 < x)%Q →
  (round_positive x <= x + (1 # 2) * pow2 (exponent x))%Q ∧ (x - (1 # 2) * pow2 (exponent x) <= round_positive x)%Q.
Proof.
  intros Hx. unfold round_positive. set (e := exponent x). pose proof (pow2_pos e) as He.
  destruct (round_half_even_bounds (x * pow2 (- e))) as [U L]. pose proof (scaled x e) as Hs. split; nra.
Qed.

Lemma round_positive_nonneg x : (0 < x)%Q → (0 <= round_positive x)%Q.
Proof.
  intros Hx. unfold round_positive. assert (0 ≤ round_half_even (x * pow2 (- exponent x))) as H.
  { rewrite <- (round_half_even_Z 0). apply round_half_even_mono. pose proof (pow2_pos (- exponent x)).
    change (inject_Z 0) with 0%Q. nra. }
  rewrite Zle_Qle in H. pose proof (pow2_pos (exponent x)). change (inject_Z 0) with 0%Q in H. nra.
Qed.

Lemma rnd_nonneg x : (0 <= x)%Q → (0 <= rnd x)%Q.
Proof.
  intros H. destruct (Qlt_le_dec 0 x) as [Hx|Hx]; [rewrite rnd_positive by done; by apply round_positive_nonneg|].
  rewrite rnd_zero; lra.
Qed.

(** An integer multiple of the grid's step is a double. *)
Lemma grid_integer e n : e ≤ n → ∃ m, (pow2 n * pow2 (- e) == inject_Z m)%Q.
Proof. intros H. exists (2 ^ (n - e)). rewrite <- pow2_plus, <- pow2_Z by lia. replace (n + - e) with (n - e) by lia. reflexivity. Qed.

Lemma round_positive_mono x y : (0 < x)%Q → (x <= y)%Q → (round_positive x <= round_positive y)%Q.
Proof.
  intros Hx Hxy. pose proof (ilog2_mono x y Hx Hxy) as Hl.
  destruct (ilog2_spec x Hx) as [_ Ux]. destruct (ilog2_spec y ltac:(lra)) as [Ly _].
  unfold round_positive. destruct (Z.eq_dec (exponent x) (exponent y)) as [E|E].
  - rewrite <- E. pose proof (pow2_pos (exponent x)) as He. pose proof (pow2_pos (- exponent x)) as Hi.
    assert (round_half_even (x * pow2 (- exponent x)) ≤ round_half_even (y * pow2 (- exponent x))) as H
      by (apply round_half_even_mono; nra).
    rewrite Zle_Qle in H. nra.
  - assert (exponent y = ilog2 y - 52 ∧ exponent x < exponent y ∧ ilog2 x < ilog2 y) as (Ey & Hlt & Hlog)
      by (unfold exponent in *; lia).
    set (B := pow2 (ilog2 y)).
    assert (x <= B)%Q as HxB.
    { assert (pow2 (ilog2 x + 1) <= B)%Q by (apply pow2_mono; lia). lra. }
    assert (∀ e z, e ≤ ilog2 y → (pow2 (ilog2 y) <= z)%Q →
      (B <= inject_Z (round_half_even (z * pow2 (- e))) * pow2 e)%Q) as Hup.
    { intros e z He Hz. destruct (grid_integer e (ilog2 y) He) as [m Hm].
      assert (m ≤ round_half_even (z * pow2 (- e))) as H.
      { rewrite <- (round_half_even_Z m), <- Hm. apply round_half_even_mono. pose proof (pow2_pos (- e)). nra. }
      rewrite Zle_Qle, <- Hm in H. pose proof (pow2_pos e). pose proof (scaled B e) as Hs. unfold B in *. nra. }
    assert (inject_Z (round_half_even (x * pow2 (- exponent x))) * pow2 (exponent x) <= B)%Q as Hdown.
    { destruct (grid_integer (exponent x) (ilog2 y) ltac:(lia)) as [m Hm].
      assert (round_half_even (x * pow2 (- exponent x)) ≤ m) as H.
      { rewrite <- (round_half_even_Z m), <- Hm. apply round_half_even_mono. pose proof (pow2_pos (- exponent x)).
        unfold B in HxB. nra. }
      rewrite Zle_Qle, <- Hm in H. pose proof (pow2_pos (exponent x)). pose proof (scaled B (exponent x)) as Hs.
      unfold B in *. nra. }
    specialize (Hup (exponent y) y ltac:(lia) Ly). lra.
Qed.

(** Rounding preserves order. *)
Lemma rnd_mono x y : (0 <= x)%Q → (x <= y)%Q → (rnd x <= rnd y)%Q.
Proof.
  intros Hx Hxy. destruct (Qlt_le_dec 0 x) as [H|H].
  - rewrite !rnd_positive by lra. by apply round_positive_mono.
  - rewrite (rnd_zero x) by lra. apply rnd_nonneg. lra.
Qed.

(** Half a unit in the last place, or half the least subnormal. *)
Definition ulp_bound (x : Q) : Q := (x * pow2 (-53) + pow2 (-1075))%Q.

Lemma rnd_error x : (0 <= x)%Q → (rnd x <= x + ulp_bound x)%Q ∧ (x - ulp_bound x <= rnd x)%Q.
Proof.
  intros Hx. unfold ulp_bound. pose proof (pow2_pos (-53)). pose proof (pow2_pos (-1075)).
  destruct (Qlt_le_dec 0 x) as [Hp|Hp]; [|rewrite rnd_zero by lra; split; nra].
  rewrite rnd_positive by done. destruct (round_positive_error x Hp) as [U L].
  destruct (ilog2_spec x Hp) as [Hl _].
  assert ((1 # 2) * pow2 (exponent x) <= x * pow2 (-53) + pow2 (-1075))%Q as He; [|split; lra].
  change (1 # 2)%Q with (pow2 (-1)). rewrite <- pow2_plus. unfold exponent, min_exponent.
  destruct (Z.max_spec (-1074) (ilog2 x - 52)) as [[_ ->]|[_ ->]].
  - replace (-1 + (ilog2 x - 52)) with (ilog2 x + -53) by lia. rewrite pow2_plus. nra.
  - change (-1 + -1074) with (-1075). nra.
Qed.

(** Small integers are doubles. *)
Lemma rnd_integer n : 0 ≤ n < 2 ^ 53 → (rnd (inject_Z n) == inject_Z n)%Q.
Proof.
  intros [H0 H]. destruct (Z.eq_dec n 0) as [->|Hn]; [by rewrite rnd_zero|].
  assert (0 < inject_Z n)%Q as Hp by (change 0%Q with (inject_Z 0); rewrite <- Zlt_Qlt; lia).
  rewrite rnd_positive by done. unfold round_positive.
  destruct (ilog2_spec (inject_Z n) Hp) as [L _].
  assert (exponent (inject_Z n) ≤ 0) as He.
  { assert (ilog2 (inject_Z n) < 53); [|unfold exponent, min_exponent; lia]. apply pow2_lt_inv.
    rewrite (pow2_Z 53) by lia. rewrite Zlt_Qlt in H. lra. }
  set (e := exponent (inject_Z n)) in *.
  assert (inject_Z n * pow2 (- e) == inject_Z (n * 2 ^ (- e)))%Q as E.
  { rewrite inject_Z_mult, <- pow2_Z by lia. reflexivity. }
  rewrite E, round_half_even_Z, <- E. symmetry. apply scaled.
Qed.

(** Equal rationals have the same exponent and round to the same number. *)
#[export] Instance ilog2_proper : Proper (Qeq ==> eq) (λ x, if Qlt_le_dec 0 x then ilog2 x else 0).
Proof.
  intros x y H. destruct (Qlt_le_dec 0 x), (Qlt_le_dec 0 y); try (exfalso; lra); [|done].
  apply Z.le_antisymm; apply ilog2_mono; lra.
Qed.

#[export] Instance rnd_proper : Proper (Qeq ==> eq) rnd.
Proof.
  assert (∀ x y, (0 < x)%Q → (x == y)%Q → round_positive x = round_positive y) as Hp.
  { intros x y Hx H. assert (ilog2 x = ilog2 y) as E by (apply Z.le_antisymm; apply ilog2_mono; lra).
    unfold round_positive, exponent. rewrite E. f_equal. f_equal. apply round_half_even_proper. by rewrite H. }
  intros x y H. unfold rnd.
  destruct (Qcompare_spec x 0), (Qcompare_spec y 0); try (exfalso; lra); [done|f_equal|].
  - apply Hp; lra.
  - by apply Hp.
Qed.

(** Away from the subnormal numbers the error is relative. *)
Lemma rnd_relative x : (x == 0 ∨ pow2 (-1022) <= x)%Q → (rnd x <= x + x * pow2 (-53))%Q.
Proof.
  intros [Hx|Hx]; [rewrite rnd_zero by done; pose proof (pow2_pos (-53)); nra|].
  assert (0 < x)%Q as Hp by (pose proof (pow2_pos (-1022)); lra). rewrite rnd_positive by done.
  destruct (round_positive_error x Hp) as [U _]. destruct (ilog2_spec x Hp) as [Hl Hu].
  assert (-1022 < ilog2 x + 1) as He by (apply pow2_lt_inv; lra).
  assert (exponent x = ilog2 x - 52) as E by (unfold exponent, min_exponent; lia). rewrite E in U.
  assert ((1 # 2) * pow2 (ilog2 x - 52) == pow2 (ilog2 x) * pow2 (-53))%Q as Eq.
  { change (1 # 2)%Q with (pow2 (-1)). rewrite <- !pow2_plus. replace (-1 + (ilog2 x - 52)) with (ilog2 x + -53) by lia. reflexivity. }
  pose proof (pow2_pos (-53)). nra.
Qed.
