(* ===== verification/Accounts.v ===== *)
(** * The account API ([src/routes/account.rs])

    The routes of signed-in users. Shared Auth authenticates them, and the
    canonical plane holds what they read and write: its queries and named write
    operations are another crate, so a handler's run records the writes it
    issued. *)

From S2P Require Export Canonical Tokens Recording.

(** ** Rows and inputs of the canonical plane *)

Record UserSummary := mk_user {
  us_id : uuid;
  us_subject : json;
  us_realm : json;
  us_email : json;
  us_display_name : json;
  us_avatar_url : json;
  us_settings : json;
}.

Record OrgSummary := mk_org_summary {
  os_id : uuid;
  os_slug : string;
  os_name : string;
  os_description : option string;
  os_role : string;
}.

Record ProjectSummary := mk_project_summary {
  ps_id : uuid;
  ps_org_id : uuid;
  ps_org_slug : string;
  ps_slug : string;
  ps_name : string;
  ps_description : option string;
  ps_role : string;
}.

Record PackageSummary := mk_package_summary {
  pks_id : uuid;
  pks_org_id : uuid;
  pks_org_slug : json;
  pks_project_id : json;
  pks_project_slug : json;
  pks_name : json;
  pks_description : json;
  pks_visibility : json;
  pks_repo_url : json;
  pks_config : json;
  pks_latest_version : json;
  pks_download_count : json;
  pks_version_count : json;
}.

Record SearchHit := mk_hit {
  h_entity_type : json;
  h_entity_id : json;
  h_label : json;
  h_description : json;
  h_score : json;
}.

Record ProjectRow := mk_project {
  pr_id : uuid;
  pr_org_id : uuid;
  pr_slug : string;
  pr_name : string;
  pr_description : option string;
  pr_visibility : string;
  pr_settings : json;
}.

Record CanonicalVersion := mk_canonical_version { cv_id : uuid; cv_version : string }.

Record InvitationReceipt := mk_receipt {
  ir_invitation_id : uuid;
  ir_token : string;
  ir_email : string;
  ir_role : string;
}.

Record LicenseRow := mk_license {
  li_id : uuid;
  li_package_id : uuid;
  li_package_version_id : option uuid;
  li_kind : string;
  li_spdx_id : option string;
  li_name : option string;
  li_url : option string;
  li_is_primary : bool;
}.

Record UploadRow := mk_upload {
  up_id : uuid;
  up_package_id : uuid;
  up_package_version_id : option uuid;
  up_requested_version : string;
  up_status : string;
  up_storage_backend : string;
  up_storage_key : option string;
  up_format : option string;
  up_size_bytes : json;
  up_sha256 : option string;
  up_completed_at : json;
}.

Record InvitationInput := mk_invitation_input {
  ii_email : string;
  ii_role : string;
  ii_token_hash : string;
  ii_token : string;
  ii_expires_at : instant;
}.

Record CreateProjectInput := mk_project_input {
  ci_slug : string;
  ci_name : string;
  ci_description : option string;
  ci_visibility : string;
  ci_settings : json;
}.

Record CreatePackageInput := mk_package_input {
  pi_project_id : option uuid;
  pi_name : string;
  pi_description : option string;
  pi_vcs : string;
  pi_repo_url : string;
  pi_homepage_url : option string;
  pi_keywords : json;
  pi_config : json;
}.

Record PackageSettingsPatch := mk_patch {
  pp_description : option string;
  pp_project_id : option uuid;
  pp_repo_url : string;
  pp_homepage_url : option string;
  pp_keywords : json;
  pp_config : json;
}.

Record PackageLicenseInput := mk_license_input {
  pl_package_version_id : option uuid;
  pl_kind : string;
  pl_spdx_id : option string;
  pl_name : option string;
  pl_url : option string;
  pl_text_body : option string;
  pl_is_primary : bool;
}.

Record PackageUploadInput := mk_upload_input {
  pu_package_version_id : option uuid;
  pu_requested_version : string;
  pu_status : string;
  pu_storage_backend : string;
  pu_storage_key : option string;
  pu_format : option string;
  pu_size_bytes : option Z;
  pu_sha256 : option string;
  pu_api_token_id : option uuid;
  pu_client_ip_hash : option string;
  pu_user_agent : option string;
  pu_error : option string;
  pu_completed_at : option instant;
}.

Record UserSettingsInput := mk_user_settings_input {
  ui_display_name : option string;
  ui_avatar_url : option string;
  ui_settings : json;
}.

(** The named write operations the handlers call, with their arguments; the
    index is the type of the answer. *)
Inductive PlaneWrite : Type → Type :=
| UpsertUserFromSession (s : SessionIdentity) : PlaneWrite UserSummary
| CreateOrg (user : uuid) (slug name : string) (description : option string) : PlaneWrite CanonicalOrg
| InviteOrgMember (user : uuid) (org : string) (input : InvitationInput) : PlaneWrite InvitationReceipt
| CreateProject (user : uuid) (org : string) (input : CreateProjectInput) : PlaneWrite ProjectRow
| InviteProjectMember (user : uuid) (org project : string) (input : InvitationInput) : PlaneWrite InvitationReceipt
| CreatePackage (user : uuid) (org : string) (input : CreatePackageInput) : PlaneWrite CanonicalPackage
| UpdatePackageSettings (user : uuid) (org package : string) (patch : PackageSettingsPatch) : PlaneWrite CanonicalPackage
| MakePackagePublic (user : uuid) (org package : string) : PlaneWrite CanonicalPackage
| AddPackageLicense (user : uuid) (org package : string) (input : PackageLicenseInput) : PlaneWrite LicenseRow
| RegisterPackageUpload (user : uuid) (org package : string) (input : PackageUploadInput) : PlaneWrite UploadRow
| UpdateUserSettings (user : uuid) (input : UserSettingsInput) : PlaneWrite UserSummary.

(** The user an operation is performed as: it rechecks that user's membership
    in its own transaction. *)
Definition performed_as {A} (c : PlaneWrite A) : option uuid :=
  match c with
  | UpsertUserFromSession _ => None
  | CreateOrg u _ _ _ | InviteOrgMember u _ _ | CreateProject u _ _ | InviteProjectMember u _ _ _
  | CreatePackage u _ _ | UpdatePackageSettings u _ _ _ | MakePackagePublic u _ _ | AddPackageLicense u _ _ _
  | RegisterPackageUpload u _ _ _ | UpdateUserSettings u _ => Some u
  end.

Class AccountPlane := {
  orgs_for_user : nat → uuid → result OrmError (list OrgSummary);
  projects_for_org : nat → uuid → string → bool → result OrmError (list ProjectSummary);
  packages_for_org : nat → uuid → string → bool → result OrmError (list PackageSummary);
  search_packages : nat → string → list uuid → Z → result OrmError (list PackageSummary);
  search_registry : nat → string → list uuid → Z → result OrmError (list SearchHit);
  org_by_slug : nat → string → result OrmError (option CanonicalOrg);
  project_by_org_and_slug : nat → uuid → string → result OrmError (option ProjectRow);
  versions_for_package : nat → uuid → result OrmError (list CanonicalVersion);
  plane_write : ∀ {A}, nat → PlaneWrite A → result OrmError A;
}.

(** ** Runs that record their writes *)

Definition Issued : Type := { A : Type & PlaneWrite A }.
Definition issued {A} (c : PlaneWrite A) : Issued := existT A c.

Abbreviation AM := (Recorded ApiErr Issued).

(** [read::f(..).await.map_err(map_orm_error)?]. *)
Definition plane_read {A} (f : nat → result OrmError A) : AM A := silent (with_err map_orm_error (orm f)).

Definition perform `{plane : AccountPlane} {A} (c : PlaneWrite A) : AM A :=
  issue (λ t, (map_err map_orm_error (plane_write t c), issued c)).

(** ** Small functions *)

(** The greatest by [key], the last of several. *)
Fixpoint max_by_key {A} (key : A → Z) (l : list A) : option A :=
  match l with
  | [] => None
  | x :: l =>
      match max_by_key key l with
      | None => Some x
      | Some y => if key y <? key x then Some x else Some y
      end
  end.

Definition role_rank (role : string) : Z :=
  match role with "owner" => 4 | "admin" => 3 | "member" => 2 | "reader" => 1 | _ => 0 end.

Definition strongest_role (org_role project_role : option string) : option string :=
  max_by_key role_rank (omap id [org_role; project_role]).

Definition contains_ci (value query : string) : bool :=
  contains_str (to_ascii_lowercase query) (to_ascii_lowercase value).

Definition normalize_archive_format (value : string) : ApiResult string :=
  match value with
  | "tar.gz" | "tar_gz" | "tgz" => Ok "tar.gz"
  | "tar.zst" | "tar_zst" | "tzst" => Ok "tar.zst"
  | "zip" => Ok "zip"
  | _ => Err (bad_request "invalid_archive_format" "archive format must be tar.gz, tar.zst, or zip")
  end.

Definition normalize_upload_status (value : string) : string :=
  match value with
  | "complete" | "completed" | "published" => "verified"
  | unknown => unknown
  end.

Definition is_empty_object (value : json) : bool := match value with JObj [] => true | _ => false end.

(** [map.insert(key, value)] of a map that iterates in the order of its keys. *)
Fixpoint object_insert (key : string) (value : json) (m : list (string * json)) : list (string * json) :=
  match m with
  | [] => [(key, value)]
  | (k, v) :: r =>
      match String.compare key k with
      | Lt => (key, value) :: m
      | Eq => (key, value) :: r
      | Gt => (k, v) :: object_insert key value r
      end
  end.

Definition jopt (o : option string) : json := match o with Some s => JStr s | None => JNull end.

Section accounts.
Context `{ext : Externals} `{web : WebExternals} `{tokens : TokenExternals}.
Context `{can : CanonicalReads} `{plane : AccountPlane}.

Definition jid (u : uuid) : json := JStr (uuid_display u).
Definition jid_opt (o : option uuid) : json := match o with Some u => jid u | None => JNull end.

(** Nanoseconds of a day. *)
Definition DAY : Z := 86400 * 1000000000.

Record InvitationRequest := mk_invitation_request { iq_email : string; iq_role : string }.

Definition invitation_input (request : InvitationRequest) : AM InvitationInput :=
  a ← silent uuid_v4;
  b ← silent uuid_v4;
  let token := "zpkg_inv_" +:+ uuid_simple a +:+ uuid_simple b in
  t ← silent now;
  mret (mk_invitation_input request.(iq_email) request.(iq_role) (hash_token token) token (t + 7 * DAY)).

Definition invitation_value (i : InvitationReceipt) : json :=
  JObj [("invitation_id", jid i.(ir_invitation_id)); ("token", JStr i.(ir_token)); ("email", JStr i.(ir_email));
        ("role", JStr i.(ir_role))].

Definition user_value (u : UserSummary) : json :=
  JObj [("id", jid u.(us_id)); ("subject", u.(us_subject)); ("realm", u.(us_realm)); ("email", u.(us_email));
        ("display_name", u.(us_display_name)); ("avatar_url", u.(us_avatar_url)); ("settings", u.(us_settings))].

Definition org_summary_value (o : OrgSummary) : json :=
  JObj [("id", jid o.(os_id)); ("slug", JStr o.(os_slug)); ("name", JStr o.(os_name));
        ("description", jopt o.(os_description)); ("role", JStr o.(os_role))].

Definition project_summary_value (p : ProjectSummary) : json :=
  JObj [("id", jid p.(ps_id)); ("org_id", jid p.(ps_org_id)); ("org_slug", JStr p.(ps_org_slug));
        ("slug", JStr p.(ps_slug)); ("name", JStr p.(ps_name)); ("description", jopt p.(ps_description));
        ("role", JStr p.(ps_role))].

Definition package_summary_value (p : PackageSummary) : json :=
  JObj [("id", jid p.(pks_id)); ("org_id", jid p.(pks_org_id)); ("org_slug", p.(pks_org_slug));
        ("project_id", p.(pks_project_id)); ("project_slug", p.(pks_project_slug)); ("name", p.(pks_name));
        ("description", p.(pks_description)); ("visibility", p.(pks_visibility)); ("repo_url", p.(pks_repo_url));
        ("config", p.(pks_config)); ("latest_version", p.(pks_latest_version));
        ("download_count", p.(pks_download_count)); ("version_count", p.(pks_version_count))].

Definition package_value (p : CanonicalPackage) : json :=
  JObj [("id", jid p.(cp_id)); ("org_id", jid p.(cp_org_id)); ("project_id", jid_opt p.(cp_project_id));
        ("name", JStr p.(cp_name)); ("description", jopt p.(cp_description)); ("vcs", JStr p.(cp_vcs));
        ("repo_url", JStr p.(cp_repo_url)); ("homepage_url", jopt p.(cp_homepage_url));
        ("keywords", p.(cp_keywords)); ("visibility", JStr p.(cp_visibility)); ("config", p.(cp_config));
        ("download_count", p.(cp_download_count)); ("version_count", p.(cp_version_count));
        ("latest_version", p.(cp_latest_version)); ("first_published_at", p.(cp_first_published_at));
        ("created_at", p.(cp_created_at)); ("updated_at", p.(cp_updated_at))].

(** ** Authentication and the contexts *)

Definition registry_read_ctx (st : AppState) : ApiResult unit :=
  ok_or (service_unavailable "registry_data_plane_unavailable" "canonical registry read context is not configured")
    (if st.(registry_read) then Some tt else None).

Definition registry_write_ctx (st : AppState) : ApiResult unit :=
  ok_or (service_unavailable "registry_data_plane_unavailable" "canonical registry write context is not configured")
    (if st.(registry_write) then Some tt else None).

(** [zed_orm_core::..(registry_write(&state)?, ..).await.map_err(map_orm_error)?]. *)
Definition write {A} (st : AppState) (c : PlaneWrite A) : AM A := checked (registry_write_ctx st);; perform c.

Definition authenticated (st : AppState) (headers : HeaderMap) : AM AccountIdentity :=
  silent (require_account st headers).

Definition authenticated_and_projected (st : AppState) (headers : HeaderMap) : AM (AccountIdentity * UserSummary) :=
  account ← authenticated st headers;
  user ← write st (UpsertUserFromSession account.(session));
  mret (account, user).

Definition auth_unavailable : ApiErr :=
  service_unavailable "auth_unavailable" "shared authentication is not configured".

Definition auth_config (st : AppState) : ApiResult json :=
  public_url ← ok_or auth_unavailable st.(shared_auth_public_url);
  Ok (JObj [("shared_auth_url", JStr public_url); ("application_id", JStr st.(shared_auth_application_id));
            ("audience", JStr st.(shared_auth_audience)); ("supabase_exchange", JStr "/api/v1/auth/exchange")]).

Definition exchange_supabase (st : AppState) (headers : HeaderMap) : AM json :=
  token ← checked (ok_or unauthorized (bearer_token headers));
  client ← checked (ok_or auth_unavailable st.(shared_auth));
  e ← silent (with_err map_shared_auth_error (exchange client token));
  mret (JObj [("access_token", JStr e.(access_token)); ("token_type", JStr e.(token_type));
              ("expires_at", JNum (dec_of_Z e.(expires_at))); ("shared_user_id", JStr e.(shared_user_id));
              ("project", jopt e.(project)); ("provider", jopt e.(provider));
              ("provider_tenant", jopt e.(provider_tenant))]).

Definition me (st : AppState) (headers : HeaderMap) : AM json :=
  '(_, user) ← authenticated_and_projected st headers;
  mret (user_value user).

(** ** Reading *)

Definition with_role (role : string) (p : ProjectSummary) : ProjectSummary :=
  mk_project_summary p.(ps_id) p.(ps_org_id) p.(ps_org_slug) p.(ps_slug) p.(ps_name) p.(ps_description) role.

(** The projects of an organization, each with the caller's strongest role. *)
Definition projects_with_roles (user : UserSummary) (org : OrgSummary) : AM (list ProjectSummary) :=
  rows ← plane_read (λ t, projects_for_org t org.(os_id) org.(os_slug) true);
  mapM (λ p,
    direct ← plane_read (λ t, project_role_for_user t p.(ps_id) user.(us_id));
    mret (with_role (default "reader" (strongest_role (Some org.(os_role)) direct)) p)) rows.

Definition mentions (slug name : string) (description : option string) (query : string) : bool :=
  contains_ci slug query || contains_ci name query
  || match description with Some value => contains_ci value query | None => false end.

Definition home (st : AppState) (headers : HeaderMap) (q : string) : AM json :=
  '(_, user) ← authenticated_and_projected st headers;
  checked (registry_read_ctx st);;
  orgs ← plane_read (λ t, orgs_for_user t user.(us_id));
  let visible_org_ids := map os_id orgs in
  projects ← mapM (projects_with_roles user) orgs;
  let projects := concat projects in
  let trimmed := trim q in
  packages ←
    (if is_empty trimmed then
       rows ← mapM (λ org, plane_read (λ t, packages_for_org t org.(os_id) org.(os_slug) true)) orgs;
       mret (concat rows)
     else plane_read (λ t, search_packages t trimmed visible_org_ids 100));
  let orgs :=
    if is_empty trimmed then orgs
    else List.filter (λ o, mentions o.(os_slug) o.(os_name) o.(os_description) trimmed) orgs in
  let projects :=
    if is_empty trimmed then projects
    else List.filter (λ p, mentions p.(ps_slug) p.(ps_name) p.(ps_description) trimmed) projects in
  mret (JObj [("user", user_value user); ("orgs", JArr (map org_summary_value orgs));
              ("projects", JArr (map project_summary_value projects));
              ("packages", JArr (map package_summary_value packages)); ("query", JStr q)]).

Definition hit_value (h : SearchHit) : json :=
  JObj [("entity_type", h.(h_entity_type)); ("entity_id", h.(h_entity_id)); ("label", h.(h_label));
        ("description", h.(h_description)); ("score", h.(h_score))].

Definition search (st : AppState) (headers : HeaderMap) (q : string) : AM json :=
  '(_, user) ← authenticated_and_projected st headers;
  checked (registry_read_ctx st);;
  orgs ← plane_read (λ t, orgs_for_user t user.(us_id));
  let visible_org_ids := map os_id orgs in
  hits ← plane_read (λ t, search_registry t q visible_org_ids 50);
  mret (JObj [("query", JStr q); ("hits", JArr (map hit_value hits))]).

Definition org_dashboard (st : AppState) (headers : HeaderMap) (slug : string) : AM json :=
  '(_, user) ← authenticated_and_projected st headers;
  checked (registry_read_ctx st);;
  found ← plane_read (λ t, org_by_slug t slug);
  org ← checked (ok_or (not_found "organization") found);
  role ← plane_read (λ t, org_role_for_user t org.(co_id) user.(us_id));
  role ← checked (ok_or (not_found "organization") role);
  let org_summary := mk_org_summary org.(co_id) org.(co_slug) org.(co_name) org.(co_description) role in
  projects ← projects_with_roles user org_summary;
  packages ← plane_read (λ t, packages_for_org t org_summary.(os_id) org_summary.(os_slug) true);
  mret (JObj [("org", org_summary_value org_summary); ("projects", JArr (map project_summary_value projects));
              ("packages", JArr (map package_summary_value packages))]).

Definition project_settings (st : AppState) (headers : HeaderMap) (slug project_slug : string) : AM json :=
  '(_, user) ← authenticated_and_projected st headers;
  checked (registry_read_ctx st);;
  found ← plane_read (λ t, org_by_slug t slug);
  org ← checked (ok_or (not_found "project") found);
  found ← plane_read (λ t, project_by_org_and_slug t org.(co_id) project_slug);
  project ← checked (ok_or (not_found "project") found);
  org_role ← plane_read (λ t, org_role_for_user t org.(co_id) user.(us_id));
  project_role ← plane_read (λ t, project_role_for_user t project.(pr_id) user.(us_id));
  role ← checked (ok_or (not_found "project") (strongest_role org_role project_role));
  mret (JObj [("id", jid project.(pr_id)); ("org_id", jid project.(pr_org_id)); ("org_slug", JStr org.(co_slug));
              ("slug", JStr project.(pr_slug)); ("name", JStr project.(pr_name));
              ("description", jopt project.(pr_description)); ("visibility", JStr project.(pr_visibility));
              ("settings", project.(pr_settings)); ("role", JStr role)]).

Definition package_settings (st : AppState) (headers : HeaderMap) (slug name : string) : AM json :=
  '(_, user) ← authenticated_and_projected st headers;
  checked (registry_read_ctx st);;
  found ← plane_read (λ t, package_by_org_and_name t slug name);
  '(package, org) ← checked (ok_or (not_found "package") found);
  org_role ← plane_read (λ t, org_role_for_user t org.(co_id) user.(us_id));
  project_role ←
    match package.(cp_project_id) with
    | Some project_id => plane_read (λ t, project_role_for_user t project_id user.(us_id))
    | None => mret None
    end;
  checked (ok_or (not_found "package") (strongest_role org_role project_role));;
  mret (package_value package).

(** ** Writing *)

Record CreateOrgRequest := mk_create_org { cor_slug : string; cor_name : string; cor_description : option string }.

Definition create_org (st : AppState) (headers : HeaderMap) (request : CreateOrgRequest) : AM json :=
  '(_, user) ← authenticated_and_projected st headers;
  org ← write st (CreateOrg user.(us_id) request.(cor_slug) request.(cor_name) request.(cor_description));
  mret (JObj [("id", jid org.(co_id)); ("slug", JStr org.(co_slug)); ("name", JStr org.(co_name));
              ("description", jopt org.(co_description)); ("settings", org.(co_settings))]).

Definition invite_org_member (st : AppState) (headers : HeaderMap) (slug : string) (request : InvitationRequest)
    : AM json :=
  '(_, user) ← authenticated_and_projected st headers;
  checked (registry_write_ctx st);;
  input ← invitation_input request;
  invitation ← perform (InviteOrgMember user.(us_id) slug input);
  mret (invitation_value invitation).

Definition create_project (st : AppState) (headers : HeaderMap) (slug : string) (request : CreateProjectInput)
    : AM json :=
  '(_, user) ← authenticated_and_projected st headers;
  project ← write st (CreateProject user.(us_id) slug request);
  mret (JObj [("id", jid project.(pr_id)); ("org_id", jid project.(pr_org_id)); ("slug", JStr project.(pr_slug));
              ("name", JStr project.(pr_name)); ("description", jopt project.(pr_description));
              ("visibility", JStr project.(pr_visibility)); ("settings", project.(pr_settings))]).

Definition invite_project_member (st : AppState) (headers : HeaderMap) (slug project : string)
    (request : InvitationRequest) : AM json :=
  '(_, user) ← authenticated_and_projected st headers;
  checked (registry_write_ctx st);;
  input ← invitation_input request;
  invitation ← perform (InviteProjectMember user.(us_id) slug project input);
  mret (invitation_value invitation).

Record CreatePackageRequest := mk_create_package {
  cpr_project_id : option uuid;
  cpr_name : string;
  cpr_description : option string;
  cpr_vcs : string;
  cpr_repo_url : string;
  cpr_homepage_url : option string;
  cpr_keywords : json;
  cpr_config : json;
  cpr_default_archive_format : string;
}.

Definition create_package (st : AppState) (headers : HeaderMap) (slug : string) (request : CreatePackageRequest)
    : AM json :=
  '(_, user) ← authenticated_and_projected st headers;
  object ← checked
    match request.(cpr_config) with
    | JObj members => Ok members
    | _ => Err (bad_request "invalid_request" "package config must be a JSON object")
    end;
  format ← checked (normalize_archive_format request.(cpr_default_archive_format));
  let config := JObj (object_insert "default_archive_format" (JStr format) object) in
  package ← write st (CreatePackage user.(us_id) slug
    (mk_package_input request.(cpr_project_id) request.(cpr_name) request.(cpr_description) request.(cpr_vcs)
       request.(cpr_repo_url) request.(cpr_homepage_url) request.(cpr_keywords) config));
  mret (package_value package).

Record PackageSettingsRequest := mk_settings_request {
  sr_description : option string;
  sr_project_id : option uuid;
  sr_repo_url : option string;
  sr_homepage_url : option string;
  sr_keywords : option json;
  sr_config : option json;
}.

(** The patch sent for a request, over the settings as they were read. *)
Definition settings_patch (request : PackageSettingsRequest) (current : CanonicalPackage) : PackageSettingsPatch :=
  mk_patch request.(sr_description) request.(sr_project_id)
    (default current.(cp_repo_url) request.(sr_repo_url))
    (match request.(sr_homepage_url) with Some url => Some url | None => current.(cp_homepage_url) end)
    (default current.(cp_keywords) request.(sr_keywords))
    (default current.(cp_config)
       (v ← request.(sr_config); if is_empty_object v then None else Some v)).

Definition update_package_settings (st : AppState) (headers : HeaderMap) (slug name : string)
    (request : PackageSettingsRequest) : AM json :=
  '(_, user) ← authenticated_and_projected st headers;
  checked (registry_read_ctx st);;
  found ← plane_read (λ t, package_by_org_and_name t slug name);
  '(current, _) ← checked (ok_or (not_found "package") found);
  package ← write st (UpdatePackageSettings user.(us_id) slug name (settings_patch request current));
  mret (package_value package).

Definition make_package_public (st : AppState) (headers : HeaderMap) (slug name : string) : AM json :=
  '(_, user) ← authenticated_and_projected st headers;
  package ← write st (MakePackagePublic user.(us_id) slug name);
  mret (package_value package).

Record PackageLicenseRequest := mk_license_request {
  lr_spdx_expression : option string;
  lr_license_name : option string;
  lr_license_url : option string;
  lr_license_text : option string;
  lr_is_primary : bool;
  lr_package_version_id : option uuid;
}.

Definition license_kind (request : PackageLicenseRequest) : string :=
  if is_some request.(lr_spdx_expression) then "spdx"
  else if is_some request.(lr_license_text) || is_some request.(lr_license_url) then "custom"
  else "proprietary".

Definition add_package_license (st : AppState) (headers : HeaderMap) (slug name : string)
    (request : PackageLicenseRequest) : AM json :=
  '(_, user) ← authenticated_and_projected st headers;
  license ← write st (AddPackageLicense user.(us_id) slug name
    (mk_license_input request.(lr_package_version_id) (license_kind request) request.(lr_spdx_expression)
       request.(lr_license_name) request.(lr_license_url) request.(lr_license_text) request.(lr_is_primary)));
  mret (JObj [("id", jid license.(li_id)); ("package_id", jid license.(li_package_id));
              ("package_version_id", jid_opt license.(li_package_version_id)); ("kind", JStr license.(li_kind));
              ("spdx_id", jopt license.(li_spdx_id)); ("name", jopt license.(li_name));
              ("url", jopt license.(li_url)); ("is_primary", JBool license.(li_is_primary))]).

Record PackageUploadRequest := mk_upload_request {
  ur_package_version_id : option uuid;
  ur_requested_version : string;
  ur_status : string;
  ur_storage_backend : string;
  ur_storage_key : option string;
  ur_format : option string;
  ur_size_bytes : option Z;
  ur_sha256 : option string;
  ur_client_ip_hash : option string;
  ur_user_agent : option string;
  ur_error : option string;
}.

Definition terminal_status (status : string) : bool :=
  match status with "verified" | "failed" | "aborted" => true | _ => false end.

Definition register_package_upload (st : AppState) (headers : HeaderMap) (slug name : string)
    (request : PackageUploadRequest) : AM json :=
  '(_, user) ← authenticated_and_projected st headers;
  let status := normalize_upload_status request.(ur_status) in
  completed_at ← (if terminal_status status then t ← silent now; mret (Some t) else mret None);
  checked (registry_read_ctx st);;
  found ← plane_read (λ t, package_by_org_and_name t slug name);
  '(package, _) ← checked (ok_or (not_found "package") found);
  package_version_id ←
    match request.(ur_package_version_id) with
    | Some version_id => mret (Some version_id)
    | None =>
        versions ← plane_read (λ t, versions_for_package t package.(cp_id));
        mret (cv_id <$> List.find (λ v, v.(cv_version) =s request.(ur_requested_version)) versions)
    end;
  checked (registry_write_ctx st);;
  format ← checked
    match request.(ur_format) with
    | Some value => format ← normalize_archive_format value; Ok (Some format)
    | None => Ok None
    end;
  upload ← perform (RegisterPackageUpload user.(us_id) slug name
    (mk_upload_input package_version_id request.(ur_requested_version) status request.(ur_storage_backend)
       request.(ur_storage_key) format request.(ur_size_bytes) request.(ur_sha256) None
       request.(ur_client_ip_hash) request.(ur_user_agent) request.(ur_error) completed_at));
  mret (JObj [("id", jid upload.(up_id)); ("package_id", jid upload.(up_package_id));
              ("package_version_id", jid_opt upload.(up_package_version_id));
              ("requested_version", JStr upload.(up_requested_version)); ("status", JStr upload.(up_status));
              ("storage_backend", JStr upload.(up_storage_backend)); ("storage_key", jopt upload.(up_storage_key));
              ("format", jopt upload.(up_format)); ("size_bytes", upload.(up_size_bytes));
              ("sha256", jopt upload.(up_sha256)); ("completed_at", upload.(up_completed_at))]).

Definition update_user_settings (st : AppState) (headers : HeaderMap) (request : UserSettingsInput) : AM json :=
  '(_, user) ← authenticated_and_projected st headers;
  updated ← write st (UpdateUserSettings user.(us_id) request);
  mret (user_value updated).

(** ** The router: the handler of each route *)

Inductive AccountRequest : Type :=
| GetAuthConfig
| PostAuthExchange
| GetMe
| PutMe (request : UserSettingsInput)
| GetHome (q : string)
| GetSearch (q : string)
| PostOrgs (request : CreateOrgRequest)
| GetOrg (org : string)
| PostOrgInvitations (org : string) (request : InvitationRequest)
| PostProjects (org : string) (request : CreateProjectInput)
| GetProject (org project : string)
| PostProjectInvitations (org project : string) (request : InvitationRequest)
| PostPackages (org : string) (request : CreatePackageRequest)
| GetPackageSettings (org package : string)
| PutPackageSettings (org package : string) (request : PackageSettingsRequest)
| PostPackagePublic (org package : string)
| PostPackageLicenses (org package : string) (request : PackageLicenseRequest)
| PostPackageUploads (org package : string) (request : PackageUploadRequest).

Definition account_routes (st : AppState) (headers : HeaderMap) (request : AccountRequest) : AM json :=
  match request with
  | GetAuthConfig => checked (auth_config st)
  | PostAuthExchange => exchange_supabase st headers
  | GetMe => me st headers
  | PutMe r => update_user_settings st headers r
  | GetHome q => home st headers q
  | GetSearch q => search st headers q
  | PostOrgs r => create_org st headers r
  | GetOrg o => org_dashboard st headers o
  | PostOrgInvitations o r => invite_org_member st headers o r
  | PostProjects o r => create_project st headers o r
  | GetProject o p => project_settings st headers o p
  | PostProjectInvitations o p r => invite_project_member st headers o p r
  | PostPackages o r => create_package st headers o r
  | GetPackageSettings o p => package_settings st headers o p
  | PutPackageSettings o p r => update_package_settings st headers o p r
  | PostPackagePublic o p => make_package_public st headers o p
  | PostPackageLicenses o p r => add_package_license st headers o p r
  | PostPackageUploads o p r => register_package_upload st headers o p r
  end.
End accounts.
