(* ===== verification/AccountFacts.v ===== *)
(** * What the account API guarantees

    On the calculus of runs that record their writes ([Recording]): every write
    is the one the request asks for, performed as the authenticated caller; the
    management views are for members; the home view. *)

From S2P Require Export Accounts AuthFacts.

(** ** Runs *)

Section calculus.
Context `{ext : Externals} `{plane : AccountPlane}.

Lemma runs_read {A B} (f : nat → result OrmError A) (k : A → AM B) Q :
  (∀ t e, f t = Err e → Q (Err (map_orm_error e)) []) →
  (∀ t a, f t = Ok a → runs (k a) Q) →
  runs (mbind k (plane_read f)) Q.
Proof.
  intros He Hk. apply (runs_silent _ _ (λ r, ∃ t, r = map_err map_orm_error (f t))).
  - intros w. unfold with_err, orm. split; [done|by eexists].
  - intros e [t He']. destruct (f t) eqn:E; [done|]. injection He' as ->. by eapply He.
  - intros a [t Ha]. destruct (f t) eqn:E; [|done]. injection Ha as ->. by eapply Hk.
Qed.

Lemma runs_perform {A B} (c : PlaneWrite A) (k : A → AM B) Q :
  (∀ t e, plane_write t c = Err e → Q (Err (map_orm_error e)) [issued c]) →
  (∀ t a, plane_write t c = Ok a → runs (k a) (λ r l, Q r (issued c :: l))) →
  runs (mbind k (perform c)) Q.
Proof.
  intros He Hk. eapply (runs_bind _ _ (λ r l, l = [issued c] ∧ ∃ t, r = map_err map_orm_error (plane_write t c))).
  - intros w. unfold perform. split; [done|]. split; [done|by eexists].
  - intros e l (-> & t & H). destruct (plane_write t c) eqn:E; [done|]. injection H as ->. by eapply He.
  - intros a l (-> & t & H). destruct (plane_write t c) eqn:E; [|done]. injection H as ->. by eapply Hk.
Qed.

Lemma runs_write {A B} st (c : PlaneWrite A) (k : A → AM B) Q :
  (∀ e, registry_write_ctx st = Err e → Q (Err e) []) →
  (∀ t e, plane_write t c = Err e → Q (Err (map_orm_error e)) [issued c]) →
  (∀ t a, plane_write t c = Ok a → runs (k a) (λ r l, Q r (issued c :: l))) →
  runs (mbind k (write st c)) Q.
Proof.
  intros Hc He Hk.
  eapply (runs_bind _ _ (λ r l, (∃ e, r = Err e ∧ registry_write_ctx st = Err e ∧ l = []) ∨
                                l = [issued c] ∧ ∃ t, r = map_err map_orm_error (plane_write t c))).
  - apply runs_check; [by intros e E; left; exists e|]. intros _ _ w. unfold perform.
    split; [done|right]. split; [done|by eexists].
  - intros e l [(e' & [= <-] & H & ->)|(-> & t & H)]; [by apply Hc|].
    destruct (plane_write t c) eqn:E; [done|]. injection H as ->. by eapply He.
  - intros a l [(e' & [=] & _)|(-> & t & H)].
    destruct (plane_write t c) eqn:E; [|done]. injection H as ->. by eapply Hk.
Qed.

End calculus.

(** ** The caller *)

Section accounts.
Context `{ext : Externals} `{web : WebExternals} `{tokens : TokenExternals}.
Context `{can : CanonicalReads} `{plane : AccountPlane}.

(** The identity provider vouched for a session of this service's web client,
    with the account scope. *)
Definition signed_in (st : AppState) (headers : HeaderMap) (a : AccountIdentity) : Prop :=
  ∃ t i, introspected st headers t i ∧
    delegated st.(shared_auth_application_id) REQUIRED_ACCOUNT_SCOPE i a.(session) a.(session_id) a.(parent_jti).

Lemma authenticated_run st headers w :
  let '(r, w') := require_account st headers w in
  untouched w w' ∧ match r with Ok a => signed_in st headers a | Err e => status e ∈ [401; 403; 503] end.
Proof.
  destruct (require_account st headers w) as [r w'] eqn:H.
  apply (require_identity_run (λ i, account_from_introspection i (shared_auth_application_id st))) in H
    as (Hdb & Ho & H); [|intros i; apply account_refuses].
  split; [by split|]. destruct r; [|done]. destruct H as (i & Hi & Ha).
  exists (tick w), i. split; [done|by apply account_delegated].
Qed.

(** The user the plane knows a caller as. *)
Definition projected (account : AccountIdentity) (user : UserSummary) : Prop :=
  ∃ t, plane_write t (UpsertUserFromSession account.(session)) = Ok user.

Lemma runs_projected {B} st headers (k : AccountIdentity * UserSummary → AM B) Q :
  (∀ e, status e ∈ [401; 403; 503] → Q (Err e) []) →
  (∀ account t e, signed_in st headers account → plane_write t (UpsertUserFromSession account.(session)) = Err e →
     Q (Err (map_orm_error e)) [issued (UpsertUserFromSession account.(session))]) →
  (∀ account user, signed_in st headers account → projected account user →
     runs (k (account, user)) (λ r l, Q r (issued (UpsertUserFromSession account.(session)) :: l))) →
  runs (mbind k (authenticated_and_projected st headers)) Q.
Proof.
  intros He Hp Hk.
  eapply (runs_bind _ _ (λ r l,
    (l = [] ∧ ∃ e, r = Err e ∧ status e ∈ [401; 403; 503]) ∨
    ∃ account, signed_in st headers account ∧ l = [issued (UpsertUserFromSession account.(session))] ∧
      match r with
      | Ok (a, user) => a = account ∧ projected account user
      | Err e => ∃ t e', plane_write t (UpsertUserFromSession account.(session)) = Err e' ∧ e = map_orm_error e'
      end)).
  - unfold authenticated_and_projected, authenticated.
    apply (runs_silent _ _ (λ r, match r with Ok a => signed_in st headers a | Err e => status e ∈ [401; 403; 503] end));
      [apply authenticated_run|naive_solver|].
    intros account Ha. apply runs_write.
    + intros e H. left. split; [done|]. exists e. split; [done|].
      unfold registry_write_ctx in H. destruct (registry_write st); [done|]. injection H as <-. cbn. set_solver.
    + intros t e H. right. exists account. split_and!; [done..|]. by exists t, e.
    + intros t user H. apply runs_ret. right. exists account. split_and!; [done..|by exists t].
  - intros e l [(-> & e' & [= <-] & H)|(account & Hs & -> & t & e' & H & ->)]; [by apply He|by eapply Hp].
  - intros [a user] l [(-> & e' & [=] & H)|(account & Hs & -> & -> & H)].
    eapply runs_weaken; [by apply Hk|done].
Qed.

(** ** What a request asks the plane to write *)

(** A fresh invitation: a new token of which only the digest is kept, for seven
    days. *)
Definition invitation_for (request : InvitationRequest) (input : InvitationInput) : Prop :=
  input.(ii_email) = request.(iq_email) ∧ input.(ii_role) = request.(iq_role) ∧
  input.(ii_token_hash) = hash_token input.(ii_token) ∧
  (∃ a b, input.(ii_token) = "zpkg_inv_" +:+ uuid_simple a +:+ uuid_simple b) ∧
  ∃ t, input.(ii_expires_at) = utc_now t + 7 * DAY.

Definition stored_package (slug name : string) (package : CanonicalPackage) : Prop :=
  ∃ t org, package_by_org_and_name t slug name = Ok (Some (package, org)).

(** The version an upload is recorded for: the one named, or else the package's
    version of the requested name, if there is one. *)
Definition upload_version (request : PackageUploadRequest) (package : CanonicalPackage) (version : option uuid) : Prop :=
  match request.(ur_package_version_id) with
  | Some id => version = Some id
  | None => ∃ t versions, versions_for_package t package.(cp_id) = Ok versions ∧
      version = cv_id <$> List.find (λ v, v.(cv_version) =s request.(ur_requested_version)) versions
  end.

Definition upload_format (request : PackageUploadRequest) (format : option string) : Prop :=
  match request.(ur_format) with
  | Some value => ∃ f, normalize_archive_format value = Ok f ∧ format = Some f
  | None => format = None
  end.

(** An upload is complete from the instant its status says so. *)
Definition completed_when_terminal (status : string) (completed : option instant) : Prop :=
  if terminal_status status then ∃ t, completed = Some (utc_now t) else completed = None.

Inductive asks (user : uuid) : AccountRequest → Issued → Prop :=
| asks_settings r : asks user (PutMe r) (issued (UpdateUserSettings user r))
| asks_org r : asks user (PostOrgs r) (issued (CreateOrg user r.(cor_slug) r.(cor_name) r.(cor_description)))
| asks_invite o r input :
    invitation_for r input → asks user (PostOrgInvitations o r) (issued (InviteOrgMember user o input))
| asks_project o r : asks user (PostProjects o r) (issued (CreateProject user o r))
| asks_invite_project o p r input :
    invitation_for r input → asks user (PostProjectInvitations o p r) (issued (InviteProjectMember user o p input))
| asks_package o r members format :
    r.(cpr_config) = JObj members → normalize_archive_format r.(cpr_default_archive_format) = Ok format →
    asks user (PostPackages o r)
      (issued (CreatePackage user o
        (mk_package_input r.(cpr_project_id) r.(cpr_name) r.(cpr_description) r.(cpr_vcs) r.(cpr_repo_url)
           r.(cpr_homepage_url) r.(cpr_keywords) (JObj (object_insert "default_archive_format" (JStr format) members)))))
| asks_package_settings o p r current :
    stored_package o p current →
    asks user (PutPackageSettings o p r) (issued (UpdatePackageSettings user o p (settings_patch r current)))
| asks_public o p : asks user (PostPackagePublic o p) (issued (MakePackagePublic user o p))
| asks_license o p r :
    asks user (PostPackageLicenses o p r)
      (issued (AddPackageLicense user o p
        (mk_license_input r.(lr_package_version_id) (license_kind r) r.(lr_spdx_expression) r.(lr_license_name)
           r.(lr_license_url) r.(lr_license_text) r.(lr_is_primary))))
| asks_upload o p r package version format completed :
    stored_package o p package → upload_version r package version → upload_format r format →
    completed_when_terminal (normalize_upload_status r.(ur_status)) completed →
    asks user (PostPackageUploads o p r)
      (issued (RegisterPackageUpload user o p
        (mk_upload_input version r.(ur_requested_version) (normalize_upload_status r.(ur_status))
           r.(ur_storage_backend) r.(ur_storage_key) format r.(ur_size_bytes) r.(ur_sha256) None
           r.(ur_client_ip_hash) r.(ur_user_agent) r.(ur_error) completed))).

Definition needs_no_user (request : AccountRequest) : bool :=
  match request with GetAuthConfig | PostAuthExchange => true | _ => false end.

Definition reads_only (request : AccountRequest) : bool :=
  match request with
  | GetAuthConfig | PostAuthExchange | GetMe | GetHome _ | GetSearch _ | GetOrg _ | GetProject _ _
  | GetPackageSettings _ _ => true
  | _ => false
  end.

Definition accepted (c : Issued) : Prop := ∃ t a, plane_write t (projT2 c) = Ok a.

(** What a run may write once the caller is known. *)
Definition writes_asked (user : uuid) (request : AccountRequest) (r : ApiResult json) (l : list Issued) : Prop :=
  match l with
  | [] => reads_only request = true ∨ is_ok r = false
  | [c] => asks user request c ∧ performed_as (projT2 c) = Some user ∧ (is_ok r = true → accepted c)
  | _ => False
  end.

(** ... and from the start of the request. *)
Definition writes_attributed (st : AppState) (headers : HeaderMap) (request : AccountRequest)
    (r : ApiResult json) (l : list Issued) : Prop :=
  match l with
  | [] => needs_no_user request = true ∨ ∃ e, r = Err e ∧ status e ∈ [401; 403; 503]
  | c :: l =>
      needs_no_user request = false ∧
      ∃ account, signed_in st headers account ∧ c = issued (UpsertUserFromSession account.(session)) ∧
        (is_ok r = false ∧ l = [] ∨ ∃ user, projected account user ∧ writes_asked user.(us_id) request r l)
  end.

Lemma runs_attributed st headers request (k : AccountIdentity * UserSummary → AM json) :
  needs_no_user request = false →
  (∀ account user, runs (k (account, user)) (writes_asked user.(us_id) request)) →
  runs (mbind k (authenticated_and_projected st headers)) (writes_attributed st headers request).
Proof.
  intros Hn Hk. apply runs_projected.
  - intros e He. right. by exists e.
  - intros account t e Hs _. split; [done|]. exists account. split_and!; [done..|by left].
  - intros account user Hs Hp. eapply runs_weaken; [apply Hk|]. intros r l Hw. split; [done|].
    exists account. split_and!; [done..|]. right. by exists user.
Qed.

Ltac account_step :=
  lazymatch goal with
  | |- runs (let '(_, _) := ?x in _) _ => destruct x
  | |- runs (mret _) _ => apply runs_ret
  | |- runs (mbind _ (mret _)) _ => apply runs_bind_ret
  | |- runs (mbind _ (mbind _ _)) _ => apply runs_assoc
  | |- runs (mbind _ (checked _)) _ => apply runs_check; [intros ??|intros ??]
  | |- runs (mbind _ (plane_read _)) _ => apply runs_read; [intros ???|intros ???]
  | |- runs (mbind _ (perform _)) _ => apply runs_perform; [intros ???|intros ???]
  | |- runs (mbind _ (write _ _)) _ => apply runs_write; [intros ??|intros ???|intros ???]
  | |- runs (mbind _ (silent uuid_v4)) _ => apply runs_uuid; intros ?
  | |- runs (mbind _ (silent now)) _ => apply runs_now; intros ?
  end.

Lemma runs_invitation {B} request (k : InvitationInput → AM B) Q :
  (∀ input, invitation_for request input → runs (k input) Q) → runs (mbind k (invitation_input request)) Q.
Proof.
  intros Hk. unfold invitation_input. repeat account_step. apply Hk. unfold invitation_for. cbn. naive_solver.
Qed.

Lemma runs_projects {B} user org (k : list ProjectSummary → AM B) Q :
  (∀ e, Q (Err e) []) → (∀ ps, runs (k ps) Q) → runs (mbind k (projects_with_roles user org)) Q.
Proof.
  intros He Hk. unfold projects_with_roles. apply runs_assoc, runs_read; [by intros|]. intros t rows _.
  apply (runs_mapM _ _ _ (λ _ _, True)); [|by intros]. intros p _. repeat account_step; by auto.
Qed.

(** Steps of a handler after the caller is known, for a goal that does not look
    at the answers. *)
Ltac handler_step :=
  cbn beta iota zeta;
  first
    [ account_step
    | apply runs_invitation; intros ? ?
    | apply runs_projects; [intros ?|intros ?]
    | apply (runs_mapM _ _ _ (λ _ _, True)); [intros ? _|intros ? _]
    | lazymatch goal with |- runs (mbind _ (match ?x with _ => _ end)) _ => destruct x eqn:? end ].

Lemma reads_write_nothing st headers request :
  reads_only request = true → needs_no_user request = false →
  runs (account_routes st headers request) (writes_attributed st headers request).
Proof.
  intros Hr Hn. destruct request; try discriminate; cbn [account_routes];
    unfold me, home, search, org_dashboard, project_settings, package_settings;
    (apply runs_attributed; [done|]); intros account user; repeat handler_step.
  all: try (apply runs_unit; repeat handler_step).
  all: cbn; auto.
Qed.

Lemma public_writes_nothing st headers request :
  needs_no_user request = true →
  runs (account_routes st headers request) (writes_attributed st headers request).
Proof.
  intros Hn. destruct request; try discriminate; cbn [account_routes].
  - apply runs_unit, runs_check; [by left|]. intros a _. apply runs_ret. by left.
  - unfold exchange_supabase. do 2 (apply runs_check; [by left|intros ? _]).
    apply (runs_silent _ _ (λ _, True)); [|by left|intros e _; apply runs_ret; by left].
    intros w'. destruct (with_err _ _ w') as [r w1] eqn:E. apply with_err_inv in E as (x & E & _).
    unfold exchange in E. apply bind_inv in E as [(e & E & _)|(q & w2 & E & Hq)];
      apply lift_inv in E as [_ ->]; [by split|]. injection Hq as _ <-. by split.
Qed.

Lemma stored_found t slug name o (e : ApiErr) package org :
  package_by_org_and_name t slug name = Ok o → ok_or e o = Ok (package, org) → stored_package slug name package.
Proof. destruct o; [|done]. intros H [= ->]. by exists t, org. Qed.

Lemma upload_format_Ok request format :
  match request.(ur_format) with
  | Some value => format ← normalize_archive_format value; Ok (Some format)
  | None => Ok None
  end = Ok format → upload_format request format.
Proof.
  unfold upload_format. destruct (ur_format request) as [value|]; [|by intros [= <-]].
  destruct (normalize_archive_format value) as [f|]; [|done]. intros [= <-]. by exists f.
Qed.

(** The end of a handler that performed [c]. *)
Lemma written_Ok {A} user request (c : PlaneWrite A) t a v :
  asks user request (issued c) → performed_as c = Some user → plane_write t c = Ok a →
  writes_asked user request (Ok v) [issued c].
Proof. intros Ha Hp Hw. split_and!; [done..|]. intros _. by exists t, a. Qed.

Lemma written_Err {A} user request (c : PlaneWrite A) e :
  asks user request (issued c) → performed_as c = Some user → writes_asked user request (Err e) [issued c].
Proof. intros Ha Hp. by split_and!. Qed.

Lemma writes_are_asked st headers request :
  reads_only request = false →
  runs (account_routes st headers request) (writes_attributed st headers request).
Proof.
  intros Hr. destruct request; try discriminate; cbn [account_routes];
    unfold update_user_settings, create_org, invite_org_member, create_project, invite_project_member,
      create_package, update_package_settings, make_package_public, add_package_license, register_package_upload;
    (apply runs_attributed; [done|]); intros account user; repeat handler_step.
  all: try by right.
  all: first [eapply written_Ok; [|done|done]|apply written_Err; [|done]].
  all: try (by constructor).
  all: try (by econstructor; eauto using stored_found).
  all: try (destruct (cpr_config request) eqn:?; [done..|]; simplify_eq; by constructor).
  all: econstructor; eauto using stored_found, upload_format_Ok; unfold upload_version, completed_when_terminal;
    match goal with H : ?x = _ |- context [match ?x with _ => _ end] => rewrite H end; eauto.
Qed.

(** C16: Every run of an account route leaves the registry's own tables and
    objects alone. A route other than the configuration and the exchange first
    authenticates the caller; it then projects exactly that session into the
    canonical plane, and issues at most one more write: the one the request asks
    for, performed as the user the plane answered with. A reading route issues
    none, and a writing route reports success only after its write was
    accepted. *)
Theorem account_writes_attributed st headers request w :
  let '(r, w', l) := account_routes st headers request w in
  db w' = db w ∧ objects w' = objects w ∧ writes_attributed st headers request r l.
Proof.
  assert (runs (account_routes st headers request) (writes_attributed st headers request)) as H.
  { destruct (reads_only request) eqn:Hr; [|by apply writes_are_asked].
    destruct (needs_no_user request) eqn:Hn; [by apply public_writes_nothing|by apply reads_write_nothing]. }
  specialize (H w). destruct (account_routes st headers request w) as [[r w'] l].
  destruct H as [[Hdb Ho] H]. by split_and!.
Qed.

(** ** The management views *)

Lemma strongest_role_spec org_role project_role :
  match strongest_role org_role project_role with
  | Some role => (org_role = Some role ∨ project_role = Some role) ∧
      ∀ other, org_role = Some other ∨ project_role = Some other → role_rank other ≤ role_rank role
  | None => org_role = None ∧ project_role = None
  end.
Proof.
  unfold strongest_role. destruct org_role as [a|], project_role as [b|]; cbn [omap list_omap id max_by_key];
    [destruct (Z.ltb_spec (role_rank b) (role_rank a))|..]; split_and!; naive_solver (lia).
Qed.

Definition holds_role (user org : uuid) (project : option uuid) : Prop :=
  (∃ t role, org_role_for_user t org user = Ok (Some role)) ∨
  ∃ t id role, project = Some id ∧ project_role_for_user t id user = Ok (Some role).

(** What a management view shows, and to whom. *)
Definition shown_to_member (user : uuid) (request : AccountRequest) (v : json) : Prop :=
  match request with
  | GetOrg slug => ∃ t org, org_by_slug t slug = Ok (Some org) ∧ holds_role user org.(co_id) None
  | GetProject slug project_slug => ∃ t t' org project,
      org_by_slug t slug = Ok (Some org) ∧ project_by_org_and_slug t' org.(co_id) project_slug = Ok (Some project) ∧
      holds_role user org.(co_id) (Some project.(pr_id))
  | GetPackageSettings slug name => ∃ t package org,
      package_by_org_and_name t slug name = Ok (Some (package, org)) ∧
      holds_role user org.(co_id) package.(cp_project_id) ∧ v = package_value package
  | _ => False
  end.

Definition view_subject (request : AccountRequest) : option string :=
  match request with
  | GetOrg _ => Some "organization"
  | GetProject _ _ => Some "project"
  | GetPackageSettings _ _ => Some "package"
  | _ => None
  end.

(** The answer when a call to the plane failed. *)
Inductive plane_failure : ApiErr → Prop :=
| failed_org t slug e : org_by_slug t slug = Err e → plane_failure (map_orm_error e)
| failed_project t org slug e : project_by_org_and_slug t org slug = Err e → plane_failure (map_orm_error e)
| failed_package t slug name e : package_by_org_and_name t slug name = Err e → plane_failure (map_orm_error e)
| failed_org_role t org user e : org_role_for_user t org user = Err e → plane_failure (map_orm_error e)
| failed_project_role t id user e : project_role_for_user t id user = Err e → plane_failure (map_orm_error e)
| failed_projects t org slug b e : projects_for_org t org slug b = Err e → plane_failure (map_orm_error e)
| failed_packages t org slug b e : packages_for_org t org slug b = Err e → plane_failure (map_orm_error e)
| failed_projection t s e : plane_write t (UpsertUserFromSession s) = Err e → plane_failure (map_orm_error e).

Definition view_answer (st : AppState) (headers : HeaderMap) (what : string) (request : AccountRequest)
    (r : ApiResult json) : Prop :=
  match r with
  | Ok v => ∃ account user, signed_in st headers account ∧ projected account user ∧
      shown_to_member user.(us_id) request v
  | Err e => status e ∈ [401; 403; 503] ∨ plane_failure e ∨ e = not_found what
  end.

Lemma no_read_ctx st e : registry_read_ctx st = Err e → status e = 503.
Proof. unfold registry_read_ctx. destruct (registry_read st); by intros [= <-]. Qed.

Lemma ok_or_Err {E A} (e e' : E) (o : option A) : ok_or e o = Err e' → e' = e ∧ o = None.
Proof. destruct o; by intros [= <-]. Qed.

Lemma ok_or_Some {E A} (e : E) (o : option A) a : ok_or e o = Ok a → o = Some a.
Proof. destruct o; by intros [= <-]. Qed.

Lemma strongest_held user org project t1 t2 org_role project_role (e : ApiErr) role :
  org_role_for_user t1 org user = Ok org_role →
  match project with Some id => project_role_for_user t2 id user = Ok project_role | None => project_role = None end →
  ok_or e (strongest_role org_role project_role) = Ok role → holds_role user org project.
Proof.
  intros Ho Hp Hr%ok_or_Some. pose proof (strongest_role_spec org_role project_role) as H. rewrite Hr in H.
  destruct H as [[-> | ->] _]; [left; by exists t1, role|]. destruct project as [id|]; [|done].
  right. by exists t2, id, role.
Qed.

Lemma projects_fail user org : runs (projects_with_roles user org) (λ r l, l = [] ∧ ∀ e, r = Err e → plane_failure e).
Proof.
  unfold projects_with_roles. apply runs_read.
  - intros t e H. split; [done|]. intros e' [= <-]. by eapply failed_projects.
  - intros t rows _. apply runs_unit, (runs_mapM _ _ _ (λ _ _, True)); [|intros ys _; by apply runs_ret].
    intros p _. apply runs_read; [|intros t' a _; by apply runs_ret].
    intros t' e H. do 2 (split; [done|]). intros e' [= <-]. by eapply failed_project_role.
Qed.

Lemma no_read st (what : string) request headers e :
  registry_read_ctx st = Err e → view_answer st headers what request (Err e).
Proof. intros H%no_read_ctx. left. rewrite H. set_solver. Qed.

Lemma absent {A} st headers what request (o : option A) e :
  ok_or (not_found what) o = Err e → view_answer st headers what request (Err e).
Proof. intros [-> _]%ok_or_Err. by right; right. Qed.

Lemma failed_view st headers what request e : plane_failure e → view_answer st headers what request (Err e).
Proof. by right; left. Qed.

(** The steps of a view: what each failure answers. *)
Ltac view_step :=
  cbn beta iota zeta;
  first
    [ apply runs_check; [intros ? ?; first [by eapply no_read|by eapply absent]|intros ? ?]
    | apply runs_read; [intros ? ? ?; apply failed_view; eauto using plane_failure|intros ? ? ?]
    | lazymatch goal with |- runs (let '(_, _) := ?x in _) _ => destruct x end
    | apply runs_ret; eexists _, _; split_and!; [done..|]; cbn ].

Ltac present :=
  repeat match goal with
  | H : ok_or _ ?o = Ok _, E : _ = Ok ?o |- _ => is_var o; apply ok_or_Some in H; subst o
  end.

Lemma org_dashboard_view st headers slug :
  runs (org_dashboard st headers slug) (λ r _, view_answer st headers "organization" (GetOrg slug) r).
Proof.
  unfold org_dashboard. apply runs_projected; [by left|by intros; apply failed_view; eauto using plane_failure|].
  intros account user Hs Hp. idtac. do 5 view_step.
  eapply runs_bind; [apply projects_fail|intros e l [_ He]; by apply failed_view, He|].
  intros ps l _. do 2 view_step. present. eexists _, _. split; [done|]. left. by eexists _, _.
Qed.

Lemma project_settings_view st headers slug project :
  runs (project_settings st headers slug project) (λ r _, view_answer st headers "project" (GetProject slug project) r).
Proof.
  unfold project_settings. apply runs_projected; [by left|by intros; apply failed_view; eauto using plane_failure|].
  intros account user Hs Hp. do 9 view_step. present. eexists _, _, _, _. split_and!; [done..|].
  by eapply (strongest_held _ _ (Some _)).
Qed.

Lemma package_settings_view st headers slug name :
  runs (package_settings st headers slug name) (λ r _, view_answer st headers "package" (GetPackageSettings slug name) r).
Proof.
  unfold package_settings. apply runs_projected; [by left|by intros; apply failed_view; eauto using plane_failure|].
  intros account user Hs Hp. do 5 view_step.
  lazymatch goal with |- context [cp_project_id ?p] => destruct (cp_project_id p) as [project|] eqn:Ep end;
    [do 3 view_step|apply runs_bind_ret; do 2 view_step]; present;
    (eexists _, _, _; split; [done|]; split; [rewrite Ep|done]).
  - by eapply (strongest_held _ _ (Some _)).
  - by eapply (strongest_held _ _ None _ 0%nat).
Qed.

(** C12: The organization, project and package management views answer a caller
    who is authenticated and holds a role in the organization, or in the project
    at hand. Everyone else gets the answer an absent entity gets, unless
    authentication or the plane itself failed: the views do not tell what exists
    from what the caller may not manage. *)
Theorem management_views_members_only st headers request w :
  let '(r, w', l) := account_routes st headers request w in
  match view_subject request with
  | Some what => view_answer st headers what request r
  | None => True
  end.
Proof.
  assert (match view_subject request with
          | Some what => runs (account_routes st headers request) (λ r _, view_answer st headers what request r)
          | None => True
          end) as H.
  { destruct request; try done; cbn [view_subject account_routes];
      [apply org_dashboard_view|apply project_settings_view|apply package_settings_view]. }
  destruct (view_subject request) as [what|].
  - specialize (H w). destruct (account_routes st headers request w) as [[r w'] l]. apply H.
  - by destruct (account_routes st headers request w) as [[r w'] l].
Qed.
End accounts.
