(* ===== verification/RateLimit.v ===== *)
(** * Rate limiting ([src/ratelimit.rs])

    A token bucket per credential. Time is a monotonic clock in nanoseconds,
    token counts are doubles. *)

From stdpp Require Export gmap.
From S2P Require Export Float64 Auth.

(** ** State *)

Record Bucket := mk_bucket { tokens : Q; last_seen : Z }.

Record RateLimiter := mk_limiter {
  buckets : gmap string Bucket;
  clock : Z;
  burst : Q;
  per_second : Q;
  max_buckets : Z;
}.

Inductive RateDecision : Type := Allow | Deny (retry_after_secs : Z).

Definition IDLE_EVICTION : Z := 600 * 1000000000.
Definition MAX_BUCKETS : Z := 100000.

Definition set_buckets (m : gmap string Bucket) (self : RateLimiter) : RateLimiter :=
  mk_limiter m self.(clock) self.(burst) self.(per_second) self.(max_buckets).
Definition set_clock (now : Z) (self : RateLimiter) : RateLimiter :=
  mk_limiter self.(buckets) now self.(burst) self.(per_second) self.(max_buckets).

(** An [f64]: finite, or not. *)
Inductive F64 : Type := Finite (q : Q) | Infinite | NaN.

Definition new_with_limit (burst : Z) (per_second : F64) (max_buckets clock : Z) : RateLimiter := {|
  buckets := ∅;
  clock := clock;
  burst := inject_Z (Z.max 1 burst);
  per_second := match per_second with
                | Finite q => if Qlt_le_dec 0 q then q else 1%Q
                | _ => 1%Q
                end;
  max_buckets := Z.max 1 max_buckets |}.

Definition new (burst : Z) (per_second : F64) (clock : Z) : RateLimiter :=
  new_with_limit burst per_second MAX_BUCKETS clock.

(** The two flags, where they are set, the second one as [parse::<f64>] has
    it. *)
Definition from_env (burst_flag : option string) (per_second_flag : option F64) (clock : Z) : RateLimiter :=
  new (default 60 (v ← burst_flag; parse_unsigned u32_max v)) (default (Finite 10) per_second_flag) clock.

(** ** Time *)

Definition checked_duration_since (now earlier : Z) : option Z :=
  if now <? earlier then None else Some (now - earlier).

(** [Duration::as_secs_f64] of nanoseconds. *)
Definition as_secs_f64 (d : Z) : Q :=
  rnd (rnd (inject_Z (d / 1000000000)) + rnd (inject_Z (d mod 1000000000) / 1000000000)).

(** ** Charging *)

(** [f64::min] of finite numbers. *)
Definition fmin (a b : Q) : Q := if Qle_bool a b then a else b.

(** [tokens + elapsed * per_second]. *)
Definition refill (self : RateLimiter) (tokens elapsed : Q) : Q :=
  rnd (tokens + rnd (elapsed * self.(per_second))).

(** [(deficit / per_second).ceil().max(1.0) as u64]. *)
Definition retry_after (self : RateLimiter) (deficit : Q) : Z :=
  Z.min u64_max (Z.max 1 (Qceiling (rnd (deficit / self.(per_second))))).

(** One request against a bucket; [None] is the panic of its [expect]. *)
Definition charge (self : RateLimiter) (bucket : Bucket) (now : Z) : option (RateDecision * Bucket) :=
  idle ← checked_duration_since now bucket.(last_seen);
  let available := fmin (refill self bucket.(tokens) (as_secs_f64 idle)) self.(burst) in
  if Qle_bool 1 available
  then Some (Allow, mk_bucket (rnd (available - 1)) now)
  else Some (Deny (retry_after self (rnd (1 - available))), mk_bucket available now).

Definition safe_to_forget (self : RateLimiter) (bucket : Bucket) (now : Z) : bool :=
  match checked_duration_since now bucket.(last_seen) with
  | None => false
  | Some idle =>
      if idle <? IDLE_EVICTION then false
      else Qle_bool self.(burst) (refill self bucket.(tokens) (as_secs_f64 idle))
  end.

(** [retain]. *)
Definition retained (self : RateLimiter) (now : Z) : gmap string Bucket :=
  filter (λ e, safe_to_forget self e.2 now = false) self.(buckets).

Definition size_of (m : gmap string Bucket) : Z := Z.of_nat (size m).

Definition check_serialized (self : RateLimiter) (key : string) (now : Z)
    : option (RateDecision * RateLimiter) :=
  if now <? self.(clock) then Some (Deny 1, self)
  else
    let self := set_clock now self in
    let crowded := negb (is_some (self.(buckets) !! key)) && (self.(max_buckets) <=? size_of self.(buckets)) in
    let self := if crowded then set_buckets (retained self now) self else self in
    if crowded && (self.(max_buckets) <=? size_of self.(buckets)) then Some (Deny 1, self)
    else
      let bucket := default (mk_bucket self.(burst) now) (self.(buckets) !! key) in
      '(decision, bucket) ← charge self bucket now;
      Some (decision, set_buckets (<[key := bucket]> self.(buckets)) self).

(** [check] and [sweep] sample [now] once they hold the clock. *)
Definition check (self : RateLimiter) (now : Z) (key : string) : option (RateDecision * RateLimiter) :=
  check_serialized self key now.

Definition sweep_serialized (self : RateLimiter) (now : Z) : RateLimiter :=
  if now <? self.(clock) then self
  else let self := set_clock now self in set_buckets (retained self now) self.

Definition sweep (self : RateLimiter) (now : Z) : RateLimiter := sweep_serialized self now.

(** ** The middleware *)

Definition rate_limited (retry_after_secs : Z) : Response :=
  mk_response StatusCode.TOO_MANY_REQUESTS [("retry-after", dec_of_Z retry_after_secs)]
    (JObj [("error", JStr "rate_limited");
           ("message", JStr ("too many requests for this token; retry in " +:+ dec_of_Z retry_after_secs +:+ "s"))]).

(** [None] is a panic; the handler behind it is [next]. *)
Definition layer `{ext : Externals} (limiter : option RateLimiter) (headers : HeaderMap) (now : Z) (next : Response)
    : option (Response * option RateLimiter) :=
  match limiter with
  | None => Some (next, None)
  | Some limiter =>
      match bearer_token headers with
      | None => Some (next, Some limiter)
      | Some token =>
          '(decision, limiter) ← check limiter now (hash_token token);
          match decision with
          | Allow => Some (next, Some limiter)
          | Deny retry_after_secs => Some (rate_limited retry_after_secs, Some limiter)
          end
      end
  end.
