(* ===== verification/RateLimitFacts.v ===== *)
(** * The rate limiter's guarantees

    Its invariant; that forgetting idle credentials cannot be observed; and how
    many requests it lets through. *)

From S2P Require Export RateLimit.

(** ** Invariants *)

(** How long the process may run: 2^53 seconds. *)
Definition CLOCK_END : Z := 2 ^ 53 * 1000000000.

Record wf_params (self : RateLimiter) : Prop := {
  wf_rate : (0 < self.(per_second))%Q;
  wf_burst : ∃ n, self.(burst) = inject_Z n ∧ 1 ≤ n < 2 ^ 53;
  wf_capacity : 1 ≤ self.(max_buckets);
  wf_clock : 0 ≤ self.(clock) < CLOCK_END;
}.

Definition wf_bucket (self : RateLimiter) (b : Bucket) : Prop :=
  (0 <= b.(tokens))%Q ∧ (b.(tokens) <= self.(burst))%Q ∧ 0 ≤ b.(last_seen) ≤ self.(clock).

Definition wf_limiter (self : RateLimiter) : Prop :=
  wf_params self ∧ map_Forall (λ _, wf_bucket self) self.(buckets) ∧ size_of self.(buckets) ≤ self.(max_buckets).

Lemma burst_bounds self : wf_params self → (1 <= self.(burst))%Q ∧ (rnd self.(burst) == self.(burst))%Q.
Proof.
  intros [_ (n & -> & Hn) _ _]. split; [change 1%Q with (inject_Z 1); rewrite <- Zle_Qle; lia|].
  apply rnd_integer. lia.
Qed.

Lemma as_secs_nonneg d : 0 ≤ d → (0 <= as_secs_f64 d)%Q.
Proof.
  intros H. unfold as_secs_f64. apply rnd_nonneg.
  assert (0 <= inject_Z (d / 1000000000))%Q as H1.
  { change 0%Q with (inject_Z 0). rewrite <- Zle_Qle. apply Z.div_pos; lia. }
  assert (0 <= inject_Z (d mod 1000000000) / 1000000000)%Q as H2.
  { apply Qle_shift_div_l; [reflexivity|]. rewrite Qmult_0_l. change 0%Q with (inject_Z 0). rewrite <- Zle_Qle.
    apply Z.mod_pos_bound. lia. }
  apply rnd_nonneg in H1, H2. lra.
Qed.

Lemma fraction_bounds d :
  (0 <= inject_Z (d mod 1000000000) / 1000000000)%Q ∧ (inject_Z (d mod 1000000000) / 1000000000 <= 1)%Q.
Proof.
  pose proof (Z.mod_pos_bound d 1000000000 eq_refl) as [H1 H2]. split.
  - apply Qle_shift_div_l; [reflexivity|]. rewrite Qmult_0_l. change 0%Q with (inject_Z 0). by rewrite <- Zle_Qle.
  - apply Qle_shift_div_r; [reflexivity|]. change (1 * 1000000000)%Q with (inject_Z 1000000000). rewrite <- Zle_Qle. lia.
Qed.

Lemma rnd_one : (rnd 1 == 1)%Q.
Proof. apply (rnd_integer 1). lia. Qed.

(** Durations the clock can measure convert in order. *)
Lemma as_secs_mono d d' : 0 ≤ d → d ≤ d' → d' < CLOCK_END → (as_secs_f64 d <= as_secs_f64 d')%Q.
Proof.
  intros H0 Hd Hend. unfold as_secs_f64.
  assert (0 ≤ d / 1000000000 ∧ d / 1000000000 ≤ d' / 1000000000 ∧ d' / 1000000000 < 2 ^ 53) as (S0 & S1 & S2).
  { split; [apply Z.div_pos; lia|]. split; [apply Z.div_le_mono; lia|]. apply Z.div_lt_upper_bound; [lia|]. unfold CLOCK_END in Hend. lia. }
  destruct (fraction_bounds d) as [F0 F1]. destruct (fraction_bounds d') as [F0' F1'].
  pose proof (rnd_integer (d / 1000000000) ltac:(lia)) as E. pose proof (rnd_integer (d' / 1000000000) ltac:(lia)) as E'.
  assert (0 <= inject_Z (d / 1000000000))%Q as Hs by (change 0%Q with (inject_Z 0); by rewrite <- Zle_Qle).
  apply rnd_nonneg in F0 as G0. apply rnd_nonneg in F0' as G0'.
  apply rnd_mono; [lra|]. destruct (Z.eq_dec (d / 1000000000) (d' / 1000000000)) as [Eq|Ne].
  - rewrite <- Eq. apply Qplus_le_compat; [apply Qle_refl|]. apply rnd_mono; [done|].
    assert (d mod 1000000000 ≤ d' mod 1000000000) as Hm.
    { pose proof (Z.div_mod d 1000000000). pose proof (Z.div_mod d' 1000000000). lia. }
    rewrite Zle_Qle in Hm. unfold Qdiv. apply Qmult_le_compat_r; [done|]. discriminate.
  - assert (inject_Z (d / 1000000000) + 1 <= inject_Z (d' / 1000000000))%Q as Hlt.
    { change 1%Q with (inject_Z 1). rewrite <- inject_Z_plus, <- Zle_Qle. lia. }
    pose proof (rnd_mono _ _ F0 F1) as Hf. rewrite rnd_one in Hf. lra.
Qed.

Section params.
Variable self : RateLimiter.
Hypothesis wf : wf_params self.

Lemma refill_mono t e e' : (0 <= t)%Q → (0 <= e)%Q → (e <= e')%Q → (refill self t e <= refill self t e')%Q.
Proof.
  intros Ht He Hle. destruct wf as [Hr _ _ _]. unfold refill.
  assert (0 <= e * per_second self)%Q as H0 by nra.
  assert (rnd (e * per_second self) <= rnd (e' * per_second self))%Q as H1 by (apply rnd_mono; nra).
  apply rnd_nonneg in H0. apply rnd_mono; lra.
Qed.

Lemma refill_nonneg t e : (0 <= t)%Q → (0 <= e)%Q → (0 <= refill self t e)%Q.
Proof.
  intros Ht He. destruct wf as [Hr _ _ _]. unfold refill. apply rnd_nonneg.
  assert (0 <= rnd (e * per_second self))%Q by (apply rnd_nonneg; nra). lra.
Qed.

Lemma fmin_bounds a b : (fmin a b <= a)%Q ∧ (fmin a b <= b)%Q ∧ (fmin a b = a ∨ fmin a b = b).
Proof.
  unfold fmin. destruct (Qle_bool a b) eqn:E; [apply Qle_bool_iff in E; repeat split; [lra|done|by left]|].
  assert (¬ (a <= b)%Q) as H by (intros Hc; apply Qle_bool_iff in Hc; congruence).
  repeat split; [lra|lra|by right].
Qed.

Lemma retry_after_bounds d : 1 ≤ retry_after self d ≤ u64_max.
Proof. unfold retry_after, u64_max. lia. Qed.

(** A charge within the clock keeps the bucket within its limits. *)
Lemma charge_wf b now :
  wf_bucket self b → self.(clock) ≤ now →
  ∃ d b', charge self b now = Some (d, b') ∧ wf_bucket (set_clock now self) b' ∧ b'.(last_seen) = now ∧
    ∀ n, d = Deny n → 1 ≤ n ≤ u64_max.
Proof.
  intros (Ht & Hb & Hl) Hn. destruct (burst_bounds self wf) as [B1 Br]. pose proof (wf_clock self wf) as Hc.
  unfold charge, checked_duration_since. rewrite (proj2 (Z.ltb_ge _ _)) by lia. cbn [mbind option_bind].
  set (x := refill self (tokens b) (as_secs_f64 (now - last_seen b))).
  assert (0 <= x)%Q as Hx by (apply refill_nonneg; [done|]; apply as_secs_nonneg; lia).
  destruct (fmin_bounds x (burst self)) as (M1 & M2 & M3). set (m := fmin x (burst self)) in *.
  assert (0 <= m)%Q as Hm by (destruct M3 as [-> | ->]; lra).
  destruct (Qle_bool 1 m) eqn:E.
  - apply Qle_bool_iff in E. do 2 eexists. split; [done|]. split; [|by split]. split; [|split; [|cbn; lia]].
    + cbn. apply rnd_nonneg. lra.
    + cbn. assert (rnd (m - 1) <= rnd (burst self))%Q as H by (apply rnd_mono; lra). rewrite Br in H. done.
  - do 2 eexists. split; [done|]. split; [split; [done|split; [done|cbn; lia]]|]. split; [done|].
    intros n [= <-]. apply retry_after_bounds.
Qed.
End params.

Lemma wf_params_with self now m :
  wf_params self → 0 ≤ now < CLOCK_END → wf_params (set_buckets m (set_clock now self)).
Proof. intros [H1 H2 H3 _] Hn. by split. Qed.

Lemma retained_sub self now : retained self now ⊆ self.(buckets).
Proof. apply map_filter_subseteq. Qed.

Lemma retained_size self now : size_of (retained self now) ≤ size_of self.(buckets).
Proof. apply Nat2Z.inj_le, map_subseteq_size, retained_sub. Qed.

Lemma wf_bucket_later self now b : self.(clock) ≤ now → wf_bucket self b → wf_bucket (set_clock now self) b.
Proof. intros Hn (H1 & H2 & H3). split; [done|]. split; [done|]. cbn. lia. Qed.

Lemma new_wf burst_flag rate clock :
  0 ≤ clock < CLOCK_END → wf_limiter (from_env burst_flag rate clock).
Proof.
  intros Hc. split; [|split; [apply map_Forall_empty|]].
  - split; [| |cbn; unfold MAX_BUCKETS; lia|done].
    + cbn. destruct (default _ _) as [q| |]; [|reflexivity..]. by destruct (Qlt_le_dec 0 q).
    + eexists. split; [done|]. split; [lia|].
      assert (∀ b, b ≤ u32_max → Z.max 1 b < 2 ^ 53) as Hmax by (unfold u32_max; lia). apply Hmax.
      destruct burst_flag as [v|]; cbn; [|by vm_compute]. unfold parse_unsigned.
      destruct (is_empty _); [by vm_compute|]. destruct (parse_digits 0 _) as [n|]; [|by vm_compute]. cbn.
      destruct (Z.leb_spec n u32_max); [done|by vm_compute].
  - cbn. unfold size_of. rewrite map_size_empty. by vm_compute.
Qed.

(** ** What a check does *)

(** The limiter a check charges: the clock moved, and, when a new credential
    finds it crowded, the full buckets forgotten. *)
Inductive prepared (self : RateLimiter) (now : Z) (key : string) : RateLimiter → Prop :=
  | prepared_kept : prepared self now key (set_clock now self)
  | prepared_retained :
      self.(buckets) !! key = None →
      prepared self now key (set_buckets (retained self now) (set_clock now self)).

Lemma wf_sub self now m :
  wf_limiter self → 0 ≤ now < CLOCK_END → self.(clock) ≤ now → m ⊆ self.(buckets) →
  wf_limiter (set_buckets m (set_clock now self)).
Proof.
  intros (Hp & Hb & Hs) Hn Hle Hm. split; [by apply wf_params_with|]. split.
  - intros k b Hk. cbn in Hk. apply (wf_bucket_later self); [done|]. apply (Hb k). by eapply lookup_weaken.
  - cbn. etrans; [|exact Hs]. by apply Nat2Z.inj_le, map_subseteq_size.
Qed.

Lemma prepared_wf self now key self2 :
  wf_limiter self → 0 ≤ now < CLOCK_END → self.(clock) ≤ now → prepared self now key self2 →
  wf_limiter self2 ∧ self2.(clock) = now ∧ self2.(burst) = self.(burst) ∧ self2.(per_second) = self.(per_second).
Proof.
  intros W Hn Hle []; (split; [|done]).
  - by apply (wf_sub self now (buckets self)).
  - apply wf_sub; [done..|]. apply retained_sub.
Qed.

Definition bucket_for (self : RateLimiter) (key : string) (now : Z) : Bucket :=
  default (mk_bucket self.(burst) now) (self.(buckets) !! key).

Lemma bucket_for_wf self key : wf_limiter self → wf_bucket self (bucket_for self key self.(clock)).
Proof.
  intros (P & B & _). unfold bucket_for. destruct (buckets self !! key) as [b|] eqn:E; [by apply (B key)|].
  destruct (burst_bounds self P) as [H1 _]. pose proof (wf_clock self P). split; [cbn; lra|]. split; [cbn; lra|]. cbn. lia.
Qed.

(** A request is denied for the clock, denied for want of room, or charged. *)
Lemma check_cases self now key :
  wf_limiter self → 0 ≤ now < CLOCK_END → self.(clock) ≤ now →
  ∃ self2, prepared self now key self2 ∧
    ((check self now key = Some (Deny 1, self2) ∧ self2.(buckets) !! key = None ∧
        self2.(max_buckets) ≤ size_of self2.(buckets) ∧
        self.(buckets) !! key = None ∧ self2.(buckets) = retained self now) ∨
     (∃ d b', charge self2 (bucket_for self2 key now) now = Some (d, b') ∧ wf_bucket self2 b' ∧
        (∀ n, d = Deny n → 1 ≤ n ≤ u64_max) ∧
        check self now key = Some (d, set_buckets (<[key := b']> self2.(buckets)) self2) ∧
        (self2.(buckets) !! key = None → size_of self2.(buckets) < self2.(max_buckets)))).
Proof.
  intros W Hn Hle. unfold check, check_serialized. rewrite (proj2 (Z.ltb_ge _ _)) by done.
  set (self1 := set_clock now self). cbn zeta.
  set (crowded := negb (is_some (buckets self1 !! key)) && (max_buckets self1 <=? size_of (buckets self1))).
  set (self2 := if crowded then set_buckets (retained self1 now) self1 else self1).
  assert (prepared self now key self2) as Hprep.
  { unfold self2. destruct crowded eqn:E; [|apply prepared_kept].
    refine (prepared_retained self now key _). unfold crowded in E. cbn in E. by destruct (buckets self !! key). }
  destruct (prepared_wf self now key self2 W Hn Hle Hprep) as (W2 & C2 & B2 & _).
  exists self2. split; [done|].
  destruct (crowded && (max_buckets self2 <=? size_of (buckets self2))) eqn:Hfull; [left|right].
  - apply andb_prop in Hfull as [Hc Hfull]. apply Z.leb_le in Hfull.
    assert (buckets self !! key = None) as Hk.
    { unfold crowded in Hc. cbn in Hc. by destruct (buckets self !! key). }
    assert (buckets self2 = retained self now) as Hr by (unfold self2; by rewrite Hc).
    split; [done|]. split; [|done]. rewrite Hr. eapply lookup_weaken_None; [exact Hk|apply retained_sub].
  - assert (buckets self2 !! key = None → size_of (buckets self2) < max_buckets self2) as Hroom.
    { intros Hk. apply andb_false_iff in Hfull as [H|H]; [|by apply Z.leb_gt in H].
      assert (self2 = self1) as E by (unfold self2; by rewrite H). rewrite E in *. unfold crowded in H. rewrite Hk in H.
      by apply Z.leb_gt in H. }
    pose proof (bucket_for_wf self2 key W2) as Wb. rewrite C2 in Wb.
    destruct (charge_wf self2 (proj1 W2) _ now Wb ltac:(lia)) as (d & b' & E & Wb' & _ & Hd).
    exists d, b'. split; [done|]. split; [destruct Wb' as (X & Y & Z); rewrite <- C2 in *; done|]. split; [done|].
    split; [|done]. unfold bucket_for in E. by rewrite E.
Qed.

Lemma check_keeps self now key :
  wf_limiter self → 0 ≤ now < CLOCK_END →
  ∃ d self', check self now key = Some (d, self') ∧ wf_limiter self' ∧ self.(clock) ≤ self'.(clock) ∧
    (now < self.(clock) → d = Deny 1 ∧ self' = self) ∧ ∀ n, d = Deny n → 1 ≤ n ≤ u64_max.
Proof.
  intros W H. destruct (Z.lt_ge_cases now (clock self)) as [Hlt|Hge].
  { exists (Deny 1), self. unfold check, check_serialized. rewrite (proj2 (Z.ltb_lt _ _)) by done.
    do 2 (split; [done|]). split; [lia|]. split; [done|]. intros n [= <-]. by vm_compute. }
  destruct (check_cases self now key W H Hge) as (self2 & Hprep & Hc).
  destruct (prepared_wf self now key self2 W H Hge Hprep) as ((P2 & B2 & S2) & C2 & _).
  destruct Hc as [(-> & _)|(d & b' & _ & Wb & Hd & -> & Hroom)]; do 2 eexists; (split; [done|]).
  - split; [done|]. split; [lia|]. split; [lia|]. intros n [= <-]. by vm_compute.
  - split; [|split; [cbn; lia|split; [lia|done]]]. split; [by destruct P2|]. split; [by apply map_Forall_insert_2|].
    cbn. unfold size_of in *. rewrite map_size_insert. destruct (buckets self2 !! key); [cbn; lia|].
    specialize (Hroom eq_refl). cbn. lia.
Qed.

Lemma sweep_keeps self now : wf_limiter self → 0 ≤ now < CLOCK_END → wf_limiter (sweep self now).
Proof.
  intros W Hn. unfold sweep, sweep_serialized. destruct (Z.ltb_spec now (clock self)); [done|].
  apply wf_sub; [done..|]. exact (retained_sub (set_clock now self) now).
Qed.

(** The limiter's memory is bounded and it never panics. At most the
    configured number of credentials is tracked, each with between zero and
    [burst] tokens and last seen no later than the clock, whatever is charged
    and swept and at whatever times; a request is answered, a clock that moved
    backwards denies it and changes nothing, the clock never moves backwards,
    and a denial always asks to wait at least a second. *)
Theorem limiter_bounded self :
  wf_limiter self →
  (∀ key now, 0 ≤ now < CLOCK_END →
     ∃ d self', check self now key = Some (d, self') ∧ wf_limiter self' ∧ self.(clock) ≤ self'.(clock) ∧
       (now < self.(clock) → d = Deny 1 ∧ self' = self) ∧ ∀ n, d = Deny n → 1 ≤ n ≤ u64_max) ∧
  (∀ now, 0 ≤ now < CLOCK_END → wf_limiter (sweep self now)).
Proof. intros W. split; intros; [by apply check_keeps|by apply sweep_keeps]. Qed.

(** ** Forgetting *)

(** A limiter with room for every credential, which forgets none. *)
Definition ideal_check (self : RateLimiter) (now : Z) (key : string) : option (RateDecision * RateLimiter) :=
  if now <? self.(clock) then Some (Deny 1, self)
  else
    '(decision, bucket) ← charge self (bucket_for self key now) now;
    Some (decision, set_buckets (<[key := bucket]> self.(buckets)) (set_clock now self)).

Definition ideal_sweep (self : RateLimiter) (now : Z) : RateLimiter :=
  if now <? self.(clock) then self else set_clock now self.

(** A bucket that would be full by now. *)
Definition full (self : RateLimiter) (b : Bucket) (now : Z) : Prop :=
  (self.(burst) <= refill self b.(tokens) (as_secs_f64 (now - b.(last_seen))))%Q.

(** Not used for ten minutes, and full. *)
Definition idle_full (self : RateLimiter) (b : Bucket) (now : Z) : Prop :=
  600 * 1000000000 ≤ now - b.(last_seen) ∧ full self b now.

Lemma Qle_dec' (a b : Q) : {(a <= b)%Q} + {¬ (a <= b)%Q}.
Proof. destruct (Qlt_le_dec b a) as [H|H]; [right; lra|by left]. Defined.

#[export] Instance idle_full_dec self b now : Decision (idle_full self b now).
Proof.
  unfold idle_full. apply and_dec; [apply _|apply Qle_dec'].
Defined.

(** The credentials that are in use, or not yet full again. *)
Definition busy (self : RateLimiter) (now : Z) : gmap string Bucket :=
  filter (λ e, ¬ idle_full self e.2 now) self.(buckets).

(** Never seen, or idle and full again. *)
Definition as_new (self : RateLimiter) (key : string) (now : Z) : Prop :=
  ∀ b, self.(buckets) !! key = Some b → idle_full self b now.

(** The same limiter, less some buckets that are idle and full. *)
Record covers (ref self : RateLimiter) : Prop := {
  covers_clock : self.(clock) = ref.(clock);
  covers_burst : self.(burst) = ref.(burst);
  covers_rate : self.(per_second) = ref.(per_second);
  covers_room : self.(max_buckets) = ref.(max_buckets);
  covers_sub : self.(buckets) ⊆ ref.(buckets);
  covers_full k b : ref.(buckets) !! k = Some b → self.(buckets) !! k = None → idle_full self b self.(clock);
  covers_wf : map_Forall (λ _, wf_bucket ref) ref.(buckets);
}.

Lemma covers_self self : wf_limiter self → covers self self.
Proof. intros (_ & H & _). split; [done..| |done]. congruence. Qed.

Lemma full_later self b now now' :
  wf_params self → wf_bucket self b → self.(clock) ≤ now → now ≤ now' → now' < CLOCK_END →
  full self b now → full self b now'.
Proof.
  intros P (Ht & Hb & Hl) H1 H2 Hend H. unfold full in *. eapply Qle_trans; [exact H|].
  apply refill_mono; [done|done|apply as_secs_nonneg; lia|apply as_secs_mono; lia].
Qed.

Lemma idle_full_later self b now now' :
  wf_params self → wf_bucket self b → self.(clock) ≤ now → now ≤ now' → now' < CLOCK_END →
  idle_full self b now → idle_full self b now'.
Proof. intros P W H1 H2 H3 [Hi Hf]. split; [lia|]. by eapply full_later. Qed.

Lemma safe_idle_full self b now : safe_to_forget self b now = true ↔ idle_full self b now.
Proof.
  unfold safe_to_forget, checked_duration_since, idle_full, full, IDLE_EVICTION. split.
  - destruct (Z.ltb_spec now (last_seen b)); [done|]. destruct (Z.ltb_spec (now - last_seen b) (600 * 1000000000)); [done|].
    intros E. split; [done|]. by apply Qle_bool_iff.
  - intros [Hi Hf]. rewrite (proj2 (Z.ltb_ge now _)) by lia. rewrite (proj2 (Z.ltb_ge (now - _) _)) by lia.
    by apply Qle_bool_iff.
Qed.

Lemma forgotten_idle self k b now :
  self.(buckets) !! k = Some b → retained self now !! k = None → idle_full self b now.
Proof.
  intros Hk Hr. apply map_lookup_filter_None in Hr as [Hr|Hr]; [congruence|]. specialize (Hr b Hk). cbn in Hr.
  apply safe_idle_full. by destruct (safe_to_forget self b now).
Qed.

Lemma forgotten_full self k b now :
  self.(buckets) !! k = Some b → retained self now !! k = None → full self b now.
Proof. intros H1 H2. by destruct (forgotten_idle self k b now H1 H2). Qed.

(** A sweep keeps the busy ones. *)
Lemma retained_busy self now : retained self now = busy self now.
Proof.
  apply map_filter_ext. intros k b _. cbn. rewrite <- safe_idle_full. by destruct (safe_to_forget self b now).
Qed.

Lemma covers_busy ref self now :
  covers ref self → busy self now ⊆ busy ref now.
Proof.
  intros [C1 C2 C3 CM C4 C5 C6]. apply map_subseteq_spec. intros k b [Hk Hb]%map_lookup_filter_Some.
  apply map_lookup_filter_Some. split; [by eapply lookup_weaken|]. cbn in *. unfold idle_full, full, refill in *.
  by rewrite <- C2, <- C3.
Qed.

Lemma covers_sweep ref self now m :
  wf_limiter self → covers ref self → 0 ≤ now < CLOCK_END → self.(clock) ≤ now →
  m = self.(buckets) ∨ m = retained self now →
  covers (set_clock now ref) (set_buckets m (set_clock now self)).
Proof.
  intros (P & B & _) [C1 C2 C3 CM C4 C5 C6] Hn Hle Hm.
  assert (m ⊆ buckets self) as Hsub by (destruct Hm as [->| ->]; [done|apply retained_sub]).
  split; [done..|cbn; by etrans| |].
  - cbn. intros k b Hr Hk. destruct (buckets self !! k) as [b0|] eqn:E.
    + assert (b0 = b) as -> by (pose proof (lookup_weaken _ _ _ _ E C4); congruence).
      destruct Hm as [->| ->]; [congruence|]. by eapply (forgotten_idle self).
    + refine (idle_full_later self b (clock self) now P _ _ Hle _ (C5 k b Hr E)); [|lia|lia].
      destruct (C6 k b Hr) as (W1 & W2 & W3). split; [done|]. rewrite C2. split; [done|]. lia.
  - intros k b Hk. apply (wf_bucket_later ref); [cbn in *; lia|by apply (C6 k)].
Qed.

(** A full bucket and a fresh one are charged alike. *)
Lemma charge_full self b now :
  wf_params self → wf_bucket self b → b.(last_seen) ≤ now → full self b now →
  charge self b now = charge self (mk_bucket self.(burst) now) now.
Proof.
  intros P (Ht & Hb & _) Hl Hf. destruct (burst_bounds self P) as [B1 Br]. pose proof (wf_rate self P) as Hr.
  unfold charge, checked_duration_since. cbn [last_seen tokens]. rewrite !(proj2 (Z.ltb_ge _ _)) by lia.
  cbn [mbind option_bind].
  assert (∀ x, (burst self <= x)%Q → (fmin x (burst self) == burst self)%Q) as Hmin.
  { intros x Hx. destruct (fmin_bounds x (burst self)) as (M1 & M2 & [E|E]); rewrite E in *; apply Qle_antisym; lra. }
  unfold full in Hf. apply Hmin in Hf as E1.
  assert (burst self <= refill self (burst self) (as_secs_f64 (now - now)))%Q as Hself.
  { unfold refill. eapply Qle_trans; [apply Qle_lteq; right; symmetry; exact Br|]. apply rnd_mono; [lra|].
    assert (0 <= rnd (as_secs_f64 (now - now) * per_second self))%Q; [|lra].
    apply rnd_nonneg. pose proof (as_secs_nonneg (now - now) ltac:(lia)). nra. }
  apply Hmin in Hself as E2.
  assert (∀ a, (a == burst self)%Q → Qle_bool 1 a = true) as Hle by (intros a Ha; apply Qle_bool_iff; lra).
  rewrite !Hle by done. do 3 f_equal. rewrite E1, E2. done.
Qed.

(** Charging depends on the limiter's rate and burst alone. *)
Lemma charge_params self ref b now :
  self.(burst) = ref.(burst) → self.(per_second) = ref.(per_second) → charge self b now = charge ref b now.
Proof. intros E1 E2. unfold charge, refill, retry_after. by rewrite E1, E2. Qed.

Lemma prepared_covers ref self now key self2 :
  wf_limiter self → covers ref self → 0 ≤ now < CLOCK_END → self.(clock) ≤ now → prepared self now key self2 →
  covers (set_clock now ref) self2.
Proof.
  intros W C Hn Hle []; [apply (covers_sweep ref self now (buckets self))|apply covers_sweep]; auto.
Qed.

Lemma wf_covered ref self : wf_limiter self → covers ref self → wf_params ref.
Proof. intros ([H1 H2 H3 H4] & _) [C1 C2 C3 CM _ _ _]. rewrite ?C1, ?C2, ?C3, ?CM in *. by split. Qed.

(** The two limiters charge the same. *)
Lemma covered_charge ref self key :
  wf_limiter self → covers ref self →
  charge self (bucket_for self key self.(clock)) self.(clock) = charge ref (bucket_for ref key self.(clock)) self.(clock).
Proof.
  intros W C. pose proof (wf_covered _ _ W C) as P. destruct C as [C1 C2 C3 CM C4 C5 C6].
  rewrite (charge_params self ref _ _ C2 C3). unfold bucket_for. rewrite C2.
  destruct (buckets self !! key) as [b|] eqn:E; [by rewrite (lookup_weaken _ _ _ _ E C4)|].
  destruct (buckets ref !! key) as [b|] eqn:Er; [|done]. cbn. symmetry. pose proof (C6 _ _ Er) as Wb.
  apply charge_full; [done|done| |].
  - destruct Wb as (_ & _ & H). rewrite C1. lia.
  - pose proof (C5 _ _ Er E) as [_ H]. unfold full, refill in *. congruence.
Qed.

Lemma covers_insert ref self key b :
  covers ref self → wf_bucket ref b →
  covers (set_buckets (<[key := b]> ref.(buckets)) ref) (set_buckets (<[key := b]> self.(buckets)) self).
Proof.
  intros [C1 C2 C3 CM C4 C5 C6] Wb. split; cbn; [done..|by apply insert_mono| |].
  - intros k b0 H1 H2. destruct (decide (k = key)) as [->|Hne]; [by rewrite lookup_insert_eq in H2|].
    rewrite lookup_insert_ne in H1, H2 by done. by apply (C5 k).
  - by apply map_Forall_insert_2.
Qed.

(** ** Histories *)

Inductive Event : Type := Checked (key : string) (now : Z) | Swept (now : Z).

Definition event_time (e : Event) : Z := match e with Checked _ now | Swept now => now end.

Fixpoint run_limiter (self : RateLimiter) (evs : list Event) : option (list RateDecision * RateLimiter) :=
  match evs with
  | [] => Some ([], self)
  | Checked key now :: evs =>
      '(d, self) ← check self now key;
      '(ds, self) ← run_limiter self evs;
      Some (d :: ds, self)
  | Swept now :: evs => run_limiter (sweep self now) evs
  end.

(** The decisions of a limiter that never forgets a credential. It may turn one
    away, and charge it nothing, only when that credential is new to it or as
    good as new, and as many others as the limit are busy. *)
Inductive explained : RateLimiter → list Event → list RateDecision → Prop :=
  | explained_nil ref : explained ref [] []
  | explained_check ref now key d ref' evs ds :
      ideal_check ref now key = Some (d, ref') →
      explained ref' evs ds → explained ref (Checked key now :: evs) (d :: ds)
  | explained_room ref now key evs ds :
      ref.(clock) ≤ now → as_new ref key now → ref.(max_buckets) ≤ size_of (busy ref now) →
      explained (set_clock now ref) evs ds → explained ref (Checked key now :: evs) (Deny 1 :: ds)
  | explained_sweep ref now evs ds :
      explained (ideal_sweep ref now) evs ds → explained ref (Swept now :: evs) ds.

(** A credential the limiter does not know is as good as new. *)
Lemma covers_as_new ref self key now :
  wf_limiter self → covers ref self → 0 ≤ now < CLOCK_END → self.(clock) ≤ now →
  self.(buckets) !! key = None → as_new ref key now.
Proof.
  intros (P & _) [C1 C2 C3 CM C4 C5 C6] Hn Hle Hk b Hb.
  assert (idle_full self b now) as H.
  { refine (idle_full_later self b (clock self) now P _ _ Hle _ (C5 key b Hb Hk)); [|lia|lia].
    destruct (C6 key b Hb) as (W1 & W2 & W3). split; [done|]. rewrite C2. split; [done|]. lia. }
  unfold idle_full, full, refill in *. by rewrite <- C2, <- C3.
Qed.

Lemma check_simulated ref self now key :
  wf_limiter self → covers ref self → 0 ≤ now < CLOCK_END →
  ∃ d self' ref', check self now key = Some (d, self') ∧ wf_limiter self' ∧ covers ref' self' ∧
    (ideal_check ref now key = Some (d, ref') ∨
     d = Deny 1 ∧ ref' = set_clock now ref ∧ ref.(clock) ≤ now ∧ as_new ref key now ∧
       ref.(max_buckets) ≤ size_of (busy ref now)).
Proof.
  intros W C Hn. destruct (check_keeps self now key W Hn) as (d & self' & E & W' & _).
  pose proof (covers_clock _ _ C) as Ec. exists d, self'.
  destruct (Z.lt_ge_cases now (clock self)) as [Hlt|Hge].
  { exists ref. split; [done|]. split; [done|]. unfold check, check_serialized in E. unfold ideal_check.
    rewrite <- Ec. rewrite (proj2 (Z.ltb_lt _ _)) in * by done. injection E as <- <-. split; [done|by left]. }
  destruct (check_cases self now key W Hn Hge) as (self2 & Hprep & Hc).
  pose proof (prepared_covers ref self now key self2 W C Hn Hge Hprep) as C2.
  destruct (prepared_wf self now key self2 W Hn Hge Hprep) as (W2 & Ek & _).
  destruct Hc as [(E' & _ & Hfull & Hk & Hret)|(d' & b' & Hch & Wb & _ & E' & _)]; rewrite E' in E; injection E as <- <-.
  - exists (set_clock now ref). split; [done|]. split; [done|]. split; [done|]. right. split; [done|]. split; [done|].
    split; [lia|]. split; [by apply (covers_as_new ref self)|]. rewrite (covers_room _ _ C2) in Hfull. etrans; [exact Hfull|].
    rewrite Hret, retained_busy. by apply Nat2Z.inj_le, map_subseteq_size, covers_busy.
  - pose proof (covered_charge _ _ key W2 C2) as Hcov. rewrite Ek, Hch in Hcov.
    exists (set_buckets (<[key := b']> ref.(buckets)) (set_clock now ref)). split; [done|]. split; [done|]. split.
    + apply (covers_insert (set_clock now ref)); [done|]. destruct C2 as [D1 D2 D3 _ _ _ _].
      destruct Wb as (X & Y & L). split; [done|]. cbn in *. split; [by rewrite <- D2|lia].
    + left. unfold ideal_check. rewrite (proj2 (Z.ltb_ge _ _)) by lia.
      assert (charge ref (bucket_for ref key now) now = Some (d', b')) as ->; [|done]. rewrite Hcov. by apply charge_params.
Qed.

Lemma sweep_simulated ref self now :
  wf_limiter self → covers ref self → 0 ≤ now < CLOCK_END →
  wf_limiter (sweep self now) ∧ covers (ideal_sweep ref now) (sweep self now).
Proof.
  intros W C Hn. pose proof (covers_clock _ _ C) as Ec. unfold sweep, sweep_serialized, ideal_sweep. rewrite <- Ec.
  destruct (Z.ltb_spec now (clock self)); [done|]. split; [apply wf_sub; [done..|]|].
  - exact (retained_sub (set_clock now self) now).
  - apply (covers_sweep ref self now); [done..|]. by right.
Qed.

(** C21: forgetting a credential cannot be observed. Whatever requests are
    charged and however the sweeps fall between them, the limiter answers each
    one as a limiter that never forgets a credential does: a credential whose
    bucket was dropped gets no more, and no less, than it would have had. The
    one difference: a credential never seen, or one idle for ten minutes whose
    allowance is whole again, is turned away while as many other credentials as
    the limit are in use or not yet whole again. *)
Theorem forgetting_unobservable self evs :
  wf_limiter self → Forall (λ e, 0 ≤ event_time e < CLOCK_END) evs →
  ∃ ds self', run_limiter self evs = Some (ds, self') ∧ explained self evs ds.
Proof.
  intros W. enough (∀ ref, covers ref self → Forall (λ e, 0 ≤ event_time e < CLOCK_END) evs →
    ∃ ds self', run_limiter self evs = Some (ds, self') ∧ explained ref evs ds) as H by (apply H, covers_self, W).
  revert self W. induction evs as [|e evs IH]; intros self W ref C Hall.
  { exists [], self. split; [done|constructor]. }
  apply Forall_cons in Hall as [He Hall]. destruct e as [key now|now]; cbn [event_time run_limiter] in *.
  - destruct (check_simulated ref self now key W C He) as (d & self1 & ref1 & -> & W1 & C1 & Hd). cbn.
    destruct (IH self1 W1 ref1 C1 Hall) as (ds & self' & -> & Hx). exists (d :: ds), self'. split; [done|].
    destruct Hd as [Hd|(-> & -> & Hc & Hn & Hr)]; [by eapply explained_check|by apply explained_room].
  - destruct (sweep_simulated ref self now W C He) as [W1 C1].
    destruct (IH _ W1 _ C1 Hall) as (ds & self' & -> & Hx). exists ds, self'. split; [done|by constructor].
Qed.

(** ** How much is let through *)

Lemma tiny_pow2 : (pow2 (-1075) <= pow2 (-53))%Q.
Proof. by apply pow2_mono. Qed.

(** A nanosecond is far from the subnormal numbers. *)
Lemma nanosecond_double f :
  (f == 0 ∨ pow2 (-30) <= f)%Q → (rnd f <= f + f * pow2 (-53))%Q ∧ (rnd f == 0 ∨ pow2 (-31) <= rnd f)%Q.
Proof.
  intros Hf. split; [apply rnd_relative; destruct Hf as [H|H]; [by left|right]; pose proof (pow2_mono (-1022) (-30) ltac:(lia)); lra|].
  destruct Hf as [H|H]; [left; by rewrite rnd_zero|right].
  assert (pow2 (-31) <= (1 # 2) * f)%Q as H31 by (change (pow2 (-31)) with ((1 # 2) * pow2 (-30))%Q; lra).
  pose proof (pow2_pos (-30)). destruct (rnd_error f ltac:(lra)) as [_ L]. unfold ulp_bound in L.
  pose proof (pow2_mono (-53) (-2) ltac:(lia)) as P1. pose proof (pow2_mono (-1075) (-32) ltac:(lia)) as P2.
  change (pow2 (-2)) with (1 # 4)%Q in P1. change (pow2 (-32)) with ((1 # 4) * pow2 (-30))%Q in P2. nra.
Qed.

(** A duration's conversion is off by at most one part in 2^51. *)
Lemma as_secs_upper d :
  0 ≤ d < CLOCK_END → (as_secs_f64 d <= inject_Z d / 1000000000 * (1 + pow2 (-51)))%Q.
Proof.
  intros [H0 H1]. unfold as_secs_f64. destruct (fraction_bounds d) as [F0 F1].
  set (s := inject_Z (d / 1000000000)) in *. set (f := (inject_Z (d mod 1000000000) / 1000000000)%Q) in *.
  assert (inject_Z d / 1000000000 == s + f)%Q as ->.
  { unfold s, f. rewrite (Z.div_mod d 1000000000) at 1 by lia. rewrite inject_Z_plus, inject_Z_mult. field. }
  assert (0 ≤ d / 1000000000 < 2 ^ 53) as Hs.
  { split; [apply Z.div_pos; lia|]. apply Z.div_lt_upper_bound; [lia|]. unfold CLOCK_END in H1. lia. }
  pose proof (rnd_integer _ Hs) as Es. fold s in Es.
  assert (0 <= s)%Q as Hs0 by (unfold s; change 0%Q with (inject_Z 0); rewrite <- Zle_Qle; lia).
  assert (f == 0 ∨ pow2 (-30) <= f)%Q as Hf.
  { unfold f. destruct (Z.eq_dec (d mod 1000000000) 0) as [->|Hne]; [left; reflexivity|right].
    pose proof (Z.mod_pos_bound d 1000000000 eq_refl).
    assert (inject_Z 1 / 1000000000 <= inject_Z (d mod 1000000000) / 1000000000)%Q as Hq.
    { unfold Qdiv. apply Qmult_le_compat_r; [rewrite <- Zle_Qle; lia|discriminate]. }
    eapply Qle_trans; [|exact Hq]. by vm_compute. }
  destruct (nanosecond_double f Hf) as [Uf Lf]. apply rnd_nonneg in F0 as G0.
  set (sum := (rnd s + rnd f)%Q).
  assert (sum == 0 ∨ pow2 (-1022) <= sum)%Q as Hsum.
  { unfold sum. pose proof (pow2_mono (-1022) (-31) ltac:(lia)) as P1. pose proof (pow2_mono (-31) 0 ltac:(lia)) as P2.
    change (pow2 0) with 1%Q in P2. destruct Lf as [Lf|Lf]; [|right; lra].
    destruct (Z.eq_dec (d / 1000000000) 0) as [Ez|Ez]; [left|right].
    { assert (s == 0)%Q by (unfold s; rewrite Ez; reflexivity). lra. }
    assert (1 <= s)%Q by (unfold s; change 1%Q with (inject_Z 1); rewrite <- Zle_Qle; lia). lra. }
  apply rnd_relative in Hsum. pose proof (pow2_pos (-53)) as Pp. pose proof (pow2_mono (-53) 0 ltac:(lia)) as P1.
  change (pow2 0) with 1%Q in P1. assert (pow2 (-51) == 4 * pow2 (-53))%Q as E51 by by vm_compute.
  set (p := pow2 (-53)) in *. set (q := pow2 (-51)) in *. assert (sum <= (s + f) * (1 + p))%Q as Hs1 by (unfold sum; nra).
  assert (0 <= p * (s + f - sum + (s + f) * p))%Q as H2 by (apply Qmult_le_0_compat; lra).
  assert (0 <= (s + f) * p * (1 - p))%Q as H3 by (repeat apply Qmult_le_0_compat; lra). nra.
Qed.

Lemma fmin_glb a b c : (c <= a)%Q → (c <= b)%Q → (c <= fmin a b)%Q.
Proof. intros H1 H2. by destruct (fmin_bounds a b) as (_ & _ & [-> | ->]). Qed.

(** Tokens per nanosecond, rounded up, and what rounding may add per event. *)
Definition rho (self : RateLimiter) : Q := (self.(per_second) * (1 + pow2 (-50)) / 1000000000)%Q.
Definition slack (self : RateLimiter) : Q := (self.(burst) * pow2 (-49))%Q.

Lemma rho_pos self : wf_params self → (0 < rho self)%Q.
Proof.
  intros [Hr _ _ _]. unfold rho, Qdiv. apply Qmult_lt_0_compat; [|reflexivity]. apply Qmult_lt_0_compat; [done|].
  pose proof (pow2_pos (-50)). lra.
Qed.

(** The token a decision costs. *)
Definition spent (d : RateDecision) : Q := match d with Allow => 1 | Deny _ => 0 end.

Section rounding.
Variable self : RateLimiter.
Hypothesis wf : wf_params self.
Let p := pow2 (-53).

Lemma unit_roundoff : (0 < p)%Q ∧ (p <= 1 # 4)%Q ∧ (pow2 (-1075) <= p)%Q ∧ (0 < pow2 (-1075))%Q ∧ (p <= burst self * p)%Q.
Proof.
  destruct (burst_bounds self wf) as [B1 _]. pose proof (pow2_pos (-53)) as P0. fold p in P0.
  pose proof (pow2_mono (-53) (-2) ltac:(lia)) as P1. change (pow2 (-2)) with (1 # 4)%Q in P1.
  do 2 (split; [done|]). split; [apply tiny_pow2|]. split; [apply pow2_pos|nra].
Qed.

(** What an interval refills, before the sum is rounded. *)
Lemma earned_upper d :
  0 ≤ d < CLOCK_END → (rnd (as_secs_f64 d * per_second self) <= rho self * inject_Z d + pow2 (-1075))%Q.
Proof.
  intros Hd. destruct unit_roundoff as (P0 & P1 & _). pose proof (wf_rate self wf) as Hr.
  pose proof (as_secs_nonneg d (proj1 Hd)) as H0. pose proof (as_secs_upper d Hd) as H1.
  set (e := as_secs_f64 d) in *. set (r := per_second self) in *.
  destruct (rnd_error (e * r)) as [U _]; [nra|]. unfold ulp_bound in U. fold p in U.
  assert (pow2 (-51) == 4 * p)%Q as E1 by by vm_compute. assert (pow2 (-50) == 8 * p)%Q as E2 by by vm_compute.
  unfold rho. fold r. set (x := (inject_Z d / 1000000000)%Q) in *.
  assert (r * (1 + pow2 (-50)) / 1000000000 * inject_Z d == x * r * (1 + 8 * p))%Q as ->
    by (rewrite E2; unfold x; field).
  assert (0 <= x)%Q as Hx.
  { unfold x. apply Qle_shift_div_l; [reflexivity|]. rewrite Qmult_0_l. change 0%Q with (inject_Z 0). rewrite <- Zle_Qle. lia. }
  rewrite E1 in H1. assert (e * r * (1 + p) <= x * (1 + 4 * p) * r * (1 + p))%Q as H2.
  { apply Qmult_le_compat_r; [|lra]. apply Qmult_le_compat_r; lra. }
  assert (0 <= x * r * p * (3 - 4 * p))%Q as H3.
  { assert (0 <= x * r)%Q by nra. assert (0 <= x * r * p)%Q by nra. nra. }
  nra.
Qed.

(** What a bucket holds after an interval, by the ideal clock. *)
Lemma available_upper t d :
  (0 <= t)%Q → 0 ≤ d < CLOCK_END →
  (fmin (refill self t (as_secs_f64 d)) (burst self) <= fmin (t + rho self * inject_Z d) (burst self) + 3 * (burst self * p))%Q.
Proof.
  intros Ht Hd. destruct unit_roundoff as (P0 & P1 & T1 & T0 & Bp). pose proof (earned_upper d Hd) as He.
  pose proof (as_secs_nonneg d (proj1 Hd)) as H0. pose proof (wf_rate self wf) as Hr.
  set (B := burst self) in *. set (y := rnd (as_secs_f64 d * per_second self)) in *.
  set (z := (t + rho self * inject_Z d)%Q). set (tau := pow2 (-1075)) in *.
  assert (0 <= y)%Q as Hy by (apply rnd_nonneg; nra).
  destruct (rnd_error (t + y)) as [U _]; [lra|]. unfold ulp_bound in U. fold p tau in U.
  unfold refill. fold y. set (x := rnd (t + y)) in *.
  destruct (fmin_bounds x B) as (M1 & M2 & _). set (m := fmin x B) in *.
  enough (m - 3 * (B * p) <= fmin z B)%Q by lra.
  apply fmin_glb; [|lra]. destruct (Qlt_le_dec (t + y) B) as [Hlt|Hge]; [|unfold z; lra].
  assert ((t + y) * p <= B * p)%Q by (apply Qmult_le_compat_r; lra). unfold z. lra.
Qed.

(** A charge takes a whole token out of the bucket. *)
Lemma charge_spends b now d b' :
  wf_bucket self b → self.(clock) ≤ now < CLOCK_END → charge self b now = Some (d, b') →
  (b'.(tokens) + spent d <=
    fmin (b.(tokens) + rho self * inject_Z (now - b.(last_seen))) (burst self) + self.(burst) * pow2 (-50))%Q
  ∧ b'.(last_seen) = now.
Proof.
  intros (Ht & Hb & Hl) Hn. destruct unit_roundoff as (P0 & P1 & T1 & T0 & Bp). pose proof (wf_clock self wf) as Hc.
  pose proof (available_upper (tokens b) (now - last_seen b) Ht ltac:(lia)) as Ha.
  assert (pow2 (-50) == 8 * p)%Q as E2 by by vm_compute.
  unfold charge, checked_duration_since. rewrite (proj2 (Z.ltb_ge _ _)) by lia. cbn [mbind option_bind].
  set (m := fmin (refill self (tokens b) (as_secs_f64 (now - last_seen b))) (burst self)) in *.
  assert (m <= burst self)%Q as Hm by (destruct (fmin_bounds (refill self (tokens b) (as_secs_f64 (now - last_seen b))) (burst self)) as (_ & M2 & _); exact M2).
  set (B := burst self) in *. assert (B * pow2 (-50) == 8 * (B * p))%Q as -> by (rewrite E2; ring).
  destruct (Qle_bool 1 m) eqn:E; intros [= <- <-]; cbn [tokens last_seen]; (split; [|done]); cbn [spent].
  - apply Qle_bool_iff in E. destruct (rnd_error (m - 1)) as [U _]; [lra|]. unfold ulp_bound in U. fold p in U.
    assert ((m - 1) * p <= B * p)%Q by (apply Qmult_le_compat_r; lra). lra.
  - lra.
Qed.

(** A bucket that may be forgotten is full by the ideal clock too. *)
Lemma full_level b now :
  wf_bucket self b → self.(clock) ≤ now < CLOCK_END → full self b now →
  (self.(burst) <= fmin (b.(tokens) + rho self * inject_Z (now - b.(last_seen))) (burst self) + self.(burst) * pow2 (-50))%Q.
Proof.
  intros (Ht & Hb & Hl) Hn Hf. destruct unit_roundoff as (P0 & P1 & T1 & T0 & Bp). pose proof (wf_clock self wf) as Hc.
  pose proof (available_upper (tokens b) (now - last_seen b) Ht ltac:(lia)) as Ha. unfold full in Hf.
  assert (pow2 (-50) == 8 * p)%Q as E2 by by vm_compute.
  assert (burst self * pow2 (-50) == 8 * (burst self * p))%Q as -> by (rewrite E2; ring).
  pose proof (fmin_glb _ _ _ Hf (Qle_refl (burst self))). lra.
Qed.
End rounding.

(** What a credential could still spend at once. *)
Definition level (self : RateLimiter) (key : string) : Q :=
  match self.(buckets) !! key with
  | Some b => fmin (b.(tokens) + rho self * inject_Z (self.(clock) - b.(last_seen))) self.(burst)
  | None => self.(burst)
  end.

Lemma level_bounds self key : wf_limiter self → (0 <= level self key)%Q ∧ (level self key <= self.(burst))%Q.
Proof.
  intros (P & B & _). destruct (burst_bounds self P) as [B1 _]. unfold level.
  destruct (buckets self !! key) as [b|] eqn:E; [|lra]. destruct (B key b E) as (Ht & Hb & Hl).
  split; [|apply fmin_bounds]. apply fmin_glb; [|lra]. pose proof (rho_pos self P) as Hr.
  assert (0 <= inject_Z (clock self - last_seen b))%Q by (change 0%Q with (inject_Z 0); rewrite <- Zle_Qle; lia). nra.
Qed.

Lemma fmin_add a b c : (0 <= c)%Q → (fmin (a + c) b <= fmin a b + c)%Q.
Proof.
  intros Hc. destruct (fmin_bounds (a + c) b) as (M1 & M2 & _).
  enough (fmin (a + c) b - c <= fmin a b)%Q by lra. apply fmin_glb; lra.
Qed.

(** The passing of time. *)
Lemma level_later self key now :
  wf_params self → self.(clock) ≤ now →
  (level (set_clock now self) key <= level self key + rho self * inject_Z (now - self.(clock)))%Q.
Proof.
  intros P Hn. pose proof (rho_pos self P) as Hr.
  assert (0 <= inject_Z (now - clock self))%Q as H0 by (change 0%Q with (inject_Z 0); rewrite <- Zle_Qle; lia).
  assert (0 <= rho self * inject_Z (now - clock self))%Q as H1 by nra.
  unfold level. cbn. destruct (buckets self !! key) as [b|]; [|lra].
  change (rho (set_clock now self)) with (rho self).
  assert (inject_Z (now - last_seen b) == inject_Z (clock self - last_seen b) + inject_Z (now - clock self))%Q as Hs.
  { rewrite <- inject_Z_plus. by replace (clock self - last_seen b + (now - clock self)) with (now - last_seen b) by lia. }
  eapply Qle_trans; [|by apply fmin_add]. apply fmin_glb; [|apply fmin_bounds].
  destruct (fmin_bounds (tokens b + rho self * inject_Z (now - last_seen b)) (burst self)) as (M1 & _). nra.
Qed.

(** Dropping what may be forgotten. *)
Lemma level_retained self key now :
  wf_limiter self → self.(clock) ≤ now < CLOCK_END →
  (level (set_buckets (retained self now) (set_clock now self)) key
    <= level (set_clock now self) key + self.(burst) * pow2 (-50))%Q.
Proof.
  intros (P & B & _) Hn. destruct (burst_bounds self P) as [B1 _]. pose proof (pow2_pos (-50)) as Hp.
  assert (0 <= burst self * pow2 (-50))%Q as H0 by (apply Qmult_le_0_compat; lra).
  assert (∀ a, a <= a + burst self * pow2 (-50))%Q as Ha by (intros a; lra). unfold level. cbn.
  destruct (retained self now !! key) as [b|] eqn:E.
  - rewrite (lookup_weaken _ _ _ _ E (retained_sub self now)).
    exact (Ha _).
  - destruct (buckets self !! key) as [b|] eqn:Eb; [|exact (Ha _)].
    by apply (full_level self P b now (B key b Eb) Hn), (forgotten_full self key).
Qed.

Lemma slack_halves self :
  wf_params self →
  (0 <= self.(burst) * pow2 (-50))%Q ∧ (slack self == self.(burst) * pow2 (-50) + self.(burst) * pow2 (-50))%Q.
Proof.
  intros P. destruct (burst_bounds self P) as [B1 _]. pose proof (pow2_pos (-50)) as Hp.
  split; [apply Qmult_le_0_compat; lra|]. unfold slack.
  assert (pow2 (-49) == pow2 (-50) + pow2 (-50))%Q as -> by by vm_compute. ring.
Qed.

(** A request, whoever makes it: what it spends comes out of the level. *)
Lemma check_level self key k now d self' :
  wf_limiter self → 0 ≤ now < CLOCK_END → check self now k = Some (d, self') →
  (level self' key + (if decide (k = key) then spent d else 0)
    <= level self key + rho self * inject_Z (self'.(clock) - self.(clock)) + slack self)%Q.
Proof.
  intros W Hn E. pose proof (proj1 W) as P. destruct (slack_halves self P) as [H0 Hsl].
  destruct (Z.lt_ge_cases now (clock self)) as [Hlt|Hge].
  { unfold check, check_serialized in E. rewrite (proj2 (Z.ltb_lt _ _)) in E by done. injection E as <- <-.
    rewrite Z.sub_diag. change (inject_Z 0) with 0%Q. destruct (decide (k = key)); cbn [spent]; lra. }
  destruct (check_cases self now k W Hn Hge) as (self2 & Hprep & Hc).
  destruct (prepared_wf self now k self2 W Hn Hge Hprep) as (W2 & Ek & Eb & Er).
  assert (level self2 key <= level self key + rho self * inject_Z (now - clock self) + burst self * pow2 (-50))%Q as H2.
  { pose proof (level_later self key now P Hge). destruct Hprep; [lra|].
    pose proof (level_retained self key now W ltac:(lia)). lra. }
  destruct Hc as [(E' & _)|(d' & b' & Hch & _ & _ & E' & _)]; rewrite E' in E; injection E as <- <-.
  - rewrite Ek. destruct (decide (k = key)); cbn [spent]; lra.
  - pose proof (bucket_for_wf self2 k W2) as Wb. rewrite Ek in Wb.
    destruct (charge_spends self2 (proj1 W2) _ now d' b' Wb ltac:(lia) Hch) as [Hs Hl]. cbn [clock set_buckets]. rewrite Ek.
    destruct (decide (k = key)) as [->|Hne].
    + enough (level (set_buckets (<[key:=b']> (buckets self2)) self2) key + spent d' <= level self2 key + burst self * pow2 (-50))%Q by lra.
      eapply Qle_trans; [|eapply Qle_trans; [exact Hs|]].
      * unfold level. cbn. rewrite lookup_insert_eq, Ek, Hl, Z.sub_diag.
        destruct (fmin_bounds (tokens b' + rho (set_buckets (<[key:=b']> (buckets self2)) self2) * inject_Z 0) (burst self2)) as (M1 & _).
        change (inject_Z 0) with 0%Q in *. lra.
      * unfold level, bucket_for. rewrite Ek, Eb. destruct (buckets self2 !! key); cbn; [lra|].
        destruct (fmin_bounds (burst self + rho self2 * inject_Z (now - now)) (burst self)) as (_ & M2 & _). lra.
    + enough (level (set_buckets (<[k:=b']> (buckets self2)) self2) key = level self2 key) as -> by lra.
      unfold level. cbn. by rewrite lookup_insert_ne.
Qed.

Lemma sweep_level self key now :
  wf_limiter self → 0 ≤ now < CLOCK_END →
  (level (sweep self now) key <= level self key + rho self * inject_Z ((sweep self now).(clock) - self.(clock)) + slack self)%Q.
Proof.
  intros W Hn. pose proof (proj1 W) as P. destruct (slack_halves self P) as [H0 Hsl].
  unfold sweep, sweep_serialized. destruct (Z.ltb_spec now (clock self)).
  - rewrite Z.sub_diag. change (inject_Z 0) with 0%Q. lra.
  - pose proof (level_later self key now P H). pose proof (level_retained self key now W ltac:(lia)) as Hr. cbn [clock set_buckets set_clock].
    change (retained (set_clock now self) now) with (retained self now). lra.
Qed.

(** The requests of a credential that were let through. *)
Fixpoint let_through (key : string) (evs : list Event) (ds : list RateDecision) : Q :=
  match evs, ds with
  | Checked k _ :: evs, d :: ds => (if decide (k = key) then spent d else 0) + let_through key evs ds
  | Swept _ :: evs, ds => let_through key evs ds
  | _, _ => 0
  end.

(** A check leaves the parameters alone. *)
Lemma check_params self k now d self' :
  check self now k = Some (d, self') → self'.(per_second) = self.(per_second) ∧ self'.(burst) = self.(burst).
Proof.
  unfold check, check_serialized. intros H. destruct (now <? clock self); [by injection H as <- <-|].
  cbn zeta in H. destruct (negb _ && _); cbn [andb] in H;
    [destruct (max_buckets _ <=? _); [by injection H as <- <-|]|];
    destruct (charge _ _ _) as [[d0 b0]|]; try done; by injection H as <- <-.
Qed.

Lemma sweep_params self now : rho (sweep self now) = rho self ∧ slack (sweep self now) = slack self.
Proof. unfold sweep, sweep_serialized. by destruct (now <? clock self). Qed.

Lemma sum_from a b c : inject_Z (c - a) == inject_Z (b - a) + inject_Z (c - b).
Proof. rewrite <- inject_Z_plus. by replace (b - a + (c - b)) with (c - a) by lia. Qed.

Lemma run_level key evs self ds self' :
  wf_limiter self → Forall (λ e, 0 ≤ event_time e < CLOCK_END) evs → run_limiter self evs = Some (ds, self') →
  wf_limiter self' ∧
  (let_through key evs ds + level self' key
    <= level self key + rho self * inject_Z (self'.(clock) - self.(clock)) + inject_Z (Z.of_nat (length evs)) * slack self)%Q.
Proof.
  revert self ds. induction evs as [|e evs IH]; intros self ds W Hall E.
  { injection E as <- <-. split; [done|]. cbn [let_through length]. rewrite Z.sub_diag.
    change (inject_Z (Z.of_nat 0)) with 0%Q. change (inject_Z 0) with 0%Q. lra. }
  apply Forall_cons in Hall as [He Hall]. cbn [length]. rewrite Nat2Z.inj_succ, <- Z.add_1_l, inject_Z_plus.
  assert (∀ self1 d, wf_limiter self1 → rho self1 = rho self → slack self1 = slack self → ∀ ds1,
    run_limiter self1 evs = Some (ds1, self') →
    (level self1 key + d <= level self key + rho self * inject_Z (clock self1 - clock self) + slack self)%Q →
    wf_limiter self' ∧ (d + let_through key evs ds1 + level self' key <= level self key
      + rho self * inject_Z (clock self' - clock self) + (inject_Z 1 + inject_Z (Z.of_nat (length evs))) * slack self)%Q) as Hstep.
  { intros self1 d W1 Er Es ds1 E1 Hl. destruct (IH self1 ds1 W1 Hall E1) as [W' H]. split; [done|]. rewrite Er, Es in H.
    pose proof (sum_from (clock self) (clock self1) (clock self')) as Hs. change (inject_Z 1) with 1%Q.
    assert (rho self * inject_Z (clock self' - clock self) == rho self * inject_Z (clock self1 - clock self)
      + rho self * inject_Z (clock self' - clock self1))%Q by (rewrite Hs; ring). lra. }
  destruct e as [k now|now]; cbn [event_time run_limiter] in *.
  - destruct (check_keeps self now k W He) as (d & self1 & Ec & W1 & _). rewrite Ec in E. cbn in E.
    destruct (run_limiter self1 evs) as [[ds1 self2]|] eqn:E1; [|done]. injection E as <- <-. cbn [let_through].
    destruct (check_params _ _ _ _ _ Ec) as [Er Eb].
    eapply Hstep; [exact W1|unfold rho; by rewrite Er|unfold slack; by rewrite Eb|done|].
    exact (check_level self key k now d self1 W He Ec).
  - eapply (Hstep (sweep self now) 0%Q) in E; [|by apply sweep_keeps|by apply sweep_params|by apply sweep_params|pose proof (sweep_level self key now W He); lra].
    destruct E as [W' E]. split; [done|]. cbn [let_through]. lra.
Qed.

(** C10: the limiter holds callers to its rate. Of the requests one credential
    makes in any stretch of traffic, whoever else calls and whenever idle
    buckets are swept or evicted, at most [burst] and then [per_second] for
    every second that passed are let through, but for the rounding of the
    doubles: one part in 2^50 of the rate, and one part in 2^49 of the burst
    for each event. *)
Theorem throughput_bounded key evs self ds self' :
  wf_limiter self → Forall (λ e, 0 ≤ event_time e < CLOCK_END) evs → run_limiter self evs = Some (ds, self') →
  (let_through key evs ds <= self.(burst)
    + self.(per_second) * (inject_Z (self'.(clock) - self.(clock)) / 1000000000) * (1 + pow2 (-50))
    + inject_Z (Z.of_nat (length evs)) * (self.(burst) * pow2 (-49)))%Q.
Proof.
  intros W Hall E. destruct (run_level key evs self ds self' W Hall E) as [W' H].
  destruct (level_bounds self key W) as [_ H1]. destruct (level_bounds self' key W') as [H2 _]. unfold slack in H.
  assert (rho self * inject_Z (clock self' - clock self) ==
    self.(per_second) * (inject_Z (self'.(clock) - self.(clock)) / 1000000000) * (1 + pow2 (-50)))%Q as Hr
    by (unfold rho; field).
  lra.
Qed.
