(* ===== verification/RateLimitLiveness.v ===== *)
(** * No credential is starved

    A caller that waits long enough for one token to accrue is let through,
    whatever other callers and the sweeper do meanwhile. *)

From S2P Require Export RateLimitFacts.

(** Traffic in which a credential makes no request. *)
Definition silent_for (key : string) : list Event → Prop :=
  Forall (λ e, match e with Checked k _ => k ≠ key | Swept _ => True end).

(** The same limiter as far as a credential is concerned, or one that forgot
    it. *)
Record leaves_alone (key : string) (self self' : RateLimiter) : Prop := {
  la_bucket : self'.(buckets) !! key = self.(buckets) !! key ∨ self'.(buckets) !! key = None;
  la_burst : self'.(burst) = self.(burst);
  la_rate : self'.(per_second) = self.(per_second);
  la_room : self'.(max_buckets) = self.(max_buckets);
}.

#[export] Instance leaves_alone_preorder key : PreOrder (leaves_alone key).
Proof.
  split; [intros self; split; auto|]. intros a b c [A1 A2 A3 A4] [B1 B2 B3 B4]. split; [|congruence..].
  destruct B1 as [-> |]; [done|by right].
Qed.

Lemma retained_alone key self now : leaves_alone key self (set_buckets (retained self now) (set_clock now self)).
Proof.
  split; [|done..]. cbn. destruct (retained self now !! key) as [b|] eqn:E; [left|by right].
  symmetry. eapply lookup_weaken; [exact E|apply retained_sub].
Qed.

Lemma clock_alone key self now : leaves_alone key self (set_clock now self).
Proof. split; auto. Qed.

Lemma prepared_alone key self now k self2 : prepared self now k self2 → leaves_alone key self self2.
Proof. destruct 1; [apply clock_alone|apply retained_alone]. Qed.

Lemma check_alone key self now k d self' :
  wf_limiter self → 0 ≤ now < CLOCK_END → k ≠ key → check self now k = Some (d, self') → leaves_alone key self self'.
Proof.
  intros W Hn Hk E. destruct (Z.lt_ge_cases now (clock self)) as [Hlt|Hge].
  { unfold check, check_serialized in E. rewrite (proj2 (Z.ltb_lt _ _)) in E by done. by injection E as <- <-. }
  destruct (check_cases self now k W Hn Hge) as (self2 & Hp & [(E' & _)|(d' & b' & _ & _ & _ & E' & _)]);
    rewrite E' in E; injection E as <- <-; [by eapply prepared_alone|].
  etrans; [by eapply prepared_alone|]. split; [|done..]. left. cbn. by rewrite lookup_insert_ne.
Qed.

Lemma sweep_alone key self now : leaves_alone key self (sweep self now).
Proof.
  unfold sweep, sweep_serialized. destruct (now <? clock self); [done|]. exact (retained_alone key self now).
Qed.

Lemma run_alone key evs self ds self' :
  wf_limiter self → Forall (λ e, 0 ≤ event_time e < CLOCK_END) evs → silent_for key evs →
  run_limiter self evs = Some (ds, self') → wf_limiter self' ∧ leaves_alone key self self'.
Proof.
  revert self ds. induction evs as [|e evs IH]; intros self ds W Hall Hs E; [by injection E as <- <-|].
  apply Forall_cons in Hall as [He Hall], Hs as [Hk Hs]. destruct e as [k now|now]; cbn [event_time run_limiter] in *.
  - destruct (check_keeps self now k W He) as (d & self1 & Ec & W1 & _). rewrite Ec in E. cbn in E.
    destruct (run_limiter self1 evs) as [[ds1 self2]|] eqn:E1; [|done]. injection E as <- <-.
    destruct (IH _ _ W1 Hall Hs E1) as [W' L]. split; [done|]. etrans; [by eapply check_alone|done].
  - destruct (IH _ _ (sweep_keeps self now W He) Hall Hs E) as [W' L]. split; [done|].
    etrans; [apply sweep_alone|done].
Qed.

(** ** One token accrues *)

Section accrual.
Variable self : RateLimiter.
Hypothesis wf : wf_params self.

Lemma charge_allows b now :
  b.(last_seen) ≤ now → (1 <= refill self b.(tokens) (as_secs_f64 (now - b.(last_seen))))%Q →
  ∃ b', charge self b now = Some (Allow, b').
Proof.
  intros Hl Hr. unfold charge, checked_duration_since. rewrite (proj2 (Z.ltb_ge _ _)) by done. cbn [mbind option_bind].
  destruct (burst_bounds self wf) as [B _]. set (x := refill _ _ _) in *.
  destruct (fmin_bounds x (burst self)) as (_ & _ & M).
  rewrite (proj2 (Qle_bool_iff 1 (fmin x (burst self)))); [by eexists|]. by destruct M as [-> | ->].
Qed.

Lemma as_secs_whole n : 0 ≤ n < 2 ^ 53 → (as_secs_f64 (n * 1000000000) == inject_Z n)%Q.
Proof.
  intros Hn. unfold as_secs_f64. rewrite Z.div_mul, Z.mod_mul by lia.
  assert (rnd (inject_Z 0 / 1000000000) == 0)%Q as H0 by by vm_compute.
  rewrite H0, (rnd_integer n) by lia. rewrite Qplus_0_r. apply rnd_integer. lia.
Qed.

(** After [n] seconds that earn a token, the bucket holds one. *)
Lemma refill_one t n d :
  (0 <= t)%Q → 0 ≤ n → n * 1000000000 ≤ d → d < CLOCK_END → (1 <= inject_Z n * self.(per_second))%Q →
  (1 <= refill self t (as_secs_f64 d))%Q.
Proof.
  intros Ht Hn Hd Hend Hr. destruct wf as [Hrate _ _ _].
  assert (n < 2 ^ 53) as Hn53 by (unfold CLOCK_END in Hend; lia).
  assert (0 <= inject_Z n)%Q as Hq by (change 0%Q with (inject_Z 0); by rewrite <- Zle_Qle).
  eapply Qle_trans; [|apply refill_mono; [done|done| |apply as_secs_mono; [|exact Hd|done]; lia]];
    [|apply as_secs_nonneg; lia].
  unfold refill. rewrite (as_secs_whole n) by lia.
  assert (1 <= rnd (inject_Z n * per_second self))%Q as H1.
  { rewrite <- rnd_one at 1. by apply rnd_mono. }
  rewrite <- rnd_one at 1. apply rnd_mono; lra.
Qed.
End accrual.

(** C22: No credential is starved. A caller already known that waits the seconds
    one token takes is let through by its next request, whatever others request
    and however often the sweeper runs meanwhile; the only exception is a table
    full of other credentials, once the caller's own full bucket was forgotten. *)
Theorem waiting_is_rewarded key evs self ds self' b n now :
  wf_limiter self → Forall (λ e, 0 ≤ event_time e < CLOCK_END) evs → run_limiter self evs = Some (ds, self') →
  silent_for key evs → self.(buckets) !! key = Some b →
  0 ≤ n → (1 <= inject_Z n * self.(per_second))%Q →
  self'.(clock) ≤ now < CLOCK_END → b.(last_seen) + n * 1000000000 ≤ now →
  ∃ d self'', check self' now key = Some (d, self'') ∧
    (d = Allow ∨ (self'.(buckets) !! key = None ∧ self.(max_buckets) ≤ size_of self''.(buckets))).
Proof.
  intros W Hall E Hs Hb Hn Hr [Hc Hend] Hw. destruct (run_alone key evs self ds self' W Hall Hs E) as [W' [L1 L2 L3 L4]].
  assert (0 ≤ now) as Hnow by (pose proof (wf_clock self' (proj1 W')); lia).
  destruct (check_cases self' now key W' ltac:(lia) Hc) as (self2 & Hp & Hcase).
  pose proof (prepared_alone key _ _ _ _ Hp) as [P1 P2 P3 P4].
  destruct (prepared_wf self' now key self2 W' ltac:(lia) Hc Hp) as ((W2 & _) & _).
  destruct Hcase as [(Ec & Hnone & Hfull & _)|(d & b' & Hch & _ & _ & Ec & _)].
  - exists (Deny 1), self2. split; [done|]. right. split; [|by rewrite <- L4, <- P4].
    destruct Hp; [done|done].
  - eexists d, _. split; [exact Ec|]. left.
    assert (∃ b'', charge self2 (bucket_for self2 key now) now = Some (Allow, b'')) as (b'' & Ha); [|congruence].
    apply charge_allows; [done|..].
    + unfold bucket_for. destruct (buckets self2 !! key) as [b0|] eqn:E0; cbn; [|lia].
      assert (b0 = b) as -> by (destruct P1, L1; congruence). lia.
    + unfold bucket_for. destruct (buckets self2 !! key) as [b0|] eqn:E0; cbn.
      * assert (b0 = b) as -> by (destruct P1, L1; congruence).
        destruct (proj1 (proj2 W) key b Hb) as (Ht & _ & Hl). eapply refill_one; [done|done|exact Hn| | |].
        -- lia.
        -- lia.
        -- by rewrite P3, L3.
      * destruct (burst_bounds self2 W2) as [B1 B2]. eapply Qle_trans; [exact B1|]. rewrite <- B2 at 1.
        unfold refill. apply rnd_mono; [lra|].
        assert (0 <= rnd (as_secs_f64 (now - now) * per_second self2))%Q; [|lra].
        apply rnd_nonneg. pose proof (as_secs_nonneg (now - now) ltac:(lia)). pose proof (wf_rate self2 W2). nra.
Qed.
