(* ===== verification/PackageIntake.v ===== *)
(** * Package intake ([src/package_intake.rs])

    The decision that turns the security evidence about an upload into an
    admission. *)

From S2P Require Export TextFacts.

(** ** Evidence *)

Inductive IntakeState : Type :=
| Received | Quarantined | Evaluated | PendingApprovalState | RejectedState | PublishableState | Published.

Inductive RiskDecision : Type := RiskClear | RiskRequireApproval | RiskReject.

Inductive ApprovalDecision : Type := Approved | ApprovalRefused.

Record DigestBindings := mk_bindings {
  db_artifact_digest : string;
  db_source_digest : string;
  db_policy_digest : string;
  db_risk_receipt_digest : string;
  db_rebuild_receipt_digest : string;
}.

Record RebuildEvidence := mk_rebuild {
  rb_receipt_digest : string;
  rb_artifact_digest : string;
  rb_source_digest : string;
  rb_rebuilt_artifact_digest : string;
  rb_declared_file_manifest_digest : string;
  rb_dependency_lock_digest : string;
  rb_matched : bool;
}.

Record RiskEvidence := mk_risk {
  rk_artifact_digest : string;
  rk_source_digest : string;
  rk_policy_digest : string;
  rk_risk_receipt_digest : string;
  rk_decision : RiskDecision;
}.

Record ApprovalEvidence := mk_approval {
  ap_bindings : DigestBindings;
  ap_decision : ApprovalDecision;
}.

Record AdmissionRequest := mk_admission {
  current_state : IntakeState;
  artifact_digest : string;
  source_digest : string;
  policy_digest : string;
  rebuild : option RebuildEvidence;
  risk : option RiskEvidence;
  approval : option ApprovalEvidence;
}.

Inductive AdmissionDecision : Type := Quarantine | PendingApproval | Reject | Publishable.

Inductive AdmissionReason : Type :=
| InvalidState
| MissingRebuildEvidence
| RebuildIdentityMismatch
| RebuildArtifactMismatch
| MissingRiskEvidence
| RiskIdentityMismatch
| RiskRejected
| MissingApproval
| ApprovalIdentityMismatch
| ApprovalRejected
| AllRequiredEvidenceBound.

Record AdmissionOutcome := mk_outcome { decision : AdmissionDecision; reason : AdmissionReason }.

#[export] Instance approval_decision_eq_dec : EqDecision ApprovalDecision.
Proof. solve_decision. Defined.

(** ** The decision *)

Definition reject (reason : AdmissionReason) : AdmissionOutcome := mk_outcome Reject reason.

Definition bindings_match_request (b : DigestBindings) (r : AdmissionRequest) : bool :=
  (b.(db_artifact_digest) =s r.(artifact_digest)) && (b.(db_source_digest) =s r.(source_digest))
  && (b.(db_policy_digest) =s r.(policy_digest)).

Definition rebuild_matches_request (e : RebuildEvidence) (r : AdmissionRequest) : bool :=
  (e.(rb_artifact_digest) =s r.(artifact_digest)) && (e.(rb_source_digest) =s r.(source_digest)).

Definition risk_matches_request (e : RiskEvidence) (r : AdmissionRequest) : bool :=
  (e.(rk_artifact_digest) =s r.(artifact_digest)) && (e.(rk_source_digest) =s r.(source_digest))
  && (e.(rk_policy_digest) =s r.(policy_digest)).

Definition validate_rebuild (r : AdmissionRequest) : result AdmissionOutcome RebuildEvidence :=
  e ← ok_or (mk_outcome Quarantine MissingRebuildEvidence) r.(rebuild);
  reject_if (negb (rebuild_matches_request e r)) (reject RebuildIdentityMismatch);;
  reject_if (negb e.(rb_matched) || negb (e.(rb_rebuilt_artifact_digest) =s r.(artifact_digest)))
    (reject RebuildArtifactMismatch);;
  Ok e.

Definition validate_risk (r : AdmissionRequest) : result AdmissionOutcome RiskEvidence :=
  e ← ok_or (mk_outcome Quarantine MissingRiskEvidence) r.(risk);
  reject_if (negb (risk_matches_request e r)) (reject RiskIdentityMismatch);;
  Ok e.

Definition evaluate_approval (r : AdmissionRequest) (re : RebuildEvidence) (ri : RiskEvidence) : AdmissionOutcome :=
  match r.(approval) with
  | None => mk_outcome PendingApproval MissingApproval
  | Some a =>
      if negb (bindings_match_request a.(ap_bindings) r)
         || negb (a.(ap_bindings).(db_risk_receipt_digest) =s ri.(rk_risk_receipt_digest))
         || negb (a.(ap_bindings).(db_rebuild_receipt_digest) =s re.(rb_receipt_digest))
      then reject ApprovalIdentityMismatch
      else if negb (bool_decide (a.(ap_decision) = Approved)) then reject ApprovalRejected
      else mk_outcome Publishable AllRequiredEvidenceBound
  end.

Definition evaluate (r : AdmissionRequest) : AdmissionOutcome :=
  match r.(current_state) with
  | Quarantined | Evaluated | PendingApprovalState =>
      match validate_rebuild r with
      | Err outcome => outcome
      | Ok re =>
          match validate_risk r with
          | Err outcome => outcome
          | Ok ri =>
              match ri.(rk_decision) with
              | RiskReject => reject RiskRejected
              | RiskRequireApproval => evaluate_approval r re ri
              | RiskClear => mk_outcome Publishable AllRequiredEvidenceBound
              end
          end
      end
  | _ => reject InvalidState
  end.

(** ** What an admission rests on *)

(** A reproducible build of these very bytes. *)
Definition rebuilt (r : AdmissionRequest) (e : RebuildEvidence) : Prop :=
  r.(rebuild) = Some e ∧ e.(rb_matched) = true ∧ e.(rb_artifact_digest) = r.(artifact_digest) ∧
  e.(rb_source_digest) = r.(source_digest) ∧ e.(rb_rebuilt_artifact_digest) = r.(artifact_digest).

(** A risk assessment of these bytes and this source under this policy. *)
Definition assessed (r : AdmissionRequest) (e : RiskEvidence) : Prop :=
  r.(risk) = Some e ∧ e.(rk_artifact_digest) = r.(artifact_digest) ∧ e.(rk_source_digest) = r.(source_digest) ∧
  e.(rk_policy_digest) = r.(policy_digest).

(** An approval that names all five digests. *)
Definition approved (r : AdmissionRequest) (re : RebuildEvidence) (ri : RiskEvidence) : Prop :=
  r.(approval) = Some (mk_approval
    (mk_bindings r.(artifact_digest) r.(source_digest) r.(policy_digest) ri.(rk_risk_receipt_digest)
       re.(rb_receipt_digest)) Approved).

Definition in_review (s : IntakeState) : Prop := s = Quarantined ∨ s = Evaluated ∨ s = PendingApprovalState.

(** What makes an upload publishable. *)
Definition admissible (r : AdmissionRequest) : Prop :=
  in_review r.(current_state) ∧ ∃ re ri, rebuilt r re ∧ assessed r ri ∧
    (ri.(rk_decision) = RiskClear ∨ ri.(rk_decision) = RiskRequireApproval ∧ approved r re ri).

Lemma validate_rebuild_spec r e : validate_rebuild r = Ok e ↔ rebuilt r e.
Proof.
  unfold validate_rebuild, rebuilt. split.
  - intros H. inv_bind. unfold rebuild_matches_request in *. bool_to_prop. by repeat split.
  - intros (-> & M & H1 & H2 & H3). cbn. unfold rebuild_matches_request. by rewrite M, H1, H2, H3, !String.eqb_refl.
Qed.

Lemma validate_risk_spec r e : validate_risk r = Ok e ↔ assessed r e.
Proof.
  unfold validate_risk, assessed. split.
  - intros H. inv_bind. unfold risk_matches_request in *. bool_to_prop. by repeat split.
  - intros (-> & H1 & H2 & H3). cbn. unfold risk_matches_request. by rewrite H1, H2, H3, !String.eqb_refl.
Qed.

Lemma evaluate_approval_spec r re ri :
  (decision (evaluate_approval r re ri) = Publishable ↔ approved r re ri) ∧
  (decision (evaluate_approval r re ri) = PendingApproval ↔ r.(approval) = None) ∧
  decision (evaluate_approval r re ri) ≠ Quarantine.
Proof.
  unfold evaluate_approval, approved, bindings_match_request.
  destruct (approval r) as [[[a s p k b] d]|]; cbn; [|by split_and!].
  destruct (String.eqb_spec a (artifact_digest r)), (String.eqb_spec s (source_digest r)),
    (String.eqb_spec p (policy_digest r)), (String.eqb_spec k (rk_risk_receipt_digest ri)),
    (String.eqb_spec b (rb_receipt_digest re)); cbn; try (split_and!; [naive_solver..|done]).
  destruct d; cbn; split_and!; naive_solver.
Qed.

(** Evidence that does not validate leaves the upload quarantined, when it is
    missing, or rejected. *)
Lemma validate_rebuild_err r o :
  validate_rebuild r = Err o →
  (∀ e, ¬ rebuilt r e) ∧ (decision o = Quarantine ∧ r.(rebuild) = None ∨ decision o = Reject).
Proof.
  intros H. split; [intros e He; apply validate_rebuild_spec in He; congruence|].
  unfold validate_rebuild in H. destruct (rebuild r) as [e|]; cbn in H; [|injection H as <-; by left].
  right. destruct (negb (rebuild_matches_request e r)); cbn in H; [by injection H as <-|].
  destruct (negb _ || _); cbn in H; [by injection H as <-|done].
Qed.

Lemma validate_risk_err r o :
  validate_risk r = Err o →
  (∀ e, ¬ assessed r e) ∧ (decision o = Quarantine ∧ r.(risk) = None ∨ decision o = Reject).
Proof.
  intros H. split; [intros e He; apply validate_risk_spec in He; congruence|].
  unfold validate_risk in H. destruct (risk r) as [e|]; cbn in H; [|injection H as <-; by left].
  right. destruct (negb (risk_matches_request e r)); cbn in H; [by injection H as <-|done].
Qed.

Lemma rebuilt_unique r e e' : rebuilt r e → rebuilt r e' → e = e'.
Proof. intros [H _] [H' _]. congruence. Qed.

Lemma assessed_unique r e e' : assessed r e → assessed r e' → e = e'.
Proof. intros [H _] [H' _]. congruence. Qed.

(** The decision on an upload under review. *)
Lemma evaluate_reviewed r :
  in_review r.(current_state) →
  (∃ o, evaluate r = o ∧ (∀ re ri, rebuilt r re → assessed r ri → False) ∧
     (decision o = Quarantine ∧ (r.(rebuild) = None ∨ r.(risk) = None) ∨ decision o = Reject)) ∨
  ∃ re ri, rebuilt r re ∧ assessed r ri ∧
    evaluate r = match ri.(rk_decision) with
                 | RiskReject => reject RiskRejected
                 | RiskRequireApproval => evaluate_approval r re ri
                 | RiskClear => mk_outcome Publishable AllRequiredEvidenceBound
                 end.
Proof.
  intros Hs. assert (evaluate r = match validate_rebuild r with
    | Err outcome => outcome
    | Ok re => match validate_risk r with
               | Err outcome => outcome
               | Ok ri => match ri.(rk_decision) with
                          | RiskReject => reject RiskRejected
                          | RiskRequireApproval => evaluate_approval r re ri
                          | RiskClear => mk_outcome Publishable AllRequiredEvidenceBound
                          end
               end end) as -> by (unfold evaluate; by destruct Hs as [->|[->| ->]]).
  destruct (validate_rebuild r) as [re|o] eqn:Er.
  2:{ left. apply validate_rebuild_err in Er as [Hn Hd]. exists o. naive_solver. }
  destruct (validate_risk r) as [ri|o] eqn:Ei.
  2:{ left. apply validate_risk_err in Ei as [Hn Hd]. exists o. naive_solver. }
  right. exists re, ri. by rewrite <- validate_rebuild_spec, <- validate_risk_spec.
Qed.

Lemma evaluate_elsewhere r : ¬ in_review r.(current_state) → (evaluate r).(decision) = Reject.
Proof. unfold in_review, evaluate. destruct (current_state r); naive_solver. Qed.

Lemma in_review_dec s : in_review s ∨ ¬ in_review s.
Proof. unfold in_review. destruct s; naive_solver. Qed.

(** C20: an upload is admitted exactly on complete, matching evidence. It
    becomes publishable if and only if it is under review, a rebuild reproduced
    the very bytes from the very source, a risk assessment covers those digests
    under the current policy, and the risk is clear or an approval names the
    artifact, the source, the policy and both receipts; evidence of other bytes
    or an approval of an earlier assessment never admits it. Nothing is left
    waiting for an approval it could not use: a request pends exactly when all
    else is in place and the approval is missing. *)
Theorem publishable_iff r :
  ((evaluate r).(decision) = Publishable ↔ admissible r) ∧
  ((evaluate r).(decision) = PendingApproval ↔
     in_review r.(current_state) ∧ r.(approval) = None ∧
     ∃ re ri, rebuilt r re ∧ assessed r ri ∧ ri.(rk_decision) = RiskRequireApproval) ∧
  ((evaluate r).(decision) = Quarantine → r.(rebuild) = None ∨ r.(risk) = None).
Proof.
  destruct (in_review_dec (current_state r)) as [Hs|Hs].
  2:{ apply evaluate_elsewhere in Hs as Hd. rewrite Hd. unfold admissible. naive_solver. }
  unfold admissible. destruct (evaluate_reviewed r Hs) as [(o & -> & Hn & Hd)|(re & ri & Hre & Hri & ->)].
  { assert (∀ P : _ → _ → Prop, ¬ ∃ re ri, rebuilt r re ∧ assessed r ri ∧ P re ri) as Hno
      by (intros P (re & ri & H1 & H2 & _); by apply (Hn re ri)).
    pose proof (Hno (λ re ri, rk_decision ri = RiskClear ∨ rk_decision ri = RiskRequireApproval ∧ approved r re ri)).
    pose proof (Hno (λ re ri, rk_decision ri = RiskRequireApproval)).
    destruct Hd as [[Hd Hm]|Hd]; rewrite Hd; intuition discriminate. }
  pose proof (evaluate_approval_spec r re ri) as (A1 & A2 & A3).
  assert (∀ P : _ → _ → Prop, (∃ re ri, rebuilt r re ∧ assessed r ri ∧ P re ri) ↔ P re ri) as Hex.
  { intros P. split; [|by exists re, ri]. intros (re' & ri' & Hre' & Hri' & HP).
    by rewrite (rebuilt_unique r re re'), (assessed_unique r ri ri'). }
  rewrite (Hex (λ re ri, rk_decision ri = RiskClear ∨ rk_decision ri = RiskRequireApproval ∧ approved r re ri)),
    (Hex (λ re ri, rk_decision ri = RiskRequireApproval)).
  destruct (rk_decision ri); cbn; [naive_solver| |naive_solver]. rewrite A1, A2. intuition congruence.
Qed.
