(* ===== verification/PublicIntake.v ===== *)
(** * Public intake ([src/public_intake.rs])

    The authenticated boundary of the commercial intake: the edge signature,
    the validation and normalization of a submission, and the closed set of
    responses. *)

From S2P Require Export Canonical Recording.

(** ** Errors and responses *)

Inductive IntakeErrorCode : Type :=
| InvalidRequest
| UnsupportedMediaType
| PayloadTooLarge
| AbuseChallengeFailed
| TemporarilyUnavailable.

Record PublicApiError := mk_public_error {
  pe_status : Z;
  pe_code : IntakeErrorCode;
  pe_retryable : bool;
}.

Definition invalid_request : PublicApiError := mk_public_error 400 InvalidRequest false.
Definition intake_not_found : PublicApiError := mk_public_error 404 InvalidRequest false.
Definition unsupported_media_type : PublicApiError := mk_public_error 415 UnsupportedMediaType false.
Definition payload_too_large : PublicApiError := mk_public_error 413 PayloadTooLarge false.
Definition abuse_challenge_failed : PublicApiError := mk_public_error 403 AbuseChallengeFailed false.
Definition temporarily_unavailable : PublicApiError := mk_public_error 503 TemporarilyUnavailable true.

Abbreviation IntakeResult := (result PublicApiError).

(** A response: its status, and the typed body the interface crate encodes. *)
Inductive IntakeBody : Type :=
| IntakeAccepted
| IntakeError (code : IntakeErrorCode) (retryable : bool).
Record IntakeResponse := mk_intake_response { ip_status : Z; ip_body : IntakeBody }.

Definition into_response (e : PublicApiError) : IntakeResponse :=
  mk_intake_response e.(pe_status) (IntakeError e.(pe_code) e.(pe_retryable)).

Definition respond (r : IntakeResult unit) : IntakeResponse :=
  match r with
  | Ok _ => mk_intake_response 202 IntakeAccepted
  | Err error => into_response error
  end.

(** ** Constants *)

Definition API_HOST : string := "api.zpkg.net".
Definition MAX_BODY_BYTES : Z := 16 * 1024.
Definition MAX_EDGE_CLOCK_SKEW_SECONDS : Z := 300.
Definition MAX_CONSENT_CLOCK_SKEW_SECONDS : Z := 24 * 60 * 60.
Definition EDGE_TIMESTAMP_HEADER : string := "x-zed-intake-timestamp".
Definition EDGE_SOURCE_HOST_HEADER : string := "x-zed-intake-source-host".
Definition EDGE_BODY_SHA256_HEADER : string := "x-zed-intake-body-sha256".
Definition EDGE_SIGNATURE_HEADER : string := "x-zed-intake-signature".

Inductive SourceHost : Type := HostUser | HostOrganization.
#[export] Instance source_host_eq_dec : EqDecision SourceHost.
Proof. solve_decision. Defined.
Inductive Party : Type := Individual | PartyOrganization.
#[export] Instance party_eq_dec : EqDecision Party.
Proof. solve_decision. Defined.
Inductive IntakeKind : Type := PreInterest | QuoteRequest.

Definition source_host_wire (host : SourceHost) : string :=
  match host with HostUser => "user.zpkg.net" | HostOrganization => "org.zpkg.net" end.

(** ** Requests and submissions *)

(** The fields of the two forms that the code looks at; [rest] is the other
    answers of a quote. The schema has one version. *)
Record PreInterestRequest := mk_pre_interest {
  pre_request_id : string;
  pre_email : string;
  pre_party_type : Party;
  pre_source_host : SourceHost;
  pre_interests : list string;
  pre_contact_name : option string;
  pre_organization_name : option string;
  pre_website_url : option string;
  pre_locale : option string;
  pre_referral_code : option string;
  pre_consent_revision : string;
  pre_consented_at : string;
  pre_contact_consent : bool;
  pre_marketing_consent : bool;
  pre_marketing_consent_revision : option string;
}.

Record QuoteForm := mk_quote {
  qt_request_id : string;
  qt_email : string;
  qt_source_host : SourceHost;
  qt_organization_name : string;
  qt_contact_name : string;
  qt_role : option string;
  qt_website_url : option string;
  qt_interests : list string;
  qt_rest : json;
  qt_requirements_summary : option string;
  qt_locale : option string;
  qt_referral_code : option string;
  qt_consent_revision : string;
  qt_consented_at : string;
  qt_contact_consent : bool;
  qt_marketing_consent : bool;
  qt_marketing_consent_revision : option string;
}.

Record IntakeSecrets := mk_secrets {
  signing_key : string;
  lookup_key : string;
  encryption_key : string;
  consent_revision : string;
  marketing_revision : string;
}.

Record NormalizedSubmission := mk_normalized {
  ns_email : string;
  ns_payload_json : string;
  ns_consented_at : instant;
  ns_marketing_consent : bool;
}.

(** The arguments of [NewPublicIntakeSubmission::new]. *)
Record NewSubmission := mk_submission {
  sb_request_id : uuid;
  sb_kind : IntakeKind;
  sb_source_host : SourceHost;
  sb_body_sha256 : string;
  sb_email_lookup_hmac : string;
  sb_email : string;
  sb_payload_json : string;
  sb_consented_at : instant;
  sb_marketing_consent : bool;
}.

Inductive IntakeWriteError : Type := InvalidInput | IdempotencyConflict | Persistence.

(** A call of [write_public_intake_submission]: the submission, the key its
    secret fields are encrypted under, and its answer. *)
Record Submitted := mk_submitted {
  call_submission : NewSubmission;
  call_key : string;
  call_answer : result IntakeWriteError unit;
}.

Abbreviation IM := (Recorded PublicApiError Submitted).

Record IntakeRequest := mk_intake_request {
  iq_path : string;
  iq_query : option string;
  iq_headers : HeaderMap;
  (** the whole body, or a failed transfer *)
  iq_body : option string;
}.

Class IntakeExternals := {
  (** [Sha256]: 32 bytes *)
  sha256 : string → string;
  IDEMPOTENCY_KEY_HEADER : string;
  PRE_INTEREST_PATH_V1 : string;
  QUOTE_REQUESTS_PATH_V1 : string;
  pre_interest_from_slice : string → option PreInterestRequest;
  pre_interest_to_string : PreInterestRequest → option string;
  quote_from_slice : string → option QuoteForm;
  quote_to_string : QuoteForm → option string;
  parse_from_rfc3339 : string → option instant;
  to_rfc3339_millis : instant → string;
  (** [std::env::var] *)
  env_var : string → option string;
  (** the persistence crate's validation and write *)
  submission_error : NewSubmission → option IntakeWriteError;
  write_public_intake_submission : nat → NewSubmission → string → result IntakeWriteError unit;
}.

(** ** Bytes *)

Definition xor_byte (x : Z) (c : ascii) : ascii := chr (Z.to_N (Z.lxor (byte_of c) x)).

(** The difference of two strings of one length, folded without a branch. *)
Fixpoint fold_difference (difference : Z) (s t : string) : Z :=
  match s, t with
  | String a s, String b t => fold_difference (Z.lor difference (Z.lxor (byte_of a) (byte_of b))) s t
  | _, _ => difference
  end.
Definition constant_time_eq (s t : string) : bool :=
  if negb (slen s =? slen t) then false else fold_difference 0 s t =? 0.

Definition hex_value (c : ascii) : Z := if is_ascii_digit c then byte_of c - 48 else byte_of c - 87.
Fixpoint hex_decode (s : string) : string :=
  match s with
  | String a (String b r) => String (chr (Z.to_N (16 * hex_value a + hex_value b))) (hex_decode r)
  | _ => ""
  end.
Definition parse_hex_32 (value : string) : option string :=
  if negb (slen value =? 64) || negb (sall is_lower_hex value) then None else Some (hex_decode value).

Section hmac.
Context `{int : IntakeExternals}.

Definition BLOCK_BYTES : Z := 64.

(** The key, or its digest when it is longer than a block, in a zeroed block. *)
Definition normalized_key (key : string) : string :=
  let k := if BLOCK_BYTES <? slen key then sha256 key else key in
  k +:+ srepeat (Z.to_nat (BLOCK_BYTES - slen k)) (String "000" "").

Definition hmac_sha256 (key value : string) : string :=
  let inner_pad := smap (xor_byte 54) (normalized_key key) in
  let outer_pad := smap (xor_byte 92) (normalized_key key) in
  sha256 (outer_pad +:+ sha256 (inner_pad +:+ value)).
End hmac.

(** ** Headers *)

Definition optional_single_header (headers : HeaderMap) (name : string) : IntakeResult (option string) :=
  match headers name with
  | [] => Ok None
  | [first] => value ← ok_or abuse_challenge_failed first; Ok (Some value)
  | _ => Err abuse_challenge_failed
  end.

Definition single_header (headers : HeaderMap) (name : string) : IntakeResult string :=
  value ← optional_single_header headers name;
  ok_or abuse_challenge_failed value.

Definition normalized_host (headers : HeaderMap) : IntakeResult string :=
  value ← single_header headers "host";
  let host := to_ascii_lowercase (trim_end_matches "." (trim value)) in
  Ok match rsplit_once ":" host with
     | Some (name, port) => if negb (contains_char ":" name) && sall is_ascii_digit port then name else host
     | None => host
     end.

(** [uuid.get_variant() == Variant::RFC4122]: the two high bits of octet 8. *)
Definition is_rfc4122 (u : uuid) : bool := (N.land (N.shiftr u 62) 3 =? 2)%N.

(** ** Normalization *)

Definition no_control_or_space (c : ascii) : bool := negb (is_ascii_control c) && negb (is_ascii_whitespace c).

Definition domain_label (label : string) : bool :=
  negb (is_empty label) && (slen label <=? 63) && negb (starts_with "-" label) && negb (ends_with "-" label)
  && sall (λ c, is_ascii_lowercase c || is_ascii_digit c || (c =c "-")) label.

Definition valid_domain (value : string) : bool :=
  (slen value <=? 253) && contains_char "." value && forallb domain_label (split "." value).

Definition normalize_email (value : string) : IntakeResult string :=
  let value := trim value in
  reject_if ((slen value <? 3) || (254 <? slen value) || negb (sall is_ascii value)
             || negb (sall no_control_or_space value)) invalid_request;;
  let parts := split "@" value in
  let local := default "" (parts !! 0%nat) in
  let domain := to_ascii_lowercase (default "" (parts !! 1%nat)) in
  reject_if (is_some (parts !! 2%nat) || is_empty local || (64 <? slen local) || starts_with "." local
             || ends_with "." local || contains_str ".." local || negb (valid_domain domain)) invalid_request;;
  Ok (to_ascii_lowercase local +:+ "@" +:+ domain).

(** [split_whitespace]: the maximal runs without white space. *)
Fixpoint split_whitespace_fuel (fuel : nat) (word s : string) : list string :=
  let flush := if is_empty word then [] else [word] in
  match fuel with
  | O => flush
  | S fuel =>
      match eat_ws s with
      | Some rest => (flush ++ split_whitespace_fuel fuel "" rest)%list
      | None =>
          match s with
          | "" => flush
          | String c rest => split_whitespace_fuel fuel (word +:+ String c "") rest
          end
      end
  end.
Definition split_whitespace (s : string) : list string := split_whitespace_fuel (S (String.length s)) "" s.

Definition normalize_human (value : string) (maximum : Z) : IntakeResult string :=
  reject_if (has_control value) invalid_request;;
  let normalized := join " " (split_whitespace value) in
  reject_if (is_empty normalized || (maximum <? char_count normalized)) invalid_request;;
  Ok normalized.

(** [value.map(f).transpose()]. *)
Definition transpose_map {A B} (f : A → IntakeResult B) (value : option A) : IntakeResult (option B) :=
  match value with
  | Some a => b ← f a; Ok (Some b)
  | None => Ok None
  end.

Definition normalize_optional_human (value : option string) (maximum : Z) : IntakeResult (option string) :=
  transpose_map (λ v, normalize_human v maximum) value.

Definition normalize_website (value : string) : IntakeResult string :=
  let value := trim value in
  reject_if ((2048 <? slen value) || negb (sall is_ascii value) || negb (starts_with "https://" value)
             || contains_char "092" value || negb (sall no_control_or_space value)) invalid_request;;
  let authority := take_until (λ c, (c =c "/") || (c =c "?") || (c =c "#")) (default "" (strip_prefix "https://" value)) in
  reject_if (is_empty authority || contains_char "@" authority) invalid_request;;
  host ←
    match rsplit_once ":" authority with
    | Some (host, port) =>
        if negb (contains_char ":" host) && sall is_ascii_digit port then Ok host else Err invalid_request
    | None => Ok authority
    end;
  reject_if (negb (valid_domain (to_ascii_lowercase host))) invalid_request;;
  Ok value.
Definition normalize_optional_website : option string → IntakeResult (option string) := transpose_map normalize_website.

Definition between (lo hi n : Z) : bool := (lo <=? n) && (n <=? hi).

Definition normalize_locale (value : string) : IntakeResult string :=
  let value := trim value in
  reject_if (negb (between 2 35 (slen value)) || negb (sall is_ascii value)) invalid_request;;
  let segments := split "-" value in
  let language := default "" (head segments) in
  reject_if (negb (between 2 3 (slen language)) || negb (sall is_ascii_alphabetic language)
             || negb (forallb (λ s, between 2 8 (slen s) && sall is_ascii_alphanumeric s) (tail segments)))
    invalid_request;;
  Ok value.
Definition normalize_optional_locale : option string → IntakeResult (option string) := transpose_map normalize_locale.

Definition identifier_tail_byte (c : ascii) : bool :=
  is_ascii_alphanumeric c || (c =c ".") || (c =c "_") || (c =c "-").
Definition portable_identifier (value : string) (maximum : Z) : bool :=
  negb (is_empty value) && (slen value <=? maximum) && sall is_ascii value
  && match value with
     | String c r => is_ascii_alphanumeric c && sall identifier_tail_byte r
     | "" => true
     end.

Definition normalize_optional_identifier (value : option string) (maximum : Z) : IntakeResult (option string) :=
  transpose_map (λ value,
    let value := trim value in
    if portable_identifier value maximum then Ok value else Err invalid_request) value.

(** [split(..).any(..)] over the maximal runs of bytes of the set. *)
Fixpoint any_run (inside : ascii → bool) (p : string → bool) (run s : string) : bool :=
  match s with
  | "" => p run
  | String c r => if inside c then any_run inside p (run +:+ String c "") r else p run || any_run inside p "" r
  end.

Definition token_like (value prefix : string) (minimum : Z) : bool :=
  any_run (λ c, is_ascii_alphanumeric c || (c =c "_") || (c =c "-"))
    (λ token, starts_with prefix token && (minimum <=? slen token)) "" value.

Definition reject_secret_like_text (value : string) : IntakeResult string :=
  let lower := to_ascii_lowercase value in
  reject_if (contains_str "-----begin private key-----" lower || contains_str "-----begin rsa private key-----" lower
             || contains_str "password=" lower || token_like value "ghp_" 20 || token_like value "github_pat_" 24
             || token_like value "sk-" 20
             || any_run is_ascii_alphanumeric (λ token, (slen token =? 20) && starts_with "AKIA" token) "" value)
    invalid_request;;
  Ok value.

(** A set of at most nine interests, at least one. *)
Definition validate_interests (values : list string) : IntakeResult unit :=
  reject_if (bool_decide (values = []) || (9 <? zlength values)) invalid_request;;
  reject_if (negb (Z.of_nat (length (remove_dups values)) =? zlength values)) invalid_request.

Definition validate_consent (contact_consent marketing_consent : bool) (marketing : option string)
    (consent : string) (secrets : IntakeSecrets) : IntakeResult unit :=
  reject_if (negb contact_consent || negb (consent =s secrets.(consent_revision))) invalid_request;;
  match marketing_consent, marketing with
  | true, Some revision => reject_if (negb (revision =s secrets.(marketing_revision))) invalid_request
  | false, None => Ok tt
  | _, _ => Err invalid_request
  end.

Section intake.
Context `{ext : Externals} `{web : WebExternals} `{int : IntakeExternals}.

Definition normalize_consent_timestamp (value : string) (now : instant) : IntakeResult instant :=
  reject_if ((slen value <? 20) || (35 <? slen value) || negb (sall is_ascii value)) invalid_request;;
  parsed ← ok_or invalid_request (parse_from_rfc3339 value);
  reject_if (MAX_CONSENT_CLOCK_SKEW_SECONDS <? Z.abs (Z.quot (now - parsed) 1000000000)) invalid_request;;
  Ok parsed.

(** ** Secrets *)

Definition ascii_uppercase : string → string := smap ascii_upper.

Definition required_secret (name : string) (minimum : Z) : IntakeResult string :=
  value ← ok_or temporarily_unavailable (env_var name);
  reject_if ((slen value <? minimum) || negb (trim value =s value)
             || negb (sall (λ c, negb ((c =c "013") || (c =c "010") || (c =c "000"))) value)
             || contains_str "PLACEHOLDER" (ascii_uppercase value)) temporarily_unavailable;;
  Ok value.

Definition required_revision (name : string) : IntakeResult string :=
  value ← ok_or temporarily_unavailable (env_var name);
  reject_if (negb (portable_identifier value 64) || contains_str "PLACEHOLDER" (ascii_uppercase value))
    temporarily_unavailable;;
  Ok value.

Definition secrets_from_env : IntakeResult IntakeSecrets :=
  signing_key ← required_secret "ZED_PUBLIC_INTAKE_SIGNING_KEY" 32;
  lookup_key ← required_secret "ZED_PUBLIC_INTAKE_LOOKUP_KEY" 32;
  encryption_key ← required_secret "ZED_PUBLIC_INTAKE_ENCRYPTION_KEY" 32;
  consent_revision ← required_revision "ZED_PUBLIC_INTAKE_CONSENT_REVISION";
  marketing_revision ← required_revision "ZED_PUBLIC_INTAKE_MARKETING_CONSENT_REVISION";
  Ok (mk_secrets signing_key lookup_key encryption_key consent_revision marketing_revision).

(** ** The edge signature *)

(** What the edge signs. *)
Definition signed_text (timestamp source_host path request_id digest : string) : string :=
  join (String newline "") ["v1"; timestamp; source_host; path; request_id; digest].

Definition verify_edge_headers (headers : HeaderMap) (body path : string) (host : SourceHost) (now_unix : Z)
    (key : string) : IntakeResult (uuid * string) :=
  source_host ← single_header headers EDGE_SOURCE_HOST_HEADER;
  let expected_source_host := source_host_wire host in
  reject_if (negb (source_host =s expected_source_host)) abuse_challenge_failed;;
  request_id_text ← single_header headers IDEMPOTENCY_KEY_HEADER;
  reject_if (negb (request_id_text =s to_ascii_lowercase request_id_text)) invalid_request;;
  request_id ← ok_or invalid_request (uuid_parse request_id_text);
  reject_if (negb (is_rfc4122 request_id)) invalid_request;;
  timestamp_text ← single_header headers EDGE_TIMESTAMP_HEADER;
  timestamp ← ok_or abuse_challenge_failed (parse_i64 timestamp_text);
  reject_if (MAX_EDGE_CLOCK_SKEW_SECONDS <? Z.abs (now_unix - timestamp)) abuse_challenge_failed;;
  let body_sha256 := sha256 body in
  digest_text ← single_header headers EDGE_BODY_SHA256_HEADER;
  supplied_digest ← ok_or abuse_challenge_failed (parse_hex_32 digest_text);
  reject_if (negb (constant_time_eq body_sha256 supplied_digest)) abuse_challenge_failed;;
  signature_text ← single_header headers EDGE_SIGNATURE_HEADER;
  signature ← ok_or abuse_challenge_failed (h ← strip_prefix "v1=" signature_text; parse_hex_32 h);
  let signed := signed_text timestamp_text expected_source_host path request_id_text (hex_encode body_sha256) in
  reject_if (negb (constant_time_eq signature (hmac_sha256 key signed))) abuse_challenge_failed;;
  Ok (request_id, body_sha256).

Record AuthenticatedRequest := mk_authenticated {
  ar_request_id : uuid;
  ar_body_sha256 : string;
  ar_body : string;
  ar_secrets : IntakeSecrets;
}.

Definition json_content_type (content_type : string) : bool :=
  eq_ignore_ascii_case (trim (default "" (head (split ";" content_type)))) "application/json".

Definition authenticate_request (request : IntakeRequest) (path : string) (host : SourceHost) (now_unix : Z)
    : IntakeResult AuthenticatedRequest :=
  reject_if (negb (request.(iq_path) =s path) || is_some request.(iq_query)) invalid_request;;
  api_host ← normalized_host request.(iq_headers);
  reject_if (negb (api_host =s API_HOST)) intake_not_found;;
  content_type ← single_header request.(iq_headers) "content-type";
  reject_if (negb (json_content_type content_type)) unsupported_media_type;;
  encoding ← optional_single_header request.(iq_headers) "content-encoding";
  reject_if (is_some encoding) unsupported_media_type;;
  content_length ← optional_single_header request.(iq_headers) "content-length";
  reject_if
    match content_length with
    | Some text => match parse_unsigned usize_max text with Some n => MAX_BODY_BYTES <? n | None => true end
    | None => false
    end payload_too_large;;
  body ← ok_or payload_too_large
    (b ← request.(iq_body); if slen b <=? MAX_BODY_BYTES then Some b else None);
  reject_if (is_empty body) invalid_request;;
  secrets ← secrets_from_env;
  '(request_id, body_sha256) ← verify_edge_headers request.(iq_headers) body path host now_unix secrets.(signing_key);
  Ok (mk_authenticated request_id body_sha256 body secrets).

(** ** The two forms *)

Definition consent_revisions (marketing : bool) (secrets : IntakeSecrets) : string * option string :=
  (secrets.(consent_revision), if marketing then Some secrets.(marketing_revision) else None).

Definition normalize_pre_interest (r : PreInterestRequest) (request_id : uuid) (secrets : IntakeSecrets) (now : instant)
    : IntakeResult NormalizedSubmission :=
  reject_if (negb (r.(pre_request_id) =s uuid_display request_id)
             || negb (bool_decide (r.(pre_party_type) = Individual))
             || negb (bool_decide (r.(pre_source_host) = HostUser)) || is_some r.(pre_organization_name)) invalid_request;;
  validate_interests r.(pre_interests);;
  validate_consent r.(pre_contact_consent) r.(pre_marketing_consent) r.(pre_marketing_consent_revision)
    r.(pre_consent_revision) secrets;;
  email ← normalize_email r.(pre_email);
  contact_name ← normalize_optional_human r.(pre_contact_name) 120;
  website_url ← normalize_optional_website r.(pre_website_url);
  locale ← normalize_optional_locale r.(pre_locale);
  referral_code ← normalize_optional_identifier r.(pre_referral_code) 64;
  consented_at ← normalize_consent_timestamp r.(pre_consented_at) now;
  let revisions := consent_revisions r.(pre_marketing_consent) secrets in
  payload_json ← ok_or temporarily_unavailable (pre_interest_to_string
    (mk_pre_interest r.(pre_request_id) email r.(pre_party_type) r.(pre_source_host) r.(pre_interests) contact_name
       r.(pre_organization_name) website_url locale referral_code revisions.1 (to_rfc3339_millis consented_at)
       r.(pre_contact_consent) r.(pre_marketing_consent) revisions.2));
  Ok (mk_normalized email payload_json consented_at r.(pre_marketing_consent)).

Definition normalize_quote (r : QuoteForm) (request_id : uuid) (secrets : IntakeSecrets) (now : instant)
    : IntakeResult NormalizedSubmission :=
  reject_if (negb (r.(qt_request_id) =s uuid_display request_id)
             || negb (bool_decide (r.(qt_source_host) = HostOrganization))) invalid_request;;
  validate_interests r.(qt_interests);;
  validate_consent r.(qt_contact_consent) r.(qt_marketing_consent) r.(qt_marketing_consent_revision)
    r.(qt_consent_revision) secrets;;
  email ← normalize_email r.(qt_email);
  organization_name ← normalize_human r.(qt_organization_name) 200;
  contact_name ← normalize_human r.(qt_contact_name) 120;
  role ← normalize_optional_human r.(qt_role) 120;
  website_url ← normalize_optional_website r.(qt_website_url);
  requirements_summary ← transpose_map (λ v, v ← normalize_human v 1000; reject_secret_like_text v)
    r.(qt_requirements_summary);
  locale ← normalize_optional_locale r.(qt_locale);
  referral_code ← normalize_optional_identifier r.(qt_referral_code) 64;
  consented_at ← normalize_consent_timestamp r.(qt_consented_at) now;
  let revisions := consent_revisions r.(qt_marketing_consent) secrets in
  payload_json ← ok_or temporarily_unavailable (quote_to_string
    (mk_quote r.(qt_request_id) email r.(qt_source_host) organization_name contact_name role website_url
       r.(qt_interests) r.(qt_rest) requirements_summary locale referral_code revisions.1
       (to_rfc3339_millis consented_at) r.(qt_contact_consent) r.(qt_marketing_consent) revisions.2));
  Ok (mk_normalized email payload_json consented_at r.(qt_marketing_consent)).

(** ** Persisting *)

Definition map_write_error (e : IntakeWriteError) : PublicApiError :=
  match e with
  | InvalidInput | IdempotencyConflict => invalid_request
  | Persistence => temporarily_unavailable
  end.

Definition submission_of (kind : IntakeKind) (host : SourceHost) (a : AuthenticatedRequest) (n : NormalizedSubmission)
    : NewSubmission :=
  mk_submission a.(ar_request_id) kind host a.(ar_body_sha256)
    (hmac_sha256 a.(ar_secrets).(lookup_key) n.(ns_email)) n.(ns_email) n.(ns_payload_json) n.(ns_consented_at)
    n.(ns_marketing_consent).

Definition write_submission (s : NewSubmission) (key : string) : IM unit :=
  issue (λ t,
    let answer := write_public_intake_submission t s key in
    (map_err map_write_error answer, mk_submitted s key answer)).

Definition persist (st : AppState) (kind : IntakeKind) (host : SourceHost) (a : AuthenticatedRequest)
    (n : NormalizedSubmission) : IM unit :=
  checked (reject_if (negb st.(registry_write)) temporarily_unavailable);;
  let submission := submission_of kind host a n in
  checked match submission_error submission with Some e => Err (map_write_error e) | None => Ok tt end;;
  write_submission submission a.(ar_secrets).(encryption_key).

(** [now.timestamp()] of an instant. *)
Definition unix_seconds (now : instant) : Z := now / 1000000000.

Definition process_pre_interest (st : AppState) (request : IntakeRequest) (now : instant) : IM unit :=
  a ← checked (authenticate_request request PRE_INTEREST_PATH_V1 HostUser (unix_seconds now));
  dto ← checked (ok_or invalid_request (pre_interest_from_slice a.(ar_body)));
  n ← checked (normalize_pre_interest dto a.(ar_request_id) a.(ar_secrets) now);
  persist st PreInterest HostUser a n.

Definition process_quote_request (st : AppState) (request : IntakeRequest) (now : instant) : IM unit :=
  a ← checked (authenticate_request request QUOTE_REQUESTS_PATH_V1 HostOrganization (unix_seconds now));
  dto ← checked (ok_or invalid_request (quote_from_slice a.(ar_body)));
  n ← checked (normalize_quote dto a.(ar_request_id) a.(ar_secrets) now);
  persist st QuoteRequest HostOrganization a n.

Definition submit_pre_interest (st : AppState) (request : IntakeRequest) : IM IntakeResponse :=
  t ← silent now;
  r ← settle (process_pre_interest st request t);
  mret (respond r).

Definition submit_quote_request (st : AppState) (request : IntakeRequest) : IM IntakeResponse :=
  t ← silent now;
  r ← settle (process_quote_request st request t);
  mret (respond r).
End intake.
