(* ===== verification/PublicIntakeFacts.v ===== *)
(** * What public intake guarantees

    The edge signature check is exactly the contract it documents, and whatever
    is accepted was signed, consented to and normalized. *)

From S2P Require Export PublicIntake.

Class IntakeLaws `{web : WebExternals} `{int : IntakeExternals} : Prop := {
  sha256_length s : slen (sha256 s) = 32;
}.

(** ** Comparing and decoding *)

Lemma fold_difference_zero d s t :
  slen s = slen t → fold_difference d s t = 0 ↔ d = 0 ∧ s = t.
Proof.
  revert d t. induction s as [|a s IH]; intros d [|b t] Hl; rewrite ?slen_cons in Hl; cbn.
  - naive_solver.
  - pose proof (slen_nonneg t). unfold slen in Hl at 1. cbn in Hl. lia.
  - pose proof (slen_nonneg s). unfold slen in Hl at 2. cbn in Hl. lia.
  - rewrite IH, Z.lor_eq_0_iff, Z.lxor_eq_0_iff by lia. split.
    + intros [[-> ->%byte_of_inj] ->]. done.
    + by intros [-> [= -> ->]].
Qed.

Lemma constant_time_eq_spec s t : constant_time_eq s t = true ↔ s = t.
Proof.
  unfold constant_time_eq. destruct (Z.eqb_spec (slen s) (slen t)) as [Hl|Hl]; cbn.
  - rewrite Z.eqb_eq, fold_difference_zero by done. naive_solver.
  - split; [done|]. by intros ->.
Qed.

Lemma hex_value_digit n : 0 ≤ n < 16 → hex_value (hex_digit n) = n.
Proof.
  intros H. assert (∀ k, (k < 16)%nat → hex_value (hex_digit (Z.of_nat k)) = Z.of_nat k) as Hall.
  { intros k Hk. do 16 (destruct k as [|k]; [reflexivity|]). lia. }
  specialize (Hall (Z.to_nat n)). rewrite Z2Nat.id in Hall by lia. apply Hall. lia.
Qed.

Lemma hex_digit_value c : is_lower_hex c = true → hex_digit (hex_value c) = c ∧ 0 ≤ hex_value c < 16.
Proof.
  intros H. assert (∀ c, implb (is_lower_hex c) ((hex_digit (hex_value c) =c c) && (0 <=? hex_value c) && (hex_value c <? 16))
    = true)%bool as Hb by (apply byte_forall; by vm_compute).
  specialize (Hb c). rewrite H in Hb. cbn in Hb. bool_to_prop. split; [done|lia].
Qed.

Lemma byte_of_chr_Z n : 0 ≤ n < 256 → byte_of (chr (Z.to_N n)) = n.
Proof. intros H. rewrite byte_of_chr by lia. lia. Qed.

Lemma hex_decode_encode s : hex_decode (hex_encode s) = s.
Proof.
  induction s as [|c s IH]; [done|]. cbn. pose proof (byte_of_bounds c).
  assert (0 ≤ byte_of c / 16 < 16) by (split; [apply Z.div_pos|apply Z.div_lt_upper_bound]; lia).
  pose proof (Z.mod_pos_bound (byte_of c) 16 ltac:(lia)).
  rewrite !hex_value_digit, IH by done. f_equal.
  apply byte_of_inj. rewrite byte_of_chr_Z; pose proof (Z.div_mod (byte_of c) 16); lia.
Qed.

Lemma hex_encode_decode n v :
  slen v = 2 * Z.of_nat n → sall is_lower_hex v = true → hex_encode (hex_decode v) = v ∧ slen (hex_decode v) = Z.of_nat n.
Proof.
  revert v. induction n as [|n IH]; intros v Hl Hv.
  - destruct v as [|c v]; [done|]. rewrite slen_cons in Hl. pose proof (slen_nonneg v). lia.
  - destruct v as [|a [|b v]]; [unfold slen in Hl; cbn in Hl; lia..|]. rewrite !slen_cons in Hl. cbn in Hv.
    bool_to_prop. destruct (hex_digit_value a) as [Ha Ra]; [done|]. destruct (hex_digit_value b) as [Hb Rb]; [done|].
    destruct (IH v) as [He Hd]; [lia|done|]. cbn. rewrite slen_cons, byte_of_chr_Z, He, Hd by lia.
    split; [|lia]. rewrite Z.mul_comm, Z.div_add_l, Z.div_small, Z.add_0_r, Ha by lia.
    rewrite Z.add_comm, Z.mod_add, Z.mod_small, Hb by lia. done.
Qed.

(** Exactly the lower-case encodings of 32 bytes. *)
Lemma parse_hex_32_spec v b : parse_hex_32 v = Some b ↔ v = hex_encode b ∧ slen b = 32.
Proof.
  unfold parse_hex_32. split.
  - destruct (Z.eqb_spec (slen v) 64) as [Hl|]; [|done]. destruct (sall is_lower_hex v) eqn:Hv; [|done].
    cbn. intros [= <-]. destruct (hex_encode_decode 32 v) as [H1 H2]; done.
  - intros [-> Hb]. rewrite slen_hex_encode, Hb, hex_decode_encode.
    by rewrite hex_encode_lower.
Qed.

(** ** The edge signature *)

Lemma single_header_spec headers name v : single_header headers name = Ok v ↔ headers name = [Some v].
Proof.
  unfold single_header, optional_single_header. destruct (headers name) as [|[x|] [|y r]]; cbn; naive_solver.
Qed.

#[local] Arguments strip_prefix : simpl never.
#[local] Arguments parse_hex_32 : simpl never.
#[local] Arguments signed_text : simpl never.

Section edge.
Context `{ext : Externals} `{web : WebExternals} `{int : IntakeExternals}.

(** The header [name] is there once, with the value [v]. *)
Definition once (headers : HeaderMap) (name v : string) : Prop := headers name = [Some v].

(** The edge signed this request for this host and path, within the clock skew:
    the signature covers the instant, the host, the path, the identifier and the
    digest of the body. *)
Definition edge_signed (headers : HeaderMap) (body path : string) (host : SourceHost) (now_unix : Z) (key : string)
    (request_id : uuid) : Prop :=
  ∃ id_text timestamp_text timestamp,
    once headers EDGE_SOURCE_HOST_HEADER (source_host_wire host) ∧
    once headers IDEMPOTENCY_KEY_HEADER id_text ∧ to_ascii_lowercase id_text = id_text ∧
    uuid_parse id_text = Some request_id ∧ is_rfc4122 request_id = true ∧
    once headers EDGE_TIMESTAMP_HEADER timestamp_text ∧ parse_i64 timestamp_text = Some timestamp ∧
    Z.abs (now_unix - timestamp) ≤ 300 ∧
    once headers EDGE_BODY_SHA256_HEADER (hex_encode (sha256 body)) ∧
    once headers EDGE_SIGNATURE_HEADER
      ("v1=" +:+ hex_encode (hmac_sha256 key
        (signed_text timestamp_text (source_host_wire host) path id_text (hex_encode (sha256 body))))).

Lemma edge_signed_sound headers body path host now_unix key request_id digest :
  verify_edge_headers headers body path host now_unix key = Ok (request_id, digest) →
  digest = sha256 body ∧ edge_signed headers body path host now_unix key request_id.
Proof.
  unfold verify_edge_headers. intros H.
  destruct (single_header headers EDGE_SOURCE_HOST_HEADER) as [source|] eqn:Es; [|done]. cbn in H.
  destruct (source =s _) eqn:E1; [|done]. cbn in H.
  destruct (single_header headers IDEMPOTENCY_KEY_HEADER) as [id_text|] eqn:Ei; [|done]. cbn in H.
  destruct (id_text =s _) eqn:E2; [|done]. cbn in H.
  destruct (uuid_parse id_text) as [id|] eqn:Eu; [|done]. cbn in H.
  destruct (is_rfc4122 id) eqn:E3; [|done]. cbn in H.
  destruct (single_header headers EDGE_TIMESTAMP_HEADER) as [ts_text|] eqn:Et; [|done]. cbn in H.
  destruct (parse_i64 ts_text) as [ts|] eqn:Ep; [|done]. cbn in H.
  destruct (MAX_EDGE_CLOCK_SKEW_SECONDS <? _) eqn:E4; [done|]. cbn in H.
  destruct (single_header headers EDGE_BODY_SHA256_HEADER) as [digest_text|] eqn:Ed; [|done]. cbn in H.
  destruct (parse_hex_32 digest_text) as [supplied|] eqn:Eh; [|done]. cbn in H.
  destruct (constant_time_eq (sha256 body) supplied) eqn:E5; [|done]. cbn in H.
  destruct (single_header headers EDGE_SIGNATURE_HEADER) as [signature_text|] eqn:Eg; [|done]. cbn in H.
  destruct (strip_prefix "v1=" signature_text) as [h|] eqn:Ex; [|done]. cbn in H.
  destruct (parse_hex_32 h) as [signature|] eqn:Ehs; [|done]. cbn in H.
  destruct (constant_time_eq signature _) eqn:E6; [|done]. injection H as -> <-.
  apply single_header_spec in Es, Ei, Et, Ed, Eg. apply constant_time_eq_spec in E5, E6. subst supplied signature.
  apply parse_hex_32_spec in Eh as [-> _]. apply parse_hex_32_spec in Ehs as [-> _].
  apply strip_prefix_Some in Ex. bool_to_prop. subst source signature_text.
  split; [done|]. exists id_text, ts_text, ts. unfold MAX_EDGE_CLOCK_SKEW_SECONDS in *. by split_and!.
Qed.

Lemma edge_signed_complete {laws : IntakeLaws} headers body path host now_unix key request_id :
  edge_signed headers body path host now_unix key request_id →
  verify_edge_headers headers body path host now_unix key = Ok (request_id, sha256 body).
Proof.
  intros (id_text & ts_text & ts & Hs & Hi & Hl & Hu & Hv & Ht & Hp & Hn & Hd & Hg). unfold once in *.
  apply single_header_spec in Hs, Hi, Ht, Hd, Hg.
  set (h := hex_encode (hmac_sha256 _ _)) in Hg. pose proof (proj2 (strip_prefix_Some "v1=" _ h) eq_refl) as Hx.
  revert Hg Hx. generalize ("v1=" +:+ h). intros g Hg Hx. unfold verify_edge_headers.
  rewrite Hs. cbn. rewrite String.eqb_refl. cbn. rewrite Hi. cbn. rewrite Hl, String.eqb_refl. cbn. rewrite Hu. cbn.
  rewrite Hv. cbn. rewrite Ht. cbn. rewrite Hp. cbn.
  rewrite (proj2 (Z.ltb_ge _ _)) by done. cbn. rewrite Hd. cbn.
  rewrite (proj2 (parse_hex_32_spec _ _)) by (split; [done|apply sha256_length]). cbn.
  rewrite (proj2 (constant_time_eq_spec _ _)) by done. cbn. rewrite Hg. cbn.
  rewrite Hx. cbn. unfold h.
  rewrite (proj2 (parse_hex_32_spec _ _)) by (split; [done|apply sha256_length]). cbn.
  by rewrite (proj2 (constant_time_eq_spec _ _)).
Qed.

(** C14: A request passes the edge check exactly when the edge signed it under
    the key for this source host and path, within five minutes: every header
    once, a canonical identifier, the digest of this very body, and the HMAC of
    the whole. *)
Theorem edge_check_exact {laws : IntakeLaws} headers body path host now_unix key request_id digest :
  verify_edge_headers headers body path host now_unix key = Ok (request_id, digest) ↔
  digest = sha256 body ∧ edge_signed headers body path host now_unix key request_id.
Proof. split; [apply edge_signed_sound|]. intros [-> H]. by apply edge_signed_complete. Qed.

(** ** The closed set of answers *)

Definition public_errors : list PublicApiError :=
  [invalid_request; intake_not_found; unsupported_media_type; payload_too_large; abuse_challenge_failed;
   temporarily_unavailable].

(** A failure is one of them. *)
Definition closed {A} (r : IntakeResult A) : Prop := ∀ e, r = Err e → e ∈ public_errors.

Lemma closed_Ok {A} (a : A) : closed (Ok a).
Proof. by intros e [=]. Qed.
Lemma closed_Err {A} e : e ∈ public_errors → closed (Err e : IntakeResult A).
Proof. by intros H e' [= <-]. Qed.
Lemma closed_bind {A B} (m : IntakeResult A) (k : A → IntakeResult B) : closed m → (∀ a, closed (k a)) → closed (mbind k m).
Proof. intros Hm Hk e. destruct m as [a|e']; cbn; [apply Hk|]. intros [= <-]. by apply Hm. Qed.
Lemma closed_ok_or {A} e (o : option A) : e ∈ public_errors → closed (ok_or e o).
Proof. destruct o; [intros; apply closed_Ok|apply closed_Err]. Qed.
Lemma closed_reject_if c e : e ∈ public_errors → closed (reject_if c e).
Proof. destruct c; [apply closed_Err|intros; apply closed_Ok]. Qed.
Lemma closed_transpose {A B} (f : A → IntakeResult B) o : (∀ a, closed (f a)) → closed (transpose_map f o).
Proof. intros H. destruct o as [a|]; cbn; [|apply closed_Ok]. apply closed_bind; [done|intros; apply closed_Ok]. Qed.

Ltac in_public := unfold public_errors; rewrite ?elem_of_cons; tauto.
Ltac head_of t := lazymatch t with ?f _ => head_of f | _ => t end.
Ltac closed_step :=
  cbv zeta;
  match goal with
  | |- closed (Ok _) => apply closed_Ok
  | |- closed (Err _) => apply closed_Err; in_public
  | |- closed (mbind _ _) => apply closed_bind; [|intros ?]
  | |- closed (ok_or _ _) => apply closed_ok_or; in_public
  | |- closed (reject_if _ _) => apply closed_reject_if; in_public
  | |- closed (transpose_map _ _) => apply closed_transpose; intros ?
  | |- closed (let '(_, _) := ?x in _) => destruct x
  | |- closed (if ?b then _ else _) => destruct b
  | |- closed (match ?x with _ => _ end) => destruct x
  | |- closed ?t => let f := head_of t in unfold f
  end.

Lemma authenticate_closed request path host now_unix : closed (authenticate_request request path host now_unix).
Proof.
  repeat closed_step.
Qed.

Lemma pre_interest_closed r id secrets now : closed (normalize_pre_interest r id secrets now).
Proof. repeat closed_step. Qed.
Lemma quote_closed r id secrets now : closed (normalize_quote r id secrets now).
Proof. repeat closed_step. Qed.

(** ** What is kept of a form *)

(** An address in its one spelling: lower case, one [@], a bounded local part
    and a valid domain. *)
Definition canonical_email (e : string) : Prop :=
  to_ascii_lowercase e = e ∧ 3 ≤ slen e ≤ 254 ∧ sall is_ascii_graphic e = true ∧
  ∃ local domain, e = local +:+ "@" +:+ domain ∧ contains_char "@" local = false ∧ 1 ≤ slen local ≤ 64 ∧
    valid_domain domain = true.

Lemma graphic_bytes s : sall is_ascii s = true → sall no_control_or_space s = true → sall is_ascii_graphic s = true.
Proof.
  assert (∀ c, implb (is_ascii c && no_control_or_space c) (is_ascii_graphic c) = true) as H
    by (apply byte_forall; by vm_compute).
  induction s as [|c s IH]; [done|]. cbn. intros H1 H2. bool_to_prop. specialize (H c).
  rewrite H0, H1 in H. cbn in H. rewrite H. by apply IH.
Qed.

Lemma contains_at_lower s : contains_char "@" (to_ascii_lowercase s) = contains_char "@" s.
Proof.
  rewrite !contains_char_sall. f_equal. unfold to_ascii_lowercase. rewrite sall_smap. apply sall_ext.
  intros c. f_equal. assert (∀ c, Bool.eqb (ascii_lower c =c "@") (c =c "@") = true) as H by (apply byte_forall; by vm_compute).
  apply eqb_prop, H.
Qed.

Lemma normalize_email_canonical value e : normalize_email value = Ok e → canonical_email e.
Proof.
  unfold normalize_email. cbv zeta. set (v := trim value). intros H.
  destruct (_ || negb (sall no_control_or_space v)) eqn:E1; [done|]. cbn [reject_if mbind result_mbind result_bind] in H.
  destruct (_ || negb (valid_domain _)) eqn:E2; [done|]. cbn [reject_if mbind result_mbind result_bind] in H.
  injection H as <-. bool_to_prop.
  pose proof (join_split "@" v) as Hj. pose proof (split_parts_free "@" v) as Hf. pose proof (split_ne "@" v) as Hne.
  destruct (split "@" v) as [|l [|d [|x r]]]; cbn in *; [done|discriminate| |discriminate].
  assert (sall is_ascii_graphic v = true) as Hg by by apply graphic_bytes.
  rewrite <- Hj in *. change (String "@" d) with ("@" +:+ d) in *.
  rewrite !slen_app, !sall_app in *. bool_to_prop.
  assert (∀ s, sall is_ascii_graphic (to_ascii_lowercase s) = sall is_ascii_graphic s) as Hgl.
  { intros s. unfold to_ascii_lowercase. rewrite sall_smap. apply sall_ext, graphic_lower. }
  apply Forall_cons in Hf as [Hl _]. unfold canonical_email.
  change (slen "@") with 1 in *. change (String "@" ?x) with ("@" +:+ x).
  split_and!.
  - rewrite !to_ascii_lowercase_app, !to_ascii_lowercase_idem. reflexivity.
  - rewrite !slen_app. unfold to_ascii_lowercase. rewrite !slen_smap. change (slen "@") with 1. lia.
  - rewrite !slen_app. unfold to_ascii_lowercase. rewrite !slen_smap. change (slen "@") with 1. lia.
  - by rewrite !sall_app, !Hgl, H10, H12.
  - exists (to_ascii_lowercase l), (to_ascii_lowercase d). rewrite contains_at_lower.
    assert (slen (to_ascii_lowercase l) = slen l) as -> by apply slen_smap.
    assert (0 < slen l) by (destruct l as [|c l]; [done|rewrite slen_cons; pose proof (slen_nonneg l); lia]).
    split_and!; [done|done|lia|done|done].
Qed.

(** What the code requires of either form. *)
Record Form := mk_form {
  f_request_id : string;
  f_email : string;
  f_contact : bool;
  f_marketing : bool;
  f_marketing_revision : option string;
  f_consent_revision : string;
  f_consented_at : string;
}.

Definition form_of_pre (r : PreInterestRequest) : Form :=
  mk_form r.(pre_request_id) r.(pre_email) r.(pre_contact_consent) r.(pre_marketing_consent)
    r.(pre_marketing_consent_revision) r.(pre_consent_revision) r.(pre_consented_at).
Definition form_of_quote (r : QuoteForm) : Form :=
  mk_form r.(qt_request_id) r.(qt_email) r.(qt_contact_consent) r.(qt_marketing_consent)
    r.(qt_marketing_consent_revision) r.(qt_consent_revision) r.(qt_consented_at).

(** The submitter agreed to be contacted under the revision in force, to
    marketing under its own or not at all, within a day of now. *)
Definition consented (f : Form) (secrets : IntakeSecrets) (now at_ : instant) : Prop :=
  f.(f_contact) = true ∧ f.(f_consent_revision) = secrets.(consent_revision) ∧
  f.(f_marketing_revision) = (if f.(f_marketing) then Some secrets.(marketing_revision) else None) ∧
  parse_from_rfc3339 f.(f_consented_at) = Some at_ ∧ Z.abs (now - at_) < 86401 * 1000000000.

Definition normalized_form (f : Form) (id : uuid) (secrets : IntakeSecrets) (now : instant) (n : NormalizedSubmission) : Prop :=
  f.(f_request_id) = uuid_display id ∧ consented f secrets now n.(ns_consented_at) ∧
  normalize_email f.(f_email) = Ok n.(ns_email) ∧ n.(ns_marketing_consent) = f.(f_marketing).

Lemma validate_consent_Ok contact marketing revision consent secrets :
  validate_consent contact marketing revision consent secrets = Ok tt →
  contact = true ∧ consent = secrets.(consent_revision) ∧
  revision = (if marketing then Some secrets.(marketing_revision) else None).
Proof.
  unfold validate_consent. intros H. destruct (_ || _) eqn:E; [done|]. cbn in H. bool_to_prop. split_and!; [done..|].
  destruct marketing, revision as [r|]; try done. destruct (r =s _) eqn:Er; [|done]. bool_to_prop. by subst.
Qed.

Lemma consent_timestamp_Ok value now at_ :
  normalize_consent_timestamp value now = Ok at_ →
  parse_from_rfc3339 value = Some at_ ∧ Z.abs (now - at_) < 86401 * 1000000000.
Proof.
  unfold normalize_consent_timestamp. intros H. destruct (_ || _); [done|]. cbn in H.
  destruct (parse_from_rfc3339 value) as [p|]; [|done]. cbn in H.
  destruct (_ <? _) eqn:E; [done|]. injection H as ->. split; [done|]. bool_to_prop.
  unfold MAX_CONSENT_CLOCK_SKEW_SECONDS in E. pose proof (Z.quot_rem' (now - at_) 1000000000).
  pose proof (Z.rem_bound_abs (now - at_) 1000000000 ltac:(lia)). lia.
Qed.

(** The parts of a successful chain of checks. *)
Ltac checks H :=
  repeat match type of H with
  | mbind _ ?m = Ok _ => destruct m eqn:?; [cbn [mbind result_mbind result_bind] in H|discriminate H]
  end.

Lemma reject_if_Ok {E} c (e : E) u : reject_if c e = Ok u → c = false.
Proof. by destruct c. Qed.

Ltac normalized_tac H :=
  checks H; injection H as <-;
  repeat match goal with u : unit |- _ => destruct u end;
  repeat match goal with H : reject_if _ _ = Ok _ |- _ => apply reject_if_Ok in H end; bool_to_prop;
  match goal with H : validate_consent _ _ _ _ _ = Ok _ |- _ => apply validate_consent_Ok in H as (? & ? & ?) end;
  match goal with H : normalize_consent_timestamp _ _ = Ok _ |- _ => apply consent_timestamp_Ok in H as [? ?] end;
  by split_and!.

Lemma pre_interest_normalized r id secrets now n :
  normalize_pre_interest r id secrets now = Ok n → normalized_form (form_of_pre r) id secrets now n.
Proof. unfold normalize_pre_interest. intros H. normalized_tac H. Qed.

Lemma quote_normalized r id secrets now n :
  normalize_quote r id secrets now = Ok n → normalized_form (form_of_quote r) id secrets now n.
Proof. unfold normalize_quote. intros H. normalized_tac H. Qed.

Lemma nonempty_length s : is_empty s = false → 0 < slen s.
Proof. destruct s as [|c s]; [done|]. intros _. rewrite slen_cons. pose proof (slen_nonneg s). lia. Qed.

Lemma authenticate_Ok request path host now_unix a :
  authenticate_request request path host now_unix = Ok a →
  request.(iq_path) = path ∧ request.(iq_query) = None ∧ normalized_host request.(iq_headers) = Ok API_HOST ∧
  request.(iq_body) = Some a.(ar_body) ∧ 0 < slen a.(ar_body) ≤ MAX_BODY_BYTES ∧ secrets_from_env = Ok a.(ar_secrets) ∧
  a.(ar_body_sha256) = sha256 a.(ar_body) ∧
  edge_signed request.(iq_headers) a.(ar_body) path host now_unix a.(ar_secrets).(signing_key) a.(ar_request_id).
Proof.
  unfold authenticate_request. intros H. checks H.
  match type of H with (let '(_, _) := ?p in _) = _ => destruct p as [id digest] end. injection H as <-. cbn.
  repeat match goal with H : reject_if _ _ = Ok _ |- _ => apply reject_if_Ok in H end. bool_to_prop.
  destruct (iq_body request) as [b|]; [|done]. cbn in *.
  destruct (Z.leb_spec (slen b) MAX_BODY_BYTES); [|done]. simplify_eq.
  match goal with H : ok_or _ (Some _) = Ok _ |- _ => injection H as -> end.
  match goal with H : verify_edge_headers _ _ _ _ _ _ = Ok _ |- _ => apply edge_signed_sound in H as [-> ?] end.
  destruct (iq_query request); [done|].
  match goal with H : is_empty _ = false |- _ => apply nonempty_length in H end. by split_and!.
Qed.

(** What is written to the canonical plane for a request received at [now], and
    why: everything the edge and the submitter vouched for, under the signed
    identifier. *)
Definition vouched (st : AppState) (request : IntakeRequest) (now : instant) (path : string) (host : SourceHost)
    (kind : IntakeKind) (decode : string → option Form) (call : Submitted) : Prop :=
  ∃ body secrets id f,
    let s := call.(call_submission) in
    request.(iq_path) = path ∧ request.(iq_query) = None ∧ normalized_host request.(iq_headers) = Ok API_HOST ∧
    request.(iq_body) = Some body ∧ 0 < slen body ≤ MAX_BODY_BYTES ∧ secrets_from_env = Ok secrets ∧
    edge_signed request.(iq_headers) body path host (unix_seconds now) secrets.(signing_key) id ∧
    decode body = Some f ∧ f.(f_request_id) = uuid_display id ∧ consented f secrets now s.(sb_consented_at) ∧
    s.(sb_request_id) = id ∧ s.(sb_kind) = kind ∧ s.(sb_source_host) = host ∧ s.(sb_body_sha256) = sha256 body ∧
    normalize_email f.(f_email) = Ok s.(sb_email) ∧ canonical_email s.(sb_email) ∧
    s.(sb_email_lookup_hmac) = hmac_sha256 secrets.(lookup_key) s.(sb_email) ∧
    s.(sb_marketing_consent) = f.(f_marketing) ∧
    st.(registry_write) = true ∧ submission_error s = None ∧ call.(call_key) = secrets.(encryption_key) ∧
    ∃ t, call.(call_answer) = write_public_intake_submission t s call.(call_key).

(** How a run of either form ends: without a write it is refused, and a write
    decides the answer. *)
Definition processed (vouched : Submitted → Prop) (r : IntakeResult unit) (calls : list Submitted) : Prop :=
  match calls with
  | [] => ∃ e, r = Err e ∧ e ∈ public_errors
  | [call] => vouched call ∧ r = map_err map_write_error call.(call_answer)
  | _ => False
  end.

Lemma runs_checked {A} (x : IntakeResult A) (k : A → IM unit) v :
  (∀ e, x = Err e → e ∈ public_errors) → (∀ a, x = Ok a → runs (k a) (processed v)) →
  runs (mbind k (checked x)) (processed v).
Proof. intros He Hk. apply runs_check; [|done]. intros e H. exists e. split; [done|by apply He]. Qed.

Lemma runs_persist st request now path host kind decode a f n :
  authenticate_request request path host (unix_seconds now) = Ok a → decode a.(ar_body) = Some f →
  normalized_form f a.(ar_request_id) a.(ar_secrets) now n →
  runs (persist st kind host a n) (processed (vouched st request now path host kind decode)).
Proof.
  intros Ha Hd (Hi & Hc & He & Hm). apply authenticate_Ok in Ha as (H1 & H2 & H3 & H4 & H5 & H6 & H7 & H8).
  unfold persist. apply runs_checked; [intros e; destruct (registry_write st); [done|intros [= <-]; in_public]|].
  intros _ Hw%reject_if_Ok. bool_to_prop. cbn zeta.
  apply runs_checked; [intros e; destruct (submission_error _) as [[]|]; [intros [= <-]; in_public..|done]|].
  intros u Hs. destruct (submission_error _) eqn:Es; [done|]. apply runs_issue. intros t. split; [|done].
  exists a.(ar_body), a.(ar_secrets), a.(ar_request_id), f. cbn.
  split_and!; try done; try lia; [by eapply normalize_email_canonical|by exists t].
Qed.

Lemma runs_pre st request now :
  runs (process_pre_interest st request now)
    (processed (vouched st request now PRE_INTEREST_PATH_V1 HostUser PreInterest
      (λ b, form_of_pre <$> pre_interest_from_slice b))).
Proof.
  unfold process_pre_interest. apply runs_checked; [intros e H; by eapply authenticate_closed|]. intros a Ha.
  apply runs_checked; [intros e; destruct (pre_interest_from_slice _); [done|intros [= <-]; in_public]|]. intros r Hr.
  apply runs_checked; [intros e H; by eapply pre_interest_closed|]. intros n Hn.
  apply (runs_persist _ _ _ _ _ _ _ a (form_of_pre r)); [done| |by apply pre_interest_normalized].
  destruct (pre_interest_from_slice _); [|done]. by injection Hr as ->.
Qed.

Lemma runs_quote st request now :
  runs (process_quote_request st request now)
    (processed (vouched st request now QUOTE_REQUESTS_PATH_V1 HostOrganization QuoteRequest
      (λ b, form_of_quote <$> quote_from_slice b))).
Proof.
  unfold process_quote_request. apply runs_checked; [intros e H; by eapply authenticate_closed|]. intros a Ha.
  apply runs_checked; [intros e; destruct (quote_from_slice _); [done|intros [= <-]; in_public]|]. intros r Hr.
  apply runs_checked; [intros e H; by eapply quote_closed|]. intros n Hn.
  apply (runs_persist _ _ _ _ _ _ _ a (form_of_quote r)); [done| |by apply quote_normalized].
  destruct (quote_from_slice _); [|done]. by injection Hr as ->.
Qed.

(** The responses a caller can get: nothing of a request is in them. *)
Definition public_responses : list IntakeResponse := respond (Ok tt) :: map into_response public_errors.

(** What a caller gets, and what was written to the plane for the request,
    received at some instant. *)
Definition answered (vouched : instant → Submitted → Prop) (r : IntakeResult IntakeResponse) (calls : list Submitted)
    : Prop :=
  ∃ response, r = Ok response ∧ response ∈ public_responses ∧
    match calls with
    | [] => response.(ip_status) ≠ 202
    | [call] => (∃ t, vouched (utc_now t) call) ∧
        (response.(ip_status) = 202 ↔ call.(call_answer) = Ok tt)
    | _ => False
    end.

Lemma public_error_response e : e ∈ public_errors → into_response e ∈ public_responses ∧ pe_status e ≠ 202.
Proof.
  intros H. split; [right; by apply (list_elem_of_fmap_2 into_response)|]. unfold public_errors in H.
  repeat (apply elem_of_cons in H as [->|H]; [done|]). by apply elem_of_nil in H.
Qed.

Lemma processed_answered (v : instant → Submitted → Prop) t r calls :
  processed (v (utc_now t)) r calls → answered v (Ok (respond r)) calls.
Proof.
  intros H. exists (respond r). split; [done|]. destruct calls as [|call [|]]; [| |done].
  - destruct H as (e & -> & He). by apply public_error_response in He.
  - destruct H as [Hv ->]. destruct (call_answer call) as [[]|e] eqn:Ea; cbn.
    + split; [by left|]. split; [by exists t|done].
    + destruct (public_error_response (map_write_error e)) as [H1 H2]; [destruct e; in_public|].
      split; [done|]. split; [by exists t|]. split; [done|congruence].
Qed.

Lemma runs_answered (process : instant → IM unit) (v : instant → Submitted → Prop) :
  (∀ t, runs (process t) (processed (v t))) →
  runs (t ← silent now; r ← settle (process t); mret (respond r) : IM IntakeResponse) (answered v).
Proof.
  intros H. apply runs_now. intros t. eapply runs_settle; [apply H|]. intros r l Hr. apply runs_ret.
  rewrite app_nil_r. by eapply processed_answered.
Qed.

(** C13: Whatever is sent to either form, the caller gets one of seven fixed
    responses, and the registry's own tables stay as they were. At most one
    write to the canonical plane is issued for a request, and none unless the
    edge signed it for this host, path and body within five minutes and its
    submitter consented under the revisions in force within a day. That write
    is under the signed identifier, with the digest of the body, the address in
    its canonical spelling and its keyed lookup. The answer is 202 exactly when
    a write was issued and accepted. *)
Theorem intake_closed_and_consented st request :
  runs (submit_pre_interest st request)
    (answered (λ now, vouched st request now PRE_INTEREST_PATH_V1 HostUser PreInterest
      (λ b, form_of_pre <$> pre_interest_from_slice b))) ∧
  runs (submit_quote_request st request)
    (answered (λ now, vouched st request now QUOTE_REQUESTS_PATH_V1 HostOrganization QuoteRequest
      (λ b, form_of_quote <$> quote_from_slice b))).
Proof.
  split.
  - apply (runs_answered (process_pre_interest st request)). intros t. apply runs_pre.
  - apply (runs_answered (process_quote_request st request)). intros t. apply runs_quote.
Qed.
End edge.
