(* ===== verification/Router.v ===== *)
(** * The assembled routes ([src/routes/mod.rs], [src/account_router.rs],
    [src/api_docs.rs], and their composition in [src/server.rs])

    A router is a list of routes: a path template, the handlers of its methods
    and the layers around them, the innermost first. axum's matcher is external;
    the theorem composes the whole with the registry virtual host. *)

From S2P Require Export Routes Storage.
From S2P Require Import RegistryHost.

Inductive Layer : Type :=
| DefaultBodyLimit (bytes : Z)
| ConcurrencyLimit (requests : Z)
| RateLimited
| Traced
| TimeoutAfter (seconds : Z)
| NoSniff
| StorageLimitsExtension (max_artifact_bytes max_buffered_artifact_bytes : Z).
#[export] Instance layer_eq_dec : EqDecision Layer.
Proof. solve_decision. Defined.

(** The handler of each method, by its path in the source. *)
Abbreviation MethodRouter := (list (string * string)).

Record Route := mk_route_entry { template : string; verbs : MethodRouter; layers : list Layer }.
Abbreviation Router := (list Route).

Definition get (handler : string) : MethodRouter := [("GET", handler)].
Definition post (handler : string) : MethodRouter := [("POST", handler)].
Definition put (handler : string) : MethodRouter := [("PUT", handler)].
Definition patch (handler : string) : MethodRouter := [("PATCH", handler)].

Definition route (t : string) (v : MethodRouter) : Router := [mk_route_entry t v []].

(** A layer goes around every route added before it. *)
Definition layer (l : Layer) : Router → Router :=
  fmap (λ e, mk_route_entry e.(template) e.(verbs) (e.(layers) ++ [l])).

Definition nest (prefix : string) : Router → Router :=
  fmap (λ e, mk_route_entry (prefix +:+ e.(template)) e.(verbs) e.(layers)).

(** ** The path templates *)

Definition ROUTE_PACKAGE : string := "/v1/packages/{org}/{name}".
Definition ROUTE_VERSION : string := "/v1/packages/{org}/{name}/versions/{version}".
Definition ROUTE_YANK : string := "/v1/packages/{org}/{name}/versions/{version}/yank".
Definition ROUTE_ARTIFACT : string := "/v1/artifacts/{sha256}".
Definition ROUTE_SEARCH : string := "/v1/search".
Definition ROUTE_PACKAGES_LIST : string := "/v1/packages".
Definition ROUTE_SEMANTIC : string := "/v1/search/semantic".
Definition ROUTE_EMBEDDING : string := "/v1/packages/{org}/{name}/embedding".
Definition ROUTE_ORGS : string := "/v1/orgs".
Definition ROUTE_ORG_KEYS : string := "/v1/orgs/{org}/keys".
Definition ROUTE_MIRRORS : string := "/v1/mirrors".
Definition ROUTE_SIGNED_INDEX : string := "/v1/packages/{org}/{name}/signed-index".
Definition ROUTE_AUDIT : string := "/v1/orgs/{org}/audit".
Definition ROUTE_AUDIT_VERIFY : string := "/v1/orgs/{org}/audit/verify".
Definition ROUTE_FILES : string := "/v1/files/{org}/{name}/{version}/{*path}".
Definition ROUTE_STORAGE_STATUS : string := "/v1/storage/status".
Definition ROUTE_STORAGE_ARTIFACT : string := "/v1/storage/artifacts/{sha256}".
Definition ROUTE_DECLARED_GRAPH : string := "/v1/packages/{org}/{name}/versions/{version}/dependency-graph".
Definition ROUTE_RESOLUTION_GRAPH : string := "/v1/resolutions/{resolution_digest}/dependency-graph".

Definition DISCOVERY_PATH : string := "/.well-known/api-docs".
Definition OPENAPI_PATH : string := "/openapi.json".
Definition OPENAPI_ALIAS : string := "/api/docs.json".
Definition DOCS_PATH : string := "/api/docs".
Definition DOCS_ALIAS : string := "/docs/api".

(** The two templates the interface crate names. *)
Class RouteNames := {
  MIRROR_BOOTSTRAP_PATH : string;
  DEPENDENCY_GRAPH_EXPORT_ROUTE_TEMPLATE : string;
}.

Definition REQUEST_TIMEOUT : Z := 30.
Definition ACCOUNT_BODY_LIMIT : Z := 64 * 1024.
Definition ACCOUNT_TIMEOUT : Z := 15.
Definition ACCOUNT_MAX_IN_FLIGHT : Z := 256.

(** ** The three routers *)

Section routers.
Context `{names : RouteNames} `{reg : RegistryExternals}.

Section registry.
Variables (artifact_budget graph_budget : option string) (max_artifact_bytes : Z).

Definition artifact_routes : Router :=
  layer (ConcurrencyLimit (artifact_serve_concurrency artifact_budget max_artifact_bytes))
    (route ROUTE_ARTIFACT (get "artifacts::get_artifact") ++ route ROUTE_FILES (get "artifacts::get_file")).

Definition graph_routes : Router :=
  layer (ConcurrencyLimit (graph_serve_concurrency graph_budget))
    (route ROUTE_DECLARED_GRAPH (get "graph::get_declared_graph")
     ++ route DEPENDENCY_GRAPH_EXPORT_ROUTE_TEMPLATE (get "graph_exports::get_declared_graph_export")
     ++ route ROUTE_RESOLUTION_GRAPH (get "graph::get_resolution_graph")).

Definition storage_routes : Router :=
  layer (StorageLimitsExtension max_artifact_bytes MAX_BUFFERED_ARTIFACT_BYTES)
    (route ROUTE_STORAGE_STATUS (get "storage::status") ++ route ROUTE_STORAGE_ARTIFACT (get "storage::artifact")).

Definition publish_route : Router :=
  layer (DefaultBodyLimit max_artifact_bytes)
    (route ROUTE_VERSION (get "packages::get_version" ++ put "publish::publish")).

Definition json_routes : Router :=
  route "/healthz" (get "routes::healthz")
  ++ route ROUTE_PACKAGES_LIST (get "list::list_packages")
  ++ route ROUTE_PACKAGE (get "packages::get_package")
  ++ route ROUTE_EMBEDDING (put "semantic::upsert_embedding")
  ++ route ROUTE_YANK (post "yank::yank")
  ++ route ROUTE_SEARCH (get "search::search")
  ++ route ROUTE_SEMANTIC (post "semantic::semantic_search")
  ++ route ROUTE_ORGS (post "orgs::claim_org")
  ++ route ROUTE_ORG_KEYS (get "keys::get_keys" ++ put "keys::put_keys")
  ++ route ROUTE_MIRRORS (get "mirrors::get_mirrors")
  ++ route MIRROR_BOOTSTRAP_PATH (get "mirrors::get_bootstrap")
  ++ route ROUTE_SIGNED_INDEX (get "mirrors::get_signed_index" ++ put "mirrors::put_signed_index")
  ++ route ROUTE_AUDIT (get "audit::get_audit_log")
  ++ route ROUTE_AUDIT_VERIFY (get "audit::verify_audit_log").

Definition router : Router :=
  layer NoSniff (layer (TimeoutAfter REQUEST_TIMEOUT) (layer (ConcurrencyLimit MAX_IN_FLIGHT_REQUESTS)
    (layer Traced (layer RateLimited
      (layer (DefaultBodyLimit JSON_BODY_LIMIT) (json_routes ++ artifact_routes ++ graph_routes ++ storage_routes)
       ++ publish_route))))).
End registry.

Definition account_paths : Router :=
  route "/auth/config" (get "account::auth_config")
  ++ route "/auth/exchange" (post "account::exchange_supabase")
  ++ route "/account/me" (get "account::me" ++ put "account::update_user_settings")
  ++ route "/account/home" (get "account::home")
  ++ route "/account/search" (get "account::search")
  ++ route "/account/orgs" (post "account::create_org")
  ++ route "/account/orgs/{org}" (get "account::org_dashboard")
  ++ route "/account/orgs/{org}/invitations" (post "account::invite_org_member")
  ++ route "/account/orgs/{org}/projects" (post "account::create_project")
  ++ route "/account/orgs/{org}/projects/{project}" (get "account::project_settings")
  ++ route "/account/orgs/{org}/projects/{project}/invitations" (post "account::invite_project_member")
  ++ route "/account/orgs/{org}/packages" (post "account::create_package")
  ++ route "/account/orgs/{org}/packages/{package}/settings"
       (get "account::package_settings" ++ put "account::update_package_settings"
        ++ patch "account::update_package_settings")
  ++ route "/account/orgs/{org}/packages/{package}/public" (post "account::make_package_public")
  ++ route "/account/orgs/{org}/packages/{package}/licenses" (post "account::add_package_license")
  ++ route "/account/orgs/{org}/packages/{package}/uploads" (post "account::register_package_upload").

Definition account_router : Router :=
  layer NoSniff (layer (TimeoutAfter ACCOUNT_TIMEOUT) (layer (ConcurrencyLimit ACCOUNT_MAX_IN_FLIGHT)
    (layer Traced (layer RateLimited (layer (DefaultBodyLimit ACCOUNT_BODY_LIMIT)
      (nest "/api/v1" account_paths
       ++ nest "/v1" account_paths
       ++ route "/v1/session/bootstrap" (post "account::me")
       ++ route "/v1/me" (get "account::me")
       ++ route "/v1/me/home" (get "account::home")
       ++ route "/v1/account/orgs/{org}/dashboard" (get "account::org_dashboard")
       ++ route "/v1/account/orgs/{org}/packages/{package}" (get "account::package_settings"))))))).

Definition docs_router : Router :=
  route DISCOVERY_PATH (get "api_docs::discovery")
  ++ route OPENAPI_PATH (get "api_docs::openapi")
  ++ route OPENAPI_ALIAS (get "api_docs::openapi")
  ++ route DOCS_PATH (get "api_docs::docs")
  ++ route DOCS_ALIAS (get "api_docs::docs").

(** The router the process serves, inside the registry-host middleware. *)
Definition server_app (artifact_budget graph_budget : option string) (max_artifact_bytes : Z) : Router :=
  docs_router ++ router artifact_budget graph_budget max_artifact_bytes ++ account_router.
End routers.

(** ** The documentation responses *)

Definition OPENAPI_SHA256 : string := "021d7cc2cbe37045db98b8dbf6c73fccafb2d4bfd17443555a3adc66cfa52030".
Definition OPENAPI_MEDIA_TYPE : string := "application/vnd.oai.openapi+json;version=3.1".

(** The texts of the three documents. *)
Class DocsTexts := { OPENAPI : string; MANIFEST : string; DOCS_HTML : string }.

Record DocsResponse := mk_docs_response { dr_headers : RespHeaders; dr_body : string }.

Definition OPENAPI_ETAG : string := String "034" (OPENAPI_SHA256 +:+ String "034" "").

Definition docs_response (body content_type : string) (html openapi_etag : bool) : DocsResponse :=
  let builder := [("content-type", content_type); ("cache-control", "public, max-age=300");
                  ("x-openapi-sha256", OPENAPI_SHA256); ("x-content-type-options", "nosniff")] in
  let builder := if openapi_etag then (builder ++ [("etag", OPENAPI_ETAG)])%list else builder in
  let builder :=
    if html
    then (builder ++ [("content-security-policy",
      "default-src 'none'; connect-src 'self'; script-src 'unsafe-inline'; style-src 'unsafe-inline'")])%list
    else builder in
  mk_docs_response builder body.

Definition discovery `{DocsTexts} : DocsResponse := docs_response MANIFEST "application/json" false false.
Definition openapi `{DocsTexts} : DocsResponse := docs_response OPENAPI OPENAPI_MEDIA_TYPE false true.
Definition docs `{DocsTexts} : DocsResponse := docs_response DOCS_HTML "text/html; charset=utf-8" true false.

(** ** Dispatch

    axum's matcher, and what its documentation says of it: a template matches
    segment by segment, [{x}] takes one segment that is not empty, and a final
    [{*x}] the rest of the path, not empty either. *)
Class Matcher := path_matches : string → string → bool.

Fixpoint template_matches (t segments : list string) : bool :=
  match t, segments with
  | [], [] => true
  | x :: t, s :: segments =>
      if starts_with "{*" x then bool_decide (t = []) && negb (is_empty (join "/" (s :: segments)))
      else if starts_with "{" x then negb (is_empty s) && template_matches t segments
      else (s =s x) && template_matches t segments
  | _, _ => false
  end.

Class MatcherLaws `{!Matcher} `{!RouteNames} := {
  path_matches_spec t path : path_matches t path = template_matches (split "/" t) (split "/" path);
  (** as [routes_match_contract_paths] pins it *)
  export_template :
    DEPENDENCY_GRAPH_EXPORT_ROUTE_TEMPLATE =
    "/v1/packages/{org}/{name}/versions/{version}/dependency-graph/export/{format}";
}.

(** [get] also serves HEAD. *)
Definition verb_handler (v : MethodRouter) (method : string) : option string :=
  match List.find (λ e, e.1 =s method) v with
  | Some (_, h) => Some h
  | None => if method =s "HEAD" then snd <$> List.find (λ e, e.1 =s "GET") v else None
  end.

(** Some route of the router passes the request to the handler. *)
Definition serves `{!Matcher} (r : Router) (method path handler : string) : Prop :=
  ∃ e, e ∈ r ∧ path_matches e.(template) path = true ∧ verb_handler e.(verbs) method = Some handler.

(** ** The machine registry, as its host names it *)

Definition machine_handler (route method : string) : string :=
  match List.find (λ e, e.1 =s route) [
    ("healthz", "routes::healthz"); ("list_packages", "list::list_packages");
    ("get_package", "packages::get_package");
    ("version", if method =s "PUT" then "publish::publish" else "packages::get_version");
    ("yank", "yank::yank"); ("embedding", "semantic::upsert_embedding");
    ("declared_graph", "graph::get_declared_graph");
    ("declared_graph_export", "graph_exports::get_declared_graph_export");
    ("artifact", "artifacts::get_artifact"); ("files", "artifacts::get_file");
    ("search", "search::search"); ("semantic_search", "semantic::semantic_search");
    ("claim_org", "orgs::claim_org"); ("audit", "audit::get_audit_log");
    ("audit_verify", "audit::verify_audit_log"); ("resolution_graph", "graph::get_resolution_graph")] with
  | Some (_, h) => h
  | None => ""
  end.

(** The body a route lets its handler read: the innermost limit decides. *)
Fixpoint body_limit (l : list Layer) : option Z :=
  match l with
  | [] => None
  | DefaultBodyLimit n :: _ => Some n
  | _ :: l => body_limit l
  end.

(** What surrounds a handler of the machine registry. *)
Definition guarded (max_artifact_bytes : Z) (e : Route) : Prop :=
  RateLimited ∈ e.(layers) ∧ TimeoutAfter 30 ∈ e.(layers) ∧ ConcurrencyLimit 512 ∈ e.(layers) ∧ NoSniff ∈ e.(layers) ∧
  body_limit e.(layers) = Some (if e.(template) =s ROUTE_VERSION then max_artifact_bytes else JSON_BODY_LIMIT).

Section dispatch.
Context `{names : RouteNames} `{reg : RegistryExternals} `{mat : !Matcher} {laws : MatcherLaws}.
Variables (artifact_budget graph_budget : option string) (max_artifact_bytes : Z).

#[local] Abbreviation the_app := (server_app artifact_budget graph_budget max_artifact_bytes).

(** The routes a path could take, the bootstrap document's aside. *)
Definition hits (segments : list string) : list Route :=
  List.filter (λ e, negb (bool_decide (e.(verbs) = get "mirrors::get_bootstrap"))
                    && template_matches (split "/" e.(template)) segments) the_app.

Lemma bootstrap_entry e : e ∈ the_app → e.(verbs) = get "mirrors::get_bootstrap" → e.(template) = MIRROR_BOOTSTRAP_PATH.
Proof.
  intros He E. apply list_elem_of_In in He. cbn in He.
  repeat destruct He as [<-|He]; first [discriminate E|done].
Qed.

Lemma elem_of_hits e segments :
  e ∈ hits segments ↔ e ∈ the_app ∧ e.(verbs) ≠ get "mirrors::get_bootstrap" ∧
    template_matches (split "/" e.(template)) segments = true.
Proof. unfold hits. by rewrite !list_elem_of_In, filter_In, andb_true_iff, negb_true_iff, bool_decide_eq_false. Qed.

Lemma serves_hits method path handler :
  serves the_app method path handler →
  path_matches MIRROR_BOOTSTRAP_PATH path = true ∨
  ∃ e, e ∈ hits (split "/" path) ∧ verb_handler e.(verbs) method = Some handler.
Proof.
  intros (e & He & Hm & Hv). destruct (bool_decide (e.(verbs) = get "mirrors::get_bootstrap")) eqn:E.
  - apply bool_decide_eq_true in E. left. by rewrite <- (bootstrap_entry e).
  - apply bool_decide_eq_false in E. right. exists e. split; [|done].
    apply elem_of_hits. by rewrite <- path_matches_spec.
Qed.

(** The handlers of a route of the machine surface. *)
Definition answers (n : string) (ms : list string) (e : Route) : Prop :=
  guarded max_artifact_bytes e ∧
  Forall (λ m, verb_handler e.(verbs) m = Some (machine_handler n m)) (List.filter (λ m, negb (m =s "OPTIONS")) ms).

Lemma is_empty_cons s : is_empty s = false → ∃ c r, s = String c r.
Proof. destruct s; [done|by eauto]. Qed.

Lemma slug_cons s : Is_true (slug s) → ∃ c r, s = String c r.
Proof. intros H%Is_true_true. unfold slug in H. bool_to_prop. by apply is_empty_cons. Qed.
Lemma version_cons s : Is_true (version_segment s) → ∃ c r, s = String c r.
Proof. intros H%Is_true_true. unfold version_segment in H. bool_to_prop. by apply is_empty_cons. Qed.
Lemma file_cons s : file_segment s = true → ∃ c r, s = String c r.
Proof. unfold file_segment. intros H. bool_to_prop. by apply is_empty_cons. Qed.
Lemma sha256_cons s : Is_true (RegistryHost.sha256 s) → ∃ c r, s = String c r.
Proof. intros H%Is_true_true. destruct s; [done|by eauto]. Qed.
Lemma digest_cons s : Is_true (resolution_digest s) → ∃ c r, s = String c r.
Proof. intros H%Is_true_true. destruct s; [done|by eauto]. Qed.

Ltac expose_segments :=
  repeat match goal with
  | H : Is_true (slug _) |- _ => apply slug_cons in H as (? & ? & ->)
  | H : Is_true (version_segment _) |- _ => apply version_cons in H as (? & ? & ->)
  | H : Is_true (RegistryHost.sha256 _) |- _ => apply sha256_cons in H as (? & ? & ->)
  | H : Is_true (resolution_digest _) |- _ => apply digest_cons in H as (? & ? & ->)
  end.

Lemma answers_intro n ms e :
  (RateLimited ∈ e.(layers) ∧ TimeoutAfter 30 ∈ e.(layers) ∧ ConcurrencyLimit 512 ∈ e.(layers) ∧ NoSniff ∈ e.(layers)) →
  body_limit e.(layers) = Some (if e.(template) =s ROUTE_VERSION then max_artifact_bytes else JSON_BODY_LIMIT) →
  Forall (λ m, verb_handler e.(verbs) m = Some (machine_handler n m)) (List.filter (λ m, negb (m =s "OPTIONS")) ms) →
  answers n ms e.
Proof. intros (? & ? & ? & ?) Hb Hv. by repeat split. Qed.

Ltac surface_case :=
  eexists; split; [vm_compute; reflexivity|];
  apply answers_intro; [split_and!; apply list_elem_of_In; cbn; tauto|reflexivity|repeat constructor].

(** On a path of the surface exactly one route is taken, with the expected
    handlers behind the expected layers. *)
Lemma surface_hits segments n ms :
  surface segments n ms → ∃ e, hits ("" :: segments) = [e] ∧ answers n ms e.
Proof.
  intros H. unfold hits, server_app, router, graph_routes, artifact_routes. rewrite export_template.
  generalize (artifact_serve_concurrency artifact_budget max_artifact_bytes) as artifact_lane.
  generalize (graph_serve_concurrency graph_budget) as graph_lane. intros.
  destruct H; expose_segments.
  all: try surface_case.
  match goal with H : Is_true (forallb _ _) |- _ => apply Is_true_true in H; cbn in H; apply andb_true_iff in H as [Hf _] end.
  apply file_cons in Hf as (? & ? & ->). destruct rest; surface_case.
Qed.

Lemma trim_end_no_slash p : ends_with "/" ("/" +:+ p) = false → trim_end_matches "/" p = p.
Proof.
  intros He. destruct (trim_end_by_decompose (λ x, x =c "/") p) as (t & Hp & Ht). unfold trim_end_matches.
  destruct (srev t) as [|c u] eqn:Et.
  { assert (t = "") as -> by (rewrite <- (srev_involutive t), Et; done). rewrite Hp at 2. by rewrite app_str_nil_r. }
  exfalso. assert (t = srev u +:+ String c "") as Htu by (rewrite <- (srev_involutive t), Et; apply srev_cons).
  rewrite Htu, sall_app in Ht. apply andb_true_iff in Ht as [_ Ht]. cbn in Ht. rewrite andb_true_r in Ht.
  apply Ascii.eqb_eq in Ht as ->.
  assert (ends_with "/" ("/" +:+ p) = true) as Hc; [|congruence].
  apply ends_with_spec. exists ("/" +:+ trim_end_by (λ x, x =c "/") p +:+ srev u).
  rewrite Hp at 1. rewrite Htu. by rewrite !app_str_assoc.
Qed.

(** A path that does not end with a slash has the segments it is dispatched by. *)
Lemma path_segments_split path segments :
  ends_with "/" path = false → path_segments path = Some segments → split "/" path = "" :: segments.
Proof.
  unfold path_segments. intros He. destruct (ambiguous_path path); [done|].
  destruct (strip_prefix "/" path) as [p|] eqn:Ep; [|done]. cbn. intros [= <-].
  apply strip_prefix_Some in Ep as ->. by rewrite trim_end_no_slash.
Qed.

(** C34: Whatever a registry host admits is routed as its table says: except for
    OPTIONS and a trailing slash, exactly the handler the table names answers,
    under the registry's rate limit, timeout and in-flight limit, with the body
    limit of artifacts on publications and the small one elsewhere; no account,
    documentation, key, mirror, index or storage route is taken. *)
Theorem registry_host_routed h m path n mutating :
  is_registry_host h = true → decide (Some h) m path = Allow n mutating →
  m ≠ "OPTIONS" → ends_with "/" path = false →
  (∃ e, e ∈ the_app ∧ path_matches e.(template) path = true ∧
    verb_handler e.(verbs) m = Some (machine_handler n m) ∧ guarded max_artifact_bytes e) ∧
  ∀ handler, serves the_app m path handler →
    handler = machine_handler n m ∨ path_matches MIRROR_BOOTSTRAP_PATH path = true.
Proof.
  intros Hh Hd Hm He. pose proof (decide_cases h m path Hh) as H. rewrite Hd in H.
  destruct H as (segments & ms & Hs & Hsur & Hin & _).
  pose proof (path_segments_split _ _ He Hs) as Hsplit.
  destruct (surface_hits _ _ _ Hsur) as (e & Hhits & Hg & Hv). rewrite <- Hsplit in Hhits.
  assert (verb_handler e.(verbs) m = Some (machine_handler n m)) as Hverb.
  { rewrite Forall_forall in Hv. apply Hv, list_elem_of_In, filter_In. split; [done|].
    by apply negb_true_iff, String.eqb_neq. }
  split.
  - assert (e ∈ hits (split "/" path)) as Hel by (rewrite Hhits; by left).
    apply elem_of_hits in Hel as (? & _ & ?). exists e. by rewrite path_matches_spec.
  - intros handler [?|(e' & He' & Hh')]%serves_hits; [by right|left].
    rewrite Hhits in He'. apply list_elem_of_singleton in He' as ->. congruence.
Qed.
End dispatch.

(** *** Witness *)

Definition demo_names : RouteNames :=
  {| MIRROR_BOOTSTRAP_PATH := "/.well-known/zed-mirrors.json";
     DEPENDENCY_GRAPH_EXPORT_ROUTE_TEMPLATE :=
       "/v1/packages/{org}/{name}/versions/{version}/dependency-graph/export/{format}" |}.
Definition demo_matcher : Matcher := λ t path, template_matches (split "/" t) (split "/" path).
Definition demo_registry : RegistryExternals :=
  {| sort_desc := λ l, l; format_from_value := λ _, None; default_format := "zip"; decode_mirrors := λ _, None;
     decode_signatures := λ _, None; default_set := JArr []; artifact_path := λ s, "/v1/artifacts/" +:+ s;
     DEPENDENCY_GRAPH_DEFAULT_MAX_ENCODED_BYTES := 1024 |}.

Lemma demo_matcher_laws : @MatcherLaws demo_matcher demo_names.
Proof. by split. Qed.

(** A publication reaches [publish::publish] and may carry a whole artifact. *)
Lemma registry_host_routed_witness :
  ∃ e, @path_matches demo_matcher e.(template) "/v1/packages/acme/kit/versions/1.0.0" = true ∧
    verb_handler e.(verbs) "PUT" = Some "publish::publish" ∧ body_limit e.(layers) = Some 100.
Proof.
  destruct (@registry_host_routed demo_names demo_registry demo_matcher demo_matcher_laws None None 100
    "registry.zpkg.net" "PUT" "/v1/packages/acme/kit/versions/1.0.0" "version" true
    eq_refl eq_refl ltac:(done) eq_refl) as ((e & He & Hm & Hv & Hg) & _).
  destruct Hg as (_ & _ & _ & _ & Hb).
  exists e. split; [exact Hm|]. split; [exact Hv|].
  rewrite Hb. apply list_elem_of_In in He. vm_compute in He.
  repeat destruct He as [<-|He]; try discriminate Hm; try discriminate Hv; [reflexivity|done].
Defined.
