(* ===== verification/Semantic.v ===== *)
(** * Embeddings and semantic search

    [src/embeddings.rs] and [src/routes/semantic.rs]: vectors as pgvector's text,
    the two statements on [package_embedding], and the two handlers. *)

From Stdlib Require Import QArith.
From S2P Require Export Catalog Orgs.

#[local] Open Scope Z_scope.

(** An [f32], as its 32 bits. *)
Abbreviation f32 := Z (only parsing).

Definition f32_exponent (x : f32) : Z := Z.land (Z.shiftr x 23) 255.
(** [f32::is_finite] *)
Definition f32_is_finite (x : f32) : bool := negb (f32_exponent x =? 255).
Definition F32_ZERO : f32 := 0.

(** A row of [package_embedding], whose vector is kept as the text bound for
    it. *)
Record EmbeddingRow := mk_embedding {
  em_package_id : uuid;
  em_model : string;
  em_native_dimensions : Z;
  em_vector : string;
  em_content : string;
  em_content_sha256 : string;
}.
Abbreviation Embeddings := (list EmbeddingRow).

(** [f32]'s [Display], pgvector's distance (a [float8] that is not negative, as
    its bits, which are ordered like it), the text of a database error, and what
    other processes do to the table. *)
Class SemanticExternals := {
  f32_display : f32 → string;
  cosine_distance : string → string → Z;
  db_error_text : DbErr → string;
  others_embeddings : nat → Embeddings → Embeddings;
  (** the rows an approximate index scan visits *)
  index_scan : nat → Embeddings → Embeddings;
}.

(** ** Vectors *)

Definition VECTOR_DIM : Z := 2050.

Section vectors.
Context `{sem : SemanticExternals}.

Definition pad_to_dim (embedding : list f32) : result string (list f32) :=
  reject_if (bool_decide (embedding = [])) "embedding must be non-empty";;
  reject_if (VECTOR_DIM <? zlength embedding)
    ("embedding has " +:+ dec_of_Z (zlength embedding) +:+ " dims, which exceeds the " +:+ dec_of_Z VECTOR_DIM
     +:+ "-dim column");;
  match List.find (λ v, negb (f32_is_finite v)) embedding with
  | Some bad => Err ("embedding contains a non-finite value (" +:+ f32_display bad +:+ ")")
  | None => Ok (embedding ++ replicate (Z.to_nat (VECTOR_DIM - zlength embedding)) F32_ZERO)%list
  end.

Definition to_pgvector_literal (embedding : list f32) : string :=
  "[" +:+ join "," (map f32_display embedding) +:+ "]".
End vectors.

Definition model_byte (b : ascii) : bool :=
  is_ascii_alphanumeric b || (b =c ".") || (b =c "_") || (b =c ":") || (b =c "/") || (b =c "-").

Definition valid_model (model : string) : bool :=
  negb (is_empty model) && (slen model <=? 120) && sall model_byte model.

(** ** Statements

    The handlers run over the process's state and the embedding table. *)
Definition SM (E A : Type) : Type := World * Embeddings → result E A * (World * Embeddings).
#[export] Instance SM_ret E : MRet (SM E) := λ A a s, (Ok a, s).
#[export] Instance SM_bind E : MBind (SM E) := λ A B k m s,
  match m s with
  | (Ok a, s') => k a s'
  | (Err e, s') => (Err e, s')
  end.

Definition in_world {E A} (m : M E A) : SM E A := λ s, let '(r, w) := m s.1 in (r, (w, s.2)).
Definition pure {E A} (r : result E A) : SM E A := λ s, (r, s).
Definition sm_err {E F A} (f : E → F) (m : SM E A) : SM F A := λ s, let '(r, s') := m s in (map_err f r, s').

(** The i32 a length becomes. *)
Definition as_i32 (n : Z) : Z := (n + 2 ^ 31) mod 2 ^ 32 - 2 ^ 31.

(** [insert .. on conflict (package_id, embedding_model) do update]. *)
Fixpoint upsert_row (row : EmbeddingRow) (rows : Embeddings) : Embeddings :=
  match rows with
  | [] => [row]
  | r :: rows =>
      if (r.(em_package_id) =? row.(em_package_id))%N && (r.(em_model) =s row.(em_model)) then row :: rows
      else r :: upsert_row row rows
  end.

Record Neighbor := mk_neighbor { nb_package_id : uuid; nb_distance : Z }.

Section statements.
Context `{ext : Externals} `{sem : SemanticExternals}.

Definition on_embeddings {A} (f : nat → Embeddings → A * Embeddings) : SM DbErr A := λ s,
  let '(w, rows) := s in
  let rows := others_embeddings w.(tick) rows in
  match db_outcome w.(tick) with
  | NotDone => (Err DbOther, (bump w, rows))
  | oc => let '(a, rows') := f w.(tick) rows in (match oc with Done => Ok a | _ => Err DbOther end, (bump w, rows'))
  end.

(** The rows of a model by distance, among those the index scan visits. *)
Definition nearest (t : nat) (model literal : string) (limit : Z) (rows : Embeddings) : list Neighbor :=
  take (Z.to_nat limit)
    (order_by_asc nb_distance
       ((λ r, mk_neighbor r.(em_package_id) (cosine_distance r.(em_vector) literal)) <$>
        List.filter (λ r, r.(em_model) =s model) (index_scan t rows))).

Definition embeddings_upsert (package_id : uuid) (model : string) (embedding : list f32) (content : string)
    : SM string unit :=
  pure (reject_if (negb (valid_model model)) ("invalid embedding model name `" +:+ model +:+ "`"));;
  let native_dim := as_i32 (zlength embedding) in
  padded ← pure (pad_to_dim embedding);
  let literal := to_pgvector_literal padded in
  let sha := digest_hex content in
  sm_err db_error_text (on_embeddings (λ _ rows,
    (tt, upsert_row (mk_embedding package_id model native_dim literal content sha) rows))).

Definition embeddings_search (model : string) (query : list f32) (limit : Z) : SM string (list Neighbor) :=
  pure (reject_if (negb (valid_model model)) ("invalid embedding model name `" +:+ model +:+ "`"));;
  padded ← pure (pad_to_dim query);
  let literal := to_pgvector_literal padded in
  let limit := clamp 1 100 limit in
  sm_err db_error_text (on_embeddings (λ t rows, (nearest t model literal limit rows, rows))).
End statements.

(** ** Handlers *)

Record EmbeddingUpsertRequest := mk_upsert_request {
  eu_model : string;
  eu_embedding : list f32;
  eu_content : string;
}.

Record SemanticSearchRequest := mk_semantic_request {
  sq_model : string;
  sq_embedding : list f32;
  sq_tags : list string;
  sq_limit : Z;
}.

Record SemanticHit := mk_hit {
  sh_org : string;
  sh_name : string;
  sh_description : option string;
  sh_distance : Z;
  sh_tags : list string;
}.

Section handlers.
Context `{ext : Externals} `{web : WebExternals} `{reg : RegistryExternals} `{org : OrgExternals} `{sem : SemanticExternals}.

Definition require_pg : ApiResult unit :=
  reject_if (negb is_postgres)
    (bad_request "vector_unsupported" "embedding search requires a Postgres (pgvector) backend").

Definition upsert_embedding (org_slug name : string) (headers : HeaderMap) (request : EmbeddingUpsertRequest)
    : SM ApiErr json :=
  pure require_pg;;
  pkg ← in_world (
    token ← require_token headers;
    org_row ← find_org org_slug;
    lift (authorize_publish token.(tok_org_id) (RoleImpl.parse token.(tok_role)) org_row.(org_id));;
    pkg ← find_package org_row name;
    mret pkg);
  sm_err (bad_request "invalid_embedding")
    (embeddings_upsert pkg.(pkg_id) request.(eu_model) request.(eu_embedding) request.(eu_content));;
  mret (JObj [("org", JStr org_slug); ("name", JStr name); ("model", JStr request.(eu_model))]).

(** [find_by_id(..).find_also_related(org::Entity).one()] *)
Definition package_with_org (id : uuid) (d : Db) : option (PackageRow * option OrgRow) :=
  with_org d <$> List.find (λ p, (p.(pkg_id) =? id)%N) d.(packages).

(** What a neighbour contributes, given its package. *)
Definition hit_of (want_tags : list string) (n : Neighbor) (found : option (PackageRow * option OrgRow))
    : option SemanticHit :=
  match found with
  | Some (pkg, Some org_row) =>
      if has_all_tags (tags_of pkg) want_tags
      then Some (mk_hit org_row.(org_slug) pkg.(pkg_name) pkg.(pkg_description) n.(nb_distance) (tags_of pkg))
      else None
  | _ => None
  end.

(** The loop over the neighbours, with the room left on the page. *)
Fixpoint collect_hits (want_tags : list string) (room : nat) (neighbors : list Neighbor) : M ApiErr (list SemanticHit) :=
  match neighbors with
  | [] => mret []
  | n :: neighbors =>
      found ← db_q (on_db (read (package_with_org n.(nb_package_id))));
      match hit_of want_tags n found with
      | None => collect_hits want_tags room neighbors
      | Some hit =>
          match room with
          | S (S room) =>
              items ← collect_hits want_tags (S room) neighbors;
              mret (hit :: items)
          | _ => mret [hit]
          end
      end
  end.

Definition wanted (request : SemanticSearchRequest) : list string := parse_tag_filter (Some (join "," request.(sq_tags))).
Definition raw_limit (request : SemanticSearchRequest) : Z := clamp 1 100 request.(sq_limit).
Definition fetch (request : SemanticSearchRequest) : Z :=
  if bool_decide (wanted request = []) then raw_limit request else Z.min (raw_limit request * 4) 100.

Definition semantic_search (request : SemanticSearchRequest) : SM ApiErr (list SemanticHit) :=
  pure require_pg;;
  neighbors ← sm_err (bad_request "invalid_embedding")
    (embeddings_search request.(sq_model) request.(sq_embedding) (fetch request));
  in_world (collect_hits (wanted request) (Z.to_nat (raw_limit request)) neighbors).
End handlers.

(** ** Padding *)

(** The number an [f32] stands for, when finite. *)
Definition f32_value (x : f32) : Q :=
  let exponent := f32_exponent x in
  let fraction := Z.land x (2 ^ 23 - 1) in
  let magnitude :=
    if exponent =? 0 then (inject_Z fraction * Qpower 2 (-149))%Q
    else (inject_Z (fraction + 2 ^ 23) * Qpower 2 (exponent - 150))%Q in
  if Z.testbit x 31 then (- magnitude)%Q else magnitude.

(** The product every cosine is made of, the norms included. *)
Fixpoint dot (a b : list f32) : Q :=
  match a, b with
  | x :: a, y :: b => (f32_value x * f32_value y + dot a b)%Q
  | _, _ => 0%Q
  end.

Lemma dot_zeros n m : (dot (replicate n F32_ZERO) (replicate m F32_ZERO) == 0)%Q.
Proof.
  revert m. induction n as [|n IH]; intros [|m]; [reflexivity..|]. cbn [replicate dot]. rewrite IH. reflexivity.
Qed.

Lemma dot_pad a b n : length a = length b → (dot (a ++ replicate n F32_ZERO) (b ++ replicate n F32_ZERO) == dot a b)%Q.
Proof.
  revert b. induction a as [|x a IH]; intros [|y b] [=]; cbn [app dot]; [apply dot_zeros|].
  by rewrite IH.
Qed.

Section padding.
Context `{sem : SemanticExternals}.

Lemma find_None_forall {A} (f : A → bool) l : List.find f l = None → Forall (λ x, f x = false) l.
Proof. intros H. apply Forall_forall. intros x Hx. eapply find_none; [exact H|by apply list_elem_of_In]. Qed.

Lemma pad_to_dim_Ok e v :
  pad_to_dim e = Ok v ↔
  e ≠ [] ∧ zlength e ≤ VECTOR_DIM ∧ Forall (λ x, f32_is_finite x = true) e ∧
  v = (e ++ replicate (Z.to_nat (VECTOR_DIM - zlength e)) F32_ZERO)%list.
Proof.
  unfold pad_to_dim. destruct (bool_decide (e = [])) eqn:E1; cbn.
  { apply bool_decide_eq_true in E1. split; [done|]. by intros []. }
  apply bool_decide_eq_false in E1. destruct (VECTOR_DIM <? zlength e) eqn:E2; cbn; bool_to_prop.
  { split; [done|]. intros (_ & ? & _). lia. }
  destruct (List.find _ e) as [bad|] eqn:E3.
  - split; [done|]. intros (_ & _ & H & _). apply find_some in E3 as [Hin Hb]. rewrite Forall_forall in H.
    rewrite H in Hb; [done|by apply list_elem_of_In].
  - apply find_None_forall in E3. split.
    + intros [= <-]. split_and!; [done|done| |done]. eapply Forall_impl; [exact E3|]. cbn. intros x Hx. by bool_to_prop.
    + by intros (_ & _ & _ & ->).
Qed.

Lemma pad_to_dim_length e v : pad_to_dim e = Ok v → zlength v = VECTOR_DIM.
Proof.
  intros (_ & Hl & _ & ->)%pad_to_dim_Ok. unfold zlength in *. rewrite length_app, length_replicate.
  unfold VECTOR_DIM in *. lia.
Qed.

(** Padding changes no product of two embeddings of one width. *)
Lemma pad_to_dim_dot a b u v :
  length a = length b → pad_to_dim a = Ok u → pad_to_dim b = Ok v → (dot u v == dot a b)%Q.
Proof.
  intros Hl (_ & _ & _ & ->)%pad_to_dim_Ok (_ & _ & _ & ->)%pad_to_dim_Ok.
  unfold zlength. rewrite <- Hl. by apply dot_pad.
Qed.
End padding.

(** ** The table *)

Definition embedding_key (r : EmbeddingRow) : uuid * string := (r.(em_package_id), r.(em_model)).

(** The unique index stays satisfied, the row is there, and no other row changed. *)
Lemma upsert_row_spec row rows :
  NoDup (embedding_key <$> rows) →
  NoDup (embedding_key <$> upsert_row row rows) ∧
  ∀ r, r ∈ upsert_row row rows ↔ r = row ∨ (r ∈ rows ∧ embedding_key r ≠ embedding_key row).
Proof.
  assert (∀ r rest, r ∈ upsert_row row rest → r = row ∨ r ∈ rest) as Hsub.
  { intros r rest. induction rest as [|x rest IH]; cbn.
    - rewrite list_elem_of_singleton. by left.
    - destruct (_ && _); rewrite !elem_of_cons; naive_solver. }
  induction rows as [|x rows IH]; intros Hd; cbn.
  - split; [apply NoDup_singleton|]. intros r. rewrite list_elem_of_singleton. split; [by left|].
    intros [?|[[]%not_elem_of_nil _]]; done.
  - apply NoDup_cons in Hd as [Hx Hd]. specialize (IH Hd) as [IHd IHe].
    destruct ((em_package_id x =? em_package_id row)%N && (em_model x =s em_model row)) eqn:E.
    + apply andb_true_iff in E as [E1%N.eqb_eq E2%String.eqb_eq].
      assert (embedding_key x = embedding_key row) as Ek by (unfold embedding_key; congruence).
      cbn. split; [apply NoDup_cons; rewrite <- Ek; by split|]. intros r. rewrite !elem_of_cons.
      split; [|by intros [->|[[->|?] ?]]; [left|done|right]]. intros [->|Hr]; [by left|]. right. split; [by right|]. intros Er. apply Hx. rewrite Ek, <- Er.
      by apply list_elem_of_fmap_2.
    + assert (embedding_key x ≠ embedding_key row) as Ek.
      { unfold embedding_key. intros [= E1 E2]. by rewrite E1, E2, N.eqb_refl, String.eqb_refl in E. }
      cbn. split.
      * apply NoDup_cons. split; [|done]. intros Hin. apply list_elem_of_fmap in Hin as (y & Hy & Hin).
        apply Hsub in Hin as [->|Hin]; [by apply Ek|]. apply Hx. rewrite Hy. by apply list_elem_of_fmap_2.
      * intros r. rewrite !elem_of_cons, IHe. split.
        -- intros [->|[->|[? ?]]]; [by right; split; [left|]|by left|by right; split; [right|]].
        -- intros [->|[[->|?] ?]]; [by right; left|by left|by right; right].
Qed.

(** ** What the handlers do *)

Section handled.
Context `{ext : Externals} `{web : WebExternals} `{reg : RegistryExternals} `{org : OrgExternals} `{sem : SemanticExternals}.

Lemma sm_bind_inv {E A B} (m : SM E A) (k : A → SM E B) s r s' :
  mbind k m s = (r, s') → (∃ e, m s = (Err e, s') ∧ r = Err e) ∨ (∃ a s1, m s = (Ok a, s1) ∧ k a s1 = (r, s')).
Proof. unfold mbind, SM_bind. destruct (m s) as [[a|e] s1] eqn:Em; [eauto|]. intros [= <- <-]. eauto. Qed.

Lemma sm_err_inv {E F A} (f : E → F) (m : SM E A) s r s' : sm_err f m s = (r, s') → ∃ x, m s = (x, s') ∧ r = map_err f x.
Proof. unfold sm_err. destruct (m s) as [x s1]. intros [= <- <-]. eauto. Qed.

Lemma in_world_inv {E A} (m : M E A) w t r s' : in_world m (w, t) = (r, s') → ∃ w', s' = (w', t) ∧ m w = (r, w').
Proof. unfold in_world. cbn. destruct (m w) as [x w']. intros [= <- <-]. eauto. Qed.

Lemma pure_inv {E A} (x : result E A) s r s' : pure x s = (r, s') → r = x ∧ s' = s.
Proof. by intros [= <- <-]. Qed.

Lemma bump_sees w : sees w (bump w).
Proof. by repeat split. Qed.

(** One statement on the table: it ran on what the others left, or nothing did. *)
Lemma on_embeddings_inv {A} (f : nat → Embeddings → A * Embeddings) w rows r s' :
  on_embeddings f (w, rows) = (r, s') →
  let rows' := others_embeddings (tick w) rows in
  (s' = (bump w, rows') ∧ r = Err DbOther) ∨
  (s' = (bump w, (f (tick w) rows').2) ∧ (r = Ok (f (tick w) rows').1 ∨ r = Err DbOther)).
Proof.
  unfold on_embeddings. cbn zeta. destruct (db_outcome (tick w)).
  - destruct (f _ _) as [a t]. intros [= <- <-]. right. auto.
  - intros [= <- <-]. by left.
  - destruct (f _ _) as [a t]. intros [= <- <-]. right. auto.
Qed.

Ltac SM_step H :=
  let e := fresh "e" in let a := fresh "a" in let s1 := fresh "s" in
  let R := fresh "R" in let Hr := fresh "Hr" in
  apply sm_bind_inv in H as [(e & R & Hr)|(a & s1 & R & H)]; [first [discriminate Hr|subst]|].

(** The upsert: an error leaves the table alone, unless the answer to the
    statement was lost. *)
Lemma embeddings_upsert_run package_id model embedding content w rows r s' :
  embeddings_upsert package_id model embedding content (w, rows) = (r, s') →
  sees w s'.1 ∧
  ((∃ e, r = Err e) ∧ (s'.2 = rows ∨ ∃ tk, s'.2 = others_embeddings tk rows) ∨
   valid_model model = true ∧ ∃ padded tk, pad_to_dim embedding = Ok padded ∧
     s'.2 = upsert_row (mk_embedding package_id model (zlength embedding) (to_pgvector_literal padded) content
       (digest_hex content)) (others_embeddings tk rows)).
Proof.
  intros H. unfold embeddings_upsert in H.
  SM_step H. { apply pure_inv in R as [_ ->]. split; [done|]. left. eauto. }
  apply pure_inv in R as [Hv ->]. destruct (valid_model model); [|done].
  SM_step H. { apply pure_inv in R as [_ ->]. split; [done|]. left. eauto. }
  apply pure_inv in R as [Hp ->]. symmetry in Hp.
  apply sm_err_inv in H as (x & H & ->). apply on_embeddings_inv in H as [[-> ->]|[-> Hx]]; cbn.
  - split; [apply bump_sees|]. left. split; [by eexists|by right; eexists].
  - split; [apply bump_sees|]. right. split; [done|]. exists a0, (tick w). split; [done|].
    apply pad_to_dim_Ok in Hp as (_ & Hl & _). unfold as_i32, VECTOR_DIM in *.
    rewrite Z.mod_small by (unfold zlength in *; lia).
    by replace (zlength embedding + 2 ^ 31 - 2 ^ 31) with (zlength embedding) by lia.
Qed.

(** An embedding is written only with authority over the package, for a valid
    model and a finite vector of at most 2050 entries, padded to the column's
    width; it replaces what the package had for the model and touches nothing
    else. Any other request fails and writes nothing. *)
Theorem upsert_embedding_spec org_slug name headers request w rows r w' rows' :
  upsert_embedding org_slug name headers request (w, rows) = (r, (w', rows')) →
  sees w w' ∧
  ((∃ e, r = Err e) ∧ (rows' = rows ∨ ∃ tk, rows' = others_embeddings tk rows) ∨
   ∃ token o pkg padded tk,
     is_postgres = true ∧ may_change (db w) headers org_slug name token o pkg ∧
     valid_model request.(eu_model) = true ∧ pad_to_dim request.(eu_embedding) = Ok padded ∧
     rows' = upsert_row (mk_embedding pkg.(pkg_id) request.(eu_model) (zlength request.(eu_embedding))
       (to_pgvector_literal padded) request.(eu_content) (digest_hex request.(eu_content))) (others_embeddings tk rows)).
Proof.
  intros H. unfold upsert_embedding in H.
  SM_step H. { apply pure_inv in R as [_ [= -> ->]]. split; [done|]. left. eauto. }
  apply pure_inv in R as [Hg ->]. unfold require_pg in Hg. destruct is_postgres eqn:Hpg; [|done].
  SM_step H; apply in_world_inv in R as (w1 & Hs & R); apply authority_sees in R as [[S [e' He]]|(token & o & pkg & w2 & S & Hm & R)].
  { injection Hs as -> ->. split; [done|]. left. eauto. }
  { apply mret_inv in R as [[=] _]. }
  { done. }
  apply mret_inv in R as [[= ->] ->]. subst.
  SM_step H.
  - apply sm_err_inv in R as (x & R & Hx). apply embeddings_upsert_run in R as [S2 [[_ Hr]|(Hv & padded & tk & Hp & Ht)]];
      cbn in *; (split; [by etrans|]); [left; split; [by eexists|done]|right].
    by exists token, o, pkg, padded, tk.
  - injection H as <- ->. apply sm_err_inv in R as (x & R & Hx).
    apply embeddings_upsert_run in R as [S2 [[[e ->] _]|(Hv & padded & tk & Hp & Ht)]]; [done|].
    cbn in *; (split; [by etrans|]); right. by exists token, o, pkg, padded, tk.
Qed.

(** *** Search *)

(** The loop visits neighbours in order until the page is full: each was looked
    up at some moment and contributed what [hit_of] says. *)
Definition visited (d : Db) (want : list string) (neighbors : list Neighbor) (room : nat) (hits : list SemanticHit) : Prop :=
  ∃ seen_ rest outcomes, neighbors = (seen_ ++ rest)%list ∧
    Forall2 (λ n o, seen d (λ d, o = hit_of want n (package_with_org n.(nb_package_id) d))) seen_ outcomes ∧
    hits = omap id outcomes ∧ (length hits ≤ room)%nat ∧ (rest = [] ∨ length hits = room).

Lemma visited_step d d' want n ns room hits o :
  background d d' → o = hit_of want n (package_with_org n.(nb_package_id) d') →
  visited d' want ns room hits →
  visited d want (n :: ns) (match o with Some _ => S room | None => room end) (match o with Some h => h :: hits | None => hits end).
Proof.
  intros B Ho (v & rest & os & -> & Hos & -> & Hl & Hr). exists (n :: v), rest, (o :: os). split; [done|]. split.
  - constructor; [by eapply seen_now|]. eapply Forall2_impl; [exact Hos|]. intros x y Hs. by eapply seen_mono.
  - destruct o as [h|]; cbn; split_and!; try done; [lia|destruct Hr; [by left|right; lia]].
Qed.

Lemma collect_hits_run want room ns w r w' :
  (0 < room)%nat → collect_hits want room ns w = (r, w') →
  sees w w' ∧ ∀ hits, r = Ok hits → visited (db w) want ns room hits.
Proof.
  revert room w r w'. induction ns as [|n ns IH]; intros room w r w' Hroom H; cbn [collect_hits] in H.
  { apply mret_inv in H as [-> ->]. split; [done|]. intros hits [= <-].
    exists [], [], []. split_and!; [done|constructor|done|cbn; lia|by left]. }
  M_step H; apply sees_db_q in R as [S1 Hr]; [done|]. destruct Hr as [[= ->]|]; [|done].
  destruct (hit_of want n _) as [hit|] eqn:Eh.
  - destruct room as [|[|room]]; [lia| |].
    + apply mret_inv in H as [-> ->]. split; [done|]. intros hits [= <-].
      exists [n], ns, [Some hit]. split_and!; [done| |done|done|by right].
      constructor; [|constructor]. eapply seen_now; [apply S1|done].
    + M_step H; apply IH in R as [S2 Hi]; [split; [by etrans|done]|lia| |lia].
      apply mret_inv in H as [-> ->]. split; [by etrans|]. intros hits [= <-].
      eapply (visited_step _ (db w0) _ _ _ _ _ (Some hit)); [apply S1|done|by apply Hi].
  - apply IH in H as [S2 Hi]; [|done]. split; [by etrans|]. intros hits Hhits.
    eapply (visited_step _ (db w0) _ _ _ _ _ None); [apply S1|done|by apply Hi].
Qed.

Definition by_distance (l : list Neighbor) : Prop := StronglySorted (λ a b, nb_distance a ≤ nb_distance b) l.

Lemma insert_asc_sorted x l : by_distance l → by_distance (insert_asc nb_distance x l).
Proof.
  induction 1 as [|y l Hl IH Hy]; cbn; [by repeat constructor|].
  destruct (nb_distance x <=? nb_distance y) eqn:E; bool_to_prop.
  - constructor; [by constructor|]. constructor; [done|]. eapply Forall_impl; [exact Hy|]. cbn. lia.
  - constructor; [done|]. rewrite insert_asc_perm. constructor; [lia|done].
Qed.

Lemma order_by_distance l : by_distance (order_by_asc nb_distance l).
Proof. induction l as [|x l IH]; [constructor|]. cbn. by apply insert_asc_sorted. Qed.

Lemma take_sorted n l : by_distance l → by_distance (take n l).
Proof.
  intros H. revert n. induction H as [|x l Hl IH Hx]; intros [|n]; cbn; try constructor; [by apply IH|].
  by apply Forall_take.
Qed.

(** A row of the table, as the neighbour of a query. *)
Definition neighbour_row (model literal : string) (rows : Embeddings) (n : Neighbor) : Prop :=
  ∃ row, row ∈ rows ∧ row.(em_model) = model ∧ n = mk_neighbor row.(em_package_id) (cosine_distance row.(em_vector) literal).

Lemma nearest_spec t model literal limit rows :
  (∀ l, index_scan t l ⊆ l) →
  by_distance (nearest t model literal limit rows) ∧
  (length (nearest t model literal limit rows) ≤ Z.to_nat limit)%nat ∧
  Forall (neighbour_row model literal rows) (nearest t model literal limit rows).
Proof.
  intros Hscan. unfold nearest. split_and!.
  - apply take_sorted, order_by_distance.
  - rewrite length_take. lia.
  - apply Forall_take. rewrite order_by_asc_perm. apply Forall_fmap, Forall_forall. intros row Hin.
    apply list_elem_of_In, filter_In in Hin as [Hin Hm]. apply list_elem_of_In, Hscan in Hin. bool_to_prop.
    exists row. by split_and!.
Qed.

Lemma hits_tagged d want ns room hits : visited d want ns room hits → Forall (λ h, ∀ tag, tag ∈ want → tag ∈ sh_tags h) hits.
Proof.
  intros (v & rest & os & _ & Hos & -> & _). induction Hos as [|n o v os (d' & _ & Ho) _ IH]; [constructor|].
  destruct o as [h|]; cbn; [|done]. constructor; [|done]. unfold hit_of in Ho.
  destruct (package_with_org _ d') as [[pkg [o|]]|]; try done. destruct (has_all_tags _ want) eqn:Et; [|done].
  injection Ho as ->. cbn. by apply has_all_tags_spec.
Qed.

Lemma hits_sorted d want ns room hits :
  by_distance ns → visited d want ns room hits → StronglySorted (λ a b, sh_distance a ≤ sh_distance b) hits.
Proof.
  intros Hs (v & rest & os & -> & Hos & -> & _).
  assert (∀ n o, seen d (λ d, o = hit_of want n (package_with_org n.(nb_package_id) d)) →
    ∀ h, o = Some h → sh_distance h = nb_distance n) as Hd.
  { intros n o (d' & _ & Ho) h ->. unfold hit_of in Ho. destruct (package_with_org _ d') as [[pkg [og|]]|]; try done.
    destruct (has_all_tags _ want); [|done]. by injection Ho as ->. }
  assert (by_distance v) as Hv.
  { clear - Hs. unfold by_distance in *. induction v as [|x v IH]; [constructor|]. cbn in Hs.
    apply StronglySorted_inv in Hs as [Hs Hx]. constructor; [by apply IH|]. by apply Forall_app in Hx as [Hx _]. }
  clear Hs. induction Hos as [|n o v os Ho Hos IH]; [constructor|]. apply StronglySorted_inv in Hv as [Hv Hn].
  specialize (IH Hv). destruct o as [h|]; cbn; [|done]. constructor; [done|].
  clear IH Hv. induction Hos as [|n' o' v os Ho' _ IH]; [constructor|]. apply Forall_cons_1 in Hn as [Hn' Hn].
  destruct o' as [h'|]; cbn; [|by apply IH]. constructor; [|by apply IH].
  rewrite (Hd _ _ Ho h eq_refl), (Hd _ _ Ho' h' eq_refl). done.
Qed.

(** C27: Semantic search answers with packages of one model's space, by
    nondecreasing distance to the padded query, every one with all the wanted
    tags, at most the limit clamped to a hundred; the neighbours are visited in
    order, each judged by what the registry held for it, and none of those
    fetched is left unvisited unless the page is full. Nothing is written. *)
Theorem semantic_search_spec request w rows hits w' rows' :
  (∀ t l, index_scan t l ⊆ l) →
  semantic_search request (w, rows) = (Ok hits, (w', rows')) →
  sees w w' ∧ rows' = others_embeddings (tick w) rows ∧
  (length hits ≤ Z.to_nat (raw_limit request))%nat ∧ raw_limit request ≤ 100 ∧
  StronglySorted (λ a b, sh_distance a ≤ sh_distance b) hits ∧
  Forall (λ h, ∀ tag, tag ∈ wanted request → tag ∈ sh_tags h) hits ∧
  ∃ padded neighbors,
    valid_model request.(sq_model) = true ∧ pad_to_dim request.(sq_embedding) = Ok padded ∧
    Forall (neighbour_row request.(sq_model) (to_pgvector_literal padded) rows') neighbors ∧
    (length neighbors ≤ Z.to_nat (fetch request))%nat ∧
    visited (db w) (wanted request) neighbors (Z.to_nat (raw_limit request)) hits.
Proof.
  intros Hscan H. unfold semantic_search in H. do 2 SM_step H.
  apply pure_inv in R as [_ ->]. apply sm_err_inv in R0 as ([neighbors|] & R & [= ->]).
  unfold embeddings_search in R. do 2 SM_step R. apply pure_inv in R0 as [Hv ->], R1 as [Hp ->].
  destruct (valid_model _) eqn:Em; [|done]. symmetry in Hp.
  apply sm_err_inv in R as ([ns|] & R & [= ->]). apply on_embeddings_inv in R as [[_ [=]]|[-> [[= ->]|[=]]]].
  apply in_world_inv in H as (w1 & [= -> ->] & H). cbn in *.
  assert (1 ≤ raw_limit request ≤ 100) as Hl by (unfold raw_limit, clamp; lia).
  assert (1 ≤ fetch request ≤ 100) as Hf by (unfold fetch; destruct (bool_decide _); lia).
  apply collect_hits_run in H as [S Hc]; [|lia]. specialize (Hc _ eq_refl).
  set (rows1 := others_embeddings (tick w) rows) in *.
  set (ns := nearest _ _ _ _ _) in *.
  destruct (nearest_spec (tick w) (sq_model request) (to_pgvector_literal a1) (clamp 1 100 (fetch request)) rows1 (Hscan _))
    as (Hs & Hn & Hr). fold ns in Hs, Hn, Hr.
  split; [etrans; [apply bump_sees|done]|]. split; [done|]. split; [by destruct Hc as (? & ? & ? & _ & _ & _ & ? & _)|].
  split; [lia|]. split; [by eapply hits_sorted|]. split; [by eapply hits_tagged|].
  exists a1, ns. split_and!; try done. replace (fetch request) with (clamp 1 100 (fetch request)); [done|].
  unfold clamp. lia.
Qed.
End handled.
