(* ===== verification/EdgeFallback.v ===== *)
(** * Edge fallback capabilities ([src/edge_fallback.rs])

    When the registry is down, a private package may be read from its GitHub
    repository under a capability that lives briefly: who may ask for one, what
    it grants, and how it is refused. *)

From S2P Require Export Verify Auth.

Inductive EdgeCapabilityIssueError : Type :=
| PublicPackage
| UnsupportedVisibility
| ReadDenied
| UnsupportedRepository
| InvalidCapability (message : string)
| InvalidLifetime.

(** [fmt] *)
Definition issue_error_text (e : EdgeCapabilityIssueError) : string :=
  match e with
  | PublicPackage => "public packages use anonymous fallback and do not need a capability"
  | UnsupportedVisibility => "unsupported package visibility"
  | ReadDenied => "caller is not authorized to read the package"
  | UnsupportedRepository => "package repository is not an approved GitHub source"
  | InvalidCapability message => "edge fallback capability is invalid: " +:+ message
  | InvalidLifetime => "capability lifetime is invalid"
  end.

Abbreviation IssueResult := (result EdgeCapabilityIssueError).

Record EdgeCapabilityPrincipal := mk_principal {
  ep_subject : string;
  ep_session_id : string;
  ep_parent_jti : string;
}.

(** The interface crate's grant, with its only operation, reading. *)
Record EdgeFallbackGrant := mk_grant {
  gr_package : string;
  gr_credential_ref : string;
  gr_resource : string;
}.

Record EdgeFallbackCapability := mk_capability {
  zed_edge_capability : Z;
  cap_iss : string;
  cap_aud : string;
  cap_sub : string;
  cap_sid : string;
  cap_parent_jti : string;
  cap_iat : Z;
  cap_nbf : Z;
  cap_exp : Z;
  cap_jti : string;
  cap_grants : list EdgeFallbackGrant;
}.

(** The interface crate's constants and its validation. *)
Class EdgeExternals := {
  EDGE_FALLBACK_AUDIENCE_V2 : string;
  EDGE_FALLBACK_CAPABILITY_VERSION_V2 : Z;
  EDGE_FALLBACK_MAX_TTL_SECONDS_V2 : Z;
  capability_validate : EdgeFallbackCapability → result string unit;
}.

Definition principal_of `{ext : Externals} (identity : PackageReaderIdentity) : EdgeCapabilityPrincipal :=
  mk_principal (uuid_display identity.(reader_session).(subject)) identity.(reader_session_id)
    identity.(reader_parent_jti).

Definition has_membership (role : option string) : bool :=
  match role with
  | Some value =>
      let value := trim value in
      negb (is_empty value) && (slen value <=? 64) && negb (has_control value)
  | None => false
  end.

Definition authorize_private_package_read (visibility : string) (org_role project_role : option string)
    : IssueResult unit :=
  reject_if (visibility =s "public") PublicPackage;;
  reject_if (negb (visibility =s "private")) UnsupportedVisibility;;
  if has_membership org_role || has_membership project_role then Ok tt else Err ReadDenied.

Definition canonical_github_resource (repo_url : string) : option string :=
  let trimmed := trim repo_url in
  if negb (starts_with "https://github.com/" trimmed || starts_with "git@github.com:" trimmed) then None
  else
    '(owner, repo) ← parse_github trimmed;
    Some (owner +:+ "/" +:+ repo).

Definition github_grant_for_package (package repo_url : string) : IssueResult EdgeFallbackGrant :=
  resource ← ok_or UnsupportedRepository (canonical_github_resource repo_url);
  Ok (mk_grant package ("github-app:repo:" +:+ resource) resource).

Definition checked_add_u64 (a b : Z) : option Z := if u64_max <? a + b then None else Some (a + b).

Definition build_github_capability_v2 `{edge : EdgeExternals} (issuer : string) (principal : EdgeCapabilityPrincipal)
    (package repo_url : string) (issued_at ttl_seconds : Z) (capability_id : string)
    : IssueResult EdgeFallbackCapability :=
  reject_if ((ttl_seconds =? 0) || (EDGE_FALLBACK_MAX_TTL_SECONDS_V2 <? ttl_seconds)) InvalidLifetime;;
  expires_at ← ok_or InvalidLifetime (checked_add_u64 issued_at ttl_seconds);
  grant ← github_grant_for_package package repo_url;
  let capability := {|
    zed_edge_capability := EDGE_FALLBACK_CAPABILITY_VERSION_V2;
    cap_iss := issuer;
    cap_aud := EDGE_FALLBACK_AUDIENCE_V2;
    cap_sub := principal.(ep_subject);
    cap_sid := principal.(ep_session_id);
    cap_parent_jti := principal.(ep_parent_jti);
    cap_iat := issued_at;
    cap_nbf := issued_at;
    cap_exp := expires_at;
    cap_jti := capability_id;
    cap_grants := [grant] |} in
  map_err InvalidCapability (capability_validate capability);;
  Ok capability.

(** ** Who may ask *)

Lemma authorize_private_cases visibility org_role project_role :
  authorize_private_package_read visibility org_role project_role =
  if decide (visibility = "public") then Err PublicPackage
  else if decide (visibility = "private") then
    if has_membership org_role || has_membership project_role then Ok tt else Err ReadDenied
  else Err UnsupportedVisibility.
Proof.
  unfold authorize_private_package_read.
  destruct (String.eqb_spec visibility "public"), (decide (visibility = "public")); try done; cbn.
  by destruct (String.eqb_spec visibility "private"), (decide (visibility = "private")).
Qed.

(** ** What a capability grants *)

(** [parse_github] of an address of one of the two approved forms names the
    repository of the address. *)
Definition approved_source (repo_url owner repo : string) : Prop :=
  ∃ prefix rest, prefix ∈ ["https://github.com/"; "git@github.com:"] ∧ trim repo_url = prefix +:+ rest ∧
    parse_github (trim repo_url) = Some (owner, repo) ∧ repo_segment owner ∧ repo_segment repo.

Lemma canonical_github_resource_spec repo_url resource :
  canonical_github_resource repo_url = Some resource ↔
  ∃ owner repo, approved_source repo_url owner repo ∧ resource = owner +:+ "/" +:+ repo.
Proof.
  unfold canonical_github_resource, approved_source. set (t := trim repo_url).
  assert (∀ p, starts_with p t = true ↔ ∃ rest, t = p +:+ rest) as Hp.
  { intros p. unfold starts_with. destruct (strip_prefix p t) as [r|] eqn:E.
    - apply strip_prefix_Some in E. split; [by eauto|done].
    - split; [done|]. intros [r Hr]. apply strip_prefix_Some in Hr. congruence. }
  destruct (starts_with "https://github.com/" t || starts_with "git@github.com:" t) eqn:E; cbn [negb].
  - destruct (parse_github t) as [[owner repo]|] eqn:Eg; cbn.
    + split.
      * intros [= <-]. exists owner, repo. split; [|done].
        destruct (parse_github_sound _ _ _ Eg). apply orb_true_iff in E as [E|E]; apply Hp in E as [rest Hr];
          [exists "https://github.com/", rest|exists "git@github.com:", rest]; split_and!; try done; set_solver.
      * intros (o & r & (_ & _ & _ & _ & [= <- <-] & _) & ->). done.
    + split; [done|]. by intros (o & r & (_ & _ & _ & _ & [=] & _) & _).
  - split; [done|]. intros (o & r & (p & rest & Hin & Ht & _) & _). exfalso.
    apply orb_false_iff in E as [E1 E2]. apply list_elem_of_In in Hin.
    destruct Hin as [<-|[<-|[]]]; [apply not_true_iff_false in E1; apply E1|apply not_true_iff_false in E2; apply E2];
      apply Hp; by exists rest.
Qed.

Section issue.
Context `{edge : EdgeExternals}.

(** The capability of a principal for a repository, for so many seconds. *)
Definition issued (issuer : string) (principal : EdgeCapabilityPrincipal) (package owner repo : string)
    (issued_at ttl_seconds : Z) (capability_id : string) : EdgeFallbackCapability :=
  let resource := owner +:+ "/" +:+ repo in
  mk_capability EDGE_FALLBACK_CAPABILITY_VERSION_V2 issuer EDGE_FALLBACK_AUDIENCE_V2 principal.(ep_subject)
    principal.(ep_session_id) principal.(ep_parent_jti) issued_at issued_at (issued_at + ttl_seconds) capability_id
    [mk_grant package ("github-app:repo:" +:+ resource) resource].

Definition lifetime_ok (issued_at ttl_seconds : Z) : Prop :=
  ttl_seconds ≠ 0 ∧ ttl_seconds ≤ EDGE_FALLBACK_MAX_TTL_SECONDS_V2 ∧ issued_at + ttl_seconds ≤ u64_max.

(** C15: Issuing a capability has exactly four ends, in this order: the lifetime
    is refused when it is zero, over the maximum or past the last second of a
    u64; the repository when its address does not name one on GitHub over HTTPS
    or SSH; the capability when the shared contract rejects it; and otherwise it
    is issued, for the principal's own session, valid from now for exactly the
    lifetime, with the one grant to read the package's own repository under the
    credential of that repository. *)
Theorem capability_issue_spec issuer principal package repo_url issued_at ttl_seconds capability_id :
  match build_github_capability_v2 issuer principal package repo_url issued_at ttl_seconds capability_id with
  | Ok c => lifetime_ok issued_at ttl_seconds ∧ ∃ owner repo, approved_source repo_url owner repo ∧
      c = issued issuer principal package owner repo issued_at ttl_seconds capability_id ∧ capability_validate c = Ok tt
  | Err InvalidLifetime => ¬ lifetime_ok issued_at ttl_seconds
  | Err UnsupportedRepository => lifetime_ok issued_at ttl_seconds ∧ ∀ owner repo, ¬ approved_source repo_url owner repo
  | Err (InvalidCapability message) => lifetime_ok issued_at ttl_seconds ∧ ∃ owner repo,
      approved_source repo_url owner repo ∧
      capability_validate (issued issuer principal package owner repo issued_at ttl_seconds capability_id) = Err message
  | Err _ => False
  end.
Proof.
  unfold build_github_capability_v2, lifetime_ok.
  destruct (_ || _) eqn:E; cbn.
  { apply orb_true_iff in E as [E|E]; bool_to_prop; lia. }
  bool_to_prop. unfold checked_add_u64. destruct (u64_max <? _) eqn:Ea; cbn; bool_to_prop; [lia|].
  unfold github_grant_for_package. destruct (canonical_github_resource repo_url) as [resource|] eqn:Er; cbn.
  - apply canonical_github_resource_spec in Er as (owner & repo & Ha & ->).
    destruct (capability_validate _) as [[]|message] eqn:Ev; cbn; (split; [lia|]); exists owner, repo; by split_and!.
  - split; [lia|]. intros owner repo Ha.
    assert (canonical_github_resource repo_url = Some (owner +:+ "/" +:+ repo)); [|congruence].
    apply canonical_github_resource_spec. by exists owner, repo.
Qed.
End issue.

(** Only a member of the organization or the project of a private package may
    ask for one. *)
Lemma authorize_private_package_read_Ok visibility org_role project_role :
  authorize_private_package_read visibility org_role project_role = Ok tt ↔
  visibility = "private" ∧ (has_membership org_role = true ∨ has_membership project_role = true).
Proof.
  rewrite authorize_private_cases. destruct (decide (visibility = "public")) as [->|]; [by split; [|intros [? _]]|].
  destruct (decide (visibility = "private")) as [->|]; [|by split; [|intros [? _]]].
  destruct (has_membership org_role), (has_membership project_role); cbn; naive_solver.
Qed.

Example public_needs_no_capability : authorize_private_package_read "public" (Some "owner") None = Err PublicPackage.
Proof. reflexivity. Qed.
Example blank_role_is_none : has_membership (Some "  ") = false.
Proof. reflexivity. Qed.
