(* ===== verification/Clippy.v ===== *)
(** * The lint comparator ([src/bin/ci-differential-clippy.rs])

    The CI gate that lets a change in when it brings no compiler warning the base
    does not have: fingerprints, counts, the comparison and the exit code. The
    text it prints is not modelled. *)

From S2P Require Export World.

Record Fingerprint := mk_fingerprint { fp_code : string; fp_file : string; fp_message : string }.
#[export] Instance fingerprint_eq_dec : EqDecision Fingerprint.
Proof. solve_decision. Defined.
#[export] Instance fingerprint_countable : Countable Fingerprint.
Proof.
  apply (inj_countable' (λ f, (f.(fp_code), f.(fp_file), f.(fp_message))) (λ t, mk_fingerprint t.1.1 t.1.2 t.2)).
  by intros [].
Defined.

(** An error of reading keeps its text. *)
Inductive ComparatorError : Type :=
| Usage (message : string)
| Io (error : string)
| Json (error : string)
| InvalidEvent (message : string).

Definition comparator_error_text (e : ComparatorError) : string :=
  match e with
  | Usage message => message
  | Io error => "I/O error: " +:+ error
  | Json error => "invalid Cargo JSON: " +:+ error
  | InvalidEvent message => "invalid compiler event: " +:+ message
  end.

Abbreviation ComparatorResult := (result ComparatorError).

(** ** JSON events *)

(** [Value::get], [as_str], [as_bool], [as_array] *)
Definition vget (v : json) (key : string) : option json :=
  match v with JObj m => jget m key | _ => None end.
Definition vstr (v : json) : option string := match v with JStr s => Some s | _ => None end.
Definition vbool (v : json) : option bool := match v with JBool b => Some b | _ => None end.
Definition varray (v : json) : option (list json) := match v with JArr l => Some l | _ => None end.

Definition span_file (span : json) : option string := f ← vget span "file_name"; vstr f.
Definition is_primary (span : json) : bool := default false (b ← vget span "is_primary"; vbool b).

Definition primary_file (diagnostic : json) : string :=
  let spans := s ← vget diagnostic "spans"; varray s in
  let primary := values ← spans; List.find (λ span, is_primary span && is_some (span_file span)) values in
  let fallback := values ← spans; List.find (λ span, is_some (span_file span)) values in
  default "<unknown>" (span ← match primary with Some p => Some p | None => fallback end; span_file span).

Definition warning_fingerprint (event : json) : ComparatorResult (option (Fingerprint * string)) :=
  if negb (bool_decide ((r ← vget event "reason"; vstr r) = Some "compiler-message")) then Ok None
  else
    diagnostic ← ok_or (InvalidEvent "missing message object") (vget event "message");
    if negb (bool_decide ((l ← vget diagnostic "level"; vstr l) = Some "warning")) then Ok None
    else
      let code := default "<no-code>" (c ← vget diagnostic "code"; c ← vget c "code"; vstr c) in
      let message := default "<missing-message>" (m ← vget diagnostic "message"; vstr m) in
      let rendered := trim_end (default "" (r ← vget diagnostic "rendered"; vstr r)) in
      Ok (Some (mk_fingerprint code (primary_file diagnostic) message, rendered)).

(** ** Reading *)

(** [serde_json::from_str] of a line, and [Path::display]. *)
Class ClippyExternals := { from_str : string → result string json }.

Abbreviation WarningCounts := (gmap Fingerprint Z).
Abbreviation WarningExamples := (gmap Fingerprint string).

Definition saturating_succ (n : Z) : Z := Z.min u64_max (n + 1).

(** [counts.entry(..).or_insert(0)], then the saturating addition. *)
Definition count_warning (fingerprint : Fingerprint) (counts : WarningCounts) : WarningCounts :=
  <[fingerprint := saturating_succ (default 0 (counts !! fingerprint))]> counts.

Definition keep_example (fingerprint : Fingerprint) (rendered : string) (examples : WarningExamples) : WarningExamples :=
  if is_empty rendered then examples
  else match examples !! fingerprint with
       | Some _ => examples
       | None => <[fingerprint := rendered]> examples
       end.

(** The lines of a file, each read or failed. *)
Abbreviation Lines := (list (result string string)).

Section comparator.
Context `{clp : ClippyExternals}.

Fixpoint fold_warnings (path : string) (offset : Z) (lines : Lines) (counts : WarningCounts) (examples : WarningExamples)
    : ComparatorResult (WarningCounts * WarningExamples) :=
  match lines with
  | [] => Ok (counts, examples)
  | line :: lines =>
      line ← map_err Io line;
      if is_empty (trim line) then fold_warnings path (offset + 1) lines counts examples
      else
        event ← map_err (λ error, InvalidEvent (path +:+ ":" +:+ dec_of_Z (offset + 1) +:+ ": " +:+ error)) (from_str line);
        found ← warning_fingerprint event;
        match found with
        | None => fold_warnings path (offset + 1) lines counts examples
        | Some (fingerprint, rendered) =>
            fold_warnings path (offset + 1) lines (count_warning fingerprint counts)
              (keep_example fingerprint rendered examples)
        end
  end.

(** A file opens, or does not. *)
Abbreviation FileSystem := (string → result string Lines).

Definition read_warnings (files : FileSystem) (path : string) : ComparatorResult (WarningCounts * WarningExamples) :=
  lines ← map_err Io (files path);
  fold_warnings path 0 lines ∅ ∅.

(** [saturating_sub], dropping zeros. *)
Definition regressions (base head : WarningCounts) : gmap Fingerprint Z :=
  map_imap (λ fingerprint head_count,
    let delta := Z.max 0 (head_count - default 0 (base !! fingerprint)) in
    if delta =? 0 then None else Some delta) head.

Definition compare (files : FileSystem) (base_path head_path : string) : ComparatorResult bool :=
  '(base, _) ← read_warnings files base_path;
  '(head, examples) ← read_warnings files head_path;
  Ok (bool_decide (regressions base head = ∅)).

Definition parse_args (args : list string) : ComparatorResult (string * string) :=
  match args with
  | [base_flag; base; head_flag; head] =>
      if (base_flag =s "--base") && (head_flag =s "--head") then Ok (base, head)
      else Err (Usage "usage: ci-differential-clippy --base <cargo-json> --head <cargo-json>")
  | _ => Err (Usage "usage: ci-differential-clippy --base <cargo-json> --head <cargo-json>")
  end.

Definition run (files : FileSystem) (args : list string) : ComparatorResult bool :=
  '(base, head) ← parse_args args;
  compare files base head.

Definition main (files : FileSystem) (args : list string) : Z :=
  match run files args with
  | Ok true => 0
  | Ok false => 1
  | Err _ => 2
  end.

(** ** The reference: how often a warning is reported *)

(** The warning a line reports, if it can be read as an event. *)
Definition line_warning (line : result string string) : ComparatorResult (option Fingerprint) :=
  text ← map_err Io line;
  if is_empty (trim text) then Ok None
  else
    event ← map_err InvalidEvent (from_str text);
    found ← warning_fingerprint event;
    Ok (option_map fst found).

Definition readable (lines : Lines) : Prop := Forall (λ line, ∃ w, line_warning line = Ok w) lines.

Definition reports (f : Fingerprint) (line : result string string) : bool :=
  match line_warning line with Ok (Some g) => bool_decide (g = f) | _ => false end.
Definition occurrences (f : Fingerprint) (lines : Lines) : Z := zlength (List.filter (reports f) lines).

Lemma occurrences_nonneg f lines : 0 ≤ occurrences f lines.
Proof. unfold occurrences, zlength. lia. Qed.

Lemma occurrences_cons f line lines :
  occurrences f (line :: lines) = (if reports f line then 1 else 0) + occurrences f lines.
Proof. unfold occurrences, zlength. cbn. destruct (reports f line); cbn; lia. Qed.

Definition count_of (counts : WarningCounts) (f : Fingerprint) : Z := default 0 (counts !! f).

Lemma count_warning_lookup f g counts :
  count_of (count_warning g counts) f = if bool_decide (f = g) then saturating_succ (count_of counts f) else count_of counts f.
Proof.
  unfold count_of, count_warning. destruct (bool_decide (f = g)) eqn:E.
  - apply bool_decide_eq_true in E as ->. by rewrite lookup_insert_eq.
  - apply bool_decide_eq_false in E. by rewrite lookup_insert_ne.
Qed.

(** Reading succeeds exactly on readable lines, and counts each warning. *)
Lemma fold_warnings_spec path offset lines counts examples :
  map_Forall (λ _ n, 0 < n ≤ u64_max) counts →
  match fold_warnings path offset lines counts examples with
  | Ok (counts', _) => readable lines ∧ map_Forall (λ _ n, 0 < n ≤ u64_max) counts' ∧
      ∀ f, count_of counts' f = Z.min u64_max (count_of counts f + occurrences f lines)
  | Err _ => ¬ readable lines
  end.
Proof.
  revert offset counts examples. induction lines as [|line lines IH]; intros offset counts examples Hwf; cbn [fold_warnings].
  { split; [constructor|]. split; [done|]. intros f. change (occurrences f []) with 0. unfold count_of.
    destruct (counts !! f) as [n|] eqn:E; cbn; [specialize (Hwf f n E); cbn in Hwf; lia|by vm_compute]. }
  assert (∀ w, line_warning line = Ok w → (readable (line :: lines) ↔ readable lines)) as Hgood.
  { intros w Hw. unfold readable. rewrite Forall_cons. split; [tauto|]. intros H. split; [by exists w|done]. }
  assert ((∃ e, line_warning line = Err e) → ¬ readable (line :: lines)) as Hbad.
  { intros [e He] [[w Hw] _]%Forall_cons. congruence. }
  destruct line as [line|error]; cbn [map_err mbind result_mbind result_bind]; [|by apply Hbad; eexists].
  destruct (is_empty (trim line)) eqn:Eb.
  - assert (line_warning (Ok line) = Ok None) as Hw by (unfold line_warning; cbn; by rewrite Eb).
    specialize (IH (offset + 1) counts examples Hwf). destruct (fold_warnings _ _ _ _ _) as [[c ex]|]; rewrite (Hgood _ Hw); [|done].
    destruct IH as (H1 & H2 & H3). split; [done|]. split; [done|]. intros f. rewrite H3, occurrences_cons.
    unfold reports. by rewrite Hw.
  - destruct (from_str line) as [event|error] eqn:Ej; cbn [map_err mbind result_mbind result_bind]; cycle 1.
    { apply Hbad. unfold line_warning. cbn. rewrite Eb, Ej. by eexists. }
    destruct (warning_fingerprint event) as [found|e] eqn:Ew; cycle 1.
    { apply Hbad. unfold line_warning. cbn. rewrite Eb, Ej. cbn. rewrite Ew. by eexists. }
    assert (line_warning (Ok line) = Ok (option_map fst found)) as Hw by (unfold line_warning; cbn; rewrite Eb, Ej; cbn; by rewrite Ew).
    cbn [mbind result_mbind result_bind]. destruct found as [[g rendered]|].
    + assert (map_Forall (λ _ n, 0 < n ≤ u64_max) (count_warning g counts)) as Hwf'.
      { apply map_Forall_insert_2; [|done]. unfold saturating_succ. unfold u64_max in *.
        destruct (counts !! g) as [n|] eqn:E; cbn; [specialize (Hwf g n E); cbn in Hwf|]; lia. }
      specialize (IH (offset + 1) _ (keep_example g rendered examples) Hwf').
      destruct (fold_warnings _ _ _ _ _) as [[c ex]|]; rewrite (Hgood _ Hw); [|done].
      destruct IH as (H1 & H2 & H3). split; [done|]. split; [done|]. intros f. rewrite H3, occurrences_cons, count_warning_lookup.
      unfold reports. rewrite Hw. cbn [option_map fst]. pose proof (occurrences_nonneg f lines). unfold saturating_succ.
      destruct (decide (f = g)) as [->|Hne].
      * rewrite !bool_decide_eq_true_2 by done. lia.
      * rewrite !bool_decide_eq_false_2 by congruence. lia.
    + specialize (IH (offset + 1) counts examples Hwf). destruct (fold_warnings _ _ _ _ _) as [[c ex]|]; rewrite (Hgood _ Hw); [|done].
      destruct IH as (H1 & H2 & H3). split; [done|]. split; [done|]. intros f. rewrite H3, occurrences_cons.
      unfold reports. by rewrite Hw.
Qed.

Lemma read_warnings_spec files path :
  match read_warnings files path with
  | Ok (counts, _) => ∃ lines, files path = Ok lines ∧ readable lines ∧ map_Forall (λ _ n, 0 < n ≤ u64_max) counts ∧
      ∀ f, count_of counts f = Z.min u64_max (occurrences f lines)
  | Err _ => ∀ lines, files path = Ok lines → ¬ readable lines
  end.
Proof.
  unfold read_warnings. destruct (files path) as [lines|error] eqn:E; cbn; [|done].
  pose proof (fold_warnings_spec path 0 lines ∅ ∅ (map_Forall_empty _)) as H.
  destruct (fold_warnings _ _ _ _ _) as [[c ex]|]; cbn.
  - destruct H as (H1 & H2 & H3). exists lines. split_and!; [done..|exact H3].
  - by intros ? [= <-].
Qed.

Lemma regressions_empty base head :
  map_Forall (λ _ n, 0 < n ≤ u64_max) head →
  regressions base head = ∅ ↔ ∀ f, count_of head f ≤ Z.max 0 (count_of base f).
Proof.
  intros Hwf. unfold regressions. split.
  - intros H f. apply (f_equal (lookup f)) in H. rewrite map_lookup_imap, lookup_empty in H. unfold count_of.
    destruct (head !! f) as [n|]; cbn in *; [|lia]. destruct (_ =? 0) eqn:E; [|done]. bool_to_prop. lia.
  - intros H. apply map_eq. intros f. rewrite map_lookup_imap, lookup_empty. specialize (H f). unfold count_of in H.
    destruct (head !! f) as [n|] eqn:E; cbn in *; [|done]. specialize (Hwf f n E). cbn in Hwf.
    by replace (Z.max 0 (n - default 0 (base !! f))) with 0 by lia.
Qed.

(** C31: The gate passes a change exactly when it reports no warning more often
    than the base does, whatever the order and the lines of the reports; it
    fails when some warning is more frequent, and only a misuse, an unreadable
    file or a malformed event ends with the third exit code. *)
Theorem comparator_exact files base_path head_path :
  (∀ path lines, files path = Ok lines → zlength lines ≤ u64_max) →
  let code := main files ["--base"; base_path; "--head"; head_path] in
  (code = 2 ↔ ∀ base head, files base_path = Ok base → files head_path = Ok head → ¬ (readable base ∧ readable head)) ∧
  ∀ base head, files base_path = Ok base → files head_path = Ok head → readable base → readable head →
    (code = 0 ↔ ∀ f, occurrences f head ≤ occurrences f base) ∧
    (code = 1 ↔ ∃ f, occurrences f base < occurrences f head).
Proof.
  intros Hlen. cbn zeta. unfold main, run. cbn [parse_args String.eqb Ascii.eqb Bool.eqb andb mbind result_mbind result_bind].
  unfold compare.
  pose proof (read_warnings_spec files base_path) as Hb. pose proof (read_warnings_spec files head_path) as Hh.
  destruct (read_warnings files base_path) as [[base bex]|]; cbn [mbind result_mbind result_bind]; cycle 1.
  { split; [split; [|done]|]; [intros _ b h Eb _ [Hr _]; by eapply Hb|]. intros b h Eb _ Hr. by destruct (Hb b Eb). }
  destruct (read_warnings files head_path) as [[head hex]|]; cbn [mbind result_mbind result_bind]; cycle 1.
  { split; [split; [|done]|]; [intros _ b h _ Eh [_ Hr]; by eapply Hh|]. intros b h _ Eh _ Hr. by destruct (Hh h Eh). }
  destruct Hb as (lb & Eb & Rb & Wb & Cb), Hh as (lh & Eh & Rh & Wh & Ch).
  assert (∀ f path lines, files path = Ok lines → Z.min u64_max (occurrences f lines) = occurrences f lines) as Hmin.
  { intros f path lines E. specialize (Hlen path lines E). unfold occurrences, zlength in *.
    pose proof (List.filter_length_le (reports f) lines). lia. }
  assert (regressions base head = ∅ ↔ ∀ f, occurrences f lh ≤ occurrences f lb) as Hiff.
  { rewrite regressions_empty by done. split; intros H f; specialize (H f);
      rewrite Ch, Cb, (Hmin f _ _ Eb), (Hmin f _ _ Eh) in *; pose proof (occurrences_nonneg f lb); lia. }
  split.
  - split; [by destruct (bool_decide _)|]. intros H. by destruct (H lb lh Eb Eh).
  - intros b h Eb' Eh' _ _. assert (b = lb ∧ h = lh) as [-> ->] by (split; congruence).
    destruct (decide (regressions base head = ∅)) as [E|E].
    + rewrite bool_decide_eq_true_2 by done. pose proof (proj1 Hiff E) as E1. split; [done|]. split; [done|].
      intros [f Hf]. specialize (E1 f). lia.
    + rewrite bool_decide_eq_false_2 by done. split; [split; [done|by intros H%Hiff]|]. split; [|done]. intros _.
      apply map_choose in E as (f & n & Hf). unfold regressions in Hf. rewrite map_lookup_imap in Hf.
      destruct (head !! f) as [hn|] eqn:En; [|done]. cbn in Hf. destruct (_ =? 0) eqn:E0; [done|]. bool_to_prop.
      exists f. pose proof (Cb f) as C1. pose proof (Ch f) as C2. unfold count_of in C1, C2. rewrite En in C2. cbn in C2.
      rewrite (Hmin f _ _ Eb) in C1. rewrite (Hmin f _ _ Eh) in C2. lia.
Qed.
End comparator.

(** *** Witness *)

(** Lines that name a warning by its message; others are build events. *)
Definition demo_event (line : string) : json :=
  match strip_prefix "warning " line with
  | Some message =>
      JObj [("reason", JStr "compiler-message");
            ("message", JObj [("level", JStr "warning"); ("message", JStr message);
               ("spans", JArr [JObj [("file_name", JStr "src/lib.rs"); ("is_primary", JBool true)]])])]
  | None => JObj [("reason", JStr "build-finished")]
  end.
Definition demo_lines : ClippyExternals := {| from_str := λ line, Ok (demo_event line) |}.

Definition demo_reports (path : string) : result string Lines :=
  if path =s "base" then Ok [Ok "warning unused"; Ok "done"] else Ok [Ok "done"; Ok "warning unused"; Ok "warning unused"].

Lemma comparator_exact_witness :
  @main demo_lines demo_reports ["--base"; "base"; "--head"; "head"] = 1 ∧
  ∃ f, @occurrences demo_lines f [Ok "warning unused"; Ok "done"]
       < @occurrences demo_lines f [Ok "done"; Ok "warning unused"; Ok "warning unused"].
Proof.
  assert (@main demo_lines demo_reports ["--base"; "base"; "--head"; "head"] = 1) as Hmain by by vm_compute.
  split; [exact Hmain|].
  destruct (@comparator_exact demo_lines demo_reports "base" "head") as [_ H].
  { intros path lines. unfold demo_reports. destruct (path =s "base"); intros [= <-]; vm_compute; discriminate. }
  apply (H [Ok "warning unused"; Ok "done"] [Ok "done"; Ok "warning unused"; Ok "warning unused"] eq_refl eq_refl);
    [by repeat (constructor; [by eexists|])..|exact Hmain].
Defined.
