(* ===== verification/Demo.v ===== *)
(** * Concrete collaborators

    Executable instances of the external interfaces, on which the witnesses of
    the component files run the handlers: a toy digest, a clock that counts
    steps, a store and a database that always answer and that nobody else
    writes to. *)

From S2P Require Export StorageFacts AuthFacts.

(** 64 hexadecimal digits, from the length of the input. *)
Definition demo_digest (s : string) : string :=
  srepeat 32 (hex_encode (String (chr (N.of_nat (String.length s) mod 256)) "")).

Definition demo_reads (c : string) : Reads := if is_empty c then [] else [Some c].

Definition demo_s3_object (x : Object) : S3Object :=
  mk_s3_object (Some (slen x.(o_bytes))) x.(o_content_type) x.(o_cache_control) x.(o_metadata)
    None (demo_reads x.(o_bytes)).

Definition demo_s3_get (o : Objects) (k : string) : result string S3Object :=
  match o !! k with Some x => Ok (demo_s3_object x) | None => Err "NoSuchKey" end.

#[export] Instance demo_ext : Externals := {|
  digest_hex := demo_digest;
  uuid_display := dec_of_N;
  new_v4 := λ n, N.of_nat (100 + n);
  rfc3339 := dec_of_Z;
  utc_now := λ n, Z.of_nat n;
  db_outcome := λ _, Done;
  others_db := λ _ d, d;
  io_outcome := λ _, Done;
  others_objects := λ _ o, o |}.

#[export] Instance demo_sto : StoreExternals := {|
  io_error_text := λ e,
    match e with NotFound => "not found" | AlreadyExists => "already exists" | IoOther => "i/o error" end;
  file_reads := λ _ c, demo_reads c;
  partial_write := λ _ _, "";
  s3_put := λ _ r o,
    match o !! put_key r with
    | Some _ => (Err "PreconditionFailed", o)
    | None => (Ok tt, <[put_key r := s3_stored r]> o)
    end;
  s3_get := λ _ k o, demo_s3_get o k;
  s3_head := λ _ k o, demo_s3_get o k;
  s3_presign := λ _ k _, Ok ("https://bucket/" +:+ k);
  s3_head_bucket := λ _, Ok tt;
  file_modified := λ _ _, None;
  rfc3339_secs_of_millis := λ t, Some (dec_of_Z t);
  elapsed_ms := λ a b, Z.of_nat (b - a) |}.

(** The percent-encoder, as RFC 3986 has it. *)
Definition hex_upper (n : Z) : ascii :=
  if n <? 10 then chr (Z.to_N (48 + n)) else chr (Z.to_N (55 + n)).
Fixpoint percent_encode (set : ascii → bool) (s : string) : string :=
  match s with
  | "" => ""
  | String c r =>
      if set c
      then String "%" (String (hex_upper (byte_of c / 16)) (String (hex_upper (byte_of c mod 16))
             (percent_encode set r)))
      else String c (percent_encode set r)
  end.

#[export] Instance demo_ver : VerifyExternals := {|
  utf8_percent_encode := percent_encode;
  uses_git_tags := λ vcs, vcs =s "git" |}.

#[export] Instance demo_ver_laws : VerifyLaws.
Proof.
  split; cbn.
  - induction s as [|c s IH]; cbn; [done|]. intros [Hc Hs]%andb_true_iff.
    unfold TAG_ENCODE_SET at 1. by rewrite Hc, IH.
  - assert (∀ c, unreserved (hex_upper (byte_of c / 16)) && unreserved (hex_upper (byte_of c mod 16)) = true)%bool
      as Hhex by (apply byte_forall; by vm_compute).
    induction s as [|c s IH]; cbn; [done|]. unfold TAG_ENCODE_SET at 1.
    destruct (unreserved c) eqn:E; cbn; [by rewrite E, IH|].
    specialize (Hhex c). apply andb_true_iff in Hhex as [-> ->]. by rewrite IH.
Qed.

#[export] Instance demo_web : WebExternals := {|
  url_parse := λ s, Some (mk_url "https" "" None (Some "auth.test") None None s);
  url_join := λ u p, Some (url_text u +:+ p);
  header_value_from_str := Some;
  json_to_vec := λ _, Some "{}";
  json_from_slice := λ s,
    if s =s "tag" then Some (JObj [("object", JObj [("type", JStr "commit"); ("sha", JStr "c0ffee")])])
    else None;
  http_answer := λ _ _, HttpAnswered 200 (Some "tag");
  uuid_parse := λ s, Z.to_N <$> parse_unsigned i64_max s |}.

#[export] Instance demo_tokens : TokenExternals := {|
  uuid_simple := dec_of_N;
  uuid_parse_str := λ s, Z.to_N <$> parse_unsigned i64_max s;
  add_days := λ t d, Some (t + d * 86400000000000);
  connect_fails := λ _, None |}.

Lemma demo_reads_collect c : collect_reads (demo_reads c) = Some c.
Proof. unfold demo_reads. destruct c; [done|]. cbn. by rewrite app_str_nil_r. Qed.

Lemma demo_reads_chunked c : chunked (demo_reads c).
Proof. unfold demo_reads, chunked. destruct c; cbn; by repeat constructor. Qed.

#[export] Instance demo_laws : StoreLaws.
Proof.
  split; try done.
  - intros t r o res o' _. cbn. destruct (o !! put_key r) eqn:E.
    + intros [= <- <-]. by left.
    + intros [= <- <-]. by right.
  - intros t k o obj. cbn. unfold demo_s3_get. destruct (o !! k) as [x|]; [|done].
    intros [= <-]. exists x. split_and!; [done|apply demo_reads_chunked| |done].
    intros c. cbn. rewrite demo_reads_collect. by intros [= <-].
  - intros t k o obj. cbn. unfold demo_s3_get. destruct (o !! k) as [x|]; [|done].
    intros [= <-]. by exists x.
  - intros t k o e. cbn. unfold demo_s3_get. by destruct (o !! k).
  - intros t c. apply demo_reads_chunked.
  - intros t c c'. cbn. rewrite demo_reads_collect. by intros [= <-].
Qed.

#[export] Instance demo_calm : CalmStore.
Proof.
  split; try done.
  - intros t c. apply demo_reads_collect.
  - intros t k o x Hx. cbn. unfold demo_s3_get. rewrite Hx. eexists. split; [done|].
    split_and!; try done. apply demo_reads_collect.
Qed.

(** ** The store at work *)

Definition demo_start : World := mk_world 0 empty_db None ∅.
Definition demo_store : ArtifactStore := S3 "zed".
Definition demo_key : string := "artifacts/kit.tar.gz".
Definition demo_sha : string := demo_digest "bytes".
Definition demo_put (bytes : string) (w : World) : result string unit * World :=
  put_verified demo_store demo_key bytes "application/gzip" (demo_digest bytes) w.
Definition demo_stored : World := (demo_put "bytes" demo_start).2.

Lemma put_verified_immutable_witness :
  objects (demo_put "other" demo_stored).2 !! demo_key
  = Some (stored_as demo_store "bytes" "application/gzip" demo_sha).
Proof.
  apply (put_verified_immutable demo_store demo_key "other" "application/gzip" (demo_digest "other")
    demo_stored (demo_put "other" demo_stored).1 (demo_put "other" demo_stored).2);
    [apply surjective_pairing|by vm_compute|by vm_compute].
Defined.

Lemma put_verified_stores_witness : holds demo_key 5 demo_sha demo_stored.
Proof.
  apply (put_verified_stores demo_store demo_key "bytes" "application/gzip" demo_sha demo_start demo_stored);
    by vm_compute.
Defined.

Lemma memory_store_bounded_witness :
  (put_verified (Memory 4) "k" "bytes" "application/gzip" demo_sha demo_start).1 ≠ Ok tt.
Proof.
  destruct (memory_store_bounded 4 "k" "bytes" "application/gzip" demo_sha demo_start _ _
    ltac:(by vm_compute) ltac:(by vm_compute) ltac:(done) (surjective_pairing _))
    as (_ & [H _] & _).
  intros Hok. apply H in Hok as [_ [(x & Hx & _)|[_ Hb]]]; [done|by vm_compute in Hb].
Defined.

Lemma stored_bytes_roundtrip_witness :
  (get_bytes demo_store demo_key demo_stored).1 = Ok "bytes" ∧ slen "bytes" ≤ MAX_BUFFERED_ARTIFACT_BYTES.
Proof.
  split; [by vm_compute|].
  apply (stored_bytes_roundtrip demo_store demo_key "bytes" "application/gzip" demo_sha demo_start
    demo_stored demo_stored "bytes" (get_bytes demo_store demo_key demo_stored).2);
    [by vm_compute..|reflexivity|by vm_compute].
Defined.

Lemma published_object_reconciles_witness :
  ∃ h, (object_head demo_store demo_key demo_stored).1 = Ok (Some h) ∧
    reconcile 5 demo_sha (Some h) = Consistent.
Proof.
  eexists. split; [by vm_compute|].
  eapply (published_object_reconciles demo_store demo_key "bytes" "application/gzip" demo_sha demo_start
    demo_stored demo_stored _ (object_head demo_store demo_key demo_stored).2);
    [by vm_compute..|reflexivity|by vm_compute].
Defined.

Lemma put_verified_retry_witness :
  ∃ w1 w2,
    put_verified (Local "data") demo_key "bytes" "application/gzip" demo_sha demo_start = (Ok tt, w1) ∧
    objects w1 = {[ "data/artifacts/kit.tar.gz" := file_of "bytes" ]} ∧
    put_verified (Local "data") demo_key "bytes" "application/gzip" demo_sha w1 = (Ok tt, w2) ∧
    objects w2 = objects w1.
Proof.
  apply (put_verified_retry (Local "data") demo_key "bytes" "application/gzip" demo_sha demo_start);
    try by vm_compute.
  exists "data/artifacts", "kit.tar.gz". split_and!; [by vm_compute..|]. intros n. apply lookup_empty.
Defined.

(** ** Verification and tokens *)

Lemma verify_spec_witness :
  (verify (mk_verifier Github None) "git" "https://github.com/acme/kit.git" "v1/../x" demo_start).1
  = Ok (Verified (Some "c0ffee")).
Proof.
  destruct (verify_spec (mk_verifier Github None) "git" "https://github.com/acme/kit.git" "v1/../x" demo_start)
    as [_ H].
  destruct (H "acme" "kit") as (request & encoded & -> & _); [by vm_compute..|]. by vm_compute.
Defined.

Definition demo_create : result CliErr string * World :=
  create_token ["--name"; "ci"; "--org"; "acme"; "--role"; "publisher"] demo_start.
Definition demo_plaintext : string :=
  match demo_create.1 with Ok p => p | Err _ => "" end.
Definition demo_headers : HeaderMap := λ name,
  if name =s "authorization" then [Some ("Bearer " +:+ demo_plaintext)] else [].

Lemma created_token_authenticates_witness :
  ∃ row, (require_token demo_headers demo_create.2).1 = Ok row ∧
    tok_name row = "ci" ∧ tok_role row = "publisher".
Proof.
  destruct (created_token_authenticates (ext := demo_ext) (λ _, eq_refl) (λ _ _, eq_refl)
    ["--name"; "ci"; "--org"; "acme"; "--role"; "publisher"] demo_start demo_plaintext demo_create.2)
    as (name & a & row & Ha & _ & Hn & Hr & _ & _ & He & Hauth); [by vm_compute|].
  exists row. vm_compute in Ha. injection Ha as <- <-. split_and!; [|done|done].
  apply Hauth; [by vm_compute|done|]. intros e Hc. by rewrite (proj2 He) in Hc.
Defined.

Lemma revoke_token_revokes_witness :
  (require_token demo_headers (revoke_token ["--name"; "ci"] demo_create.2).2).1 = Err unauthorized.
Proof.
  destruct (revoke_token_revokes (ext := demo_ext) (λ _, eq_refl) (λ _ _, eq_refl) ["--name"; "ci"] demo_create.2 1
    (revoke_token ["--name"; "ci"] demo_create.2).2) as (a & id & t & Ha & Hid & _ & _ & H).
  - vm_compute. repeat constructor. by intros ?%not_elem_of_nil.
  - by vm_compute.
  - vm_compute in Ha. injection Ha as <-. cbn in Hid. subst id.
    eapply (H demo_headers demo_plaintext); [done|by vm_compute..].
Defined.
