(* ===== verification/StartupDemo.v ===== *)
(** * Starting on concrete inputs

    The witnesses of the configuration and startup theorems: a command line, an
    environment, two mirrors. *)

From S2P Require Export Server Demo.

(** A parser that knows one option, and types its port as a number. *)
#[export] Instance demo_flags : FlagsExternals := {|
  CARGO_PKG_NAME := "zed-api-server";
  CARGO_PKG_VERSION := "1.0.0";
  create_contract := Ok tt;
  write_contract := Ok tt;
  contract_path := Some "/tmp/contract";
  audit_config := λ _, Ok tt;
  parse_structured := λ argv _,
    Ok (mk_parsed [] [] [] ∅ ∅
         (if bool_decide ("--bind-addr=:9000" ∈ argv) then {[ "BIND_ADDR" := ":9000" ]} else ∅));
  coerce := λ raw _, Ok (match raw !! "BIND_ADDR" with Some v => [("BIND_ADDR", JStr v)] | None => [] end);
  toml_contract := Err "unreadable";
  toml_display := λ _, "" |}.

#[export] Instance demo_flags_laws : FlagsLaws.
Proof. split. intros raw path typed [= <-]. destruct (raw !! "BIND_ADDR"); cbn; repeat constructor; set_solver. Qed.

Definition demo_command_line : list string := ["zed-api-server"; "--bind-addr=:9000"].
Definition demo_environment : gmap string string := {[ "BIND_ADDR" := ":8080" ]}.
Definition demo_resolved : gmap string string := {[ "BIND_ADDR" := ":9000" ]}.

Lemma resolve_precedence_witness :
  resolve_from demo_command_line demo_environment = Ok demo_resolved ∧
  ∃ path parsed, parse_structured demo_command_line path = Ok parsed ∧ unknown_options parsed = [].
Proof.
  assert (resolve_from demo_command_line demo_environment = Ok demo_resolved) as H by (by vm_compute).
  split; [exact H|]. destruct (resolve_precedence _ _ _ H) as (path & parsed & typed & Hp & Hu & _).
  exists path, parsed. split; [exact Hp|exact Hu].
Defined.

(** ** Configuration *)

#[export] Instance demo_mirrors : MirrorExternals := {|
  MAX_MIRRORS := 4;
  mirrors_from_str := λ s, Some (map JStr (split ";" s));
  mirror_validate := λ m, match m with JStr s => if is_empty s then Err "no location" else Ok tt | _ => Err "no location" end;
  mirror_identifier := λ m, match m with JStr s => s | _ => "" end;
  order_key_le := λ a b,
    match a, b with JStr s, JStr t => slen s <=? slen t | JStr _, _ => true | _, JStr _ => false | _, _ => true end |}.

#[export] Instance demo_mirror_laws : MirrorLaws.
Proof.
  split.
  - intros a b. destruct a, b; cbn; rewrite ?Z.leb_le; auto. lia.
  - intros a b c. destruct a, b, c; cbn; rewrite ?Z.leb_le; auto; try done. lia.
Qed.

Definition demo_env (name : string) : option string :=
  match name with
  | "DATABASE_URL" => Some "postgres://db"
  | "STORAGE_BACKEND" => Some "s3"
  | "S3_BUCKET" => Some "artifacts"
  | "ZED_MIRRORS" => Some "https://mirror;eu"
  | "SHARED_AUTH_URL" => Some "https://auth.test/"
  | "SHARED_AUTH_SERVICE_CREDENTIAL" => Some "c2VjcmV0/"
  | _ => None
  end.

Definition demo_config : Config :=
  mk_config "0.0.0.0:8080" "postgres://db" false (ConfigS3 "artifacts" None "auto" true) "http://localhost:8080"
    [JStr "eu"; JStr "https://mirror"] "registry:zpkg-primary" Off 104857600 5 10 None
    (Some (mk_shared_auth_config "https://auth.test" "https://auth.test" "c2VjcmV0" "zed-pkg" "zpkg-web")).

(** The configured credential is not the one of the environment. *)
Lemma from_env_sound_witness :
  from_env demo_env = Ok demo_config ∧ shared_auth_ok demo_env
    (mk_shared_auth_config "https://auth.test" "https://auth.test" "c2VjcmV0" "zed-pkg" "zpkg-web").
Proof.
  assert (from_env demo_env = Ok demo_config) as H by (by vm_compute). split; [exact H|].
  destruct (from_env_sound _ _ H) as (_ & _ & _ & _ & _ & _ & _ & _ & _ & Hs). exact Hs.
Defined.

(** The third attempt connects, seven seconds after the start; without any
    connection the sixteenth gives up. *)
Example third_attempt :
  connect_with_retry (mk_outside unit (λ n, if (n <? 3)%nat then Err "refused" else Ok tt)
    (λ _, 1000000000%N) (λ _, 0%N) (λ _, 0%N)) demo_env = Some (Ok tt, 7 * SECOND).
Proof. by vm_compute. Qed.

Example sixteen_attempts :
  connect_with_retry (mk_outside unit (λ n, Err "refused") (λ _, 0%N) (λ _, 0%N) (λ _, 0%N)) demo_env
    = Some (Err "failed to connect to DATABASE_URL after 16 attempts over 30s", 30 * SECOND).
Proof. by vm_compute. Qed.

Definition demo_start : World := mk_world 0 empty_db None ∅.

Lemma startup_sound_witness :
  ∃ st, startup demo_env demo_start = (Ok st, demo_start) ∧
    st.(storage_backend).(backend_bucket) = Some "artifacts" ∧ ends_with "/" st.(public_base_url) = false.
Proof.
  eexists. assert (startup demo_env demo_start = (Ok (app_state demo_env demo_config (S3 "artifacts")), demo_start)) as H
    by (by vm_compute).
  split; [exact H|]. destruct (startup_sound _ _ _ _ H) as (cfg & _ & _ & _ & Hd & Hu & _).
  split; [exact (proj1 (proj2 Hd))|exact Hu].
Defined.
