(* ===== verification/IntakeDemo.v ===== *)
(** * Public intake on concrete inputs

    A toy digest of 32 bytes, and a request signed with it. *)

From S2P Require Export PublicIntakeFacts Demo.

Definition toy_sha256 (s : string) : string :=
  srepeat 32 (String (chr (N.of_nat (String.length s) mod 256)) "").

(** A version-4 identifier's variant bits, and nothing else. *)
Definition demo_intake_id : uuid := 9223372036854775808.

#[local] Instance demo_intake_web : WebExternals := {|
  url_parse := λ _, None;
  url_join := λ _ _, None;
  header_value_from_str := Some;
  json_to_vec := λ _, None;
  json_from_slice := λ _, None;
  http_answer := λ _ _, HttpFailed;
  uuid_parse := λ s, if s =s "a1" then Some demo_intake_id else None |}.

Definition demo_key : string := "0123456789abcdef0123456789abcdef".
Definition demo_body : string := "{}".

Definition demo_form : PreInterestRequest :=
  mk_pre_interest "9223372036854775808" " Ada@Example.ORG " Individual HostUser ["tooling"] None None None None None
    "r1" "2026-01-01T00:00:00Z" true false None.

#[local] Instance demo_intake : IntakeExternals := {|
  sha256 := toy_sha256;
  IDEMPOTENCY_KEY_HEADER := "idempotency-key";
  PRE_INTEREST_PATH_V1 := "/v1/pre-interest";
  QUOTE_REQUESTS_PATH_V1 := "/v1/quote-requests";
  pre_interest_from_slice := λ s, if s =s "{}" then Some demo_form else None;
  pre_interest_to_string := λ r, Some r.(pre_email);
  quote_from_slice := λ _, None;
  quote_to_string := λ _, None;
  parse_from_rfc3339 := λ _, Some 0;
  to_rfc3339_millis := dec_of_Z;
  env_var := λ name,
    Some (if ends_with "REVISION" name then "r1" else if ends_with "SIGNING_KEY" name then demo_key
          else "fedcba9876543210fedcba9876543210");
  submission_error := λ _, None;
  write_public_intake_submission := λ _ _ _, Ok tt |}.

Lemma srepeat_length n c : slen (srepeat n (String c "")) = Z.of_nat n.
Proof. induction n as [|n IH]; [done|]. cbn [srepeat]. rewrite slen_app, IH. change (slen (String c "")) with 1. lia. Qed.

#[local] Instance demo_intake_laws : IntakeLaws.
Proof. split. intros s. apply (srepeat_length 32). Qed.

Definition demo_signed_headers : HeaderMap := λ name,
  match name with
  | "x-zed-intake-source-host" => [Some "user.zpkg.net"]
  | "idempotency-key" => [Some "a1"]
  | "x-zed-intake-timestamp" => [Some "1000"]
  | "x-zed-intake-body-sha256" => [Some (hex_encode (toy_sha256 demo_body))]
  | "host" => [Some "api.zpkg.net:443"]
  | "content-type" => [Some "application/json"]
  | "x-zed-intake-signature" =>
      [Some ("v1=" +:+ hex_encode (hmac_sha256 demo_key
        (signed_text "1000" "user.zpkg.net" "/v1/pre-interest" "a1" (hex_encode (toy_sha256 demo_body)))))]
  | _ => []
  end.

(** The signature holds five minutes later, and not a second more. *)
Lemma edge_check_exact_witness :
  verify_edge_headers demo_signed_headers demo_body "/v1/pre-interest" HostUser 1300 demo_key
    = Ok (demo_intake_id, toy_sha256 demo_body) ∧
  edge_signed demo_signed_headers demo_body "/v1/pre-interest" HostUser 1300 demo_key demo_intake_id ∧
  ¬ edge_signed demo_signed_headers demo_body "/v1/pre-interest" HostUser 1301 demo_key demo_intake_id.
Proof.
  assert (verify_edge_headers demo_signed_headers demo_body "/v1/pre-interest" HostUser 1300 demo_key
    = Ok (demo_intake_id, toy_sha256 demo_body)) as H by (by vm_compute).
  split; [exact H|]. split; [exact (proj2 (proj1 (edge_check_exact _ _ _ _ _ _ _ _) H))|].
  intros Hs. assert (verify_edge_headers demo_signed_headers demo_body "/v1/pre-interest" HostUser 1301 demo_key
    = Err abuse_challenge_failed) as He by (by vm_compute).
  pose proof (proj2 (edge_check_exact _ _ _ _ _ _ _ _) (conj eq_refl Hs)) as Hok.
  rewrite He in Hok. discriminate Hok.
Defined.

(** A signed form, received in time, is written once and accepted; a second too
    late it is refused, and nothing is written. *)
Definition demo_state : AppState :=
  mk_state true true (Memory 4) (describe (Memory 4) (ConfigMemory 4)) (mk_verifier Off None) "" [] "registry" 3 false
    None "" "" None.

Definition demo_request : IntakeRequest := mk_intake_request "/v1/pre-interest" None demo_signed_headers (Some demo_body).

Example written_once :
  let process now := process_pre_interest demo_state demo_request now demo_start in
  (let '(r, _, calls) := process 1200000000000 in
   (r, map (λ c, (c.(call_submission).(sb_email), c.(call_submission).(sb_request_id), c.(call_answer))) calls)
     = (Ok tt, [("ada@example.org", demo_intake_id, Ok tt)])) ∧
  (let '(r, _, calls) := process 1301000000000 in (r, calls) = (Err abuse_challenge_failed, [])).
Proof. split; by vm_compute. Qed.
