(* ===== verification/BinaryDemo.v ===== *)
(** * Binary archives on a concrete upload *)

From S2P Require Export BinaryFacts Demo.

(** A little-endian [u16]. *)
Definition le16 (n : Z) : string := String (chr (Z.to_N (n mod 256))) (String (chr (Z.to_N (n / 256))) "").

(** A central-directory entry of a stored, regular file. *)
Definition central_entry (name : string) : string :=
  CENTRAL_MAGIC +:+ srepeat 24 (String "000" "") +:+ le16 (slen name) +:+ srepeat 16 (String "000" "") +:+ name.

Definition demo_local : string := "PK" +:+ String "003" (String "004" "").
Definition demo_zip : string :=
  demo_local +:+ central_entry "pkg/.zpkg-binary.json" +:+ central_entry "pkg/.zpkg.toml" +:+ central_entry "pkg/bin/tool".

Definition demo_entry (name contents : string) (mode : Z) : ZipEntry :=
  mk_zip_entry name false Stored false true false (slen contents) (slen contents) (Some mode) (Some name) [Ok contents].

Definition demo_entries : list ZipEntry :=
  [demo_entry "pkg/.zpkg-binary.json" "{}" 33188; demo_entry "pkg/.zpkg.toml" "[package]" 33188;
   demo_entry "pkg/bin/tool" "code" 33261].

Definition demo_archive : ZipArchive := {|
  central_directory_start := 4;
  zip_len := 3;
  has_overlapping_files := Ok false;
  by_index := λ i, ok_or "no such entry" (demo_entries !! Z.to_nat i);
  by_name := λ name, ok_or "no such entry" (List.find (λ e, e.(name_raw) =s name) demo_entries) |}.

Definition demo_binary_manifest : Manifest :=
  mk_manifest "acme" "tool" "1.0.0" None "git" "https://github.com/acme/tool" "semver" [] [] [] JNull.

Definition demo_descriptor : Descriptor :=
  mk_descriptor (Some (mk_source "https://github.com/acme/tool" "v1" None))
    [mk_binary_file ".zpkg.toml" 9 (demo_digest "[package]") false; mk_binary_file "bin/tool" 4 (demo_digest "code") true]
    JNull.

#[export] Instance demo_binary : BinaryExternals := {|
  zip_open := λ s, if starts_with "PK" s then Ok demo_archive else Err "not a ZIP";
  ZIP_FORMAT := "zip";
  BINARY_ARCHIVE_ROOT := "pkg";
  BINARY_DESCRIPTOR_PATH := ".zpkg-binary.json";
  BINARY_PACKAGE_MANIFEST_PATH := ".zpkg.toml";
  unsafe_relative_path := λ p, if is_empty p then Some "empty path" else None;
  descriptor_parse := λ s, if s =s "{}" then Ok demo_descriptor else Err "not a descriptor";
  descriptor_invalid := λ _ _, None;
  canonical_json_bytes := λ _, Ok "{}";
  manifest_parse := λ _, Ok demo_binary_manifest;
  manifest_eq := λ a b, (a.(m_org) =s b.(m_org)) && (a.(m_name) =s b.(m_name)) && (a.(m_version) =s b.(m_version));
  to_lowercase := to_ascii_lowercase;
  binary_flag := λ _, None |}.

Definition demo_binary_meta : PublishMeta :=
  mk_meta demo_binary_manifest (demo_digest demo_zip) (slen demo_zip) "zip" "v1" None None JNull [].

Example demo_verifies : verify_publish demo_binary_meta demo_zip = Ok (Some demo_descriptor).
Proof. by vm_compute. Qed.

(** An ordinary archive, with the descriptor's name only as a prefix of
    another. *)
Definition demo_source_zip : string :=
  demo_local +:+ central_entry "pkg/.zpkg-binary.json.txt" +:+ central_entry "pkg/.zpkg.toml" +:+ central_entry "pkg/lib.rs".
Definition demo_source_meta : PublishMeta :=
  mk_meta demo_binary_manifest (demo_digest demo_source_zip) (slen demo_source_zip) "zip" "v1" None None JNull [].

Lemma demo_start s a : zip_open s = Ok a → 0 ≤ a.(central_directory_start).
Proof. cbn. destruct (starts_with _ s); [|done]. by intros [= <-]. Qed.

Lemma demo_sizes s a i e :
  zip_open s = Ok a → a.(by_index) i = Ok e → 0 ≤ e.(entry_size) ∧ 0 ≤ e.(compressed_size).
Proof.
  cbn [zip_open demo_binary]. destruct (starts_with _ s); [|done]. intros [= <-]. cbn [by_index demo_archive].
  destruct (Z.to_nat i) as [|[|[|n]]]; cbn; try (intros [= <-]; split; by vm_compute); done.
Qed.

Lemma demo_files_fit s d : descriptor_parse s = Ok d → zlength d.(d_files) < usize_max.
Proof. cbn. destruct (s =s "{}"); [|done]. intros [= <-]. by vm_compute. Qed.

#[export] Instance demo_lowercase : LowercaseLaws.
Proof.
  split; [done|..].
  - intros s. cbn. unfold to_ascii_lowercase. induction s as [|c s IH]; [done|]. cbn.
    destruct (Ascii.eqb_spec c "092") as [->|]; cbn; [done|]. intros H%IH. rewrite H. apply orb_true_r.
  - intros s c Hc. exists (to_ascii_lowercase s). cbn. rewrite to_ascii_lowercase_app.
    by apply elem_of_cons in Hc as [->|[->|[]%elem_of_nil]%elem_of_cons].
Qed.

(** The archive is an ordinary one, and such spellings of the descriptor's name
    are reserved. *)
Lemma no_profile_downgrade_witness :
  verify_publish demo_source_meta demo_source_zip = Ok None ∧ slen demo_source_zip = meta_size demo_source_meta ∧
  reserved "x\..\PKG.\./.zpkg-binary.JSON .".
Proof.
  assert (verify_publish demo_source_meta demo_source_zip = Ok None) as H by (by vm_compute). split; [exact H|].
  split; [exact (proj1 (no_profile_downgrade demo_start demo_source_meta demo_source_zip None eq_refl H))|].
  right. split; [vm_compute; reflexivity|]. exists windows. split; [left; exact (conj eq_refl eq_refl)|].
  exists [".zpkg-binary.JSON"; "PKG"]. split; [vm_compute; reflexivity|].
  apply Forall2_cons; split; [vm_compute; reflexivity|]. apply Forall2_cons; split; [vm_compute; reflexivity|apply Forall2_nil_2].
Defined.

(** On a host where a backslash or a space is an ordinary character, a name
    that goes up can reach the descriptor unseen: an archive with such an entry
    is accepted as an ordinary one. *)
Definition demo_climbing : string := "a\b/../pkg/.zpkg-binary.json".
Definition demo_climbing_zip : string :=
  demo_local +:+ central_entry demo_climbing +:+ central_entry "pkg/.zpkg.toml" +:+ central_entry "pkg/lib.rs".
Definition demo_climbing_meta : PublishMeta :=
  mk_meta demo_binary_manifest (demo_digest demo_climbing_zip) (slen demo_climbing_zip) "zip" "v1" None None JNull [].

Example climbing_alias_accepted :
  resolves posix demo_climbing ∧ resolves posix " /../pkg/.zpkg-binary.json" ∧
  normalized_archive_path demo_climbing = Some "a/pkg/.zpkg-binary.json" ∧
  normalized_archive_path " /../pkg/.zpkg-binary.json" = None ∧
  verify_publish demo_climbing_meta demo_climbing_zip = Ok None.
Proof.
  split_and!; [| |by vm_compute..];
    (exists [".zpkg-binary.json"; "pkg"]; split; [by vm_compute|apply Forall2_cons; split; [done|apply Forall2_cons; split; done]]).
Qed.

Lemma binary_verified_witness :
  ∃ archive, zip_open demo_zip = Ok archive ∧ ∀ f, f ∈ d_files demo_descriptor → genuine archive f.
Proof.
  destruct (binary_verified demo_files_fit demo_binary_meta demo_zip demo_descriptor demo_verifies)
    as (archive & Hz & _ & _ & _ & _ & _ & _ & Hg & _).
  exists archive. split; [exact Hz|exact Hg].
Defined.

Lemma archive_paths_portable_witness :
  ∃ archive e, zip_open demo_zip = Ok archive ∧ archive.(by_index) 2 = Ok e ∧ e.(is_symlink) = false.
Proof.
  destruct (archive_paths_portable demo_sizes demo_binary_meta demo_zip demo_descriptor demo_verifies)
    as (archive & Hz & H).
  assert (archive = demo_archive) as Ha by (injection Hz as Hz; exact (eq_sym Hz)).
  destruct (H 2%nat) as (e & He & _ & _ & Hs & _); [rewrite Ha; by vm_compute; lia|].
  exists archive, e. split; [exact Hz|]. split; [exact He|exact Hs].
Defined.
