(* ===== verification/PublishDemo.v ===== *)
(** * Publishing and key enrollment on concrete inputs

    A registry with one organization and one publisher token, a signed
    package, and the runs on which the theorems of [Routes], [Keys] and
    [PublishFacts] apply. *)

From S2P Require Export PublishFacts BinaryDemo.

(** A signature is its key's material followed by what it signs. *)
#[export] Instance demo_signing : SigningExternals := {|
  SIGNING_ALGORITHM := "ed25519";
  state_verifies := λ s, match s with Revoked => false | _ => true end;
  key_validate := λ _, None;
  public_key := λ k, Ok k.(pk_public_key_multibase);
  verifying_key := Some;
  signature_bytes := λ s, Ok s.(sig_value);
  verify_strict := λ v preimage bytes, bytes =s v +:+ preimage |}.

#[export] Instance demo_chain : AuditExternals := {|
  audit_chain_preimage := λ i,
    join "|" [in_org_id i; dec_of_Z (AuditTrail.in_seq i); in_at i; in_action i; in_subject i;
              in_actor_token_name i; in_actor_role i; in_prev_hash i];
  action_as_str := λ a,
    match a with
    | AuditTrail.Publish => "publish" | Yank => "yank" | Unyank => "unyank" | OrgClaim => "org_claim"
    end |}.

Definition demo_bytes : string := "the archive".
Definition demo_manifest : Manifest :=
  mk_manifest "acme" "kit" "1.0.0" (Some "a kit") "git" "https://github.com/acme/kit" "semver" ["tools"] [("acme/core", "^2")] [] JNull.
Definition demo_signature : DetachedSignature := mk_signature "k1" "ed25519" "z6key|acme/kit@1.0.0".
Definition demo_meta : PublishMeta :=
  mk_meta demo_manifest (demo_digest demo_bytes) (slen demo_bytes) "tar.gz" "v1.0.0" None None
    (JArr []) [demo_signature].

#[export] Instance demo_publish : PublishExternals := {|
  PUBLISH_META_FIELD := "meta";
  PUBLISH_ARTIFACT_FIELD := "artifact";
  parse_meta := λ s, if s =s "{}" then Ok demo_meta else Err "not a meta document";
  manifest_validate := λ _, None;
  content_type_of := λ _, "application/gzip";
  publish_binary := demo_binary;
  parse_rfc3339 := λ _, None;
  version_attestation_preimage := λ a,
    Ok ("|" +:+ at_org a +:+ "/" +:+ at_name a +:+ "@" +:+ at_version a);
  mirrors_to_value := Ok;
  signatures_to_value := λ _, Ok (JArr []);
  manifest_to_value := λ _, Ok JNull;
  adopt_machine_publish := λ _ _, Ok tt |}.

Definition demo_db : Db := mk_db
  [mk_org 1 "acme" 0 None] [] []
  [mk_token 7 "ci" (demo_digest "secret") (Some 1%N) "publisher" 0 None None;
   mk_token 8 "boss" (demo_digest "the owner's") (Some 1%N) "owner" 0 None None]
  [] [mk_key 5 1 "k1" "ed25519" "z6key" "active" None 0; mk_key 6 1 "k0" "ed25519" "z6old" "revoked" None 0].
Definition demo_registry : World := mk_world 0 demo_db None ∅.

Definition bearer (secret : string) : HeaderMap := λ name,
  if name =s "authorization" then [Some ("Bearer " +:+ secret)] else [].

Definition demo_state : AppState :=
  mk_state false true demo_store process_memory (mk_verifier Github None) "https://registry.test"
    [] "registry" 3 false None "" "" None.

Definition demo_parts : list Part :=
  [PartField (Some "meta") (Ok "{}"); PartField (Some "artifact") (Ok demo_bytes)].

Definition demo_run : ApiResult PublishResponse * World :=
  publish demo_state "acme" "kit" "1.0.0" (bearer "secret") demo_parts demo_registry.
Strategy expand [demo_run].

Lemma demo_formats text meta :
  parse_meta text = Ok meta → ends_with ".tmp" ("." +:+ meta.(meta_format)) = false.
Proof. cbn. destruct (_ =s _); [|done]. by intros [= <-]. Qed.

(** Nobody else writes. *)
Lemma demo_alone (K : Db → Db → Prop) `{!PreOrder K} : ∀ t d, K d (others_db t d).
Proof. by intros t d. Qed.

Example demo_published : demo_run.1 = Ok (mk_publish_response "acme" "kit" "1.0.0" (demo_digest demo_bytes)).
Proof. by vm_compute. Qed.

Lemma demo_versions : length (versions (db demo_run.2)) = 1%nat ∧ objects demo_run.2 ≠ ∅.
Proof.
  split; [by vm_compute|]. intros H.
  assert (is_some (objects demo_run.2 !! artifact_key (demo_digest demo_bytes) "tar.gz") = true) as Hc
    by (by vm_compute).
  by rewrite H, lookup_empty in Hc.
Qed.

Lemma publish_atomic_witness :
  publication demo_state "acme" "kit" "1.0.0" (bearer "secret") demo_parts demo_registry demo_run.1 demo_run.2.
Proof.
  destruct (publish_atomic demo_formats demo_state "acme" "kit" "1.0.0" (bearer "secret") demo_parts
    demo_registry demo_run.1 demo_run.2) as [(_ & H & _)|H];
    [done|apply surjective_pairing| |exact H].
  destruct (H _ demo_published).
Defined.

(** The retry of a publication is refused and changes no row. *)
Definition demo_again : ApiResult PublishResponse * World :=
  publish demo_state "acme" "kit" "1.0.0" (bearer "secret") demo_parts demo_run.2.

Lemma publish_immutable_witness :
  is_ok demo_again.1 = false ∧
  ∃ v, v ∈ versions (db demo_again.2) ∧ ver_sha256 v = demo_digest demo_bytes.
Proof.
  split; [by vm_compute|].
  destruct (publish_immutable demo_formats (demo_alone versions_kept) demo_state "acme" "kit" "1.0.0"
    (bearer "secret") demo_parts demo_run.2 demo_again.1 demo_again.2) as [[H _] _];
    [by vm_compute|apply surjective_pairing|].
  destruct (versions (db demo_run.2)) as [|v l] eqn:E; [by vm_compute in E|].
  assert (ver_sha256 v = demo_digest demo_bytes) as Hv by (vm_compute in E; by injection E as <- _).
  destruct (H v) as (v' & Hin & Hs); [by left|]. exists v'. split; [done|]. by rewrite Hs.
Defined.

Lemma publish_success_witness :
  ∃ pkg_id row, find_version_row pkg_id "1.0.0" (db demo_run.2) = Some row ∧
    row.(ver_sha256) = demo_digest demo_bytes.
Proof.
  destruct (publish_success demo_formats (demo_alone versions_kept) demo_state "acme" "kit" "1.0.0"
    (bearer "secret") demo_parts demo_registry
    (mk_publish_response "acme" "kit" "1.0.0" (demo_digest demo_bytes)) demo_run.2)
    as (_ & _ & m & a & _ & pkg_id & row & _ & Hr & _ & Hf & Hs & _).
  - done.
  - apply NoDup_nil_2.
  - rewrite <- demo_published. apply surjective_pairing.
  - exists pkg_id, row. split; [exact Hf|]. exact (eq_trans Hs (eq_sym (f_equal pr_sha256 Hr))).
Defined.

Lemma demo_rely t d : rows_from (λ _, False) d (others_db t d).
Proof. intros v Hv. right. by exists v. Qed.

Lemma publish_rows_backed_witness :
  ∃ u, u ∈ versions (db demo_run.2) ∧ (False ∨ backed demo_state u demo_run.2).
Proof.
  assert (∀ u, u ∈ versions (db demo_run.2) → False ∨ backed demo_state u demo_run.2) as H.
  { apply (publish_rows_backed demo_formats (λ _, False) (λ _ _ H _, H) demo_rely demo_state
      "acme" "kit" "1.0.0" (bearer "secret") demo_parts demo_registry demo_run.1 demo_run.2);
      [reflexivity|apply surjective_pairing|]. intros u Hu. destruct (not_elem_of_nil u Hu). }
  destruct (versions (db demo_run.2)) as [|v l] eqn:E; [by vm_compute in E|]. clear E.
  exists v. split; [left|apply H; left].
Defined.

Definition demo_open : World := set_txn (Some demo_db) demo_registry.
Definition demo_upsert : ApiResult PackageRow * World :=
  upsert_package (mk_org 1 "acme" 0 None) "kit" demo_meta demo_open.

Example new_package_sequence :
  match demo_upsert.1 with Ok pkg => pkg.(pkg_index_sequence) = 2 | Err _ => False end.
Proof. by vm_compute. Qed.

(** ** Keys *)

Definition demo_new_keys : list PublisherKey :=
  [mk_publisher_key "k1" "ed25519" "z6key" Retired None None;
   mk_publisher_key "k0" "ed25519" "z6old" Revoked None (Some "leaked");
   mk_publisher_key "k2" "ed25519" "z6new" Active None None].
Definition demo_put_keys (request : list PublisherKey) : ApiResult (list PublisherKey) * World :=
  put_keys "acme" (bearer "the owner's") request demo_registry.

Definition demo_enrolled : ApiResult (list PublisherKey) * World :=
  put_keys "acme" (bearer "the owner's") demo_new_keys demo_registry.
Strategy expand [demo_enrolled].

Lemma put_keys_keeps_material_witness :
  is_ok demo_enrolled.1 = true ∧
  material_kept demo_db (db demo_enrolled.2).
Proof.
  split; [by vm_compute|].
  apply (put_keys_keeps_material (demo_alone material_kept) "acme" (bearer "the owner's") demo_new_keys
    demo_registry demo_enrolled.1 demo_enrolled.2); [done|apply surjective_pairing].
Defined.

(** Another process, which revokes [k1] just before the call numbered [t0]. *)
Definition revoking (d : Db) : Db :=
  set_keys (List.map (λ r, if key_key_id r =s "k1" then key_with_state "revoked" None r else r)) d.

Definition racing_ext (t0 : nat) : Externals := {|
  digest_hex := demo_digest;
  uuid_display := dec_of_N;
  new_v4 := λ n, N.of_nat (100 + n);
  rfc3339 := dec_of_Z;
  utc_now := λ n, Z.of_nat n;
  db_outcome := λ _, Done;
  others_db := λ t d, if (t =? t0)%nat then revoking d else d;
  io_outcome := λ _, Done;
  others_objects := λ _ o, o |}.

Lemma revoking_keeps d :
  NoDup (key_row_id <$> keys d) → NoDup (key_row_id <$> keys (revoking d)) ∧ stay_revoked d (revoking d).
Proof.
  intros Hnd. split.
  - cbn. rewrite <- list_fmap_compose. erewrite list_fmap_ext; [exact Hnd|].
    intros i r _. cbn. by destruct (_ =s _).
  - intros r Hr Hv. eexists. split; [apply list_elem_of_In, in_map, list_elem_of_In, Hr|].
    destruct (_ =s _); by split_and!.
Qed.

Lemma racing_rely t0 t d :
  NoDup (key_row_id <$> keys d) →
  NoDup (key_row_id <$> keys (others_db (Externals := racing_ext t0) t d)) ∧
  stay_revoked d (others_db (Externals := racing_ext t0) t d).
Proof.
  intros H. cbn. destruct (_ =? _)%nat; [by apply revoking_keeps|].
  split; [done|]. intros r Hr Hv. by exists r.
Qed.

Definition demo_raced (t0 : nat) : ApiResult (list PublisherKey) * World :=
  put_keys (ext := racing_ext t0) "acme" (bearer "the owner's") demo_new_keys demo_registry.
Strategy expand [demo_raced].

Lemma put_keys_never_reinstates_witness :
  is_ok (demo_raced 2).1 = false ∧ is_ok (demo_raced 3).1 = true ∧
  stay_revoked demo_db (db (demo_raced 3).2).
Proof.
  do 2 (split; [by vm_compute|]).
  apply (put_keys_never_reinstates (ext := racing_ext 3) (racing_rely 3) "acme" (bearer "the owner's")
    demo_new_keys demo_registry (demo_raced 3).1 (demo_raced 3).2);
    [done|apply (bool_decide_unpack _); by vm_compute..|apply surjective_pairing].
Defined.

(** The same key, submitted as active. *)
Definition reactivated (k : PublisherKey) : PublisherKey :=
  mk_publisher_key k.(pk_key_id) k.(pk_algorithm) k.(pk_public_key_multibase) Active
    k.(pk_enrolled_at) None.

Lemma find_own_key (l m : list PublisherKey) k :
  NoDup (pk_key_id <$> l) → k ∈ l →
  List.find (λ c, pk_key_id c =s pk_key_id k) (l ++ m) = Some k.
Proof.
  induction l as [|x l IH]; [by intros _ ?%not_elem_of_nil|].
  cbn. intros [Hx Hl]%NoDup_cons [->|Hk]%elem_of_cons; [by rewrite String.eqb_refl|].
  destruct (String.eqb_spec (pk_key_id x) (pk_key_id k)) as [Hid|]; [|by apply IH].
  exfalso. apply Hx. rewrite Hid. by apply list_elem_of_fmap_2.
Qed.

Lemma unchanged_passes existing m l :
  NoDup (pk_key_id <$> existing) → (∀ k, k ∈ l → k ∈ existing) →
  check_transitions (existing ++ m) l = Ok tt.
Proof.
  intros Hnd. induction l as [|k l IH]; intros Hl; [done|]. cbn [check_transitions].
  unfold check_transition. rewrite find_own_key by (done || apply Hl; by left).
  rewrite String.eqb_refl. cbn. rewrite andb_negb_r. cbn. apply IH. intros x Hx. apply Hl. by right.
Qed.

(** Revocation is not final for submissions with duplicates. The
    transition check looks at the first submitted key with an enrolled id, so
    any enrolled set followed by a second, active mention of one of its keys
    passes it, revoked or not; and the keys are then written in order, so that
    on a registry whose key [k0] is revoked such a submission answers, and
    leaves, [k0] active. *)
Theorem put_keys_duplicate_reinstates :
  (∀ existing k, NoDup (pk_key_id <$> existing) → k ∈ existing →
     check_transitions (existing ++ [reactivated k]) existing = Ok tt) ∧
  map (λ k, (pk_key_id k, pk_state k)) (stored_keys 1 demo_db) = [("k1", Active); ("k0", Revoked)] ∧
  (let request := (stored_keys 1 demo_db ++ map reactivated (stored_keys 1 demo_db))%list in
   is_ok (demo_put_keys request).1 = true ∧
   map (λ k, (pk_key_id k, pk_state k)) (stored_keys 1 (db (demo_put_keys request).2))
   = [("k1", Active); ("k0", Active)]).
Proof.
  split; [intros existing k Hnd _; by apply unchanged_passes|].
  split; [by vm_compute|]. cbn zeta. split; by vm_compute.
Qed.

(** A revocation that arrives while a submission is being checked is lost. The
    keys the submission is compared with are read before its transaction
    begins, and the transaction does not look again: when another process
    revokes [k1] in between, the submission that keeps [k1] retired succeeds and
    writes that over the revocation. A moment earlier it is refused. *)
Theorem put_keys_race_reinstates :
  (demo_raced 2).1 = Err (conflict "key_unrevoke" "key `k1` is revoked and cannot be reinstated") ∧
  map (λ k, (pk_key_id k, pk_state k)) (stored_keys 1 (revoking demo_db)) = [("k1", Revoked); ("k0", Revoked)] ∧
  is_ok (demo_raced 3).1 = true ∧
  map (λ k, (pk_key_id k, pk_state k)) (stored_keys 1 (db (demo_raced 3).2))
  = [("k1", Retired); ("k0", Revoked); ("k2", Active)].
Proof. split_and!; by vm_compute. Qed.

(** ** Budgets *)

Lemma artifact_serve_concurrency_bounded_witness :
  artifact_serve_concurrency (Some "1000") 300 * 300 ≤ 1000.
Proof.
  destruct (artifact_serve_concurrency_bounded (Some "1000") 300 1000) as (_ & H & _);
    [lia|by vm_compute|lia|]. exact H.
Defined.
