(* ===== verification/GraphDemo.v ===== *)
(** * Graph reads on concrete inputs

    Executable instances of the interface crate's part and of the canonical
    reads, and the witnesses of the export and graph theorems. *)

From S2P Require Export GraphFacts GraphExports PublishDemo.

#[export] Instance demo_graph : GraphExternals := {|
  DEPENDENCY_GRAPH_SCHEMA_V1 := "zpkg/dependency-graph/v1";
  DEPENDENCY_GRAPH_DEFAULT_MAX_NODES := 100;
  DEPENDENCY_GRAPH_DEFAULT_MAX_EDGES := 200;
  MAX_ENCODED_BYTES := 4096;
  DEPENDENCY_GRAPH_DIGEST_HEADER := "zpkg-graph-digest";
  DEPENDENCY_GRAPH_AUTHORITATIVE_HEADER := "zpkg-graph-authoritative";
  media_type := λ f,
    match f with
    | FJson => "application/vnd.zpkg.graph+json; version=1"
    | FYaml => "application/vnd.zpkg.graph+yaml; version=1"
    | FToml => "application/vnd.zpkg.graph+toml; version=1"
    | FDot => "text/vnd.graphviz"
    | FMermaid => "text/vnd.mermaid"
    end;
  extension := λ f,
    match f with FJson => "json" | FYaml => "yaml" | FToml => "toml" | FDot => "dot" | FMermaid => "mmd" end;
  is_authoritative := λ f, bool_decide (f = FJson);
  identity_to_string := λ i, id_org i +:+ "/" +:+ id_name i +:+ "@" +:+ id_version i;
  finalize := λ d, Ok (mk_document d.(doc_schema) d.(doc_graph) (Some "d1"));
  canonical_document_bytes := λ _, Ok "{}";
  manifest_from_value := λ _, Ok demo_manifest;
  scheme_validate_version := λ _ _, Ok tt;
  json_string := λ s, String "034" (s +:+ String "034" "") |}.

#[export] Instance demo_exports : ExportExternals := {|
  export_parse_name := λ s, if s =s "csv" then Some XCsv else None;
  export_media_type := λ _, "text/csv";
  export_extension := λ _, "csv";
  export_is_authoritative := λ _, false;
  verify_digest := λ _, Ok tt |}.

Definition demo_package_of (visibility : string) : CanonicalPackage :=
  mk_canonical_package 40 30 None visibility "kit" None "git" "https://github.com/acme/kit" None (JArr [])
    (JObj []) (JNum "0") (JNum "1") (JStr "1.0.0") JNull (JStr "t0") (JStr "t0").

(** A private package of organization 1, whose members are the holders of its
    tokens. *)
Definition demo_package : CanonicalPackage := demo_package_of "private".
Definition demo_canonical_org : CanonicalOrg := mk_canonical_org 30 "acme" "Acme" None (JObj []).

#[export] Instance demo_canonical : CanonicalReads := {|
  package_by_org_and_name := λ _ _ _, Ok (Some (demo_package, demo_canonical_org));
  package_version_by_package_and_version := λ _ _ _, Ok (Some JNull);
  packages_for_artifact_sha256 := λ _ _, Ok [demo_package];
  user_by_subject := λ _ _ _, Ok None;
  org_role_for_user := λ _ _ _, Ok None;
  project_role_for_user := λ _ _ _, Ok None |}.

(** [demo_state], with the canonical plane configured. *)
Definition demo_reading : AppState :=
  mk_state true true demo_store process_memory (mk_verifier Github None) "https://registry.test"
    [] "registry" 3 false None "" "" None.

Definition demo_identity (name version : string) : PackageVersionIdentity :=
  mk_identity "registry" "acme" name version.

(** A resolved graph of two nodes, one of them named by a spreadsheet
    formula. *)
Definition demo_document : GraphDocument :=
  mk_document "zpkg/dependency-graph/v1"
    (Resolved Complete [demo_identity "kit" "1.0.0"]
       [mk_node (demo_identity "kit" "1.0.0") (Some "a1") ["tls"]; mk_node (demo_identity "=core()" "2.1.0") None []]
       [mk_edge (demo_identity "kit" "1.0.0") (demo_identity "=core()" "2.1.0") Runtime (Some "^2") None false []]
       (mk_provenance "1" "x86_64" ["tls"] [mk_snapshot "registry" "c0"] "l0") None
       (Some (mk_projection None ["tls"] [Runtime; Build] (Some 3))))
    (Some "d1").

(** ** Encodings *)

Lemma proto_varint_terminates_witness :
  proto_varint_fuel 10 u64_max = proto_varint u64_max ∧ slen (proto_varint u64_max) = 10.
Proof.
  destruct (proto_varint_terminates 10 u64_max "" ltac:(unfold u64_max; lia) ltac:(lia)) as [H _].
  split; [exact H|by vm_compute].
Defined.

Lemma protobuf_roundtrip_witness :
  read_protobuf (encode_protobuf demo_document) = Some demo_document ∧
  slen (encode_protobuf demo_document) = 265.
Proof.
  split; [|by vm_compute]. apply (protobuf_roundtrip demo_document). split; [done|]. cbn. repeat split; try done; lia.
Defined.

Definition demo_value : json :=
  JObj [("graph", JArr [JBool true; JNull; JNum "-129"; JStr "kit"]); ("", JNum "18446744073709551615")].
Definition demo_packed : string := match messagepack_value demo_value with Ok s => s | Err _ => "" end.

Lemma messagepack_roundtrip_witness :
  read_messagepack (demo_packed +:+ "rest") = Some (demo_value, "rest") ∧ slen demo_packed = 27.
Proof. split; [apply (messagepack_roundtrip demo_value demo_packed "rest"); by vm_compute|by vm_compute]. Defined.

Definition demo_csv : string := match encode_csv demo_document with Ok s => s | Err _ => "" end.

(** The fourth record's package has an apostrophe in front of its name. *)
Lemma csv_export_reads_back_witness :
  ∃ header rows, read_table demo_csv = Some (header :: rows) ∧ length rows = 4%nat ∧
    Forall2 (shows header) (graph_records demo_document) rows ∧
    (rows ≫= λ row, filter (λ cell, first_is (λ c, c =c "'") cell = true) row) = ["'=core()"; "'=core()"].
Proof.
  assert (encode_csv demo_document = Ok demo_csv) as Hc by (by vm_compute).
  destruct (csv_export_reads_back demo_document demo_csv Hc) as (_ & header & rows & H & _ & _ & Hr & _).
  exists header, rows. split; [exact H|]. vm_compute in H. injection H as <- <-. split; [done|]. split; [exact Hr|by vm_compute].
Defined.

Lemma xml_escaped_lossless_witness :
  ∃ text, xml_escaped "<a & 'b'>" true "" = Ok text ∧ unescape text = Some "<a & 'b'>".
Proof.
  destruct (xml_escaped "<a & 'b'>" true "") as [out|] eqn:E; [|by vm_compute in E].
  destruct (xml_escaped_lossless "<a & 'b'>" true "" out E) as (text & Ht & Hu & _).
  exists text. split; [by rewrite Ht|exact Hu].
Defined.

(** ** Access *)

Definition demo_authorize (headers : HeaderMap) : ApiResult GraphAccess * World :=
  authorize_declared_graph demo_reading headers "acme" demo_package demo_canonical_org demo_registry.

Lemma declared_graph_authorization_witness :
  (demo_authorize (bearer "secret")).1 = Ok AccessPrivate ∧
  is_some (bearer_token (bearer "secret")) = true ∧
  (demo_authorize (λ _, [])).1 = Err graph_not_found.
Proof.
  assert ((demo_authorize (bearer "secret")).1 = Ok AccessPrivate) as Ha by (by vm_compute).
  split; [exact Ha|]. split; [|by vm_compute].
  pose proof (declared_graph_authorization demo_reading (bearer "secret") "acme" demo_package
    demo_canonical_org demo_registry (demo_authorize (bearer "secret")).1 (demo_authorize (bearer "secret")).2
    eq_refl (surjective_pairing _)) as H.
  rewrite Ha in H. exact (proj1 (proj2 H)).
Defined.

Lemma graph_response_spec_witness :
  ∃ resp body, respond (λ _, []) FDot demo_document "acme_kit_1.0.0" AccessPrivate = Ok resp ∧
    GraphText.encode demo_document FDot = Ok body ∧ slen body ≤ 4096.
Proof.
  assert (header_laws) as Hl.
  { split; [by intros v v' [= ->]|]. split; [|split; [|done]]; by apply (bool_decide_unpack _). }
  destruct (respond (λ _, []) FDot demo_document "acme_kit_1.0.0" AccessPrivate) as [resp|] eqn:E;
    [|by vm_compute in E].
  destruct (graph_response_spec (λ _, []) demo_document "acme_kit_1.0.0" AccessPrivate Hl) as [H _].
  destruct (H FDot resp E) as (body & digest & Hb & Hs & _). exists resp, body. by split.
Defined.
