(* ===== verification/RegistryDemo.v ===== *)
(** * Registry requests on concrete inputs

    A claim, a publication, a yank and an index upload on the registry of
    [PublishDemo]. *)

From S2P Require Export ClaimPool Registry PublishDemo.

#[export] Instance demo_reg : RegistryExternals := {|
  sort_desc := reverse;
  format_from_value := λ s, if s =s "tar.gz" then Some "tar.gz" else None;
  default_format := "tar.gz";
  decode_mirrors := Some;
  decode_signatures := Some;
  default_set := JArr [];
  artifact_path := λ sha, "/artifacts/" +:+ sha;
  DEPENDENCY_GRAPH_DEFAULT_MAX_ENCODED_BYTES := 4194304 |}.

#[export] Instance demo_orgs : OrgExternals := {|
  is_slug := λ s, negb (is_empty s) && sall is_ascii_alphanumeric s;
  is_postgres := true;
  hashtext := slen;
  fiducia_grants := λ _ _, true |}.

Definition demo_index : SignedIndex :=
  mk_signed_index "zpkg/signed-index/v1" (mk_index_attestation "acme" "kit" 5 [("1.0.0", false)] (JArr []))
    [mk_signature "k1" "ed25519" "z6key|index"].

#[export] Instance demo_packages : PackageExternals := {|
  vcs_or_default := λ s, s;
  scheme_lenient := λ s, s;
  SIGNED_INDEX_SCHEMA_V1 := "zpkg/signed-index/v1";
  signed_index_from_value := λ _, None;
  signed_index_to_value := λ _, Ok (JStr "stored");
  index_validate := λ _, Ok tt;
  index_preimage := λ _, Ok "|index" |}.

(** *** Claims *)

Definition demo_claim (slug : string) (w : World) : ApiResult ClaimOrgResponse * World :=
  claim_org demo_state (bearer "secret") slug w.
Definition demo_claimed : ApiResult ClaimOrgResponse * World := demo_claim "tools" demo_registry.

Lemma claim_org_exclusive_witness :
  demo_claimed.1 = Ok (mk_claim_response "tools" true) ∧
  ∃ org, org ∈ orgs (db demo_claimed.2) ∧ org.(org_slug) = "tools".
Proof.
  assert (demo_claimed.1 = Ok (mk_claim_response "tools" true)) as Hr by (by vm_compute).
  split; [exact Hr|].
  destruct (claim_org_exclusive demo_state (bearer "secret") "tools" demo_registry demo_claimed.1 demo_claimed.2
    (demo_alone namespaces_kept) eq_refl (surjective_pairing _)) as [_ H].
  destruct (H _ Hr) as (_ & token & org & _ & _ & Hin & Hs & _). exists org. split; [exact Hin|exact Hs].
Defined.

Strategy expand [demo_claim demo_claimed].

(** A token with two namespaces, where the limit is three, claims two more at
    once. *)
Definition demo_two : World := (demo_claim "b" (demo_claim "a" demo_registry).2).2.
Definition demo_pool : Pool := mk_pool (db demo_two) ∅ ∅.
Definition demo_ci : TokenRow := mk_token 7 "ci" (demo_digest "secret") (Some 1%N) "publisher" 0 None None.

(** The first takes the lock, counts and inserts; the second waits. *)
Definition demo_schedule : list Turn :=
  [Begins 0 demo_ci "c"; Begins 1 demo_ci "d"; Locks 0; Answered 0; Draws 0 501 5; Answered 0; Commits 0;
   Locks 1; Answered 1; Ends 1].
Definition demo_settled : Pool := default demo_pool (take_turns demo_state demo_schedule demo_pool).

(** Both count before either inserts: not with the lock. *)
Definition demo_overlap : list Turn :=
  [Answered 0; Answered 1; Draws 0 501 5; Draws 1 502 5; Answered 0; Answered 1; Commits 0; Commits 1].
Definition demo_begun : list Turn := [Begins 0 demo_ci "c"; Begins 1 demo_ci "d"].

Lemma claim_org_quota_witness :
  claims 7 (db demo_two) = 2 ∧ claims 7 demo_settled.(committed) = 3 ∧
  claims 7 demo_settled.(committed) ≤ Z.max 2 3 ∧
  take_turns demo_state (demo_begun ++ [Locks 0; Locks 1]) demo_pool = None.
Proof.
  split; [by vm_compute|]. split; [by vm_compute|]. split; [|by vm_compute].
  apply (claim_org_quota (oext := demo_orgs) demo_state (λ token, is_some token.(tok_org_id) = true) 7 eq_refl (λ _ H _, H)
    demo_pool demo_settled eq_refl).
  apply (take_turns_sound _ _ demo_schedule); [repeat constructor|].
  assert (is_some (take_turns demo_state demo_schedule demo_pool) = true) as H by (by vm_compute).
  unfold demo_settled. by destruct (take_turns demo_state demo_schedule demo_pool).
Defined.

(** Where the backend is not PostgreSQL the claims take no lock; were there two
    at once, the quota would not hold. *)
Definition demo_unlocked : OrgExternals := {|
  is_slug := λ s, negb (is_empty s);
  is_postgres := false;
  hashtext := slen;
  fiducia_grants := λ _ _, true |}.

Theorem quota_needs_lock :
  claims 7 (db demo_two) = 2 ∧ max_orgs_per_token demo_state = 3 ∧
  (λ p, claims 7 p.(committed)) <$>
    take_turns (oext := demo_unlocked) demo_state (demo_begun ++ demo_overlap) demo_pool = Some 4.
Proof. by vm_compute. Qed.

(** *** Yanking a published version *)

Definition demo_yank : ApiResult YankResponse * World :=
  yank "acme" "kit" "1.0.0" (bearer "secret") true demo_run.2.

Lemma yank_spec_witness :
  demo_yank.1 = Ok (mk_yank_response "acme" "kit" "1.0.0" true) ∧
  objects demo_yank.2 = objects demo_run.2 ∧ map ver_yanked (versions (db demo_yank.2)) = [true].
Proof.
  split; [by vm_compute|]. split; [|by vm_compute].
  apply (yank_spec "acme" "kit" "1.0.0" (bearer "secret") true demo_run.2 demo_yank.1 demo_yank.2);
    [by vm_compute|apply surjective_pairing].
Defined.

(** *** Uploading an index *)

Definition demo_upload : ApiResult SignedIndex * World :=
  put_signed_index "acme" "kit" (bearer "secret") demo_index demo_run.2.

Lemma put_signed_index_spec_witness :
  demo_upload.1 = Ok demo_index ∧
  ∃ d, background (db demo_run.2) d ∧
    index_step (db demo_run.2) "acme" "kit" (bearer "secret") demo_index d (db demo_upload.2).
Proof.
  assert (demo_upload.1 = Ok demo_index) as Hr by (by vm_compute). split; [exact Hr|].
  destruct (put_signed_index_spec "acme" "kit" (bearer "secret") demo_index demo_run.2 demo_upload.1 demo_upload.2
    (surjective_pairing _)) as (_ & _ & [[_ [e He]]|(d & Hb & Hs & _)]).
  - rewrite Hr in He. discriminate He.
  - exists d. split; [exact Hb|exact Hs].
Defined.

(** *** A history *)

Definition demo_requests : list Request :=
  [ClaimOrg (bearer "secret") "tools"; PublishVersion "acme" "kit" "1.0.0" (bearer "secret") demo_parts;
   YankVersion "acme" "kit" "1.0.0" (bearer "secret") true; PutKeys "acme" (bearer "the owner's") demo_new_keys;
   PutIndex "acme" "kit" (bearer "secret") demo_index].
Definition demo_history : World := fold_left (λ w r, serve demo_state r w) demo_requests demo_registry.
Strategy expand [demo_history].

Lemma demo_history_steps : rtc (step demo_state) demo_registry demo_history.
Proof.
  unfold demo_history. generalize demo_requests as l, demo_registry as w. induction l as [|r l IH]; intros w; [done|].
  eapply rtc_l; [apply (step_serve demo_state r w)|]. apply IH.
Qed.

Lemma registry_stays_well_formed_witness :
  well_formed demo_db ∧ well_formed (db demo_history) ∧
  length (orgs (db demo_history)) = 2%nat ∧ length (versions (db demo_history)) = 1%nat.
Proof.
  assert (well_formed demo_db) as Hw.
  { split; try (apply (bool_decide_unpack _); by vm_compute); cbn; intros x Hx; destruct (not_elem_of_nil x Hx). }
  split; [exact Hw|]. split; [|split; by vm_compute].
  destruct (registry_stays_well_formed (demo_alone evolves) demo_state demo_registry demo_history
    demo_history_steps eq_refl Hw) as (_ & H & _). exact H.
Defined.
