(* ===== verification/ServeDemo.v ===== *)
(** * Serving, listing and limiting on concrete inputs

    What [PublishDemo] published, served, searched, audited and rate limited:
    the witnesses of the reading side. *)

From S2P Require Export Catalog AuditRoutes Artifacts StorageRoutes RateLimitLiveness RegistryDemo GraphDemo.

(** The rows of a query come as the table has them. *)
#[export] Instance demo_catalog : CatalogExternals := {| row_order := λ _ l, l |}.

#[export] Instance demo_audit_routes : AuditRouteExternals := {|
  action_parse := λ s, if s =s "publish" then Some AuditTrail.Publish else None |}.

(** A decompressor that copies, and an archive of one file that is the whole
    of it. *)
#[export] Instance demo_files : FilesExternals := {|
  ARCHIVE_ROOT := "pkg";
  Gz := string;
  gz_new := λ s, s;
  gz_read := cursor_read;
  tar_archive := TarRead 512 (λ x,
    match x with
    | Ok s => TarEntry (Ok "pkg/README.md") (slen s) (BodyChunk s BodyEnd) TarEnd
    | Err e => TarFail e
    end);
  zip_by_name := λ _ _, Err FileNotFound;
  format_of_extension := λ _, TarGz |}.

Lemma substring_length n m s : (String.length (substring n m s) ≤ m)%nat.
Proof.
  revert n m. induction s as [|c s IH]; intros [|n] [|m]; cbn; try lia; [|apply IH|apply IH].
  specialize (IH 0%nat m). lia.
Qed.

Lemma demo_gz_contract g n s g' : gz_read g n = (Ok s, g') → slen s ≤ Z.max 0 n.
Proof. cbn. unfold cursor_read, slen. intros [= <- _]. pose proof (substring_length 0 (Z.to_nat n) g). lia. Qed.

(** ** Files *)

Lemma extract_file_bounded_witness :
  extract_file None "read me" TarGz "README.md" = Ok (Some "read me") ∧ slen "read me" ≤ MAX_SERVED_FILE_BYTES.
Proof.
  assert (extract_file None "read me" TarGz "README.md" = Ok (Some "read me")) as H by (by vm_compute).
  split; [exact H|].
  exact (proj1 (extract_file_bounded demo_gz_contract None "read me" TarGz "README.md") "read me" H).
Defined.

(** ** Artifacts *)

Definition demo_published_world : World := demo_run.2.
Definition demo_artifact_sha : string := demo_digest demo_bytes.

Strategy expand [demo_published_world].

Definition backedb (st : AppState) (v : VersionRow) (w : World) : bool :=
  negb (ends_with ".tmp" (place st.(store) v.(ver_artifact_key))) &&
  match objects w !! place st.(store) v.(ver_artifact_key) with
  | Some x => (digest_hex x.(o_bytes) =s v.(ver_sha256)) && (wrap_i64 (slen x.(o_bytes)) =? v.(ver_size))
  | None => false
  end.

Lemma backedb_sound st v w : backedb st v w = true → backed st v w.
Proof.
  unfold backedb. intros H. apply andb_prop in H as [H1 H2]. split; [by apply negb_true_iff in H1|].
  destruct (objects w !! _) as [x|]; [|done]. exists x. split; [done|]. apply andb_prop in H2 as [H2 H3].
  split; [by apply String.eqb_eq|by apply Z.eqb_eq].
Qed.

Lemma demo_backed v : v ∈ versions (db demo_published_world) → backed demo_reading v demo_published_world.
Proof.
  intros Hv. apply backedb_sound.
  assert (forallb (λ v, backedb demo_reading v demo_published_world) (versions (db demo_published_world)) = true) as H
    by (by vm_compute).
  rewrite forallb_forall in H. by apply H, list_elem_of_In.
Qed.

(** The canonical package, made public. *)
Definition demo_public : CanonicalReads := {|
  package_by_org_and_name := λ _ _ _, Ok (Some (demo_package, demo_canonical_org));
  package_version_by_package_and_version := λ _ _ _, Ok (Some JNull);
  Canonical.packages_for_artifact_sha256 := λ _ _, Ok [demo_package_of "public"];
  user_by_subject := λ _ _ _, Ok None;
  org_role_for_user := λ _ _ _, Ok None;
  project_role_for_user := λ _ _ _, Ok None |}.

Definition demo_artifact : ApiResult ArtifactResponse * World :=
  get_artifact (can := demo_public) demo_reading (λ _, []) demo_artifact_sha demo_published_world.
Definition demo_artifact_body : ArtifactResponse :=
  match demo_artifact.1 with Ok a => a | Err _ => mk_artifact_response 0 [] "" end.
Strategy expand [demo_artifact].

Lemma get_artifact_genuine_witness :
  demo_artifact_body.(ar_status) = 302 ∧
  ∃ key x, rh_get demo_artifact_body.(ar_headers) "location" = Some ("https://bucket/" +:+ key) ∧
    objects demo_published_world !! key = Some x ∧ digest_hex x.(o_bytes) = demo_artifact_sha.
Proof.
  assert (demo_artifact.1 = Ok demo_artifact_body) as Hr by (by vm_compute).
  assert (demo_artifact_body.(ar_status) = 302) as Hs by (by vm_compute). split; [exact Hs|].
  destruct (get_artifact_genuine (can := demo_public) (demo_alone no_new_versions) demo_reading (λ _, [])
    demo_artifact_sha demo_published_world demo_artifact_body demo_artifact.2 demo_backed)
    as (_ & [(H & _)|(_ & bucket & t & key & url & x & _ & Hu & Hl & Hx & Hd)]).
  - rewrite <- Hr. apply surjective_pairing.
  - rewrite Hs in H. discriminate H.
  - exists key, x. injection Hu as Hu. rewrite Hl, <- Hu. split; [reflexivity|]. split; [exact Hx|exact Hd].
Defined.

Definition demo_file : ApiResult ArtifactResponse * World :=
  get_file demo_reading None false "acme" "kit" "1.0.0" "README.md" demo_published_world.
Definition demo_file_body : ArtifactResponse :=
  match demo_file.1 with Ok a => a | Err _ => mk_artifact_response 0 [] "" end.
Strategy expand [demo_file].

Lemma get_file_genuine_witness :
  demo_file.1 = Ok demo_file_body ∧ demo_file_body.(ar_headers) = served_file_headers "README.md".
Proof.
  assert (demo_file.1 = Ok demo_file_body) as Hr by (by vm_compute). split; [exact Hr|].
  destruct (get_file_genuine (demo_alone no_new_versions) demo_reading None false "acme" "kit" "1.0.0" "README.md"
    demo_published_world demo_file_body demo_file.2 demo_backed)
    as (_ & _ & _ & _ & _ & _ & _ & _ & _ & _ & _ & H).
  - rewrite <- Hr. apply surjective_pairing.
  - exact H.
Defined.

(** What a published version's rows and bytes are. *)
Lemma demo_rows :
  ∃ org pkg row x,
    find_org_by_slug "acme" (db demo_published_world) = Some org ∧
    find_package_by_name org.(org_id) "kit" (db demo_published_world) = Some pkg ∧
    find_version_row pkg.(pkg_id) "1.0.0" (db demo_published_world) = Some row ∧
    row.(ver_sha256) = demo_artifact_sha ∧ row.(ver_format) = "tar.gz" ∧
    objects demo_published_world !! place demo_store row.(ver_artifact_key) = Some x ∧ x.(o_bytes) = demo_bytes.
Proof. do 4 eexists. split_and!; vm_compute; reflexivity. Qed.

(** The canonical plane of the demonstration has one package with these bytes,
    and it is private. *)
Lemma private_files_served_anonymously_witness :
  demo_package.(cp_visibility) = "private" ∧
  (∃ e w', get_artifact demo_reading (λ _, []) demo_artifact_sha demo_published_world = (Err e, w') ∧ status e = 401) ∧
  (∃ w', get_file demo_reading None false "acme" "kit" "1.0.0" "README.md" demo_published_world
    = (Ok (mk_artifact_response 200 (served_file_headers "README.md") demo_bytes), w')).
Proof.
  split; [reflexivity|]. destruct demo_rows as (org & pkg & row & x & Ho & Hp & Hv & Hs & Hf & Hx & Hb). rewrite <- Hs.
  assert (∀ t, db_outcome t = Done) as Hd by reflexivity. assert (∀ t d, others_db t d = d) as Ha by reflexivity.
  apply (private_files_served_anonymously Hd Ha demo_reading (λ _, []) None "acme" "kit"
    "1.0.0" "README.md" org pkg row x demo_bytes demo_published_world Ho Hp Hv Hx).
  - rewrite Hb. vm_compute. discriminate.
  - rewrite Hb, Hf. vm_compute. reflexivity.
  - reflexivity.
  - intros t. exists [demo_package]. split; [reflexivity|]. intros [[=]|(p & Hin & Hpub)].
    apply list_elem_of_singleton in Hin as ->. discriminate Hpub.
  - reflexivity.
Defined.

(** ** The catalogue *)

Definition demo_search : ApiResult SearchResponse * World := search "kit" None demo_published_world.
Definition demo_found : SearchResponse := match demo_search.1 with Ok r => r | Err _ => mk_search "" [] end.
Strategy expand [demo_search].

Lemma search_spec_witness :
  map ps_name demo_found.(sr_items) = ["kit"] ∧
  ∃ d rows, background (db demo_published_world) d ∧ Forall2 (summarizes d) rows demo_found.(sr_items).
Proof.
  assert (demo_search.1 = Ok demo_found) as Hr by (by vm_compute). split; [by vm_compute|].
  destruct (search_spec "kit" None demo_published_world demo_found demo_search.2) as (_ & d & rows & Hb & Hf & _).
  - reflexivity.
  - rewrite <- Hr. apply surjective_pairing.
  - exists d, rows. split; [exact Hb|exact Hf].
Defined.

Definition demo_page : ApiResult PackageListResponse * World :=
  list_packages (mk_list_params None 1 0) demo_published_world.
Definition demo_listed : PackageListResponse := match demo_page.1 with Ok r => r | Err _ => mk_list [] 0 end.
Strategy expand [demo_page].

Lemma list_pages_cover_witness :
  demo_listed.(pl_total) = 1 ∧
  map (λ i, (i.(ps_org), i.(ps_name))) (concat (map (λ _, pl_items demo_listed) (seq 0 1))) = [("acme", "kit")].
Proof.
  assert (demo_page.1 = Ok demo_listed) as Hr by (by vm_compute).
  assert (∀ t d, same_catalog d (others_db t d)) as Hsame by (intros t d; by split).
  assert (∀ t l, row_order t l = row_order 0 l) as Hord by reflexivity.
  assert (∀ t l, row_order t l ≡ₚ l) as Hperm by reflexivity.
  destruct (list_pages_cover (db demo_published_world) None 1 (λ _, demo_listed) 1 0%nat Hsame Hord Hperm) as [H1 H2].
  - intros k Hk. exists demo_published_world, demo_page.2. split; [reflexivity|].
    destruct k as [|k]; [|exfalso; lia]. rewrite <- Hr. apply surjective_pairing.
  - by vm_compute.
  - split; [rewrite (H2 0%nat ltac:(lia)); by vm_compute|]. etrans; [exact H1|by vm_compute].
Defined.

(** ** The audit trail *)

Definition demo_log (before : option Z) : list AuditRow :=
  audit_page 1%N (mk_audit_query (Some 1) None before) (db demo_history).

Lemma audit_pages_continue_witness :
  map aud_seq (demo_log None) = [2] ∧ map aud_seq (demo_log (Some 2)) = [1].
Proof.
  destruct (audit_pages_continue 1%N (Some 1) None (db demo_history)) as (_ & _ & _ & H0 & H).
  - apply (bool_decide_unpack _). by vm_compute.
  - split; [unfold demo_log; rewrite H0; by vm_compute|].
    destruct (latest_first (audit_selected 1%N None None (db demo_history)) !! 0%nat) as [r|] eqn:E; [|by vm_compute in E].
    specialize (H 0%nat r E). assert (r.(aud_seq) = 2) as Hs by (by vm_compute in E; injection E as <-).
    rewrite Hs in H. unfold demo_log. rewrite H. by vm_compute.
Defined.

Definition demo_audit : ApiResult AuditLogResponse * World :=
  get_audit_log "acme" (mk_audit_query None None None) (bearer "the owner's") demo_history.
Strategy expand [demo_audit].

Lemma audit_log_owner_only_witness :
  is_ok demo_audit.1 = true ∧ txn demo_audit.2 = txn demo_history.
Proof.
  split; [by vm_compute|].
  exact (proj1 (audit_log_owner_only "acme" (mk_audit_query None None None) (bearer "the owner's") demo_history
    demo_audit.1 demo_audit.2 (surjective_pairing _))).
Defined.

Definition demo_checked : ApiResult AuditIntegrityResponse * World :=
  verify_audit_log "acme" (bearer "the owner's") demo_history.
Definition demo_integrity : AuditIntegrityResponse :=
  match demo_checked.1 with Ok r => r | Err _ => mk_integrity "" false 0 None None None end.
Strategy expand [demo_checked].

Lemma verify_audit_log_spec_witness :
  demo_integrity.(ai_intact) = true ∧ demo_integrity.(ai_entries_checked) = 2 ∧
  demo_integrity.(ai_entries_checked) ≤ MAX_VERIFY_ROWS.
Proof.
  assert (demo_checked.1 = Ok demo_integrity) as Hr by (by vm_compute).
  split; [by vm_compute|]. split; [by vm_compute|].
  destruct (verify_audit_log_spec "acme" (bearer "the owner's") demo_history demo_checked.1 demo_checked.2
    (surjective_pairing _)) as (_ & _ & _ & H).
  destruct (H demo_integrity Hr) as (_ & _ & _ & _ & _ & _ & _ & _ & Hn). exact Hn.
Defined.

(** ** Rate limiting *)

(** Two requests back to back, then one token every two seconds. *)
Definition demo_limiter : RateLimiter := from_env (Some "2") (Some (Finite (1 # 2))) 0.

Definition demo_traffic : list Event :=
  [Checked "a" 0; Checked "a" 1; Checked "b" 1; Checked "a" 500000000; Swept 600000000; Checked "a" 2000000000].
Definition demo_limited : option (list RateDecision * RateLimiter) := run_limiter demo_limiter demo_traffic.
Definition demo_decisions : list RateDecision := match demo_limited with Some (ds, _) => ds | None => [] end.

Lemma demo_limiter_wf : wf_limiter demo_limiter.
Proof. apply new_wf. by split. Qed.

Lemma demo_times : Forall (λ e, 0 ≤ event_time e < CLOCK_END) demo_traffic.
Proof. apply (bool_decide_unpack _). by vm_compute. Qed.

Lemma limiter_bounded_witness :
  wf_limiter demo_limiter ∧ wf_limiter (sweep demo_limiter 5).
Proof. split; [exact demo_limiter_wf|]. apply (limiter_bounded demo_limiter demo_limiter_wf). by split. Defined.

Lemma forgetting_unobservable_witness :
  demo_decisions = [Allow; Allow; Allow; Deny 2; Allow] ∧
  ∃ ds, explained demo_limiter demo_traffic ds.
Proof.
  split; [by vm_compute|].
  destruct (forgetting_unobservable demo_limiter demo_traffic demo_limiter_wf demo_times) as (ds & _ & _ & H).
  exists ds. exact H.
Defined.

Lemma throughput_bounded_witness :
  (let_through "a" demo_traffic demo_decisions == 3)%Q ∧
  ∃ self', demo_limited = Some (demo_decisions, self') ∧
    (let_through "a" demo_traffic demo_decisions <= demo_limiter.(burst)
      + demo_limiter.(per_second) * (inject_Z (self'.(clock) - demo_limiter.(clock)) / 1000000000) * (1 + pow2 (-50))
      + inject_Z (Z.of_nat 6) * (demo_limiter.(burst) * pow2 (-49)))%Q.
Proof.
  split; [by vm_compute|].
  destruct demo_limited as [[ds self']|] eqn:E; [|by vm_compute in E].
  assert (demo_decisions = ds) as Hd by (unfold demo_decisions; by rewrite E).
  exists self'. rewrite Hd. split; [reflexivity|].
  exact (throughput_bounded "a" demo_traffic demo_limiter ds self' demo_limiter_wf demo_times E).
Defined.

(** *** Waiting *)

Definition demo_known : RateLimiter := match check demo_limiter 0 "a" with Some (_, l) => l | None => demo_limiter end.
Definition demo_bucket : Bucket := default (mk_bucket 1 0) (demo_known.(buckets) !! "a").
Definition demo_others : list Event := [Checked "b" 1; Swept 2; Checked "b" 3].
Definition demo_meanwhile : option (list RateDecision * RateLimiter) := run_limiter demo_known demo_others.

Lemma demo_known_wf : wf_limiter demo_known.
Proof.
  destruct (check_keeps demo_limiter 0 "a" demo_limiter_wf ltac:(by split)) as (d & l & E & W & _).
  unfold demo_known. by rewrite E.
Qed.

Lemma waiting_is_rewarded_witness :
  ∃ ds self', demo_meanwhile = Some (ds, self') ∧
    ∃ d self'', check self' 2000000000 "a" = Some (d, self'') ∧
      (d = Allow ∨ (self'.(buckets) !! "a" = None ∧ demo_known.(max_buckets) ≤ size_of self''.(buckets))).
Proof.
  destruct demo_meanwhile as [[ds self']|] eqn:E; [|by vm_compute in E].
  exists ds, self'. split; [reflexivity|].
  apply (waiting_is_rewarded "a" demo_others demo_known ds self' demo_bucket 2 2000000000 demo_known_wf).
  - apply (bool_decide_unpack _). by vm_compute.
  - exact E.
  - by repeat constructor.
  - vm_compute. reflexivity.
  - done.
  - by vm_compute.
  - replace self' with (match demo_meanwhile with Some (_, l) => l | None => demo_known end) by (by rewrite E).
    split; vm_compute; [discriminate|reflexivity].
  - vm_compute. discriminate.
Defined.
