(* ===== verification/SemanticDemo.v ===== *)
(** * Semantic search on concrete inputs

    An embedding written and found on the registry of [PublishDemo]. *)

From S2P Require Import RegistryDemo Semantic.

#[local] Instance demo_semantic : SemanticExternals := {|
  f32_display := dec_of_Z;
  cosine_distance := λ a b, Z.abs (slen a - slen b);
  db_error_text := λ _, "database";
  others_embeddings := λ _ l, l;
  index_scan := λ _ l, l |}.

(** The bits of 1.0. *)
Definition demo_vector : list Z := [1065353216].

Definition demo_upserted : ApiResult json * (World * Embeddings) :=
  upsert_embedding "acme" "kit" (bearer "secret") (mk_upsert_request "bge-small" demo_vector "a kit") (demo_run.2, []).

Lemma upsert_embedding_spec_witness :
  is_ok demo_upserted.1 = true ∧ embedding_key <$> demo_upserted.2.2 ≠ [] ∧ sees demo_run.2 demo_upserted.2.1.
Proof.
  split; [by vm_compute|]. split; [by vm_compute|].
  apply (upsert_embedding_spec "acme" "kit" (bearer "secret") (mk_upsert_request "bge-small" demo_vector "a kit")
    demo_run.2 [] demo_upserted.1 demo_upserted.2.1 demo_upserted.2.2).
  change (upsert_embedding _ _ _ _ _) with demo_upserted. by destruct demo_upserted as [? []].
Defined.

Definition demo_query : SemanticSearchRequest := mk_semantic_request "bge-small" demo_vector [] 5.
Definition demo_answer : ApiResult (list SemanticHit) * (World * Embeddings) := semantic_search demo_query demo_upserted.2.
Definition demo_hits : list SemanticHit := match demo_answer.1 with Ok h => h | Err _ => [] end.

Lemma semantic_search_spec_witness :
  map sh_name demo_hits = ["kit"] ∧ StronglySorted (λ a b, sh_distance a ≤ sh_distance b) demo_hits.
Proof.
  assert (demo_answer.1 = Ok demo_hits) as Hr by (by vm_compute). split; [by vm_compute|].
  destruct (semantic_search_spec demo_query demo_upserted.2.1 demo_upserted.2.2 demo_hits demo_answer.2.1 demo_answer.2.2)
    as (_ & _ & _ & _ & H & _).
  - intros t l. reflexivity.
  - rewrite <- Hr. unfold demo_answer. destruct demo_upserted as [? [w t]]. cbn [fst snd].
    by destruct (semantic_search _ _) as [? []].
  - exact H.
Defined.
